(* ===== verification/_CoqProject ===== *)
-Q . S2P
Prelude.v
Headers.v
Message.v
Config.v
Errors.v
Payload.v
Decoder.v
DecoderThms.v
Encoder.v
EncoderThms.v
HeaderValues.v
HeaderSafety.v
H1Codec.v
WsMask.v
WsProto.v
WsFrame.v
WsCodec.v
Body.v
Response.v
WsHandshake.v
WsHandshakeWorld.v
Control.v
HttpService.v
HttpServiceThms.v
Dispatcher.v
DispatcherThms.v
DispatcherLive.v
DispatcherTimers.v
DispatcherWorld.v
ClientPool.v
ClientPoolThms.v
ClientProxy.v
ClientExchange.v
ClientExchangeThms.v
ClientExchangeWorld.v
ClientRequest.v
ClientRequestThms.v
ClientResponse.v
ClientResponseThms.v
Encoding.v
EncodingThms.v
FfiAbi.v
FfiResponder.v
FfiResponderThms.v
FfiClient.v
FfiAbiThms.v
FfiClientInv.v
FfiClientThms.v
FfiClientWorld.v
FfiConnect.v
FfiConnectThms.v
NativeServer.v
NativeServerThms.v
NativeReplies.v
NativeServerWorld.v
WsTransport.v
WsTransportThms.v
HyperRt.v
HyperRtThms.v
BodyConv.v
FfiServer.v
FfiServerThms.v
FfiServerWorld.v
Serde.v
WsConnect.v
WsConnectWorld.v
HttpMessage.v
NativeStart.v
