(* ===== verification/Prelude.v ===== *)
(** * geario-http: a verification library

    The repository is an HTTP/1 server and client with WebSocket support
    ([src/geario-http]), and a C interface to both ([src/geario-http-ffi]).  This
    library models the protocol core of [src/geario-http/src]: everything between
    the bytes of a connection and the application's services, on the server and on
    the client, the adapters of [hyper_rt/], and the C interface's client, server,
    native server and response tickets.  File names below without a directory are under
    [src/geario-http/src].

    ** The program

    A server connection is run by the dispatcher ([h1/dispatcher.rs]).  It asks
    the codec ([h1/codec.rs]) for a request; the codec runs the message decoder
    and then, for the body, the payload decoder ([h1/decoder.rs]).  The request
    goes to the control service ([h1/control.rs]) and to the publish service;
    the response head and its body ([types/body.rs]) go through the encoder
    ([h1/encoder.rs]) back to the io.  Heads live in an object pool
    ([message.rs]), headers in a multimap ([types/map.rs], [types/value.rs]),
    settings, keep-alive, shutdown and the cached date in [config.rs].  A client
    builds a request ([client/request.rs]), takes a connection from its pool
    ([client/pool.rs]), writes the request and reads the response
    ([client/h1proto.rs]) through [client/codec.rs], which is built from the same
    decoder and encoder, and loads the body ([client/response.rs]); a coded body goes
    through [encoding/].  The client of the C interface ([client/mod.rs] of
    [src/geario-http-ffi/src]) has a pool, a worker and connections of its own
    ([client/connect.rs] there), over hyper.  After
    an upgrade, WebSocket messages go through [ws/codec.rs], [ws/frame.rs] and
    [ws/mask.rs]; the handshake key is hashed by [ws/proto.rs], and [ws/transport.rs]
    carries a byte stream in messages.

    ** The files

    - [Prelude]: this file; Rust's results and polls, panics as the type
      [outcome] with its monad, machine widths, the tactics and generic lemmas.
    - [Headers]: [types/value.rs], [types/map.rs].  Modules [ValueOps],
      [HeaderMapOps] (one definition for each operation), [HeaderMapThms].
    - [Message]: [message.rs].  Heads, flags, Module [MessagePool].
    - [Config]: [config.rs].  Settings, Module [DispatcherConfig] (connections in
      flight and shutdown), the date cache.
    - [Errors]: [error.rs], the errors of [h1/mod.rs].
    - [Payload]: [PayloadDecoder] of [h1/decoder.rs], with its theorems.
    - [Decoder], [DecoderThms]: [MessageDecoder] of [h1/decoder.rs].
    - [Encoder], [EncoderThms]: [h1/encoder.rs].
    - [HeaderValues]: the rest of [types/value.rs], conversions, order, hash and text.
      [HeaderSafety]: which values a header map can hold, from safe code and from
      the decoder, and what a reader makes of a head that is written.
    - [H1Codec]: [h1/codec.rs] and [client/codec.rs], decoder and encoder put
      together, with the connection state between a request and its response.
    - [WsMask], [WsProto], [WsFrame], [WsCodec]: the files of [ws/] so named.
    - [WsTransport], [WsTransportThms]: [ws/transport.rs], [ws/sink.rs].
    - [Body]: [types/body.rs], the trait as the class [MessageBody].  [BodyConv]: its
      conversions, boxes and pages.
    - [HyperRt], [HyperRtThms]: [hyper_rt/transport.rs], [hyper_rt/timer.rs],
      [hyper_rt/serve.rs].
    - [Response]: [response.rs], the default of [ResponseError].
    - [WsHandshake], [WsHandshakeWorld]: [ws/handshake.rs], [ws/cfg.rs], and what
      [ws/client.rs] sends and checks; a handshake run from bytes to bytes.
      [WsConnect], [WsConnectWorld]: the rest of [ws/client.rs], connecting and
      receiving, and the errors of [ws/error.rs].
    - [Serde]: [types/serde.rs].
    - [HttpMessage]: [httpmessage.rs], [request.rs], [payload.rs].
    - [Control]: [h1/control.rs] and the services of [h1/default.rs].
    - [HttpService], [HttpServiceThms]: [h1/service.rs] and [service.rs], the futures
      of a connection's call and of the shutdown; the dispatcher is one of their
      awaits.
    - [Dispatcher]: [h1/dispatcher.rs]; a state monad over the dispatcher's fields, the world and
      a log.  [DispatcherThms] has the specification automaton and the
      refinement, [DispatcherLive] the end of the loops, [DispatcherTimers] the
      timers and the errors, [DispatcherWorld] a concrete world in which the
      server runs from bytes to bytes.
    - [ClientPool], [ClientPoolThms]: [client/pool.rs].
    - [ClientProxy]: [client/proxy.rs].
    - [ClientExchange]: [client/h1proto.rs], [client/sender.rs],
      [client/connection.rs], [client/connector.rs] and [client/error.rs]; a request
      and its response on one connection.  [ClientExchangeThms], with the laws of
      the io, and [ClientExchangeWorld], an io that obeys them.
    - [ClientRequest], [ClientRequestThms]: [client/cfg.rs], [client/request.rs],
      [client/service.rs] and the start of a request in [client/mod.rs].
    - [ClientResponse], [ClientResponseThms]: [client/response.rs].
    - [Encoding], [EncodingThms]: [encoding/encoder.rs], [encoding/decoder.rs] and the
      [ContentEncoding] of [types/header.rs].
    - [FfiAbi], [FfiAbiThms]: the structs of [abi.rs] and [client/mod.rs] in
      [src/geario-http-ffi/src], as the bytes a host allocated.
    - [FfiResponder], [FfiResponderThms]: [responder.rs] and the answering half of
      [server.rs] in [src/geario-http-ffi/src]; the tables of all threads and the
      mailboxes in one state, the host's calls and the workers' turns as events.
    - [FfiServer], [FfiServerThms]: the rest of [server.rs] there, the future of a
      request over those tickets, its body and the server's thread;
      [FfiServerWorld] has the runs.
    - [FfiClient]: [client/mod.rs] and [client/pool.rs] there; the host's calls and
      the steps of the worker's tasks as events.  [FfiClientInv] has the
      invariant, [FfiClientThms] the theorems, [FfiClientWorld] their runs.
    - [FfiConnect], [FfiConnectThms]: [client/connect.rs] there.
    - [NativeServer]: [native_server.rs] there; the slots, channels and futures in one
      state, every access to shared memory a step.  [NativeServerThms] has the
      account of the references, [NativeReplies] the headers, [NativeServerWorld]
      the runs.  [NativeStart]: its start and stop.

    A definition has the name of the function it models, in snake case as in the
    source, with a prefix where two types have a method of that name
    ([codec_decode], [client_decode], [ws_decode]).

    ** What the theorems show

    - Requests arrive as they were sent: the decoder's framing of a request is
      the one its headers ask for, whatever was decoded before; a body in any
      segments is decoded to its data exactly, with the bytes after it left
      alone, and a truncated body never ends; the limits on a head hold on every
      path; decoding always returns.
    - Responses leave as they should: status and length lines are exact with
      their buffers bounds-checked, the framing lines agree with the encoding of
      the body that follows, chunked bodies round-trip through the decoder, a
      length is never exceeded, HEAD has no body.
    - The connection: the dispatcher refines an automaton that reads, asks,
      publishes and answers one request after the other, it answers every
      request once and nothing after a disconnect, no round panics or runs for
      ever, timers are bounded.
    - Heads: no value of a header can add a line or a field to the head that is
      written, wherever it comes from; a serialized header map comes back, and what
      is deserialized is as safe as what is built; a log shows no secret value.
    - The client: the pool's account, its limit by authority, the state of a
      connection that is used again, and that no wake-up of a waiter is lost; a
      connection of an exchange is given back exactly once, and for reuse only when it
      is quiet; the request goes out whole, the response comes in exactly, and
      what a body that is cut off looks like; what the builder makes of a
      request; the body readers' result, limit and deadline; a coded body arrives as
      it was.
    - WebSocket: a client and a server agree on the handshake, unless the settings
      take back what it needs, masking is RFC 6455's, hashing is FIPS 180-4's SHA-1,
      frames and whole conversations within the peer's limits round-trip,
      fragmentation follows its automaton; a transport at both ends is a
      byte stream, its loop ends, and it closes once; a connection the client gives
      out was upgraded, and its receiver gets every frame and the reason of the end.
    - The C interface: a request is answered once in every interleaving of the
      host's threads, by its own ticket alone, what a host on another thread does
      reaches the worker, and then hyper, as it was done, a host is handed a request
      once, whole and within the limit, or not at all, a server starts and stops,
      every entry point's status on every branch, header lines round-trip.  Its client calls back in order, sends a request no more often
      than it may, does not mix connections, accounts for its slots and loses no
      resume; a connection is opened through the tunnel and TLS without ever
      falling back.  Its native server reaches no freed slot as long as the host
      keeps to one answer, gives a request its own answer, and hands it over whole.
    - The adapters: hyper reads the connection's bytes once and in order, writes
      them so, is woken when it waits, and gets the protocol the stream begins with.
    - The services: which connections are in flight, and that a shutdown which waits
      for them goes on when the last has ended and not before; the header map refines
      a multimap.
    - Where the code does something else than it means to, a theorem says what:
      two different Content-Length headers around an Upgrade header, a decoder
      that is gone after an error in the first line, a body written after a 204,
      a request read out of the rest of a body, a second head inside a failed
      body, control frames above 125 bytes, a handshake key
      that is too long, a pool without a limit, an HTTP/1.0 response that is cut
      off, the second values of copied headers, slots of refused requests, structs
      that are read past their end, a decoder that goes on after an error, a
      second answer that reads a freed slot, a ticket's number that comes round, a
      connection that is left behind and blocks the shutdown.

    ** Conventions

    A byte and a machine integer are [Z]; the wrap-around or the check of the
    width is written where the source computes it.  A panic is [Panic], a loop
    that was cut off [NoFuel], both values of [outcome], so that "does not panic"
    and "returns" are statements.  Fuel: the payload loop is given
    [2 * length src + 3] ([loop_fuel]), since every round consumes a byte or ends
    and one state is passed without; header lines one more than the length of the
    input; a round of the dispatcher [round_fuel], which is computed from what
    the world has ready ([WorldProgress]); a stream the number of chunks it has
    ready.  That these are enough is proved ([decode_total], [round_returns],
    [streamed_body_whole], and for the payload within the framing theorems); the
    client's loops are given "fuel that is enough" by their theorems, which say
    that there is such a number and that every larger one gives the same.

    Code outside the repository is a class with laws: httparse's parsers
    ([Parsers], [ChunkSizeParser]), the conversions of the http crate, the
    encoder of base64, the io, the timers and the channels of geario and the
    application's services ([World]), the client's io ([ClientIo]), flate2's
    coders ([ContentEncoder], [ContentDecoder]), the http crate's header value
    ([HttpValue]), the io, TLS and HTTP libraries of the C interface's client
    ([ConnectIo]), the io below hyper ([TransportIo]), geario's pages
    ([BytePages]) and http_body_util's bodies ([BodyUtil]).  Each has a concrete instance the examples run with
    ([RefParsers], [RefChunkSize], [RefWorld], [ScriptStream], [RefIo], [RefCoding],
    [RefHttp], [RefConnect], [RefTransportIo], [page_list], [RefFull]).  The URL
    parser, serde's formats, the mime and encoding_rs crates, hyper's servers and the
    time are arguments.
    The iteration order of a hash map is a parameter.

    ** Not modelled

    - [client/builder.rs], [client/test.rs], the query and the cookies of
      [client/request.rs], the extensions, the cookies and the peer's address of a
      message: accessors and service glue.
    - The builders of [service.rs] and [h1/service.rs] that put factories together.
    - [hyper_rt/executor.rs], one call of the runtime.
    - Display texts, the Debug texts but for those of a header value and of a request,
      examples and
      benchmarks. *)
From Stdlib Require Export ZArith Lia.
From stdpp Require Export base list gmap strings numbers.
Export list_basics.list list_relations.list list_monad.list list_misc.list list_numbers.list.

Open Scope Z_scope.

Create HintDb geario.

(** * Rust's basic result types *)

(** [core::task::Poll] *)
Inductive Poll (A : Type) : Type :=
| Ready (a : A)
| Pending.
Arguments Ready {A} a.
Arguments Pending {A}.

(** [core::result::Result] *)
Inductive result (A E : Type) : Type :=
| Ok (a : A)
| Err (e : E).
Arguments Ok {A E} a.
Arguments Err {A E} e.

(** The outcome of code that may panic (an index out of range, an [unwrap] of
    [None], an arithmetic overflow in a checked build); [NoFuel] is a model's
    loop that was cut off. *)
Inductive outcome (A : Type) : Type :=
| Val (a : A)
| Panic
| NoFuel.
Arguments Val {A} a.
Arguments Panic {A}.
Arguments NoFuel {A}.

(** Sequencing of computations that may panic: [x ← e; k]. *)
#[export] Instance outcome_ret : MRet outcome := fun A x => Val x.
#[export] Instance outcome_bind : MBind outcome := fun A B f x =>
  match x with Val a => f a | Panic => Panic | NoFuel => NoFuel end.

Definition is_ok {A E} (r : result A E) : bool :=
  match r with Ok _ => true | Err _ => false end.

(** * Bytes *)

(** A byte is an integer in [0, 256); a buffer is a list of bytes. *)
Definition is_byte (x : Z) : bool := (0 <=? x) && (x <? 256).
Definition wf_bytes (l : list Z) : Prop := Forall (fun x => 0 <= x < 256) l.

(** The bytes of an ASCII literal. *)
Definition bs (s : string) : list Z :=
  (fun c => Z.of_N (Ascii.N_of_ascii c)) <$> String.list_ascii_of_string s.

Definition CR : Z := 13.
Definition LF : Z := 10.
Definition CRLF : list Z := [CR; LF].

(** [str::parse] of an unsigned integer below [bound]: an optional plus, then
    digits. *)
Definition digit (b : Z) : option Z := if (48 <=? b) && (b <=? 57) then Some (b - 48) else None.
Fixpoint parse_digits (bound : Z) (l : list Z) (acc : Z) : option Z :=
  match l with
  | [] => Some acc
  | b :: l =>
      d ← digit b;
      let acc := acc * 10 + d in if acc <? bound then parse_digits bound l acc else None
  end.
Definition parse_uint (bound : Z) (l : list Z) : option Z :=
  match l with
  | [] => None
  | b :: l' =>
      let l := if b =? 43 then l' else l in
      match l with [] => None | _ => parse_digits bound l 0 end
  end.

(** [usize] length of a buffer. *)
Definition zlen {A} (l : list A) : Z := Z.of_nat (length l).
Definition ztake {A} (n : Z) (l : list A) : list A := take (Z.to_nat n) l.
Definition zdrop {A} (n : Z) (l : list A) : list A := drop (Z.to_nat n) l.

(** * Machine integers *)
Definition u8 (x : Z) : Z := x mod 2 ^ 8.
Definition u16 (x : Z) : Z := x mod 2 ^ 16.
Definition u32 (x : Z) : Z := x mod 2 ^ 32.
Definition u64 (x : Z) : Z := x mod 2 ^ 64.

(** * bitflags *)
Module Flag.
Definition contains (f x : Z) : bool := Z.land f x =? x.
Definition insert (f x : Z) : Z := Z.lor f x.
Definition remove (f x : Z) : Z := Z.ldiff f x.
Definition set (f x : Z) (b : bool) : Z := if b then insert f x else remove f x.

Lemma contains_insert_eq f x : contains (insert f x) x = true.
Proof.
  unfold contains, insert. apply Z.eqb_eq. apply Z.bits_inj'. intros n _.
  rewrite Z.land_spec, Z.lor_spec. by destruct (Z.testbit f n), (Z.testbit x n).
Qed.

Lemma contains_insert_ne f x y :
  Z.land x y = 0 -> contains (insert f x) y = contains f y.
Proof.
  intros Hxy. unfold contains, insert. f_equal.
  apply Z.bits_inj'. intros n _. rewrite !Z.land_spec, Z.lor_spec.
  apply (f_equal (fun z => Z.testbit z n)) in Hxy.
  rewrite Z.land_spec, Z.bits_0 in Hxy.
  by destruct (Z.testbit f n), (Z.testbit x n), (Z.testbit y n).
Qed.

Lemma contains_remove_ne f x y :
  Z.land x y = 0 -> contains (remove f x) y = contains f y.
Proof.
  intros Hxy. unfold contains, remove. f_equal.
  apply Z.bits_inj'. intros n _. rewrite !Z.land_spec, Z.ldiff_spec.
  apply (f_equal (fun z => Z.testbit z n)) in Hxy.
  rewrite Z.land_spec, Z.bits_0 in Hxy.
  by destruct (Z.testbit f n), (Z.testbit x n), (Z.testbit y n).
Qed.

(** Removing a set of flags that meets [y] clears [y]. *)
Lemma contains_remove_meet f x y :
  Z.land x y <> 0 -> contains (remove f x) y = false.
Proof.
  intros Hxy. unfold contains, remove. apply Z.eqb_neq. intros Heq. apply Hxy.
  apply Z.bits_inj'. intros n _.
  apply (f_equal (fun z => Z.testbit z n)) in Heq.
  rewrite Z.land_spec, Z.ldiff_spec in Heq. rewrite Z.land_spec, Z.bits_0.
  by destruct (Z.testbit f n), (Z.testbit x n), (Z.testbit y n).
Qed.

(** Inserting a superset of [y] sets [y]. *)
Lemma contains_insert_sub f x y :
  Z.land x y = y -> contains (insert f x) y = true.
Proof.
  intros Hxy. unfold contains, insert. apply Z.eqb_eq.
  apply Z.bits_inj'. intros n _. rewrite Z.land_spec, Z.lor_spec.
  apply (f_equal (fun z => Z.testbit z n)) in Hxy. rewrite Z.land_spec in Hxy.
  by destruct (Z.testbit f n), (Z.testbit x n), (Z.testbit y n).
Qed.

Lemma contains_0 y : y <> 0 -> contains 0 y = false.
Proof. intros. unfold contains. rewrite Z.land_0_l. apply Z.eqb_neq. congruence. Qed.

Lemma contains_set_eq f x b : x <> 0 -> contains (set f x b) x = b.
Proof.
  intros Hx. destruct b; simpl.
  - apply contains_insert_eq.
  - apply contains_remove_meet. by rewrite Z.land_diag.
Qed.

Lemma contains_set_ne f x y b :
  Z.land x y = 0 -> contains (set f x b) y = contains f y.
Proof.
  intros. destruct b; simpl; auto using contains_insert_ne, contains_remove_ne.
Qed.
End Flag.

(** Simplify the flags of a goal; the flag constants are closed, so the side
    conditions compute. *)
Ltac flag_side := first [ reflexivity | discriminate | (vm_compute; congruence) ].
Ltac flags_in H :=
  repeat first
    [ rewrite Flag.contains_insert_eq in H
    | rewrite Flag.contains_insert_sub in H by flag_side
    | rewrite Flag.contains_insert_ne in H by flag_side
    | rewrite Flag.contains_set_eq in H by flag_side
    | rewrite Flag.contains_set_ne in H by flag_side
    | rewrite Flag.contains_remove_ne in H by flag_side
    | rewrite Flag.contains_remove_meet in H by flag_side
    | rewrite Flag.contains_0 in H by flag_side ].
Ltac flags :=
  repeat first
    [ rewrite Flag.contains_insert_eq
    | rewrite Flag.contains_insert_sub by flag_side
    | rewrite Flag.contains_insert_ne by flag_side
    | rewrite Flag.contains_set_eq by flag_side
    | rewrite Flag.contains_set_ne by flag_side
    | rewrite Flag.contains_remove_ne by flag_side
    | rewrite Flag.contains_remove_meet by flag_side
    | rewrite Flag.contains_0 by flag_side ].

(** Decide the boolean comparisons of the context with [lia]. *)
Ltac zbool :=
  repeat match goal with
  | H : (_ && _) = true |- _ => apply andb_true_iff in H as [? ?]
  | H : (_ =? _) = true |- _ => apply Z.eqb_eq in H
  | H : (_ =? _) = false |- _ => apply Z.eqb_neq in H
  | H : (_ <? _) = true |- _ => apply Z.ltb_lt in H
  | H : (_ <? _) = false |- _ => apply Z.ltb_ge in H
  | H : (_ <=? _) = true |- _ => apply Z.leb_le in H
  | H : (_ <=? _) = false |- _ => apply Z.leb_gt in H
  end.
Ltac zcase := case_match; zbool.

(** * Lists *)
Section Lists.
Context {A : Type}.
Implicit Types l k : list A.

Lemma zlen_app l k : zlen (l ++ k) = zlen l + zlen k.
Proof. unfold zlen. rewrite length_app. lia. Qed.
Lemma zlen_nil : zlen (@nil A) = 0.
Proof. done. Qed.
Lemma zlen_cons x l : zlen (x :: l) = 1 + zlen l.
Proof. unfold zlen. simpl. lia. Qed.
Lemma zlen_nonneg l : 0 <= zlen l.
Proof. unfold zlen. lia. Qed.
Lemma zlen_0 l : zlen l = 0 <-> l = [].
Proof. unfold zlen. destruct l; simpl; split; intros; try done; lia. Qed.
Lemma zlen_pos l : l <> [] <-> 0 < zlen l.
Proof. unfold zlen. destruct l; simpl; split; intros; try done; lia. Qed.

Lemma ztake_app_exact l k : ztake (zlen l) (l ++ k) = l.
Proof. unfold ztake, zlen. rewrite Nat2Z.id. apply take_app_length. Qed.
Lemma zdrop_app_exact l k : zdrop (zlen l) (l ++ k) = k.
Proof. unfold zdrop, zlen. rewrite Nat2Z.id. apply drop_app_length. Qed.
Lemma ztake_zdrop n l : ztake n l ++ zdrop n l = l.
Proof. apply take_drop. Qed.
Lemma zlen_ztake n l : 0 <= n <= zlen l -> zlen (ztake n l) = n.
Proof. unfold zlen, ztake. rewrite length_take. lia. Qed.
Lemma zlen_zdrop n l : 0 <= n <= zlen l -> zlen (zdrop n l) = zlen l - n.
Proof. unfold zlen, zdrop. rewrite length_drop. lia. Qed.
Lemma ztake_all n l : zlen l <= n -> ztake n l = l.
Proof. unfold zlen, ztake. intros. apply take_ge. lia. Qed.
Lemma zdrop_0 l : zdrop 0 l = l.
Proof. done. Qed.
Lemma ztake_app_le n l k : n <= zlen l -> ztake n (l ++ k) = ztake n l.
Proof. unfold zlen, ztake. intros. apply take_app_le. lia. Qed.
Lemma zdrop_app_le n l k : n <= zlen l -> zdrop n (l ++ k) = zdrop n l ++ k.
Proof. unfold zlen, zdrop. intros. apply drop_app_le. lia. Qed.
Lemma zdrop_all n l : zlen l <= n -> zdrop n l = [].
Proof. unfold zlen, zdrop. intros. apply drop_ge. lia. Qed.
End Lists.

Create Rewrite HintDb len.
#[export] Hint Rewrite @zlen_app @zlen_nil @zlen_cons @length_app @length_take @length_drop : len.
#[export] Hint Resolve zlen_nonneg : geario.

Ltac len := autorewrite with len in *.
