(* ===== verification/Headers.v ===== *)
(** * Header values and the header multimap

    [HeaderValue] is [types/value.rs], [HeaderMap] is [types/map.rs].  A header
    name ([http::HeaderName], which the http crate keeps in lower case) is its
    byte string; the conversion of a string to a name is a parameter of the
    operations that take one ([AsName] with [Either::Right]). *)
From S2P Require Import Prelude.

Abbreviation HeaderName := (list Z).

(** The header constants of the http crate the code matches on. *)
Definition CONNECTION : HeaderName := bs "connection".
Definition CONTENT_LENGTH : HeaderName := bs "content-length".
Definition TRANSFER_ENCODING : HeaderName := bs "transfer-encoding".
Definition UPGRADE : HeaderName := bs "upgrade".
Definition EXPECT : HeaderName := bs "expect".
Definition DATE : HeaderName := bs "date".
Definition HOST : HeaderName := bs "host".
Definition SEC_WEBSOCKET_VERSION : HeaderName := bs "sec-websocket-version".
Definition SEC_WEBSOCKET_KEY : HeaderName := bs "sec-websocket-key".
Definition SEC_WEBSOCKET_ACCEPT : HeaderName := bs "sec-websocket-accept".

Definition is_visible_ascii (b : Z) : bool :=
  ((32 <=? b) && (b <? 127)) || (b =? 9).

Definition is_valid (b : Z) : bool :=
  ((32 <=? b) && negb (b =? 127)) || (b =? 9).

Record HeaderValue := mkHeaderValue { hv_inner : list Z; hv_is_sensitive : bool }.

#[export] Instance HeaderValue_eq_dec : EqDecision HeaderValue.
Proof. solve_decision. Defined.

Inductive InvalidHeaderValue := InvalidHeaderValue_.
Inductive ToStrError := ToStrError_.

Definition from_shared (src : list Z) : result HeaderValue InvalidHeaderValue :=
  if forallb is_valid src then Ok (mkHeaderValue src false) else Err InvalidHeaderValue_.

Definition try_from_generic (src : list Z) : result HeaderValue InvalidHeaderValue :=
  if forallb is_valid src then Ok (mkHeaderValue src false) else Err InvalidHeaderValue_.

(** [HeaderValue::from_static] panics (an index into an empty array) on a byte
    that is not visible ASCII. *)
Definition from_static (src : list Z) : outcome HeaderValue :=
  if forallb is_visible_ascii src then Val (mkHeaderValue src false) else Panic.

Definition from_shared_unchecked (src : list Z) : HeaderValue := mkHeaderValue src false.

Definition to_str (v : HeaderValue) : result (list Z) ToStrError :=
  if forallb is_visible_ascii (hv_inner v) then Ok (hv_inner v) else Err ToStrError_.

(** ** [map.rs]: values *)

Inductive Value :=
| One (v : HeaderValue)
| Multi (vec : list HeaderValue).

Module ValueOps.
(** [&val[0]] panics on an empty deque. *)
Definition get (v : Value) : outcome HeaderValue :=
  match v with
  | One val => Val val
  | Multi (x :: _) => Val x
  | Multi [] => Panic
  end.

(** Writing through the reference [get_mut] returns. *)
Definition get_mut (v : Value) (f : HeaderValue -> HeaderValue) : outcome Value :=
  match v with
  | One val => Val (One (f val))
  | Multi (x :: l) => Val (Multi (f x :: l))
  | Multi [] => Panic
  end.

(** [Value::append]: a single value first becomes a one-element deque, then
    the new value is pushed at its back. *)
Definition append (self : Value) (val : HeaderValue) : Value :=
  match self with
  | One prev_val => Multi ([prev_val] ++ [val])
  | Multi vec => Multi (vec ++ [val])
  end.

Definition extend (self : Value) (iter : list HeaderValue) : Value :=
  fold_left append iter self.

(** [ValueIntoIter::next]: the item and the iterator's remaining value. *)
Definition into_iter_next (value : Value) : option HeaderValue * Value :=
  match value with
  | One val => (Some val, Multi [])
  | Multi [] => (None, Multi [])
  | Multi (x :: vec) => (Some x, Multi vec)
  end.

Definition from_iter (iter : list HeaderValue) : Value :=
  match iter with
  | [] => One (mkHeaderValue [] false)
  | v :: rest => extend (One v) rest
  end.

(** The values a [Value] stands for, in the order they were added. *)
Definition to_list (v : Value) : list HeaderValue :=
  match v with One x => [x] | Multi l => l end.

(** The representation invariant of [Value]: a deque is never empty. *)
Definition wf (v : Value) : Prop := to_list v <> [].

Lemma to_list_append v x : to_list (append v x) = to_list v ++ [x].
Proof. by destruct v. Qed.

Lemma value_wf_append v x : wf (append v x).
Proof. unfold wf. rewrite to_list_append. by destruct (to_list v). Qed.

Lemma to_list_extend l v : to_list (extend v l) = to_list v ++ l.
Proof.
  revert v. induction l as [|x l IH]; intros v; simpl; [by rewrite app_nil_r|].
  unfold extend in *. simpl. rewrite IH, to_list_append. by rewrite <- app_assoc.
Qed.

Lemma value_wf_extend l v : wf v -> wf (extend v l).
Proof. unfold wf. rewrite to_list_extend. by destruct (to_list v). Qed.

Lemma value_get_wf v : wf v -> exists x, get v = Val x /\ head (to_list v) = Some x.
Proof. destruct v as [x|[|x l]]; unfold wf; simpl; intros H; [eauto|done|eauto]. Qed.
End ValueOps.

(** Draining an iterator that returns [next] items until it yields [None]. *)
Fixpoint drain {S A} (next : S -> option A * S) (fuel : nat) (s : S) : list A :=
  match fuel with
  | O => []
  | Datatypes.S n => match next s with
                     | (Some a, s') => a :: drain next n s'
                     | (None, _) => []
                     end
  end.

(** ** [map.rs]: the multimap *)

Abbreviation HeaderMap := (gmap (list Z) Value).

(** What an operation that takes [impl AsName] is given. *)
Inductive AsName :=
| NameLeft (name : HeaderName)
| NameRight (s : list Z).

Module HeaderMapOps.
Definition new : HeaderMap := ∅.
Definition len (m : HeaderMap) : nat := size m.
Definition is_empty (m : HeaderMap) : bool := (size m =? 0)%nat.
Definition clear (m : HeaderMap) : HeaderMap := ∅.

Section Named.
(** [HeaderName::try_from(&str)] of the http crate. *)
Context (try_from : list Z -> option HeaderName).

(** The name an argument denotes, [None] when it is not a header name. *)
Definition as_name (n : AsName) : option HeaderName :=
  match n with NameLeft name => Some name | NameRight s => try_from s end.

Definition get2 (m : HeaderMap) (n : AsName) : option Value :=
  match n with
  | NameLeft name => m !! name
  | NameRight s => match try_from s with
                   | Some name => m !! name
                   | None => None
                   end
  end.

Definition get (m : HeaderMap) (n : AsName) : outcome (option HeaderValue) :=
  match get2 m n with
  | None => Val None
  | Some v => match ValueOps.get v with
              | Val x => Val (Some x)
              | Panic => Panic
              | NoFuel => NoFuel
              end
  end.

Definition contains_key (m : HeaderMap) (n : AsName) : bool :=
  match n with
  | NameLeft name => bool_decide (is_Some (m !! name))
  | NameRight s => match try_from s with
                   | Some name => bool_decide (is_Some (m !! name))
                   | None => false
                   end
  end.

Definition remove (m : HeaderMap) (n : AsName) : HeaderMap :=
  match n with
  | NameLeft name => delete name m
  | NameRight s => match try_from s with
                   | Some name => delete name m
                   | None => m
                   end
  end.
End Named.

Definition insert (m : HeaderMap) (key : HeaderName) (val : HeaderValue) : HeaderMap :=
  <[key := One val]> m.

Definition append (m : HeaderMap) (key : HeaderName) (value : HeaderValue) : HeaderMap :=
  match m !! key with
  | Some v => <[key := ValueOps.append v value]> m
  | None => <[key := One value]> m
  end.

(** [GetAll]: the view [get_all] returns, and its [next]. *)
Record GetAll := mkGetAll { ga_idx : nat; ga_item : option Value }.

Definition get_all (try_from : list Z -> option HeaderName) (m : HeaderMap) (n : AsName) : GetAll :=
  mkGetAll 0 (get2 try_from m n).

Definition get_all_next (g : GetAll) : option HeaderValue * GetAll :=
  match ga_item g with
  | Some (One val) => (Some val, mkGetAll (ga_idx g) None)
  | Some (Multi vec) =>
      if (ga_idx g <? length vec)%nat
      then (vec !! ga_idx g, mkGetAll (ga_idx g + 1) (ga_item g))
      else (None, mkGetAll (ga_idx g) None)
  | None => (None, g)
  end.

(** [Iter] over the pairs [iter_inner] visits, in the hash map's order. *)
Record Iter := mkIter {
  it_idx : nat;
  it_current : option (HeaderName * list HeaderValue);
  it_inner : list (HeaderName * Value)
}.

Definition iter (inner : list (HeaderName * Value)) : Iter := mkIter 0 None inner.

(** The part of [Iter::next] that pulls from the hash map's iterator; the
    recursive call [self.next()] after an entry with several values is the
    lookup of its first value or, for an empty deque, the next pull. *)
Fixpoint iter_pull (inner : list (HeaderName * Value)) : option (HeaderName * HeaderValue) * Iter :=
  match inner with
  | [] => (None, mkIter 0 None [])
  | (k, One value) :: rest => (Some (k, value), mkIter 0 None rest)
  | (k, Multi (x :: vec)) :: rest => (Some (k, x), mkIter 1 (Some (k, x :: vec)) rest)
  | (k, Multi []) :: rest => iter_pull rest
  end.

Definition iter_next (i : Iter) : option (HeaderName * HeaderValue) * Iter :=
  match it_current i with
  | Some (k, vec) =>
      match vec !! it_idx i with
      | Some v => (Some (k, v), mkIter (it_idx i + 1) (it_current i) (it_inner i))
      | None => iter_pull (it_inner i)
      end
  | None => iter_pull (it_inner i)
  end.

(** [FromIterator<(N, V)>]: entries whose name or value does not parse are
    dropped, the others are merged. *)
Definition from_iter_step (map : HeaderMap) (nv : HeaderName * Value) : HeaderMap :=
  let '(n, v) := nv in
  match map !! n with
  | Some oc => <[n := ValueOps.extend oc (ValueOps.to_list v)]> map
  | None => <[n := v]> map
  end.

Definition from_iter {N V} (name_from : N -> option HeaderName) (value_from : V -> option Value)
    (it : list (N * V)) : HeaderMap :=
  fold_left from_iter_step
    (omap (fun nv => match name_from nv.1, value_from nv.2 with
                     | Some n, Some v => Some (n, v)
                     | _, _ => None
                     end) it) ∅.

(** *** The abstract multimap: every name has a list of values. *)
Definition values (m : HeaderMap) (k : HeaderName) : list HeaderValue :=
  match m !! k with Some v => ValueOps.to_list v | None => [] end.

Definition wf (m : HeaderMap) : Prop := map_Forall (fun _ v => ValueOps.wf v) m.

Lemma values_insert m k v k' :
  values (insert m k v) k' = if decide (k = k') then [v] else values m k'.
Proof. unfold values, insert. rewrite lookup_insert. by case_decide. Qed.

Lemma values_append m k v k' :
  values (append m k v) k' = if decide (k = k') then values m k ++ [v] else values m k'.
Proof.
  unfold values, append. destruct (m !! k) as [w|] eqn:E; rewrite lookup_insert;
    case_decide; subst; rewrite ?E; auto using ValueOps.to_list_append.
Qed.

Lemma wf_insert m k v : wf m -> wf (insert m k v).
Proof. intros. apply map_Forall_insert_2; [done|auto]. Qed.

Lemma wf_append m k v : wf m -> wf (append m k v).
Proof.
  intros. unfold append. case_match; apply map_Forall_insert_2; auto using ValueOps.value_wf_append.
  done.
Qed.

Lemma wf_delete m k : wf m -> wf (delete k m).
Proof. apply map_Forall_delete. Qed.

Lemma wf_empty : wf ∅.
Proof. apply map_Forall_empty. Qed.

(** With the invariant, [len] counts the names with at least one value. *)
Lemma values_nil m k : wf m -> values m k = [] <-> m !! k = None.
Proof.
  intros Hwf. unfold values. destruct (m !! k) as [v|] eqn:E; [|done].
  split; [|done]. intros H. by destruct (Hwf k v E).
Qed.
End HeaderMapOps.

(** ** Theorems about the multimap *)
Module HeaderMapThms.
Import HeaderMapOps.

(** The contract [map.rs] documents, on the abstract multimap: a name denotes
    the list of its values, in the order they were appended. *)
Module Spec.
Definition t := HeaderName -> list HeaderValue.
Definition empty : t := fun _ => [].
Definition insert (s : t) (k : HeaderName) (v : HeaderValue) : t :=
  fun k' => if decide (k = k') then [v] else s k'.
Definition append (s : t) (k : HeaderName) (v : HeaderValue) : t :=
  fun k' => if decide (k = k') then s k ++ [v] else s k'.
Definition remove (s : t) (k : option HeaderName) : t :=
  fun k' => if decide (k = Some k') then [] else s k'.
End Spec.

(** A sequence of updates of a header map, for statements about histories. *)
Inductive update :=
| UInsert (k : HeaderName) (v : HeaderValue)
| UAppend (k : HeaderName) (v : HeaderValue)
| URemove (n : AsName)
| UClear.

Section Refinement.
Context (try_from : list Z -> option HeaderName).

Definition run_update (m : HeaderMap) (u : update) : HeaderMap :=
  match u with
  | UInsert k v => insert m k v
  | UAppend k v => append m k v
  | URemove n => remove try_from m n
  | UClear => clear m
  end.

Definition spec_update (s : Spec.t) (u : update) : Spec.t :=
  match u with
  | UInsert k v => Spec.insert s k v
  | UAppend k v => Spec.append s k v
  | URemove n => Spec.remove s (as_name try_from n)
  | UClear => Spec.empty
  end.

Lemma values_remove m n k :
  values (remove try_from m n) k = Spec.remove (values m) (as_name try_from n) k.
Proof.
  unfold Spec.remove, values.
  destruct n as [name|s]; simpl; [|destruct (try_from s) as [name|]; [|by case_decide]];
    rewrite lookup_delete; repeat case_decide; simplify_eq; done.
Qed.

Lemma update_refines m u s :
  (forall k, values m k = s k) ->
  forall k, values (run_update m u) k = spec_update s u k.
Proof.
  intros Hs k. destruct u as [k1 v|k1 v|n|]; simpl.
  - rewrite values_insert. unfold Spec.insert. by case_decide.
  - rewrite values_append. unfold Spec.append. case_decide; by rewrite Hs.
  - rewrite values_remove. unfold Spec.remove. by case_decide.
  - done.
Qed.

Lemma update_wf m u : wf m -> wf (run_update m u).
Proof.
  destruct u; simpl; auto using wf_insert, wf_append, wf_empty.
  intros. unfold remove. repeat case_match; auto using wf_delete.
Qed.

Lemma updates_refine us : forall m s,
  wf m -> (forall k, values m k = s k) ->
  wf (fold_left run_update us m) /\
  forall k, values (fold_left run_update us m) k = fold_left spec_update us s k.
Proof.
  induction us as [|u us IH]; intros m s Hwf Hs; simpl; [done|].
  apply IH; auto using update_wf. intros. by apply update_refines.
Qed.

(** C32.  Every history of [insert], [append], [remove] and [clear] on an empty
    [HeaderMap] keeps the representation invariant (no name with an empty
    deque) and leaves, for every name, exactly the values the abstract multimap
    has after the same history. *)
Theorem headermap_refines_multimap us :
  wf (fold_left run_update us new) /\
  forall k, values (fold_left run_update us new) k = fold_left spec_update us Spec.empty k.
Proof. apply updates_refine; [apply wf_empty|done]. Qed.

(** [get] on a well-formed map never indexes an empty deque and returns the
    first of the values. *)
Lemma get_first m n :
  wf m ->
  get try_from m n =
  Val (match as_name try_from n with Some k => head (values m k) | None => None end).
Proof.
  intros Hwf. unfold get, get2.
  destruct n as [k|s]; simpl; [|destruct (try_from s) as [k|]; [|done]];
    unfold values; (destruct (m !! k) as [v|] eqn:E; [|done]);
    destruct (ValueOps.value_get_wf v (Hwf _ _ E)) as (x & -> & ->); done.
Qed.

Lemma drain_get_all_multi vec i fuel :
  (length vec - i < fuel)%nat ->
  drain get_all_next fuel (mkGetAll i (Some (Multi vec))) = drop i vec.
Proof.
  revert i. induction fuel as [|fuel IH]; intros i Hf; [lia|]. simpl.
  destruct (Nat.ltb_spec i (length vec)) as [Hlt|Hge].
  - destruct (lookup_lt_is_Some_2 vec i Hlt) as [x Hx].
    unfold get_all_next at 1. simpl. destruct (Nat.ltb_spec i (length vec)); [|lia].
    rewrite Hx. rewrite (drop_S _ _ _ Hx). f_equal.
    replace (i + 1)%nat with (S i) by lia. apply IH. lia.
  - unfold get_all_next at 1. simpl. destruct (Nat.ltb_spec i (length vec)); [lia|].
    by rewrite drop_ge.
Qed.

(** Iterating the view [get_all] returns yields all the values of the name,
    in order, and then [None]; a string that is not a header name yields none. *)
Theorem get_all_yields_values m n fuel :
  (length (default [] (values m <$> as_name try_from n)) < fuel)%nat ->
  drain get_all_next fuel (get_all try_from m n)
  = default [] (values m <$> as_name try_from n).
Proof.
  assert (Hk : forall k, (length (values m k) < fuel)%nat ->
            drain get_all_next fuel (mkGetAll 0 (m !! k)) = values m k).
  { intros k. unfold values. destruct (m !! k) as [[v|vec]|]; simpl; intros Hf.
    - destruct fuel as [|[|f]]; simpl in *; [lia|lia|done].
    - rewrite drain_get_all_multi by lia. apply drop_0.
    - destruct fuel; [lia|done]. }
  unfold get_all, get2. destruct n as [k|s]; simpl; [apply Hk|].
  destruct (try_from s) as [k|]; simpl; [apply Hk|]. destruct fuel; done.
Qed.
End Refinement.

(** The pairs an entry of the hash map contributes to the iteration. *)
Definition entry_pairs (kv : HeaderName * Value) : list (HeaderName * HeaderValue) :=
  (fun v => (kv.1, v)) <$> ValueOps.to_list kv.2.

(** Items still to come from an iterator state. *)
Definition iter_rest (i : Iter) : list (HeaderName * HeaderValue) :=
  (match it_current i with
   | Some (k, vec) => (fun v => (k, v)) <$> drop (it_idx i) vec
   | None => []
   end) ++ flat_map entry_pairs (it_inner i).

Lemma iter_pull_spec inner :
  match iter_pull inner with
  | (Some x, i') => flat_map entry_pairs inner = x :: iter_rest i'
  | (None, _) => flat_map entry_pairs inner = []
  end.
Proof.
  induction inner as [|[k [v|[|x vec]]] inner IH]; simpl; auto.
Qed.

Lemma iter_next_spec i :
  match iter_next i with
  | (Some x, i') => iter_rest i = x :: iter_rest i'
  | (None, _) => iter_rest i = []
  end.
Proof.
  unfold iter_next, iter_rest at 1 3.
  destruct (it_current i) as [[k vec]|]; simpl; [|apply iter_pull_spec].
  destruct (vec !! it_idx i) as [v|] eqn:E.
  - rewrite (drop_S _ _ _ E). unfold iter_rest. simpl.
    by rewrite Nat.add_1_r.
  - apply lookup_ge_None in E. rewrite drop_ge by lia. simpl. apply iter_pull_spec.
Qed.

Lemma entry_pairs_filter (k k' : HeaderName) (l : list HeaderValue) :
  snd <$> filter (fun kv => kv.1 = k) ((fun v => (k', v)) <$> l)
  = if decide (k' = k) then l else [].
Proof.
  case_decide as Hk; (induction l as [|x l IH]; [done|]).
  - rewrite fmap_cons, filter_cons_True by done. rewrite fmap_cons. by rewrite IH.
  - rewrite fmap_cons, filter_cons_False by done. done.
Qed.

(** The pairs of a map's entries, in any order of the entries, give every name
    its values. *)
Lemma entries_values m inner k :
  inner ≡ₚ map_to_list m ->
  snd <$> filter (fun kv => kv.1 = k) (flat_map entry_pairs inner) = values m k.
Proof.
  intros Hperm.
  assert (Hnd : NoDup inner.*1) by (rewrite Hperm; apply NoDup_fst_map_to_list).
  assert (Hv : values m k = match list_to_map (M:=HeaderMap) inner !! k with
                            | Some v => ValueOps.to_list v | None => [] end).
  { unfold values. rewrite (list_to_map_proper inner (map_to_list m)) by done.
    by rewrite list_to_map_to_list. }
  rewrite Hv. clear Hv Hperm. induction inner as [|[k' v] inner IH]; [done|].
  simpl in *. apply NoDup_cons in Hnd as [Hnin Hnd].
  rewrite filter_app, fmap_app, IH by done. unfold entry_pairs at 1.
  rewrite entry_pairs_filter. rewrite lookup_insert. simpl. case_decide as Hk; [|done].
  subst k'. rewrite (not_elem_of_list_to_map_1 _ _ Hnin). apply app_nil_r.
Qed.

Lemma drain_iter_rest fuel : forall i,
  (length (iter_rest i) < fuel)%nat -> drain iter_next fuel i = iter_rest i.
Proof.
  induction fuel as [|f IH]; intros i Hi; [lia|]. simpl.
  pose proof (iter_next_spec i) as Hn. destruct (iter_next i) as [[x|] i'].
  - rewrite Hn in *. simpl in Hi. f_equal. apply IH. lia.
  - done.
Qed.

(** Draining [HeaderMap::iter] over the entries of a map, in whatever order the
    hash map visits them, yields for every name exactly its values, in their
    order, once each. *)
Theorem iter_yields_values m inner fuel k :
  inner ≡ₚ map_to_list m ->
  (length (flat_map entry_pairs inner) < fuel)%nat ->
  snd <$> filter (fun kv => kv.1 = k) (drain iter_next fuel (iter inner)) = values m k.
Proof. intros Hperm Hf. rewrite drain_iter_rest by done. by apply entries_values. Qed.

Lemma iter_yields_values_witness :
  snd <$> filter (fun kv => kv.1 = HOST)
    (drain iter_next 5 (iter [(DATE, Multi [mkHeaderValue [1] false; mkHeaderValue [2] false]);
                              (HOST, One (mkHeaderValue [3] true))]))
  = [mkHeaderValue [3] true].
Proof.
  rewrite (iter_yields_values
    (list_to_map [(DATE, Multi [mkHeaderValue [1] false; mkHeaderValue [2] false]);
                  (HOST, One (mkHeaderValue [3] true))])).
  - reflexivity.
  - symmetry. apply map_to_list_to_map.
    apply (bool_decide_unpack (NoDup [DATE; HOST])). vm_compute. exact I.
  - simpl. lia.
Defined.

Lemma get_all_yields_values_witness :
  drain get_all_next 9
    (get_all (fun s => Some s) (append (insert new HOST (mkHeaderValue [1] false))
                                  HOST (mkHeaderValue [2] false)) (NameRight (bs "host")))
  = [mkHeaderValue [1] false; mkHeaderValue [2] false].
Proof.
  etransitivity.
  - apply (get_all_yields_values (fun s => Some s) _ (NameRight (bs "host")) 9).
    vm_compute. lia.
  - vm_compute. reflexivity.
Defined.

#[local] Arguments from_iter_step : simpl never.

(** Merging parsed entries appends their values. *)
Lemma from_iter_step_values m n v k :
  values (from_iter_step m (n, v)) k
  = if decide (n = k) then values m n ++ ValueOps.to_list v else values m k.
Proof.
  unfold from_iter_step, values. destruct (m !! n) as [w|] eqn:E; rewrite lookup_insert;
    case_decide; subst; rewrite ?E; auto using ValueOps.to_list_extend.
Qed.

(** [HeaderMap::from_iter] keeps exactly the entries whose name and value
    both parse, and gives every name the concatenation of its entries' values
    in the order of the input. *)
Theorem from_iter_values {N V} (nf : N -> option HeaderName) (vf : V -> option Value) it k :
  values (from_iter nf vf it) k
  = concat (omap (fun nv => match nf nv.1, vf nv.2 with
                            | Some n, Some v =>
                                if decide (n = k) then Some (ValueOps.to_list v) else None
                            | _, _ => None
                            end) it).
Proof.
  unfold from_iter.
  assert (H : forall m, values (fold_left from_iter_step
             (omap (fun nv => match nf nv.1, vf nv.2 with
                       | Some n, Some v => Some (n, v) | _, _ => None end) it) m) k
           = values m k ++ concat (omap (fun nv => match nf nv.1, vf nv.2 with
                            | Some n, Some v =>
                                if decide (n = k) then Some (ValueOps.to_list v) else None
                            | _, _ => None end) it)).
  { induction it as [|[a w] it IH]; intros m; simpl; [by rewrite app_nil_r|].
    destruct (nf a) as [n|]; [|apply IH]. destruct (vf w) as [v|]; [|apply IH].
    simpl. rewrite IH, from_iter_step_values. case_decide; subst; simpl; [|done].
    by rewrite <- app_assoc. }
  rewrite H. done.
Qed.
End HeaderMapThms.
