(* ===== verification/Message.v ===== *)
(** * Message heads and their object pool

    [message.rs]: the connection type of a message, the flag byte of a head,
    [RequestHead], [ResponseHead], and the thread-local pool that recycles
    heads.  The http crate's [Version], [Method], [StatusCode] and [Uri] are
    data here: a version is its constructor, a method its token, a status code
    its number, a URI the two renderings the encoder reads. *)
From S2P Require Import Prelude Headers.

(** ** Data of the http crate *)

Inductive Version := HTTP_09 | HTTP_10 | HTTP_11 | HTTP_2 | HTTP_3.

#[export] Instance Version_eq_dec : EqDecision Version.
Proof. solve_decision. Defined.

(** [PartialOrd] of [http::Version] follows the declaration order. *)
Definition version_rank (v : Version) : Z :=
  match v with HTTP_09 => 0 | HTTP_10 => 1 | HTTP_11 => 2 | HTTP_2 => 3 | HTTP_3 => 4 end.
Definition version_lt (a b : Version) : bool := version_rank a <? version_rank b.
Definition version_ge (a b : Version) : bool := version_rank b <=? version_rank a.

(** A method is its token ([Method::as_str]). *)
Definition Method : Type := list Z.
Definition GET : Method := bs "GET".
Definition POST : Method := bs "POST".
Definition HEAD : Method := bs "HEAD".
Definition CONNECT : Method := bs "CONNECT".

(** [StatusCode::as_u16]. *)
Definition CONTINUE : Z := 100.
Definition SWITCHING_PROTOCOLS : Z := 101.
Definition PROCESSING : Z := 102.
Definition OK_ : Z := 200.
Definition NO_CONTENT : Z := 204.
Definition BAD_REQUEST : Z := 400.
Definition REQUEST_TIMEOUT : Z := 408.
Definition REQUEST_HEADER_FIELDS_TOO_LARGE : Z := 431.
Definition INTERNAL_SERVER_ERROR : Z := 500.

(** [Uri::to_string] and [Uri::path_and_query]. *)
Record Uri := mkUri { uri_string : list Z; uri_path_and_query : option (list Z) }.
Definition uri_default : Uri := mkUri (bs "/") (Some (bs "/")).

(** ** Connection type and flags *)

Inductive ConnectionType := Close | KeepAlive | Upgrade.

#[export] Instance ConnectionType_eq_dec : EqDecision ConnectionType.
Proof. solve_decision. Defined.

Module HeadFlags.
Definition CLOSE : Z := 1.
Definition KEEP_ALIVE : Z := 2.
Definition UPGRADE : Z := 4.
Definition EXPECT : Z := 8.
Definition NO_CHUNKING : Z := 16.
Definition ABSOLUTE_URI : Z := 32.
End HeadFlags.

(** The io handle of a head; handles are identified by number. *)
Inductive CurrentIo :=
| IoRef (io : nat)
| IoAccess (io : nat)
| IoNone.

Record HeaderItem := mkHeaderItem { hi_origin : list Z; hi_name : HeaderName; hi_value : HeaderValue }.

(** ** [RequestHead] *)

Record RequestHead := mkRequestHead {
  rq_id : Z;
  rq_uri : Uri;
  rq_method : Method;
  rq_version : Version;
  rq_headers : HeaderMap;
  rq_headers_vec : list HeaderItem;
  rq_extensions : list nat;
  rq_io : CurrentIo;
  rq_flags : Z
}.

Definition set_flags (h : RequestHead) (f : Z) : RequestHead :=
  mkRequestHead (rq_id h) (rq_uri h) (rq_method h) (rq_version h) (rq_headers h)
    (rq_headers_vec h) (rq_extensions h) (rq_io h) f.
Definition set_headers (h : RequestHead) (m : HeaderMap) : RequestHead :=
  mkRequestHead (rq_id h) (rq_uri h) (rq_method h) (rq_version h) m
    (rq_headers_vec h) (rq_extensions h) (rq_io h) (rq_flags h).
Definition set_headers_vec (h : RequestHead) (v : list HeaderItem) : RequestHead :=
  mkRequestHead (rq_id h) (rq_uri h) (rq_method h) (rq_version h) (rq_headers h)
    v (rq_extensions h) (rq_io h) (rq_flags h).
Definition set_id (h : RequestHead) (id : Z) : RequestHead :=
  mkRequestHead id (rq_uri h) (rq_method h) (rq_version h) (rq_headers h)
    (rq_headers_vec h) (rq_extensions h) (rq_io h) (rq_flags h).
Definition set_io (h : RequestHead) (io : CurrentIo) : RequestHead :=
  mkRequestHead (rq_id h) (rq_uri h) (rq_method h) (rq_version h) (rq_headers h)
    (rq_headers_vec h) (rq_extensions h) io (rq_flags h).
Definition set_request_line (h : RequestHead) (u : Uri) (m : Method) (v : Version) : RequestHead :=
  mkRequestHead (rq_id h) u m v (rq_headers h)
    (rq_headers_vec h) (rq_extensions h) (rq_io h) (rq_flags h).

Module RequestHeadOps.
Definition default : RequestHead :=
  mkRequestHead 0 uri_default GET HTTP_11 HeaderMapOps.new [] [] IoNone 0.

(** [Head::clear]: the id, the URI and the method are left as they are. *)
Definition clear (h : RequestHead) : RequestHead :=
  mkRequestHead (rq_id h) (rq_uri h) (rq_method h) HTTP_11 (HeaderMapOps.clear (rq_headers h))
    [] [] IoNone 0.

Definition set_absolute_uri (h : RequestHead) (on : bool) : RequestHead :=
  set_flags h (Flag.set (rq_flags h) HeadFlags.ABSOLUTE_URI on).
Definition absolute_uri (h : RequestHead) : bool :=
  Flag.contains (rq_flags h) HeadFlags.ABSOLUTE_URI.

Definition set_connection_type (h : RequestHead) (c : ConnectionType) : RequestHead :=
  set_flags h (Flag.insert (rq_flags h)
    match c with
    | Close => HeadFlags.CLOSE
    | KeepAlive => HeadFlags.KEEP_ALIVE
    | Upgrade => HeadFlags.UPGRADE
    end).

Definition connection_type (h : RequestHead) : ConnectionType :=
  if Flag.contains (rq_flags h) HeadFlags.CLOSE then Close
  else if Flag.contains (rq_flags h) HeadFlags.KEEP_ALIVE then KeepAlive
  else if Flag.contains (rq_flags h) HeadFlags.UPGRADE then Upgrade
  else if version_lt (rq_version h) HTTP_11 then Close
  else KeepAlive.

Definition upgrade (h : RequestHead) : bool := Flag.contains (rq_flags h) HeadFlags.UPGRADE.
Definition expect (h : RequestHead) : bool := Flag.contains (rq_flags h) HeadFlags.EXPECT.
Definition chunked (h : RequestHead) : bool :=
  negb (Flag.contains (rq_flags h) HeadFlags.NO_CHUNKING).
Definition no_chunking (h : RequestHead) (val : bool) : RequestHead :=
  set_flags h (if val then Flag.insert (rq_flags h) HeadFlags.NO_CHUNKING
               else Flag.remove (rq_flags h) HeadFlags.NO_CHUNKING).
Definition set_expect (h : RequestHead) : RequestHead :=
  set_flags h (Flag.insert (rq_flags h) HeadFlags.EXPECT).
Definition set_upgrade (h : RequestHead) : RequestHead :=
  set_flags h (Flag.insert (rq_flags h) HeadFlags.UPGRADE).
Definition remove_io (h : RequestHead) : RequestHead := set_io h IoNone.
End RequestHeadOps.

(** ** [ResponseHead] *)

Record ResponseHead := mkResponseHead {
  rs_version : Version;
  rs_status : Z;
  rs_headers : HeaderMap;
  rs_headers_vec : list HeaderItem;
  rs_reason : option (list Z);
  rs_io : CurrentIo;
  rs_extensions : list nat;
  rs_flags : Z
}.

Definition rs_set_flags (h : ResponseHead) (f : Z) : ResponseHead :=
  mkResponseHead (rs_version h) (rs_status h) (rs_headers h) (rs_headers_vec h)
    (rs_reason h) (rs_io h) (rs_extensions h) f.
Definition rs_set_headers (h : ResponseHead) (m : HeaderMap) : ResponseHead :=
  mkResponseHead (rs_version h) (rs_status h) m (rs_headers_vec h)
    (rs_reason h) (rs_io h) (rs_extensions h) (rs_flags h).
Definition rs_set_headers_vec (h : ResponseHead) (v : list HeaderItem) : ResponseHead :=
  mkResponseHead (rs_version h) (rs_status h) (rs_headers h) v
    (rs_reason h) (rs_io h) (rs_extensions h) (rs_flags h).
Definition rs_set_version (h : ResponseHead) (v : Version) : ResponseHead :=
  mkResponseHead v (rs_status h) (rs_headers h) (rs_headers_vec h)
    (rs_reason h) (rs_io h) (rs_extensions h) (rs_flags h).
Definition rs_set_status (h : ResponseHead) (s : Z) : ResponseHead :=
  mkResponseHead (rs_version h) s (rs_headers h) (rs_headers_vec h)
    (rs_reason h) (rs_io h) (rs_extensions h) (rs_flags h).

Module ResponseHeadOps.
Definition new (status : Z) (version : Version) : ResponseHead :=
  mkResponseHead version status HeaderMapOps.new [] None IoNone [] 0.

Definition default : ResponseHead := new OK_ HTTP_11.

(** [Head::clear]: the version and the status are left as they are. *)
Definition clear (h : ResponseHead) : ResponseHead :=
  mkResponseHead (rs_version h) (rs_status h) (HeaderMapOps.clear (rs_headers h)) [] None
    IoNone [] 0.

Definition set_connection_type (h : ResponseHead) (c : ConnectionType) : ResponseHead :=
  rs_set_flags h (Flag.insert (rs_flags h)
    match c with
    | Close => HeadFlags.CLOSE
    | KeepAlive => HeadFlags.KEEP_ALIVE
    | Upgrade => HeadFlags.UPGRADE
    end).

Definition connection_type (h : ResponseHead) : ConnectionType :=
  if Flag.contains (rs_flags h) HeadFlags.CLOSE then Close
  else if Flag.contains (rs_flags h) HeadFlags.KEEP_ALIVE then KeepAlive
  else if Flag.contains (rs_flags h) HeadFlags.UPGRADE then Upgrade
  else if version_lt (rs_version h) HTTP_11 then Close
  else KeepAlive.

Definition keep_alive (h : ResponseHead) : bool := bool_decide (connection_type h = KeepAlive).
Definition upgrade (h : ResponseHead) : bool := bool_decide (connection_type h = Upgrade).

(** [canonical_reason] is the http crate's table. *)
Definition reason (canonical_reason : Z -> option (list Z)) (h : ResponseHead) : list Z :=
  match rs_reason h with
  | Some r => r
  | None => match canonical_reason (rs_status h) with
            | Some r => r
            | None => bs "<unknown status code>"
            end
  end.

Definition ctype (h : ResponseHead) : option ConnectionType :=
  if Flag.contains (rs_flags h) HeadFlags.CLOSE then Some Close
  else if Flag.contains (rs_flags h) HeadFlags.KEEP_ALIVE then Some KeepAlive
  else if Flag.contains (rs_flags h) HeadFlags.UPGRADE then Some Upgrade
  else None.

Definition chunked (h : ResponseHead) : bool :=
  negb (Flag.contains (rs_flags h) HeadFlags.NO_CHUNKING).
Definition no_chunking (h : ResponseHead) (val : bool) : ResponseHead :=
  rs_set_flags h (if val then Flag.insert (rs_flags h) HeadFlags.NO_CHUNKING
                  else Flag.remove (rs_flags h) HeadFlags.NO_CHUNKING).
End ResponseHeadOps.

(** The explicit choice wins over the version's default, and an explicit
    [Close] over every other choice. *)
Lemma connection_type_close h c :
  RequestHeadOps.connection_type
    (RequestHeadOps.set_connection_type (RequestHeadOps.set_connection_type h c) Close) = Close.
Proof.
  unfold RequestHeadOps.connection_type, RequestHeadOps.set_connection_type. simpl.
  by flags.
Qed.

Lemma ctype_set_close h : ResponseHeadOps.ctype (ResponseHeadOps.set_connection_type h Close) = Some Close.
Proof.
  unfold ResponseHeadOps.ctype, ResponseHeadOps.set_connection_type. simpl. by flags.
Qed.

(** ** The trait [Head] and the pool *)

Class Head (T : Type) := { head_default : T; head_clear : T -> T }.

#[export] Instance RequestHead_Head : Head RequestHead :=
  { head_default := RequestHeadOps.default; head_clear := RequestHeadOps.clear }.
#[export] Instance ResponseHead_Head : Head ResponseHead :=
  { head_default := ResponseHeadOps.default; head_clear := ResponseHeadOps.clear }.

Module MessagePool.
Section Pool.
Context {T : Type} `{Head T}.

(** A pooled head is an [Rc] the pool owns alone; the pool is a stack. *)
Definition pool := list T.
Definition new : pool := [].

Definition get_message (p : pool) : T * pool :=
  match p with
  | msg :: p' => (head_clear msg, p')
  | [] => (head_default, [])
  end.

(** [Drop for Message]: [strong] is the strong count when the drop runs. *)
Definition drop_message (p : pool) (strong : nat) (head : T) : pool :=
  if (strong =? 1)%nat
  then if (length p <? 128)%nat then head_clear head :: p else p
  else p.

(** A run of the pool: messages taken out, and messages dropped with any
    contents the program gave them. *)
Inductive step : pool -> pool -> Prop :=
| step_get p : step p (snd (get_message p))
| step_drop p n h : step p (drop_message p n h).

Inductive reachable : pool -> Prop :=
| reach_new : reachable new
| reach_step p p' : reachable p -> step p p' -> reachable p'.

Lemma reachable_bounded p : reachable p -> (length p <= 128)%nat.
Proof.
  induction 1 as [|p p' _ IH Hs]; [simpl; lia|].
  destruct Hs as [p|p n h]; unfold get_message, drop_message.
  - destruct p; simpl in *; lia.
  - repeat case_match; simpl in *; try lia.
    match goal with E : (_ <? 128)%nat = true |- _ => apply Nat.ltb_lt in E end. lia.
Qed.
End Pool.

(** What [clear] guarantees of a recycled request head. *)
Definition fresh_request (h : RequestHead) : Prop :=
  rq_version h = HTTP_11 /\ rq_headers h = ∅ /\ rq_headers_vec h = [] /\
  rq_extensions h = [] /\ rq_io h = IoNone /\ rq_flags h = 0.

(** A head the request pool hands out, after any history of takes and
    drops, carries nothing of an earlier request: no headers, no extensions, no
    io handle, no connection flags; and the pool never holds more than 128
    heads. *)
Theorem pool_hands_out_fresh_heads (p : @pool RequestHead) :
  reachable p ->
  fresh_request (fst (get_message p)) /\ (length p <= 128)%nat.
Proof.
  intros Hr. split; [|by apply reachable_bounded].
  destruct p; unfold fresh_request; simpl; auto 10.
Qed.

Lemma pool_hands_out_fresh_heads_witness :
  let p := drop_message (@new RequestHead) 1
             (RequestHeadOps.set_upgrade RequestHeadOps.default) in
  fresh_request (fst (get_message p)) /\ length p = 1%nat.
Proof.
  intros p. split; [|reflexivity]. apply (pool_hands_out_fresh_heads p).
  apply (reach_step new); [constructor|constructor].
Defined.
End MessagePool.
