(* ===== verification/Config.v ===== *)
(** * Service configuration

    [config.rs]: the HTTP service settings, the state the dispatchers of a
    service share, and the cached date header.  Durations of type [Seconds] are
    16-bit numbers of seconds. *)
From S2P Require Import Prelude Headers Message.

Inductive KeepAliveCfg :=
| KA_Timeout (s : Z)
| KA_Os
| KA_Disabled.

(** [impl From<usize> for KeepAlive] and [From<Option<usize>>]: the cast to u16. *)
Definition keepalive_from_usize (n : Z) : KeepAliveCfg := KA_Timeout (u16 n).
Definition keepalive_from_option (n : option Z) : KeepAliveCfg :=
  match n with Some n => KA_Timeout (u16 n) | None => KA_Disabled end.

(** [geario::io::cfg::FrameReadRate] *)
Record FrameReadRate := mkRate { fr_rate : Z; fr_timeout : Z; fr_max_timeout : Z }.

Record HttpServiceConfig := mkConfig {
  keep_alive : Z;
  ka_enabled : bool;
  headers_vec : bool;
  max_headers : Z;
  max_buf_size : Z;
  headers_read_rate : option FrameReadRate;
  payload_read_rate : option FrameReadRate
}.

Module ConfigOps.
Definition keepalive_parts (k : KeepAliveCfg) : Z * bool :=
  let '(ka, enabled) := match k with
                        | KA_Timeout v => (v, true)
                        | KA_Os => (0, true)
                        | KA_Disabled => (0, false)
                        end in
  (if enabled then ka else 0, enabled).

Definition _new (k : KeepAliveCfg) (client_timeout : Z) : HttpServiceConfig :=
  let '(ka, enabled) := keepalive_parts k in
  mkConfig ka enabled false 96 (64 * 1024)
    (Some (mkRate 256 client_timeout (client_timeout + 15))) None.

Definition new : HttpServiceConfig := _new (KA_Timeout 5) 1.

Definition set_max_headers (c : HttpServiceConfig) (val : Z) : HttpServiceConfig :=
  mkConfig (keep_alive c) (ka_enabled c) (headers_vec c) val (max_buf_size c)
    (headers_read_rate c) (payload_read_rate c).
Definition set_max_buf_size (c : HttpServiceConfig) (val : Z) : HttpServiceConfig :=
  mkConfig (keep_alive c) (ka_enabled c) (headers_vec c) (max_headers c) val
    (headers_read_rate c) (payload_read_rate c).
Definition set_keepalive (c : HttpServiceConfig) (val : KeepAliveCfg) : HttpServiceConfig :=
  let '(ka, enabled) := keepalive_parts val in
  mkConfig ka enabled (headers_vec c) (max_headers c) (max_buf_size c)
    (headers_read_rate c) (payload_read_rate c).
Definition set_keepalive_timeout (c : HttpServiceConfig) (timeout : Z) : HttpServiceConfig :=
  mkConfig timeout (negb (timeout =? 0)) (headers_vec c) (max_headers c) (max_buf_size c)
    (headers_read_rate c) (payload_read_rate c).

Definition with_headers_rate (c : HttpServiceConfig) (r : option FrameReadRate) : HttpServiceConfig :=
  mkConfig (keep_alive c) (ka_enabled c) (headers_vec c) (max_headers c) (max_buf_size c)
    r (payload_read_rate c).

Definition set_client_timeout (c : HttpServiceConfig) (timeout : Z) : HttpServiceConfig :=
  if timeout =? 0 then with_headers_rate c None
  else
    let rate := match headers_read_rate c with
                | Some r => r
                | None => mkRate 256 5 15
                end in
    with_headers_rate c (Some (mkRate (fr_rate rate) timeout (fr_max_timeout rate))).

Definition set_enable_headers_vec (c : HttpServiceConfig) : HttpServiceConfig :=
  mkConfig (keep_alive c) (ka_enabled c) true (max_headers c) (max_buf_size c)
    (headers_read_rate c) (payload_read_rate c).

Definition set_headers_read_rate (c : HttpServiceConfig) (timeout max_timeout rate : Z)
  : HttpServiceConfig :=
  with_headers_rate c (if timeout =? 0 then None else Some (mkRate rate timeout max_timeout)).

Definition set_payload_read_rate (c : HttpServiceConfig) (timeout max_timeout rate : Z)
  : HttpServiceConfig :=
  mkConfig (keep_alive c) (ka_enabled c) (headers_vec c) (max_headers c) (max_buf_size c)
    (headers_read_rate c) (if timeout =? 0 then None else Some (mkRate rate timeout max_timeout)).
End ConfigOps.

(** ** [DispatcherConfig]: what the dispatchers of one service share *)

Module DispatcherConfig.
Definition SHUTDOWN : Z := 2.

(** [dc_rx] and [dc_tx] say whether the two halves of the one-shot channel are
    still in their cells, [dc_sent] whether the message was sent. *)
Record t := mk {
  dc_flags : Z;
  dc_idx : Z;
  dc_inflight : gset nat;
  dc_rx : bool;
  dc_tx : bool;
  dc_sent : bool
}.

Definition default : t := mk 0 0 ∅ true true false.

Definition next_id (c : t) : Z * t :=
  (dc_idx c, mk (dc_flags c) (dc_idx c + 1) (dc_inflight c) (dc_rx c) (dc_tx c) (dc_sent c)).

Definition remove_io (c : t) (io : nat) : nat * t :=
  let s := dc_inflight c ∖ {[io]} in
  (size s, mk (dc_flags c) (dc_idx c) s (dc_rx c) (dc_tx c) (dc_sent c)).

Definition insert_io (c : t) (io : nat) : nat * t :=
  let s := {[io]} ∪ dc_inflight c in
  (size s, mk (dc_flags c) (dc_idx c) s (dc_rx c) (dc_tx c) (dc_sent c)).

Definition is_shutdown (c : t) : bool := Flag.contains (dc_flags c) SHUTDOWN.

(** The dispatchers to notify are the in-flight connections. *)
Definition shutdown (c : t) : gset nat * nat * t :=
  (dc_inflight c, size (dc_inflight c),
   mk (Flag.insert (dc_flags c) SHUTDOWN) (dc_idx c) (dc_inflight c) (dc_rx c) (dc_tx c) (dc_sent c)).

Definition notify_shutdown (c : t) : t :=
  if dc_tx c then mk (dc_flags c) (dc_idx c) (dc_inflight c) (dc_rx c) false true else c.

(** [wait_shutdown]: the first caller takes the receiver and waits for the
    message, a later caller finds the cell empty and returns. *)
Definition wait_shutdown (c : t) : t :=
  mk (dc_flags c) (dc_idx c) (dc_inflight c) false (dc_tx c) (dc_sent c).

(** [H1Service::call] around the dispatcher: registration and release. *)
Definition svc_enter (c : t) (io : nat) : t := snd (insert_io (snd (next_id c)) io).
Definition svc_leave (c : t) (io : nat) : t :=
  let '(inflight, c') := remove_io c io in
  if (inflight =? 0)%nat && is_shutdown c' then notify_shutdown c' else c'.

(** [H1Service::shutdown], up to the point where it returns or waits. *)
Definition svc_shutdown (c : t) : t :=
  let '(_, _, c1) := shutdown c in
  let '(_, inflight, c2) := shutdown c1 in
  if (inflight =? 0)%nat then c2 else wait_shutdown c2.

(** The life of a service: connections enter and leave, shutdown is asked for. *)
Inductive event := Enter (io : nat) | Leave (io : nat) | Shutdown.
Definition run_event (c : t) (e : event) : t :=
  match e with
  | Enter io => svc_enter c io
  | Leave io => svc_leave c io
  | Shutdown => svc_shutdown c
  end.
Definition run (es : list event) : t := fold_left run_event es default.

(** A shutdown waits in state [c]: its receiver was taken. *)
Definition waiting (c : t) : Prop := dc_rx c = false.

Definition inv (c : t) : Prop :=
  dc_tx c = negb (dc_sent c) /\
  (dc_sent c = true -> is_shutdown c = true) /\
  (waiting c -> is_shutdown c = true) /\
  (waiting c -> dc_inflight c = ∅ -> dc_sent c = true).

Lemma is_shutdown_insert c a b d e g :
  is_shutdown (mk (Flag.insert c SHUTDOWN) a b d e g) = true.
Proof. unfold is_shutdown. simpl. by flags. Qed.

Lemma inv_leave c io : inv c -> inv (svc_leave c io).
Proof.
  intros (Ht & Hs & Hw & He). unfold svc_leave, remove_io.
  destruct (size (dc_inflight c ∖ {[io]}) =? 0)%nat eqn:E.
  - unfold is_shutdown at 1. simpl. fold (is_shutdown c).
    destruct (is_shutdown c) eqn:Esd.
    + unfold notify_shutdown. simpl. destruct (dc_tx c) eqn:Etx; repeat split; auto.
      intros _ _. simpl. by destruct (dc_sent c).
    + split_and!; [exact Ht|..]; intros Hx; first [discriminate (Hs Hx)|discriminate (Hw Hx)].
  - split_and!; [exact Ht|exact Hs|exact Hw|].
    simpl. intros _ Hemp. rewrite Hemp, size_empty in E. done.
Qed.

Lemma inv_run_event c e : inv c -> inv (run_event c e).
Proof.
  intros Hinv. destruct e as [io|io|]; simpl; auto using inv_leave;
    destruct Hinv as (Ht & Hs & Hw & He).
  - split_and!; [exact Ht|exact Hs|exact Hw|]. simpl. intros _ Hemp. set_solver.
  - unfold svc_shutdown. simpl. destruct (size (dc_inflight c) =? 0)%nat eqn:E;
      unfold wait_shutdown; repeat split; simpl; auto; try (intros; apply is_shutdown_insert).
    intros _ Hemp. rewrite Hemp, size_empty in E. done.
Qed.

Lemma inv_run es : inv (run es).
Proof.
  unfold run. assert (H : forall c, inv c -> inv (fold_left run_event es c)).
  { induction es as [|e es IH]; intros c Hc; simpl; auto using inv_run_event. }
  apply H. repeat split; done.
Qed.

(** Graceful shutdown has no lost wake-up: after any history of
    connections entering and leaving and of shutdown requests, once no
    connection is in flight a shutdown that waits has been sent its message; and
    no message is sent unless shutdown was asked for. *)
Theorem shutdown_no_lost_wakeup es :
  (waiting (run es) -> dc_inflight (run es) = ∅ -> dc_sent (run es) = true) /\
  (is_shutdown (run es) = false -> dc_sent (run es) = false).
Proof.
  destruct (inv_run es) as (_ & Hs & _ & He). split; [exact He|].
  intros Hn. destruct (dc_sent (run es)); [|done]. by rewrite Hs in Hn.
Qed.

Lemma shutdown_no_lost_wakeup_witness :
  let es := [Enter 4%nat; Enter 7%nat; Shutdown; Leave 4%nat; Leave 7%nat] in
  waiting (run es) /\ dc_sent (run es) = true.
Proof.
  intros es. split; [vm_compute; reflexivity|].
  apply (proj1 (shutdown_no_lost_wakeup es)); vm_compute; reflexivity.
Defined.
End DispatcherConfig.

(** ** The cached date header *)

Module DateService.
Definition DATE_VALUE_DEFAULT : list Z :=
  bs "date: 00000000000000000000000000000" ++ CRLF ++ CRLF.

(** The cell of the thread-local: whether the cached line is current, and the line. *)
Record t := mk { ds_current : bool; ds_date : list Z }.
Definition new : t := mk false DATE_VALUE_DEFAULT.

(** [copy_from_slice] into [bytes[6..35]] panics unless the date has 29 bytes. *)
Definition update (dt : list Z) : outcome t :=
  if zlen dt =? 29
  then Val (mk true (take 6 DATE_VALUE_DEFAULT ++ dt ++ drop 35 DATE_VALUE_DEFAULT))
  else Panic.

(** [check_date]: [dt] is what [HttpDate::from(now)] prints; the task that marks
    the line stale 500 ms later is the operation [expire]. *)
Definition check_date (dt : list Z) (d : t) : outcome t :=
  if ds_current d then Val d else update dt.
Definition expire (d : t) : t := mk false (ds_date d).

Definition set_date_header (dt : list Z) (dst : list Z) (d : t) : outcome (list Z * t) :=
  match check_date dt d with
  | Val d' => Val (dst ++ ds_date d', d')
  | Panic => Panic
  | NoFuel => NoFuel
  end.
End DateService.
