(* ===== verification/Errors.v ===== *)
(** * Error types

    [error.rs] and [h1/mod.rs]: the errors of the decoder, the encoder and the
    payload, their conversions, and the response a protocol error is answered
    with.  An [io::Error] is its kind, given by number. *)
From S2P Require Import Prelude Message.

Inductive DecodeError :=
| DE_Method
| DE_Uri
| DE_Version
| DE_Header
| DE_MaxHeaders
| DE_TooLarge (n : Z)
| DE_Incomplete
| DE_Status
| DE_InvalidInput (msg : string)
| DE_Utf8.

Inductive EncodeError :=
| EE_UnsupportedVersion (v : Version)
| EE_UnexpectedEof
| EE_Fmt.

Inductive PayloadError :=
| PE_Incomplete (err : option Z)
| PE_EncodingCorrupted
| PE_Overflow
| PE_UnknownLength
| PE_Decode (err : DecodeError)
| PE_Io (err : Z).

(** [ntex_httparse::Error] *)
Inductive HttparseError :=
| HP_HeaderName
| HP_HeaderValue
| HP_NewLine
| HP_Status
| HP_Token
| HP_TooManyHeaders
| HP_Version.

(** [impl From<ntex_httparse::Error> for DecodeError] *)
Definition decode_error_from_httparse (err : HttparseError) : DecodeError :=
  match err with
  | HP_HeaderName | HP_HeaderValue | HP_NewLine | HP_Token => DE_Header
  | HP_Status => DE_Status
  | HP_TooManyHeaders => DE_TooLarge 0
  | HP_Version => DE_Version
  end.

(** [h1::ProtocolError] *)
Inductive ProtocolError :=
| PErr_Decode (e : DecodeError)
| PErr_Encode (e : EncodeError)
| PErr_SlowRequestTimeout
| PErr_SlowPayloadTimeout
| PErr_ResponsePayload.

(** [ProtocolError::error_response]: the status of the response. *)
Definition error_response_status (e : ProtocolError) : Z :=
  match e with
  | PErr_Decode (DE_MaxHeaders | DE_TooLarge _) => REQUEST_HEADER_FIELDS_TOO_LARGE
  | PErr_Decode _ => BAD_REQUEST
  | PErr_SlowRequestTimeout | PErr_SlowPayloadTimeout => REQUEST_TIMEOUT
  | PErr_Encode _ | PErr_ResponsePayload => INTERNAL_SERVER_ERROR
  end.
