(* ===== verification/Payload.v ===== *)
(** * Payload decoding

    [PayloadDecoder] of [h1/decoder.rs]: the body of a message framed by a
    length, by chunked transfer coding, or by the end of the connection.  The
    chunk-size line is parsed by the httparse crate; that parser is the class
    [ChunkSizeParser], and [ChunkSizeLaws] states what its documentation
    promises.  [RefChunkSize] is an instance of both. *)
From S2P Require Import Prelude Errors.

(** [httparse::Status] *)
Inductive Status (A : Type) : Type :=
| Complete (a : A)
| Partial.
Arguments Complete {A} a.
Arguments Partial {A}.

(** [httparse::parse_chunk_size]: the index where parsing stopped and the size
    of the chunk that follows. *)
Class ChunkSizeParser := parse_chunk_size : list Z -> result (Status (Z * Z)) unit.

(** [format!("{:X}", n)] of a u64. *)
Definition hex_digit (d : Z) : Z := if d <? 10 then 48 + d else 55 + d.
Fixpoint hex_digits (fuel : nat) (n : Z) (acc : list Z) : list Z :=
  match fuel with
  | O => acc
  | S f => let acc' := hex_digit (n mod 16) :: acc in
           if n / 16 =? 0 then acc' else hex_digits f (n / 16) acc'
  end.
Definition to_hex (n : Z) : list Z := hex_digits 16 n [].

Definition size_line (n : Z) : list Z := to_hex n ++ CRLF.

(** The documented behaviour the chunked decoder relies on, for size lines
    without extensions: a complete line gives its length and its value whatever
    follows, a proper prefix of one is incomplete. *)
Class ChunkSizeLaws `{ChunkSizeParser} : Prop := {
  csp_complete n rest :
    0 <= n < 2 ^ 64 ->
    parse_chunk_size (size_line n ++ rest) = Ok (Complete (zlen (size_line n), n));
  csp_partial n k :
    0 <= n < 2 ^ 64 -> (k < length (size_line n))%nat ->
    parse_chunk_size (take k (size_line n)) = Ok Partial
}.

Inductive PayloadItem :=
| Chunk (b : list Z)
| Eof.

Inductive ChunkedState := Size | Body | BodyCr | BodyLf | EndCr | EndLf | End.

#[export] Instance ChunkedState_eq_dec : EqDecision ChunkedState.
Proof. solve_decision. Defined.

Inductive Kind :=
| Length (remaining : Z)
| Chunked (state : ChunkedState) (size : Z)
| KEof.

#[export] Instance Kind_eq_dec : EqDecision Kind.
Proof. solve_decision. Defined.

(** The decoder's cell is its kind. *)
Definition PayloadDecoder := Kind.
Definition length_decoder (x : Z) : PayloadDecoder := Length x.
Definition chunked_decoder : PayloadDecoder := Chunked Size 0.
Definition eof_decoder : PayloadDecoder := KEof.

(** ** The chunked state machine *)

Definition step_res : Type := Poll (result ChunkedState DecodeError) * list Z * Z * option (list Z).

(** The macro [byte!]: take one byte, or return [Poll::Pending]. *)
Definition read_byte (rdr : list Z) (size : Z) (k : Z -> result ChunkedState DecodeError) : step_res :=
  match rdr with
  | [] => (Pending, [], size, None)
  | b :: rdr' => (Ready (k b), rdr', size, None)
  end.

Definition read_body (rdr : list Z) (rem : Z) : step_res :=
  let len := zlen rdr in
  if len =? 0 then (Ready (Ok Body), rdr, rem, None)
  else
    let '(slice, rdr', rem') :=
      if len <? rem then (rdr, [], rem - len) else (ztake rem rdr, zdrop rem rdr, 0) in
    (Ready (Ok (if 0 <? rem' then Body else BodyCr)), rdr', rem', Some slice).

Definition read_body_cr (rdr : list Z) (size : Z) : step_res :=
  read_byte rdr size (fun b =>
    if b =? CR then Ok BodyLf else Err (DE_InvalidInput "Invalid chunk body CR")).
Definition read_body_lf (rdr : list Z) (size : Z) : step_res :=
  read_byte rdr size (fun b =>
    if b =? LF then Ok Size else Err (DE_InvalidInput "Invalid chunk body LF")).
Definition read_end_cr (rdr : list Z) (size : Z) : step_res :=
  read_byte rdr size (fun b =>
    if b =? CR then Ok EndLf else Err (DE_InvalidInput "Invalid chunk end CR")).
Definition read_end_lf (rdr : list Z) (size : Z) : step_res :=
  read_byte rdr size (fun b =>
    if b =? LF then Ok End else Err (DE_InvalidInput "Invalid chunk end LF")).

Section Decoder.
Context `{ChunkSizeParser}.

Definition step (self : ChunkedState) (body : list Z) (size : Z) : step_res :=
  match self with
  | Size =>
      match parse_chunk_size body with
      | Ok (Complete (pos, sz)) =>
          (Ready (Ok (if 0 <? sz then Body else EndCr)), zdrop pos body, sz, None)
      | Ok Partial => (Pending, body, size, None)
      | Err _ => (Ready (Err (DE_InvalidInput "Invalid chunk size line: Invalid Size")),
                  body, size, None)
      end
  | Body => read_body body size
  | BodyCr => read_body_cr body size
  | BodyLf => read_body_lf body size
  | EndCr => read_end_cr body size
  | EndLf => read_end_lf body size
  | End => (Ready (Ok End), body, size, None)
  end.

(** The [loop] of the chunked branch of [decode]; [None] is out of fuel. *)
Fixpoint chunked_loop (fuel : nat) (state : ChunkedState) (size : Z) (src : list Z)
  : option (result (option PayloadItem) DecodeError * ChunkedState * Z * list Z) :=
  match fuel with
  | O => None
  | S f =>
      match step state src size with
      | (Pending, src', size', _) => Some (Ok None, state, size', src')
      | (Ready (Err e), src', size', _) => Some (Err e, state, size', src')
      | (Ready (Ok state'), src', size', buf) =>
          if decide (state' = End) then Some (Ok (Some Eof), state', size', src')
          else match buf with
               | Some b => Some (Ok (Some (Chunk b)), state', size', src')
               | None => match src' with
                         | [] => Some (Ok None, state', size', src')
                         | _ => chunked_loop f state' size' src'
                         end
               end
      end
  end.

(** Every turn of the loop ends it or takes a byte, except a size line of no
    bytes, which the next turn follows with a byte: two turns per byte do. *)
Definition loop_fuel (src : list Z) : nat := 2 * length src + 3.

(** [Decoder::decode]: the result, the decoder's new kind, the bytes left. *)
Definition decode (kind : Kind) (src : list Z)
  : result (option PayloadItem) DecodeError * Kind * list Z :=
  match kind with
  | Length remaining =>
      if remaining =? 0 then (Ok (Some Eof), kind, src)
      else match src with
           | [] => (Ok None, kind, src)
           | _ =>
               let len := zlen src in
               if len <? remaining
               then (Ok (Some (Chunk src)), Length (remaining - len), [])
               else (Ok (Some (Chunk (ztake remaining src))), Length 0, zdrop remaining src)
           end
  | Chunked state size =>
      match chunked_loop (loop_fuel src) state size src with
      | Some (r, state', size', src') => (r, Chunked state' size', src')
      | None => (Ok None, kind, src)
      end
  | KEof => match src with
            | [] => (Ok None, kind, src)
            | _ => (Ok (Some (Chunk src)), kind, [])
            end
  end.

(** ** Pumping a decoder over a connection *)

Inductive pump_end := NeedMore | Finished | Failed (e : DecodeError).

(** Decode until the buffer is used up, the body ends, or an error: the body
    bytes produced, how it ended, the decoder and the bytes left. *)
Fixpoint pump (fuel : nat) (k : Kind) (buf : list Z) : list Z * pump_end * Kind * list Z :=
  match fuel with
  | O => ([], NeedMore, k, buf)
  | S f =>
      match decode k buf with
      | (Ok None, k', buf') => ([], NeedMore, k', buf')
      | (Ok (Some Eof), k', buf') => ([], Finished, k', buf')
      | (Ok (Some (Chunk c)), k', buf') =>
          let '(d, e, k'', buf'') := pump f k' buf' in (c ++ d, e, k'', buf'')
      | (Err e, k', buf') => ([], Failed e, k', buf')
      end
  end.

(** The reader loop: each segment the connection delivers is appended to the
    bytes left over and the decoder is pumped; once the body has ended the
    later segments stay unread. *)
Fixpoint feed (k : Kind) (buf : list Z) (segs : list (list Z)) : list Z * pump_end * Kind * list Z :=
  match segs with
  | [] => ([], NeedMore, k, buf)
  | s :: segs' =>
      let buf0 := buf ++ s in
      match pump (S (length buf0)) k buf0 with
      | (d, NeedMore, k', buf') =>
          let '(d', e, k'', buf'') := feed k' buf' segs' in (d ++ d', e, k'', buf'')
      | (d, e, k', buf') => (d, e, k', buf' ++ concat segs')
      end
  end.
End Decoder.

(** ** Termination of the chunked loop *)
Section Termination.
Context `{ChunkSizeParser}.

Definition loop_measure (state : ChunkedState) (src : list Z) : nat :=
  2 * length src + (if decide (state = Size) then 2 else 1).

Lemma chunked_loop_enough fuel : forall state size src,
  (loop_measure state src < fuel)%nat ->
  is_Some (chunked_loop fuel state size src).
Proof.
  induction fuel as [|fuel IH]; intros state size src Hf; [lia|].
  unfold loop_measure in *. simpl.
  destruct state; unfold step, read_body_cr, read_body_lf, read_end_cr, read_end_lf, read_byte;
    simpl in Hf.
  - destruct (parse_chunk_size src) as [[[pos sz]|]|[]]; eauto.
    assert (Hlen : (length (zdrop pos src) <= length src)%nat)
      by (unfold zdrop; rewrite length_drop; lia).
    destruct (0 <? sz); simpl; (destruct (zdrop pos src) eqn:E; [eauto|]);
      rewrite <- E; apply IH; rewrite E in *; simpl in *; lia.
  - unfold read_body. destruct (zlen src =? 0) eqn:E; zbool.
    + apply zlen_0 in E. subst. simpl. eauto.
    + repeat case_match; simplify_eq; eauto.
  - destruct src as [|x src]; [eauto|]. destruct (x =? CR); simpl; [|eauto].
    destruct src; [eauto|]. apply IH. simpl in *. lia.
  - destruct src as [|x src]; [eauto|]. destruct (x =? LF); simpl; [|eauto].
    destruct src; [eauto|]. apply IH. simpl in *. lia.
  - destruct src as [|x src]; [eauto|]. destruct (x =? CR); simpl; [|eauto].
    destruct src; [eauto|]. apply IH. simpl in *. lia.
  - destruct src as [|x src]; [eauto|]. destruct (x =? LF); simpl; eauto.
  - eauto.
Qed.

Lemma chunked_loop_fuel_ok state size src :
  is_Some (chunked_loop (loop_fuel src) state size src).
Proof.
  apply chunked_loop_enough. unfold loop_measure, loop_fuel. case_decide; lia.
Qed.

(** The loop of the chunked decoder ends on every input, from every state and
    with every chunk-size parser: [decode] never runs out of [loop_fuel]. *)
Theorem chunked_loop_terminates state size src :
  is_Some (chunked_loop (loop_fuel src) state size src).
Proof. apply chunked_loop_fuel_ok. Qed.
End Termination.

(** ** Content-Length framing *)
Section LengthFraming.
Context `{ChunkSizeParser}.

Lemma pump_length_0 fuel buf :
  (0 < fuel)%nat -> pump fuel (Length 0) buf = ([], Finished, Length 0, buf).
Proof. destruct fuel; [lia|done]. Qed.

Lemma pump_length n buf :
  0 <= n ->
  pump (S (length buf)) (Length n) buf =
  if n <=? zlen buf then (ztake n buf, Finished, Length 0, zdrop n buf)
  else (buf, NeedMore, Length (n - zlen buf), []).
Proof.
  intros Hn. simpl. destruct (n =? 0) eqn:En; zbool.
  { subst. pose proof (zlen_nonneg buf). by destruct (0 <=? zlen buf) eqn:E; zbool; [|lia]. }
  destruct buf as [|x buf].
  { destruct (n <=? zlen []) eqn:E; zbool; [rewrite zlen_nil in E; lia|].
    by rewrite zlen_nil, Z.sub_0_r. }
  destruct (zlen (x :: buf) <? n) eqn:E; zbool.
  - destruct (n <=? zlen (x :: buf)) eqn:E2; zbool; [lia|].
    simpl. destruct (n - zlen (x :: buf) =? 0) eqn:E3; zbool; [lia|]. by rewrite app_nil_r.
  - destruct (n <=? zlen (x :: buf)) eqn:E2; zbool; [|lia].
    rewrite pump_length_0 by (simpl; lia). by rewrite app_nil_r.
Qed.

Lemma length_framing_ok segs : forall n,
  0 <= n -> segs <> [] ->
  feed (Length n) [] segs =
  if n <=? zlen (concat segs)
  then (ztake n (concat segs), Finished, Length 0, zdrop n (concat segs))
  else (concat segs, NeedMore, Length (n - zlen (concat segs)), []).
Proof.
  induction segs as [|s segs IH]; intros n Hn Hne; [done|]. cbn [feed].
  rewrite app_nil_l, pump_length by done. simpl concat.
  rewrite zlen_app. pose proof (zlen_nonneg (concat segs)).
  destruct (n <=? zlen s) eqn:E; zbool.
  - destruct (n <=? zlen s + zlen (concat segs)) eqn:E2; zbool; [|lia].
    rewrite ztake_app_le, zdrop_app_le by lia. done.
  - destruct segs as [|s2 segs].
    { simpl. rewrite app_nil_r, zlen_nil.
      destruct (n <=? zlen s + 0) eqn:E2; zbool; [lia|]. by rewrite Z.add_0_r. }
    rewrite IH by (lia || done).
    destruct (n - zlen s <=? zlen (concat (s2 :: segs))) eqn:E2; zbool;
      destruct (n <=? zlen s + zlen (concat (s2 :: segs))) eqn:E3; zbool; try lia.
    + rewrite <- (ztake_zdrop (n - zlen s) (concat (s2 :: segs))) at 3 4.
      pose proof (zlen_nonneg s).
      set (a := ztake (n - zlen s) (concat (s2 :: segs))).
      assert (Ha : zlen a = n - zlen s) by (apply zlen_ztake; lia).
      set (r := zdrop (n - zlen s) (concat (s2 :: segs))).
      replace n with (zlen (s ++ a)) by (rewrite zlen_app; lia).
      rewrite app_assoc, ztake_app_exact, zdrop_app_exact. done.
    + f_equal. f_equal. f_equal. lia.
Qed.

(** A body framed by [Content-Length: n], delivered in any segments: the
    decoder produces exactly the first [n] bytes, reports the end of the body
    there and leaves every later byte for the next message; with fewer than [n]
    bytes it has passed all of them on and asks for the rest. *)
Theorem length_framing_exact segs : forall n,
  0 <= n -> segs <> [] ->
  feed (Length n) [] segs =
  if n <=? zlen (concat segs)
  then (ztake n (concat segs), Finished, Length 0, zdrop n (concat segs))
  else (concat segs, NeedMore, Length (n - zlen (concat segs)), []).
Proof. apply length_framing_ok. Qed.
End LengthFraming.

(** ** Chunked framing *)
Section ChunkedFraming.
Context `{ChunkSizeLaws}.

(** [wire st sz w d]: to a decoder in state [st] with [sz] bytes of the current
    chunk missing, the bytes [w] are the rest of a chunked body whose data is
    [d]. *)
Inductive wire : ChunkedState -> Z -> list Z -> list Z -> Prop :=
| wire_size n w d :
    0 < n < 2 ^ 64 -> wire Body n w d -> wire Size 0 (size_line n ++ w) d
| wire_last w :
    wire EndCr 0 w [] -> wire Size 0 (size_line 0 ++ w) []
| wire_body n x w d :
    zlen x = n -> 0 < n -> wire BodyCr 0 w d -> wire Body n (x ++ w) (x ++ d)
| wire_body_cr w d : wire BodyLf 0 w d -> wire BodyCr 0 (CR :: w) d
| wire_body_lf w d : wire Size 0 w d -> wire BodyLf 0 (LF :: w) d
| wire_end_cr w : wire EndLf 0 w [] -> wire EndCr 0 (CR :: w) []
| wire_end_lf : wire EndLf 0 [LF] [].

Lemma size_line_nonempty n : (0 < length (size_line n))%nat.
Proof. unfold size_line. rewrite length_app. simpl. lia. Qed.

Lemma wire_nonempty st sz w d : wire st sz w d -> (0 < length w)%nat.
Proof.
  destruct 1; rewrite ?length_app; try (pose proof (size_line_nonempty n); lia);
    unfold zlen in *; simpl; lia.
Qed.

Lemma wire_not_end sz w d : ~ wire End sz w d.
Proof. inversion 1. Qed.

(** What a call of [decode] in the middle of a body does: [tail] is what the
    connection has not delivered yet, [rest] what follows the body. *)
Definition decode_post (d b tail rest : list Z)
    (r : result (option PayloadItem) DecodeError * ChunkedState * Z * list Z) : Prop :=
  match r with
  | (Ok None, st', sz', b') =>
      exists w', wire st' sz' w' d /\ b' ++ tail = w' ++ rest /\ (length b' < length w')%nat
  | (Ok (Some (Chunk c)), st', sz', b') =>
      exists w' d', d = c ++ d' /\ wire st' sz' w' d' /\ b' ++ tail = w' ++ rest /\
                    (length b' < length b)%nat
  | (Ok (Some Eof), st', sz', b') => d = [] /\ st' = End /\ sz' = 0 /\ b' ++ tail = rest
  | (Err _, _, _, _) => False
  end.

Lemma decode_post_weaken d b b2 tail rest r :
  (length b2 <= length b)%nat -> decode_post d b2 tail rest r -> decode_post d b tail rest r.
Proof.
  intros Hl. destruct r as [[[[[[c|]|]|e] st'] sz'] b']; simpl; try done.
  intros (w' & d' & ? & ? & ? & ?). exists w', d'. repeat split; auto; lia.
Qed.

(** A buffer against a size line: it holds the whole line or a proper prefix. *)
Lemma split_at_line (b tail line w : list Z) :
  b ++ tail = line ++ w ->
  (exists b1, b = line ++ b1 /\ b1 ++ tail = w) \/
  (b = take (length b) line /\ (length b < length line)%nat).
Proof.
  intros He. destruct (decide (length line <= length b)%nat) as [Hle|Hgt].
  - left. exists (drop (length line) b).
    assert (Ht : take (length line) b = line).
    { apply (f_equal (take (length line))) in He.
      rewrite take_app_le in He by done. by rewrite take_app_length in He. }
    rewrite <- Ht at 1. split; [by rewrite take_drop|].
    apply (f_equal (drop (length line))) in He.
    rewrite drop_app_le in He by done. by rewrite drop_app_length in He.
  - right. split; [|lia]. apply (f_equal (take (length b))) in He.
    rewrite take_app_length, take_app_le in He by lia. exact He.
Qed.

Lemma read_byte_wire f (st st' : ChunkedState) (k : Z -> result ChunkedState DecodeError)
    x b tail w d rest res :
  k x = Ok st' -> st' <> End ->
  (forall b, step st b 0 = read_byte b 0 k) ->
  wire st 0 (x :: w) d -> wire st' 0 w d ->
  (forall b res, b ++ tail = w ++ rest -> chunked_loop f st' 0 b = Some res ->
     decode_post d b tail rest res) ->
  b ++ tail = (x :: w) ++ rest ->
  chunked_loop (S f) st 0 b = Some res ->
  decode_post d b tail rest res.
Proof.
  intros Hk Hend Hstep Hw Hw' IH He Hl. simpl in Hl. rewrite Hstep in Hl.
  destruct b as [|y b]; simpl in Hl.
  - injection Hl as <-. exists (x :: w). repeat split; auto. simpl. lia.
  - simpl in He. injection He as -> He. rewrite Hk in Hl. simpl in Hl.
    rewrite decide_False in Hl by done.
    destruct b as [|z b].
    + injection Hl as <-. simpl. exists w. repeat split; auto.
      apply wire_nonempty in Hw'. simpl. lia.
    + apply (decode_post_weaken _ _ (z :: b)); [simpl; lia|]. by apply IH.
Qed.

Lemma loop_wire fuel : forall st sz b w d tail rest res,
  wire st sz w d ->
  b ++ tail = w ++ rest ->
  chunked_loop fuel st sz b = Some res ->
  decode_post d b tail rest res.
Proof.
  induction fuel as [|fuel IH]; intros st sz b w d tail rest res Hw He Hl; [done|].
  inversion Hw as [n w1 d1 Hn Hw1|w1 Hw1|n x w1 d1 Hx Hn Hw1|w1 d1 Hw1|w1 d1 Hw1|w1 Hw1|]; subst.
  - simpl in Hl. rewrite <- app_assoc in He.
    destruct (split_at_line _ _ _ _ He) as [(b1 & -> & Hb1)|[Hb Hlt]].
    + rewrite csp_complete, zdrop_app_exact in Hl by lia.
      destruct (0 <? n) eqn:E; zbool; [|lia]. simpl in Hl.
      assert (Hpost : decode_post d b1 tail rest res).
      { destruct b1 as [|y b1]; [|by eapply IH].
        injection Hl as <-. exists w1. repeat split; auto.
        apply wire_nonempty in Hw1. simpl. lia. }
      eapply decode_post_weaken; [|exact Hpost]. rewrite length_app. lia.
    + rewrite Hb, csp_partial in Hl by lia. injection Hl as <-.
      rewrite <- Hb. exists (size_line n ++ w1). rewrite <- app_assoc. repeat split; auto.
      rewrite length_app. lia.
  - simpl in Hl. rewrite <- app_assoc in He.
    destruct (split_at_line _ _ _ _ He) as [(b1 & -> & Hb1)|[Hb Hlt]].
    + rewrite csp_complete, zdrop_app_exact in Hl by lia. simpl in Hl.
      assert (Hpost : decode_post [] b1 tail rest res).
      { destruct b1 as [|y b1]; [|by eapply IH].
        injection Hl as <-. exists w1. repeat split; auto.
        apply wire_nonempty in Hw1. simpl. lia. }
      eapply decode_post_weaken; [|exact Hpost]. rewrite length_app. lia.
    + rewrite Hb, csp_partial in Hl by lia. injection Hl as <-.
      rewrite <- Hb. exists (size_line 0 ++ w1). rewrite <- app_assoc. repeat split; auto.
      rewrite length_app. lia.
  - simpl in Hl. unfold read_body in Hl. rewrite <- app_assoc in He.
    destruct (zlen b =? 0) eqn:E; zbool.
    { apply zlen_0 in E. subst b. injection Hl as <-. simpl in *. subst tail.
      exists (x ++ w1). repeat split; auto using app_assoc.
      rewrite length_app. unfold zlen in Hn. lia. }
    destruct (split_at_line _ _ _ _ He) as [(b1 & -> & Hb1)|[Hb Hlt]].
    + rewrite zlen_app in Hl. pose proof (zlen_nonneg b1).
      destruct (zlen x + zlen b1 <? zlen x) eqn:E2; zbool; [lia|].
      rewrite ztake_app_exact, zdrop_app_exact in Hl. simpl in Hl. injection Hl as <-.
      exists w1, d1. repeat split; auto. rewrite length_app. unfold zlen in Hn. lia.
    + destruct (zlen b <? zlen x) eqn:E2; zbool; [|unfold zlen in *; lia].
      destruct (0 <? zlen x - zlen b) eqn:E3; zbool; [|lia]. simpl in Hl. injection Hl as <-.
      exists (drop (length b) x ++ w1), (drop (length b) x ++ d1).
      repeat split.
      * rewrite Hb at 1. by rewrite app_assoc, take_drop.
      * constructor; auto; unfold zlen in *; rewrite ?length_drop; lia.
      * simpl. rewrite <- app_assoc. apply (app_inv_head b). rewrite Hb at 2.
        by rewrite app_assoc, take_drop.
      * simpl. unfold zlen in *. lia.
  - eapply (read_byte_wire fuel BodyCr BodyLf _ CR); eauto; done.
  - eapply (read_byte_wire fuel BodyLf Size _ LF); eauto; done.
  - eapply (read_byte_wire fuel EndCr EndLf _ CR); eauto; done.
  - simpl in Hl. destruct b as [|y b]; simpl in Hl.
    + injection Hl as <-. exists [LF]. repeat split; auto.
    + simpl in He. injection He as -> He. simpl in Hl. injection Hl as <-. simpl. auto.
Qed.

Lemma decode_wire st sz b w d tail rest :
  wire st sz w d -> b ++ tail = w ++ rest ->
  exists r st' sz' b', decode (Chunked st sz) b = (r, Chunked st' sz', b') /\
    decode_post d b tail rest (r, st', sz', b').
Proof.
  intros Hw He. unfold decode.
  destruct (chunked_loop_fuel_ok st sz b) as [[[[r st'] sz'] b'] E]. rewrite E.
  exists r, st', sz', b'. split; [done|]. by eapply loop_wire.
Qed.

Lemma pump_wire fuel : forall st sz b w d tail rest,
  (length b < fuel)%nat ->
  wire st sz w d -> b ++ tail = w ++ rest ->
  (exists b', pump fuel (Chunked st sz) b = (d, Finished, Chunked End 0, b') /\ b' ++ tail = rest) \/
  (exists d1 d2 st' sz' b' w', pump fuel (Chunked st sz) b = (d1, NeedMore, Chunked st' sz', b') /\
     d = d1 ++ d2 /\ wire st' sz' w' d2 /\ b' ++ tail = w' ++ rest /\ (length b' < length w')%nat).
Proof.
  induction fuel as [|fuel IH]; intros st sz b w d tail rest Hf Hw He; [lia|].
  destruct (decode_wire _ _ _ _ _ _ _ Hw He) as (r & st' & sz' & b' & Hd & Hpost).
  cbn [pump]. rewrite Hd. destruct r as [[[c|]|]|e]; simpl in Hpost.
  - destruct Hpost as (w' & d' & -> & Hw' & He' & Hlt).
    destruct (IH st' sz' b' w' d' tail rest) as [(b2 & -> & Hb2)|
      (d1 & d2 & st2 & sz2 & b2 & w2 & -> & -> & Hw2 & He2 & Hl2)]; [lia|done..| |].
    + left. eauto.
    + right. exists (c ++ d1), d2, st2, sz2, b2, w2. rewrite app_assoc. auto.
  - destruct Hpost as (-> & -> & -> & He'). left. eauto.
  - destruct Hpost as (w' & Hw' & He' & Hlt). right.
    exists [], d, st', sz', b', w'. auto.
  - done.
Qed.

Lemma feed_wire segs : forall st sz b w d tail rest,
  wire st sz w d -> b ++ concat segs ++ tail = w ++ rest -> (length b < length w)%nat ->
  (exists b', feed (Chunked st sz) b segs = (d, Finished, Chunked End 0, b') /\ b' ++ tail = rest) \/
  (exists d1 d2 st' sz' b' w', feed (Chunked st sz) b segs = (d1, NeedMore, Chunked st' sz', b') /\
     d = d1 ++ d2 /\ wire st' sz' w' d2 /\ b' ++ tail = w' ++ rest /\ (length b' < length w')%nat).
Proof.
  induction segs as [|s segs IH]; intros st sz b w d tail rest Hw He Hlt;
    cbn [feed]; cbn [concat app] in He.
  { right. exists [], d, st, sz, b, w. auto. }
  destruct (pump_wire (S (length (b ++ s))) st sz (b ++ s) w d (concat segs ++ tail) rest)
    as [(b1 & E & Hb1)|(d1 & d2 & st1 & sz1 & b1 & w1 & E & -> & Hw1 & He1 & Hlt1)];
    [lia|done|by rewrite <- !app_assoc, <- He, !app_assoc| |];
    rewrite E.
  - left. exists (b1 ++ concat segs). rewrite <- app_assoc. auto.
  - destruct (IH st1 sz1 b1 w1 d2 tail rest) as [(b2 & -> & Hb2)|
      (d3 & d4 & st2 & sz2 & b2 & w2 & -> & -> & Hw2 & He2 & Hl2)]; [done..| |].
    + left. eauto.
    + right. exists (d1 ++ d3), d4, st2, sz2, b2, w2. rewrite app_assoc. auto.
Qed.

(** The chunked coding of a body, chunk by chunk. *)
Definition chunk_wire (c : list Z) : list Z := size_line (zlen c) ++ c ++ CRLF.
Definition chunked_wire (cs : list (list Z)) : list Z :=
  concat (chunk_wire <$> cs) ++ size_line 0 ++ CRLF.
Definition is_chunk (c : list Z) : Prop := 0 < zlen c < 2 ^ 64.

Lemma wire_chunked cs : Forall is_chunk cs -> wire Size 0 (chunked_wire cs) (concat cs).
Proof.
  unfold chunked_wire. induction 1 as [|c cs Hc _ IH]; simpl.
  - repeat constructor.
  - unfold chunk_wire at 1. rewrite <- !app_assoc. constructor; [done|].
    constructor; [done|unfold is_chunk in Hc; lia|]. simpl. by do 2 constructor.
Qed.

Lemma chunked_framing_ok cs rest segs :
  Forall is_chunk cs ->
  concat segs = chunked_wire cs ++ rest ->
  feed chunked_decoder [] segs = (concat cs, Finished, Chunked End 0, rest).
Proof.
  intros Hcs He.
  destruct (feed_wire segs Size 0 [] (chunked_wire cs) (concat cs) [] rest)
    as [(b' & E & Hb)|(d1 & d2 & st' & sz' & b' & w' & _ & _ & _ & Hb & Hlt)].
  - by apply wire_chunked.
  - by rewrite app_nil_r.
  - simpl. eapply wire_nonempty, wire_chunked, Hcs.
  - rewrite app_nil_r in Hb. subst. done.
  - exfalso. rewrite app_nil_r in Hb. subst b'. rewrite length_app in Hlt. lia.
Qed.

(** C4.  A chunked body, delivered in any segments and followed by any bytes of
    the next message: the decoder produces exactly the body's data, reports its
    end, and leaves exactly the bytes that follow. *)
Theorem chunked_framing_exact cs rest segs :
  Forall is_chunk cs ->
  concat segs = chunked_wire cs ++ rest ->
  feed chunked_decoder [] segs = (concat cs, Finished, Chunked End 0, rest).
Proof. apply chunked_framing_ok. Qed.

(** C5.  A chunked body cut off anywhere: the decoder passes on a prefix of the
    data, never reports the end of the body and never fails; it asks for more
    bytes. *)
Theorem chunked_truncation_detected cs segs missing :
  Forall is_chunk cs ->
  missing <> [] ->
  concat segs ++ missing = chunked_wire cs ->
  exists d1 d2 k b, feed chunked_decoder [] segs = (d1, NeedMore, k, b) /\ concat cs = d1 ++ d2.
Proof.
  intros Hcs Hm He.
  destruct (feed_wire segs Size 0 [] (chunked_wire cs) (concat cs) missing [])
    as [(b' & E & Hb)|(d1 & d2 & st' & sz' & b' & w' & E & Hd & _)].
  - by apply wire_chunked.
  - simpl. by rewrite app_nil_r.
  - simpl. eapply wire_nonempty, wire_chunked, Hcs.
  - destruct b'; simpl in Hb; by destruct missing.
  - unfold chunked_decoder. eauto 10.
Qed.
End ChunkedFraming.

(** ** An instance of the chunk-size parser *)
Module RefChunkSize.

Definition hex_value (c : Z) : option Z :=
  if (48 <=? c) && (c <=? 57) then Some (c - 48)
  else if (65 <=? c) && (c <=? 70) then Some (c - 55)
  else if (97 <=? c) && (c <=? 102) then Some (c - 87)
  else None.

Fixpoint scan (l : list Z) (pos v : Z) : result (Status (Z * Z)) unit :=
  match l with
  | [] => Ok Partial
  | c :: l' =>
      match hex_value c with
      | Some d => scan l' (pos + 1) (v * 16 + d)
      | None => if c =? CR
                then match l' with
                     | [] => Ok Partial
                     | x :: _ => if x =? LF then Ok (Complete (pos + 2, v)) else Err tt
                     end
                else Err tt
      end
  end.

#[export] Instance parser : ChunkSizeParser := fun l => scan l 0 0.

Lemma hex_value_digit d : 0 <= d < 16 -> hex_value (hex_digit d) = Some d.
Proof.
  intros Hd. unfold hex_value, hex_digit.
  destruct (d <? 10) eqn:E; zbool.
  - destruct (48 <=? 48 + d) eqn:E1, (48 + d <=? 57) eqn:E2; zbool; try lia.
    simpl. f_equal. lia.
  - destruct (48 <=? 55 + d) eqn:E1, (55 + d <=? 57) eqn:E2; zbool; try lia.
    destruct (65 <=? 55 + d) eqn:E3, (55 + d <=? 70) eqn:E4; zbool; try lia.
    simpl. f_equal. lia.
Qed.

Lemma hex_digits_app fuel : forall n acc, hex_digits fuel n acc = hex_digits fuel n [] ++ acc.
Proof.
  induction fuel as [|f IH]; intros n acc; [done|]. simpl.
  destruct (n / 16 =? 0); [done|]. rewrite IH, (IH _ [_]). by rewrite <- app_assoc.
Qed.

(** Scanning the digits of [n] accumulates [n]. *)
Lemma scan_hex fuel : forall n t pos,
  0 <= n < 16 ^ Z.of_nat fuel -> (0 < fuel)%nat ->
  scan (hex_digits fuel n [] ++ t) pos 0 = scan t (pos + zlen (hex_digits fuel n [])) n.
Proof.
  induction fuel as [|f IH]; intros n t pos Hn Hf; [lia|]. simpl.
  pose proof (Z.mod_pos_bound n 16). pose proof (Z.div_mod n 16).
  destruct (n / 16 =? 0) eqn:E; zbool.
  - simpl. rewrite hex_value_digit by lia. f_equal; unfold zlen; simpl; lia.
  - rewrite hex_digits_app, <- app_assoc, zlen_app.
    change (zlen [hex_digit (n mod 16)]) with 1.
    rewrite Nat2Z.inj_succ, Z.pow_succ_r in Hn by lia.
    rewrite IH.
    + simpl. rewrite hex_value_digit by lia. f_equal; lia.
    + split; [apply Z.div_pos; lia|]. apply Z.div_lt_upper_bound; lia.
    + destruct f; [|lia]. simpl in Hn. rewrite Z.div_small in E; lia.
Qed.

Lemma hex_digits_are_hex fuel : forall n, 0 <= n ->
  Forall (fun c => is_Some (hex_value c)) (hex_digits fuel n []).
Proof.
  induction fuel as [|f IH]; intros n Hn; [constructor|]. simpl.
  pose proof (Z.mod_pos_bound n 16).
  destruct (n / 16 =? 0) eqn:E; [|rewrite hex_digits_app; apply Forall_app; split];
    try (apply IH, Z.div_pos; lia);
    repeat constructor; rewrite hex_value_digit by lia; eauto.
Qed.

Lemma scan_prefix l : forall pos v k,
  Forall (fun c => is_Some (hex_value c)) l -> (k < length (l ++ CRLF))%nat ->
  scan (take k (l ++ CRLF)) pos v = Ok Partial.
Proof.
  induction l as [|c l IH]; intros pos v k Hl Hk.
  - destruct k as [|[|k]]; simpl in *; [done|done|lia].
  - inversion_clear Hl as [|? ? [d Hd] Hl']. destruct k as [|k]; [done|].
    simpl in *. rewrite Hd. apply IH; [done|lia].
Qed.

#[export] Instance laws : ChunkSizeLaws.
Proof.
  split; unfold parse_chunk_size, parser.
  - intros n rest Hn. unfold size_line, to_hex. rewrite <- app_assoc.
    rewrite scan_hex by lia. simpl. rewrite zlen_app, Z.add_0_l. done.
  - intros n k Hn Hk. apply scan_prefix; [apply hex_digits_are_hex; lia|done].
Qed.
End RefChunkSize.
Import RefChunkSize.

Lemma chunked_framing_exact_witness :
  feed chunked_decoder [] [[49; 65; 13; 10] ++ take 3 (replicate 26 7);
                           drop 3 (replicate 26 7) ++ [13]; [10; 48; 13; 10; 13];
                           [10] ++ bs "GET /"]
  = (replicate 26 7, Finished, Chunked End 0, bs "GET /").
Proof.
  apply (chunked_framing_exact [replicate 26 7] (bs "GET /")).
  - constructor; [|constructor]. vm_compute. auto.
  - reflexivity.
Defined.

Lemma chunked_truncation_detected_witness :
  exists d1 d2 k b, feed chunked_decoder [] [[51; 13; 10; 1]; [2]] = (d1, NeedMore, k, b)
    /\ concat [[1; 2; 3]] = d1 ++ d2.
Proof.
  apply (chunked_truncation_detected [[1; 2; 3]] _ [3; 13; 10; 48; 13; 10; 13; 10]).
  - constructor; [|constructor]. vm_compute. auto.
  - discriminate.
  - reflexivity.
Defined.

Lemma length_framing_exact_witness :
  feed (Length 3) [] [[1; 2]; [3; 4]] = ([1; 2; 3], Finished, Length 0, [4]).
Proof. apply (length_framing_exact [[1; 2]; [3; 4]] 3); [lia|discriminate]. Defined.
