(* ===== verification/Decoder.v ===== *)
(** * The message decoder

    [MessageDecoder] of [h1/decoder.rs]: the request or status line, the
    headers, the framing they ask for, and the limits on them.  The line and
    header parsers are the httparse crate's, and the conversions of bytes to a
    method, a URI, a header name and a number are the http and atoi_simd
    crates'; they are the fields of [Parsers]. *)
From S2P Require Import Prelude Headers Message Config Errors Payload.

(** ** ASCII helpers of [str] *)

Definition to_ascii_lowercase (c : Z) : Z := if (65 <=? c) && (c <=? 90) then c + 32 else c.
Definition eq_ignore_ascii_case (a b : list Z) : bool :=
  bool_decide (to_ascii_lowercase <$> a = to_ascii_lowercase <$> b).
(** The ASCII characters [char::is_whitespace] accepts. *)
Definition is_whitespace (c : Z) : bool := ((9 <=? c) && (c <=? 13)) || (c =? 32).
Fixpoint trim_start (s : list Z) : list Z :=
  match s with
  | c :: s' => if is_whitespace c then trim_start s' else s
  | [] => []
  end.
Definition trim (s : list Z) : list Z := reverse (trim_start (reverse (trim_start s))).

(** ** External parsers *)

(** A parsed header line: its length, and the ranges of its name and value in
    the buffer; or the empty line that ends the head. *)
Inductive HeaderParsed :=
| HPHeader (len : Z) (name value : Z * Z)
| HPEof (len : Z).

(** [httparse::Request::parse]: the position after the line, the ranges of the
    method and the path, and the minor version. *)
Record ReqLine := mkReqLine { rl_pos : Z; rl_method : Z * Z; rl_path : Z * Z; rl_version : Z }.
(** [httparse::Response::parse]. *)
Record ResLine := mkResLine { sl_pos : Z; sl_version : Z; sl_code : Z }.

Class Parsers := {
  (** [httparse::State] with the [httparse::Header] it fills. *)
  HState : Type;
  hstate_default : HState;
  parse_with_state : HState -> list Z -> result (Status HeaderParsed) HttparseError * HState;
  parse_request : list Z -> result (Status ReqLine) HttparseError;
  parse_response : list Z -> result (Status ResLine) HttparseError;
  (** [HeaderName::from_bytes], [Method::from_bytes], [Uri::try_from],
      [StatusCode::from_u16], [atoi_simd::parse::<u64, true, true>]. *)
  header_name_from_bytes : list Z -> option HeaderName;
  method_from_bytes : list Z -> option Method;
  uri_try_from : list Z -> option Uri;
  status_from_u16 : Z -> option Z;
  atoi_u64 : list Z -> option Z
}.

(** [&l[r.0..r.1]], for the ranges the parsers return, which are ranges of [l]. *)
Definition slice (l : list Z) (r : Z * Z) : list Z := ztake (r.2 - r.1) (zdrop r.1 l).

(** ** Payload types *)

Inductive PayloadType :=
| PT_None
| PT_Payload (d : PayloadDecoder)
| PT_Stream (d : PayloadDecoder).

Inductive PayloadLength :=
| PL_Payload (t : PayloadType)
| PL_Upgrade
| PL_None.

#[export] Instance PayloadType_eq_dec : EqDecision PayloadType.
Proof. solve_decision. Defined.
#[export] Instance PayloadLength_eq_dec : EqDecision PayloadLength.
Proof. solve_decision. Defined.

Definition ZERO : PayloadLength := PL_Payload (PT_Payload (Length 0)).
Definition pl_is_none (l : PayloadLength) : bool := bool_decide (l = PL_None).
Definition pl_is_zero (l : PayloadLength) : bool := bool_decide (l = ZERO).

Module DFlags.
Definition HAS_UPGRADE : Z := 1.
Definition EXPECT : Z := 2.
Definition CHUNKED : Z := 4.
Definition SEEN_TE : Z := 8.
End DFlags.

Record State := mkState {
  st_ka : option ConnectionType;
  st_flags : Z;
  st_content_length : option Z;
  st_version : Version
}.
(** [Version::default()] is HTTP/1.1. *)
Definition state_default : State := mkState None 0 None HTTP_11.

Definition st_insert (st : State) (f : Z) : State :=
  mkState (st_ka st) (Flag.insert (st_flags st) f) (st_content_length st) (st_version st).
Definition st_set_len (st : State) (n : option Z) : State :=
  mkState (st_ka st) (st_flags st) n (st_version st).
Definition st_set_ka (st : State) (k : option ConnectionType) : State :=
  mkState k (st_flags st) (st_content_length st) (st_version st).
Definition st_set_version (st : State) (v : Version) : State :=
  mkState (st_ka st) (st_flags st) (st_content_length st) v.

Definition payload_length (st : State) : PayloadLength :=
  if Flag.contains (st_flags st) DFlags.CHUNKED then PL_Payload (PT_Payload chunked_decoder)
  else match st_content_length st with
       | Some len => PL_Payload (PT_Payload (length_decoder len))
       | None => if Flag.contains (st_flags st) DFlags.HAS_UPGRADE then PL_Upgrade else PL_None
       end.

(** ** [connection_type] *)

Definition S_KEEP_ALIVE : list Z := bs "keep-alive".
Definition S_CLOSE : list Z := bs "close".
Definition S_UPGRADE : list Z := bs "upgrade".

(** The token [tok] at index [i] of [val]: its type and the index after it. *)
Definition token_at (val : list Z) (i : Z) (tok : list Z) (t : ConnectionType)
  : option (ConnectionType * Z) :=
  let pos := i + zlen tok in
  if (pos <=? zlen val) && eq_ignore_ascii_case (slice val (i, pos)) tok
  then Some (t, pos) else None.

Fixpoint connection_type_loop (val rest : list Z) (i : Z) : option ConnectionType :=
  match rest with
  | [] => None
  | b :: rest' =>
      if zlen S_CLOSE <=? i then None
      else
        let result :=
          if (b =? 107) || (b =? 75) then token_at val i S_KEEP_ALIVE KeepAlive
          else if (b =? 99) || (b =? 67) then token_at val i S_CLOSE Close
          else if (b =? 117) || (b =? 85) then token_at val i S_UPGRADE Upgrade
          else None in
        match result with
        | Some (t, pos) =>
            let next := pos + 1 in
            if next <? zlen val then
              match val !! Z.to_nat next with
              | Some c => if (c =? 32) || (c =? 44) || (c =? CR) || (c =? LF) then Some t
                          else connection_type_loop val rest' (i + 1)
              | None => connection_type_loop val rest' (i + 1)
              end
            else Some t
        | None => connection_type_loop val rest' (i + 1)
        end
  end.
Definition connection_type (val : list Z) : option ConnectionType :=
  connection_type_loop val val 0.

(** ** [MessageType]: what the decoder needs of a request or a response *)

Section Headers.
Context `{Parsers}.

(** [MessageType::set_header] on the parsing state, [st: &mut State]: the result
    and the state it leaves, also when it fails. *)
Definition set_header_state (st : State) (name : HeaderName) (value : HeaderValue)
  : result unit DecodeError * State :=
  if decide (name = CONTENT_LENGTH) then
    if bool_decide (is_Some (st_content_length st)) || Flag.contains (st_flags st) DFlags.CHUNKED
    then (Err DE_Header, st)
    else match to_str value with
         | Ok s =>
             if bool_decide (head (trim_start s) = Some 43) then (Err DE_Header, st)
             else match atoi_u64 s with
                  | Some len => (Ok tt, st_set_len st (Some len))
                  | None => (Err DE_Header, st)
                  end
         | Err _ => (Err DE_Header, st)
         end
  else if decide (name = TRANSFER_ENCODING) then
    if Flag.contains (st_flags st) DFlags.SEEN_TE then (Err DE_Header, st)
    else if decide (st_version st = HTTP_11) then
      let st' := st_insert st DFlags.SEEN_TE in
      match to_str value with
      | Ok s =>
          if eq_ignore_ascii_case (trim s) (bs "chunked") && bool_decide (st_content_length st' = None)
          then (Ok tt, st_insert st' DFlags.CHUNKED)
          else if eq_ignore_ascii_case (trim s) (bs "identity") then (Ok tt, st')
          else (Err DE_Header, st')
      | Err _ => (Err DE_Header, st')
      end
    else if decide (st_version st = HTTP_10) then
      (Err (DE_InvalidInput "Transfer-Encoding is not supported by HTTP/1.0"), st)
    else (Ok tt, st)
  else if decide (name = CONNECTION) then
    (Ok tt, st_set_ka st (match to_str value with Ok s => connection_type s | Err _ => None end))
  else if decide (name = UPGRADE) then
    let st' := st_insert st DFlags.HAS_UPGRADE in
    match to_str value with
    | Ok s => if eq_ignore_ascii_case (trim s) (bs "websocket")
              then (Ok tt, st_set_len st' None) else (Ok tt, st')
    | Err _ => (Ok tt, st')
    end
  else if decide (name = EXPECT) then
    if bool_decide (take 4 (hv_inner value) = bs "100-")
    then (Ok tt, st_insert st DFlags.EXPECT) else (Ok tt, st)
  else (Ok tt, st).
End Headers.

Class MessageType (T : Type) := {
  msg_version : T -> Version;
  headers_mut : T -> HeaderMap;
  update_headers : T -> HeaderMap -> T;
  set_headers_item : T -> HeaderItem -> T;
  (** The first line: [new_msg] is the message object the implementation starts
      from ([Request::new], which takes it from the pool). *)
  decode_line : forall `{Parsers}, T -> list Z -> Poll (result T DecodeError) * list Z;
  set_payload_length : T -> State -> PayloadLength -> result (PayloadType * T) DecodeError
}.

Definition set_header `{Parsers} {T} `{MessageType T} (msg : T) (st : State)
    (name : HeaderName) (value : HeaderValue) : result unit DecodeError * T * State :=
  match set_header_state st name value with
  | (Ok _, st') =>
      (Ok tt, update_headers msg (HeaderMapOps.append (headers_mut msg) name value), st')
  | (Err e, st') => (Err e, msg, st')
  end.

(** *** [impl MessageType for Request] *)

Definition request_decode `{Parsers} (new_msg : RequestHead) (src : list Z)
  : Poll (result RequestHead DecodeError) * list Z :=
  match parse_request src with
  | Err e => (Ready (Err (decode_error_from_httparse e)), src)
  | Ok Partial => (Pending, src)
  | Ok (Complete rl) =>
      match method_from_bytes (slice src (rl_method rl)) with
      | None => (Ready (Err DE_Method), src)
      | Some method =>
          match uri_try_from (slice src (rl_path rl)) with
          | None => (Ready (Err DE_Uri), src)
          | Some uri =>
              let version := if rl_version rl =? 1 then HTTP_11 else HTTP_10 in
              (Ready (Ok (set_request_line new_msg uri method version)), zdrop (rl_pos rl) src)
          end
      end
  end.

Definition request_set_payload_length (h : RequestHead) (st : State) (length0 : PayloadLength)
  : result (PayloadType * RequestHead) DecodeError :=
  if bool_decide (rq_version h = HTTP_10) && bool_decide (rq_method h = POST) && pl_is_none length0
  then Err DE_Header
  else
    let h1 := match st_ka st with
              | Some c => RequestHeadOps.set_connection_type h c
              | None => h
              end in
    let h2 := if Flag.contains (st_flags st) DFlags.EXPECT then RequestHeadOps.set_expect h1 else h1 in
    let length := if pl_is_zero length0 then PL_None else length0 in
    match length with
    | PL_Payload pl => Ok (pl, h2)
    | PL_Upgrade => Ok (PT_Stream eof_decoder, RequestHeadOps.set_upgrade h2)
    | PL_None =>
        if bool_decide (rq_method h2 = CONNECT)
        then Ok (PT_Stream eof_decoder, RequestHeadOps.set_upgrade h2)
        else Ok (PT_None, h2)
    end.

#[export] Instance Request_MessageType : MessageType RequestHead := {
  msg_version := rq_version;
  headers_mut := rq_headers;
  update_headers := set_headers;
  set_headers_item h i := set_headers_vec h (rq_headers_vec h ++ [i]);
  decode_line := @request_decode;
  set_payload_length := request_set_payload_length
}.

(** *** [impl MessageType for ResponseHead] *)

Definition response_decode `{Parsers} (_ : ResponseHead) (src : list Z)
  : Poll (result ResponseHead DecodeError) * list Z :=
  match parse_response src with
  | Err e => (Ready (Err (decode_error_from_httparse e)), src)
  | Ok Partial => (Pending, src)
  | Ok (Complete sl) =>
      let version := if sl_version sl =? 1 then HTTP_11 else HTTP_10 in
      match status_from_u16 (sl_code sl) with
      | None => (Ready (Err DE_Status), src)
      | Some status => (Ready (Ok (ResponseHeadOps.new status version)), zdrop (sl_pos sl) src)
      end
  end.

Definition response_set_payload_length (h : ResponseHead) (st : State) (length0 : PayloadLength)
  : result (PayloadType * ResponseHead) DecodeError :=
  let length := if pl_is_zero length0 then PL_None else length0 in
  let h1 := match st_ka st with
            | Some ka => ResponseHeadOps.set_connection_type h ka
            | None => h
            end in
  match length with
  | PL_Payload pl => Ok (pl, h1)
  | _ =>
      if rs_status h1 =? SWITCHING_PROTOCOLS then Ok (PT_Stream eof_decoder, h1)
      else if bool_decide (rs_version h1 = HTTP_10)
      then Ok (PT_Payload eof_decoder, ResponseHeadOps.set_connection_type h1 Close)
      else Ok (PT_None, h1)
  end.

#[export] Instance Response_MessageType : MessageType ResponseHead := {
  msg_version := rs_version;
  headers_mut := rs_headers;
  update_headers := rs_set_headers;
  set_headers_item h i := rs_set_headers_vec h (rs_headers_vec h ++ [i]);
  decode_line := @response_decode;
  set_payload_length := response_set_payload_length
}.

(** ** [MessageDecoder] *)

Section MessageDecoder.
Context `{Parsers} {T : Type} `{MessageType T}.

Record Inner := mkInner {
  in_st : State;
  in_val : option T;
  in_hdr_st : HState;
  in_cfg : HttpServiceConfig;
  in_consumed : Z
}.

(** The cells of the decoder; [md_inner] is [None] after a call that returned
    without putting the box back. *)
Record MessageDecoder := mkDecoder { md_hdrs : bool; md_inner : option Inner }.

Definition new_decoder (cfg : HttpServiceConfig) : MessageDecoder :=
  mkDecoder false (Some (mkInner state_default None hstate_default cfg 0)).

Definition is_reading_hdrs (d : MessageDecoder) : bool := md_hdrs d.

(** [Clone]: a fresh decoder with the same configuration; panics on a decoder
    whose box is gone. *)
Definition clone_decoder (d : MessageDecoder) : outcome MessageDecoder :=
  match md_inner d with
  | Some inner => Val (new_decoder (in_cfg inner))
  | None => Panic
  end.

Definition set_val (inner : Inner) (v : option T) (st : State) : Inner :=
  mkInner st v (in_hdr_st inner) (in_cfg inner) (in_consumed inner).
Definition set_hdr_st (inner : Inner) (h : HState) : Inner :=
  mkInner (in_st inner) (in_val inner) h (in_cfg inner) (in_consumed inner).
Definition set_consumed (inner : Inner) (n : Z) : Inner :=
  mkInner (in_st inner) (in_val inner) (in_hdr_st inner) (in_cfg inner) n.

(** One header line, split off the buffer as [buf]: the body of the branch
    [HeaderParsed::Header] of [decode_headers]. *)
Definition header_line (inner : Inner) (val : T) (buf : list Z) (name value : Z * Z)
  : outcome (result unit DecodeError * Inner) :=
  if max_headers (in_cfg inner) <=? Z.of_nat (HeaderMapOps.len (headers_mut val))
  then Val (Err DE_MaxHeaders, inner)
  else
    match header_name_from_bytes (slice buf name) with
    | None => Panic
    | Some hname =>
        let hvalue := from_shared_unchecked (slice buf value) in
        let val1 := if headers_vec (in_cfg inner)
                    then set_headers_item val (mkHeaderItem (slice buf name) hname hvalue)
                    else val in
        let inner1 := set_hdr_st (set_val inner (Some val1) (in_st inner)) hstate_default in
        match set_header val1 (in_st inner1) hname hvalue with
        | (r, val2, st2) => Val (r, set_val inner1 (Some val2) st2)
        end
    end.

(** [decode_headers]: the poll, the decoder's box, the bytes left. *)
Fixpoint decode_headers (fuel : nat) (src : list Z) (inner : Inner)
  : outcome (Poll (result unit DecodeError) * Inner * list Z) :=
  match fuel with
  | O => NoFuel
  | S f =>
      match parse_with_state (in_hdr_st inner) src with
      | (Err e, hs) => Val (Ready (Err (decode_error_from_httparse e)), set_hdr_st inner hs, src)
      | (Ok Partial, hs) => Val (Pending, set_hdr_st inner hs, src)
      | (Ok (Complete (HPHeader len name value)), hs) =>
          if zlen src <? len then Panic
          else
            match in_val inner with
            | None => Panic
            | Some val =>
                match header_line (set_hdr_st inner hs) val (ztake len src) name value with
                | Val (Ok _, inner') => decode_headers f (zdrop len src) inner'
                | Val (Err e, inner') => Val (Ready (Err e), inner', zdrop len src)
                | Panic => Panic
                | NoFuel => NoFuel
                end
            end
      | (Ok (Complete (HPEof len)), hs) =>
          if zlen src <? len then Panic
          else Val (Ready (Ok tt), set_hdr_st inner hstate_default, zdrop len src)
      end
  end.

(** [Decoder::decode]: the result, the decoder and the bytes left. *)
Definition decode_msg (d : MessageDecoder) (new_msg : T) (src : list Z)
  : outcome (result (option (T * PayloadType)) DecodeError * MessageDecoder * list Z) :=
  let len := zlen src in
  match md_inner d with
  | None => Panic
  | Some inner =>
      let hdrs := if 0 <? len then true else md_hdrs d in
      (* the first line *)
      let '(err, inner1, src1) :=
        match in_val inner with
        | Some _ => (None, inner, src)
        | None =>
            match decode_line new_msg src with
            | (Ready (Ok val), src1) =>
                (None, set_val inner (Some val) (st_set_version (in_st inner) (msg_version val)), src1)
            | (Ready (Err e), src1) => (Some e, inner, src1)
            | (Pending, src1) => (None, inner, src1)
            end
        end in
      match err with
      | Some e => Val (Err e, mkDecoder hdrs None, src1)
      | None =>
          let finish (r : result (option (T * PayloadType)) DecodeError) (buf_size : Z)
                     (hdrs' : bool) (inner' : Inner) (src' : list Z) :=
            if max_buf_size (in_cfg inner') <=? buf_size
            then Val (Err (DE_TooLarge buf_size), mkDecoder hdrs' None, src')
            else Val (r, mkDecoder hdrs' (Some inner'), src') in
          match in_val inner1 with
          | None => finish (Ok None) len hdrs inner1 src1
          | Some _ =>
              match decode_headers (S (length src1)) src1 inner1 with
              | Panic => Panic
              | NoFuel => NoFuel
              | Val (Ready (Ok _), inner2, src2) =>
                  match in_val inner2 with
                  | None => Panic
                  | Some val =>
                      match set_payload_length val (in_st inner2) (payload_length (in_st inner2)) with
                      | Err e => Val (Err e, mkDecoder hdrs None, src2)
                      | Ok (pl, val') =>
                          let consumed := in_consumed inner2 + len - zlen src2 in
                          finish (Ok (Some (val', pl))) consumed false
                            (set_consumed (set_val inner2 None state_default) 0) src2
                      end
                  end
              | Val (Pending, inner2, src2) =>
                  let buf_size := in_consumed inner2 + len in
                  finish (Ok None) buf_size hdrs (set_consumed inner2 (buf_size - zlen src2)) src2
              | Val (Ready (Err e), inner2, src2) => finish (Err e) 0 hdrs inner2 src2
              end
          end
      end
  end.
End MessageDecoder.
Arguments Inner {_} T.
Arguments MessageDecoder {_} T.
