(* ===== verification/DecoderThms.v ===== *)
(** * Theorems about the message decoder

    What the framing of a decoded message says about its headers, the limits on
    a head, and the decoder's life after an error. *)
From S2P Require Import Prelude Headers Message Config Errors Payload Decoder.

Create HintDb decoder.

(** ** Framing *)

Section Framing.
Context `{Parsers}.

(** A header value read as a content length, as [set_header] reads it. *)
Definition content_length_of (v : HeaderValue) : option Z :=
  match to_str v with
  | Ok s => if bool_decide (head (trim_start s) = Some 43) then None else atoi_u64 s
  | Err _ => None
  end.

Definition te_is (v : HeaderValue) (coding : string) : Prop :=
  exists s, to_str v = Ok s /\ eq_ignore_ascii_case (trim s) (bs coding) = true.

(** The headers [m] account for the parsing state [st]. *)
Record framing_inv (st : State) (m : HeaderMap) : Prop := {
  fi_version : st_version st = HTTP_11 \/ st_version st = HTTP_10;
  fi_chunked : Flag.contains (st_flags st) DFlags.CHUNKED = true ->
    st_content_length st = None /\
    exists v, HeaderMapOps.values m TRANSFER_ENCODING = [v] /\ te_is v "chunked";
  fi_not_chunked : Flag.contains (st_flags st) DFlags.CHUNKED = false ->
    HeaderMapOps.values m TRANSFER_ENCODING = [] \/
    exists v, HeaderMapOps.values m TRANSFER_ENCODING = [v] /\ te_is v "identity";
  fi_seen : Flag.contains (st_flags st) DFlags.SEEN_TE = false ->
    HeaderMapOps.values m TRANSFER_ENCODING = [];
  fi_length : forall n, st_content_length st = Some n ->
    exists pre v, HeaderMapOps.values m CONTENT_LENGTH = pre ++ [v] /\ content_length_of v = Some n;
  fi_upgrade : Flag.contains (st_flags st) DFlags.HAS_UPGRADE
    = negb (bool_decide (HeaderMapOps.values m UPGRADE = []));
  fi_no_upgrade : HeaderMapOps.values m UPGRADE = [] ->
    match st_content_length st with
    | Some _ => exists v, HeaderMapOps.values m CONTENT_LENGTH = [v]
    | None => HeaderMapOps.values m CONTENT_LENGTH = []
    end
}.

Lemma framing_inv_start v :
  v = HTTP_11 \/ v = HTTP_10 -> framing_inv (st_set_version state_default v) ∅.
Proof.
  intros Hv. unfold st_set_version, state_default. split; simpl; try done; auto.
Qed.

Lemma values_append_ne m k v k' :
  k <> k' -> HeaderMapOps.values (HeaderMapOps.append m k v) k' = HeaderMapOps.values m k'.
Proof. intros. rewrite HeaderMapOps.values_append. by rewrite decide_False. Qed.

Lemma values_append_same m k v :
  HeaderMapOps.values (HeaderMapOps.append m k v) k = HeaderMapOps.values m k ++ [v].
Proof. rewrite HeaderMapOps.values_append. by rewrite decide_True. Qed.

(** Read every value list of an appended map in terms of the old map. *)
Ltac hm :=
  repeat first
    [ rewrite values_append_same
    | rewrite values_append_ne by (first [assumption | discriminate | congruence]) ].

(** Clauses of the invariant that do not look at the changed name carry over. *)
Lemma framing_inv_other st m k v :
  k <> CONTENT_LENGTH -> k <> TRANSFER_ENCODING -> k <> UPGRADE ->
  framing_inv st m -> framing_inv st (HeaderMapOps.append m k v).
Proof. intros H1 H2 H3 [? ? ? ? ? ? ?]. split; hm; auto. Qed.

Lemma framing_inv_ka st m k : framing_inv st m -> framing_inv (st_set_ka st k) m.
Proof. intros [? ? ? ? ? ? ?]. split; auto. Qed.

Lemma framing_inv_expect st m :
  framing_inv st m -> framing_inv (st_insert st DFlags.EXPECT) m.
Proof. intros [? ? ? ? ? ? ?]. split; simpl; flags; auto. Qed.

Lemma framing_inv_content_length st m v n :
  st_content_length st = None ->
  Flag.contains (st_flags st) DFlags.CHUNKED = false ->
  content_length_of v = Some n ->
  framing_inv st m ->
  framing_inv (st_set_len st (Some n)) (HeaderMapOps.append m CONTENT_LENGTH v).
Proof.
  intros Hnone Hch Hv [Hver Hc Hnc Hseen Hlen Hup Hnu]. split; simpl; hm; auto.
  - congruence.
  - intros n' [= <-]. eauto.
  - intros Hu. specialize (Hnu Hu). rewrite Hnone in Hnu. rewrite Hnu. by exists v.
Qed.

Lemma framing_inv_te st m v st2 :
  Flag.contains (st_flags st) DFlags.SEEN_TE = false ->
  (st2 = st_insert (st_insert st DFlags.SEEN_TE) DFlags.CHUNKED /\ te_is v "chunked" /\
   st_content_length st = None \/
   st2 = st_insert st DFlags.SEEN_TE /\ te_is v "identity") ->
  framing_inv st m ->
  framing_inv st2 (HeaderMapOps.append m TRANSFER_ENCODING v).
Proof.
  intros Hns Hcase [Hver Hc Hnc Hseen Hlen Hup Hnu]. specialize (Hseen Hns).
  assert (Hch : Flag.contains (st_flags st) DFlags.CHUNKED = false).
  { destruct (Flag.contains (st_flags st) DFlags.CHUNKED); [|done].
    destruct Hc as (_ & w & Hw & _); [done|]. by rewrite Hseen in Hw. }
  destruct Hcase as [(-> & Hte & Hcl)|[-> Hte]]; split; simpl; flags; hm; rewrite ?Hseen; auto;
    try congruence; eauto.
Qed.

Lemma framing_inv_upgrade st m v (reset : bool) :
  framing_inv st m ->
  framing_inv (let st' := st_insert st DFlags.HAS_UPGRADE in
               if reset then st_set_len st' None else st')
              (HeaderMapOps.append m UPGRADE v).
Proof.
  intros [Hver Hc Hnc Hseen Hlen Hup Hnu].
  assert (Hne : HeaderMapOps.values m UPGRADE ++ [v] <> [])
    by (by destruct (HeaderMapOps.values m UPGRADE)).
  destruct reset; split; simpl; flags; hm; auto; try done;
    try (by rewrite bool_decide_false); try (intros; done).
  intros Hx. split; [done|]. by apply Hc.
Qed.

Lemma framing_inv_seen st m :
  framing_inv st m -> framing_inv (st_insert st DFlags.SEEN_TE) m.
Proof. intros [? ? ? ? ? ? ?]. split; simpl; flags; auto; done. Qed.

(** A refused header is not recorded, and the state still agrees with the
    headers that are. *)
Lemma set_header_state_err st m name value e st' :
  framing_inv st m ->
  set_header_state st name value = (Err e, st') ->
  framing_inv st' m.
Proof.
  intros Hinv. unfold set_header_state.
  repeat case_match; intros; simplify_eq; auto using framing_inv_seen.
Qed.

(** Every header the decoder accepts keeps the headers and the parsing state in
    agreement. *)
Lemma set_header_state_inv st m name value st' :
  framing_inv st m ->
  set_header_state st name value = (Ok tt, st') ->
  framing_inv st' (HeaderMapOps.append m name value).
Proof.
  intros Hinv. unfold set_header_state.
  destruct (decide (name = CONTENT_LENGTH)) as [->|Hn1].
  { destruct (bool_decide (is_Some (st_content_length st))
              || Flag.contains (st_flags st) DFlags.CHUNKED) eqn:E; [done|].
    apply orb_false_iff in E as [E1 E2]. apply bool_decide_eq_false in E1.
    destruct (to_str value) as [s|] eqn:Es; [|done].
    case_match eqn:Eb; [done|]. destruct (atoi_u64 s) as [n|] eqn:En; [|done].
    intros [= <-]. apply framing_inv_content_length; auto.
    - by apply eq_None_not_Some.
    - unfold content_length_of. by rewrite Es, Eb. }
  destruct (decide (name = TRANSFER_ENCODING)) as [->|Hn2].
  { destruct (Flag.contains (st_flags st) DFlags.SEEN_TE) eqn:E; [done|].
    destruct (decide (st_version st = HTTP_11)) as [Hv|Hv].
    - destruct (to_str value) as [s|] eqn:Es; [|done].
      destruct (eq_ignore_ascii_case (trim s) (bs "chunked") &&
                bool_decide (st_content_length (st_insert st DFlags.SEEN_TE) = None)) eqn:E2.
      + apply andb_true_iff in E2 as [E2 E3]. apply bool_decide_eq_true in E3.
        intros [= <-]. eapply framing_inv_te; eauto. left. unfold te_is. eauto.
      + destruct (eq_ignore_ascii_case (trim s) (bs "identity")) eqn:E3; [|done].
        intros [= <-]. eapply framing_inv_te; eauto. right. unfold te_is. eauto.
    - destruct (fi_version _ _ Hinv) as [Hv2|Hv2]; [done|]. rewrite decide_True by done. done. }
  destruct (decide (name = CONNECTION)) as [->|Hn3].
  { intros [= <-]. apply framing_inv_ka, framing_inv_other; done. }
  destruct (decide (name = UPGRADE)) as [->|Hn4].
  { pose proof (fun r => framing_inv_upgrade st m value r Hinv) as Hu.
    repeat case_match; intros [= <-]; [apply (Hu true)|apply (Hu false)|apply (Hu false)]. }
  destruct (decide (name = EXPECT)) as [->|Hn5].
  { case_match; intros [= <-].
    - apply framing_inv_expect, framing_inv_other; done.
    - by apply framing_inv_other. }
  intros [= <-]. by apply framing_inv_other.
Qed.
End Framing.

(** ** The decoder's invariant *)

(** What the decoder relies on from a [MessageType]. *)
Class MessageTypeLaws (T : Type) `{MessageType T} := {
  mt_fresh : T -> Prop;
  mt_headers_update v m : headers_mut (update_headers v m) = m;
  mt_headers_item v i : headers_mut (set_headers_item v i) = headers_mut v;
  mt_decode_line : forall `{Parsers} n src v src',
    mt_fresh n -> decode_line n src = (Ready (Ok v), src') ->
    headers_mut v = ∅ /\ (msg_version v = HTTP_11 \/ msg_version v = HTTP_10) /\
    zlen src' <= zlen src;
  mt_decode_pending : forall `{Parsers} n src src',
    decode_line n src = (Pending, src') -> src' = src;
  mt_payload_headers v st l pl v' :
    set_payload_length v st l = Ok (pl, v') -> headers_mut v' = headers_mut v
}.

Lemma zlen_zdrop_le {A} k (l : list A) : zlen (zdrop k l) <= zlen l.
Proof. unfold zlen, zdrop. rewrite length_drop. lia. Qed.

Lemma request_payload_headers h st l pl h' :
  request_set_payload_length h st l = Ok (pl, h') -> rq_headers h' = rq_headers h.
Proof. unfold request_set_payload_length. intros. repeat case_match; simplify_eq; done. Qed.

#[export] Instance Request_laws : MessageTypeLaws RequestHead.
Proof.
  refine {| mt_fresh := MessagePool.fresh_request |}; try done.
  - intros P n src v src' (_ & Hh & _) Hd. simpl in Hd. unfold request_decode in Hd.
    repeat case_match; simplify_eq; simpl; auto using zlen_zdrop_le.
  - intros P n src src' Hd. simpl in Hd. unfold request_decode in Hd.
    repeat case_match; by simplify_eq.
  - intros v st l pl v' Hp. by eapply request_payload_headers.
Defined.

#[export] Instance Response_laws : MessageTypeLaws ResponseHead.
Proof.
  refine {| mt_fresh := fun _ => True |}; try done.
  - intros P n src v src' _ Hd. simpl in Hd. unfold response_decode in Hd.
    repeat case_match; simplify_eq; simpl; auto using zlen_zdrop_le.
  - intros P n src src' Hd. simpl in Hd. unfold response_decode in Hd.
    repeat case_match; by simplify_eq.
  - intros v st l pl v' Hp. simpl in Hp. unfold response_set_payload_length in Hp.
    repeat case_match; by simplify_eq.
Defined.

Section DecoderInv.
Context `{Parsers} {T : Type} `{MessageTypeLaws T}.

Definition head_inv (cfg : HttpServiceConfig) (st : State) (v : T) : Prop :=
  framing_inv st (headers_mut v) /\ HeaderMapOps.wf (headers_mut v) /\
  Z.of_nat (HeaderMapOps.len (headers_mut v)) <= Z.max 0 (max_headers cfg).

Definition inner_inv (cfg : HttpServiceConfig) (i : Inner T) : Prop :=
  in_cfg i = cfg /\ 0 <= in_consumed i /\
  match in_val i with
  | None => in_st i = state_default /\ in_consumed i = 0
  | Some v => head_inv cfg (in_st i) v
  end.

Lemma len_append m k v :
  (HeaderMapOps.len (HeaderMapOps.append m k v) <= S (HeaderMapOps.len m))%nat.
Proof.
  unfold HeaderMapOps.len, HeaderMapOps.append. destruct (m !! k) as [w|] eqn:E.
  - rewrite map_size_insert_Some by eauto. lia.
  - rewrite map_size_insert_None by done. lia.
Qed.

Lemma header_line_inv cfg inner val buf name value r :
  in_val inner = Some val -> inner_inv cfg inner ->
  header_line inner val buf name value = Val r ->
  match r with
  | (Ok _, i) => inner_inv cfg i /\ is_Some (in_val i) /\ in_consumed i = in_consumed inner
  | (Err _, i) => inner_inv cfg i /\ is_Some (in_val i)
  end.
Proof.
  intros Hv (Hcfg & Hcons & Hhead). rewrite Hv in Hhead. destruct Hhead as (Hf & Hw & Hl).
  unfold header_line. rewrite Hcfg.
  destruct (max_headers cfg <=? Z.of_nat (HeaderMapOps.len (headers_mut val))) eqn:E; zbool.
  { intros [= <-]. split; [|eauto]. unfold inner_inv. rewrite Hv. by split_and!. }
  destruct (header_name_from_bytes (slice buf name)) as [hname|]; [|done].
  set (val1 := if headers_vec cfg then _ else val).
  assert (Hv1 : headers_mut val1 = headers_mut val)
    by (subst val1; case_match; rewrite ?mt_headers_item; done).
  unfold set_header. simpl.
  destruct (set_header_state (in_st inner) hname (from_shared_unchecked (slice buf value)))
    as [[[]|e] st2] eqn:Es; intros [= <-]; simpl.
  - split_and!; [|eauto|done].
    split_and!; auto; simpl; unfold head_inv; rewrite ?mt_headers_update, ?Hv1; split_and!.
    + by eapply set_header_state_inv.
    + by apply HeaderMapOps.wf_append.
    + pose proof (len_append (headers_mut val) hname (from_shared_unchecked (slice buf value))). lia.
  - split; [|eauto]. split_and!; auto; simpl; unfold head_inv; rewrite ?Hv1; split_and!; auto.
    by eapply set_header_state_err.
Qed.

Lemma decode_headers_inv cfg fuel : forall src inner p i src',
  inner_inv cfg inner -> is_Some (in_val inner) ->
  decode_headers fuel src inner = Val (p, i, src') ->
  inner_inv cfg i /\ is_Some (in_val i) /\ zlen src' <= zlen src /\
  (match p with Ready (Err _) => True | _ => in_consumed i = in_consumed inner end).
Proof.
  induction fuel as [|fuel IH]; intros src inner p i src' Hi Hs Hd; [done|]. simpl in Hd.
  destruct (parse_with_state (in_hdr_st inner) src) as [[[[len name value|len]|]|e] hs].
  - destruct (zlen src <? len) eqn:El; [done|].
    destruct Hs as [val Hval]. rewrite Hval in Hd.
    destruct (header_line (set_hdr_st inner hs) val (ztake len src) name value)
      as [[[[]|e] i1]| |] eqn:Eh; try done.
    + apply (header_line_inv cfg) in Eh as (Hi1 & Hs1 & Hc1); [|done|by destruct Hi].
      pose proof (zlen_zdrop_le len src).
      destruct (IH _ _ _ _ _ Hi1 Hs1 Hd) as (? & ? & ? & ?). split_and!; auto; [lia|].
      destruct p as [[?|?]|]; simpl in *; congruence.
    + apply (header_line_inv cfg) in Eh as (Hi1 & Hs1); [|done|by destruct Hi].
      injection Hd as <- <- <-. split_and!; auto using zlen_zdrop_le.
  - destruct (zlen src <? len); [done|].
    injection Hd as <- <- <-. split_and!; auto using zlen_zdrop_le.
  - injection Hd as <- <- <-. split_and!; auto. lia.
  - injection Hd as <- <- <-. split_and!; auto. lia.
Qed.

Definition decoder_inv (cfg : HttpServiceConfig) (d : MessageDecoder T) : Prop :=
  match md_inner d with Some i => inner_inv cfg i | None => True end.

(** What one call of [decode] guarantees. *)
Definition decode_ok (cfg : HttpServiceConfig) (src : list Z)
    (r : result (option (T * PayloadType)) DecodeError) (d' : MessageDecoder T) (src' : list Z) : Prop :=
  match r with
  | Ok (Some (v', pl)) =>
      md_hdrs d' = false /\
      exists v st, head_inv cfg st v /\ set_payload_length v st (payload_length st) = Ok (pl, v')
  | Ok None =>
      exists i, md_inner d' = Some i /\ in_consumed i + zlen src' < max_buf_size cfg
  | Err _ => True
  end.

Lemma decode_msg_inv cfg d n src r d' src' :
  decoder_inv cfg d -> mt_fresh n ->
  decode_msg d n src = Val (r, d', src') ->
  decoder_inv cfg d' /\ decode_ok cfg src r d' src'.
Proof.
  intros Hinv Hn. unfold decode_msg. unfold decoder_inv in Hinv.
  destruct (md_inner d) as [inner|]; [|done].
  set (hdrs := if 0 <? zlen src then true else md_hdrs d).
  (* the first line *)
  assert (Hline : forall o i1 s1,
    match in_val inner with
    | Some _ => (None, inner, src)
    | None => match decode_line n src with
              | (Ready (Ok val), src1) =>
                  (None, set_val inner (Some val)
                           (st_set_version (in_st inner) (msg_version val)), src1)
              | (Ready (Err e), src1) => (Some e, inner, src1)
              | (Pending, src1) => (None, inner, src1)
              end
    end = (o, i1, s1) ->
    o = None -> inner_inv cfg i1 /\ zlen s1 <= zlen src /\ (in_val i1 = None -> s1 = src)).
  { intros o i1 s1 Heq ->. destruct Hinv as (Hcfg & Hcons & Hval).
    destruct (in_val inner) as [v|] eqn:Ev.
    - simplify_eq. split_and!; [|lia|congruence]. split_and!; auto. by rewrite Ev.
    - destruct (decode_line n src) as [[[v|e]|] s2] eqn:El; simplify_eq.
      + destruct (mt_decode_line n src v s1 Hn El) as (Hh & Hv & Hl).
        destruct Hval as [-> Hc]. split_and!; [|done|done]. split_and!; auto; simpl; unfold head_inv;
          rewrite Hh; split_and!.
        * by apply framing_inv_start.
        * apply HeaderMapOps.wf_empty.
        * unfold HeaderMapOps.len. rewrite map_size_empty. lia.
      + apply mt_decode_pending in El. subst. split_and!; [|lia|done].
        split_and!; auto. by rewrite Ev. }
  destruct (match in_val inner with Some _ => _ | None => _ end) as [[o i1] s1].
  specialize (Hline o i1 s1 eq_refl). destruct o as [e|]; [intros [= <- <- <-]; done|].
  destruct (Hline eq_refl) as (Hi1 & Hs1 & Hnone). clear Hline.
  destruct (in_val i1) as [v|] eqn:Ev1.
  - destruct (decode_headers (S (length s1)) s1 i1) as [[[[[[]|e]|] i2] s2]| |] eqn:Ed; try done;
      apply (decode_headers_inv cfg) in Ed as (Hi2 & [w Hw] & Hl2 & Hc2); eauto;
      destruct Hi2 as (Hcfg2 & Hcons2 & Hval2); rewrite Hw in Hval2.
    + rewrite Hw. destruct (set_payload_length w (in_st i2) (payload_length (in_st i2)))
        as [[pl v']|e] eqn:Ep; [|intros [= <- <- <-]; done].
      simpl. destruct (max_buf_size (in_cfg i2) <=? _); intros [= <- <- <-]; [done|].
      split; [unfold decoder_inv, inner_inv; simpl; split_and!; auto; lia|]. simpl. eauto.
    + destruct (max_buf_size (in_cfg i2) <=? 0); intros [= <- <- <-]; split; try done.
      unfold decoder_inv. simpl. split_and!; auto. by rewrite Hw.
    + destruct Hi1 as (Hcfg1 & Hcons1 & _). simpl.
      destruct (max_buf_size (in_cfg i2) <=? in_consumed i2 + zlen src) eqn:Eb; zbool;
        intros [= <- <- <-]; split; try done.
      * unfold decoder_inv. simpl. split_and!; simpl; auto; [lia|]. by rewrite Hw.
      * simpl. eexists. split; [done|]. simpl. rewrite Hcfg2 in Eb. lia.
  - destruct (max_buf_size (in_cfg i1) <=? zlen src) eqn:Eb; zbool; intros [= <- <- <-];
      split; try done.
    destruct Hi1 as (Hcfg1 & _ & Hval1). rewrite Ev1 in Hval1. destruct Hval1 as [_ Hc].
    simpl. eexists. split; [done|]. rewrite Hnone, Hc, <- Hcfg1 by done. lia.
Qed.

(** The decoders a connection can have: a fresh one, and what calls of [decode]
    on any input leave behind. *)
Inductive reachable_decoder (cfg : HttpServiceConfig) : MessageDecoder T -> Prop :=
| rd_new : reachable_decoder cfg (new_decoder cfg)
| rd_decode d n src r d' src' :
    reachable_decoder cfg d -> mt_fresh n ->
    decode_msg d n src = Val (r, d', src') -> reachable_decoder cfg d'.

Lemma reachable_decoder_inv cfg d : reachable_decoder cfg d -> decoder_inv cfg d.
Proof.
  induction 1 as [|d n src r d' src' _ IH Hn Hd].
  - repeat split; simpl; auto. lia.
  - by apply (decode_msg_inv cfg d n src r d' src').
Qed.
End DecoderInv.

(** ** What a decoded request's payload type says about its headers *)

Section Requests.
Context `{Parsers}.

Definition no_chunked (m : HeaderMap) : Prop :=
  HeaderMapOps.values m TRANSFER_ENCODING = [] \/
  exists v, HeaderMapOps.values m TRANSFER_ENCODING = [v] /\ te_is v "identity".

Definition request_framing (h : RequestHead) (pl : PayloadType) : Prop :=
  let te := HeaderMapOps.values (rq_headers h) TRANSFER_ENCODING in
  let cl := HeaderMapOps.values (rq_headers h) CONTENT_LENGTH in
  let up := HeaderMapOps.values (rq_headers h) UPGRADE in
  match pl with
  | PT_Payload (Chunked Size 0) =>
      (exists v, te = [v] /\ te_is v "chunked") /\ (up = [] -> cl = [])
  | PT_Payload (Length n) =>
      n <> 0 /\ no_chunked (rq_headers h) /\
      exists pre v, cl = pre ++ [v] /\ content_length_of v = Some n /\ (up = [] -> pre = [])
  | PT_Stream KEof =>
      RequestHeadOps.upgrade h = true /\ no_chunked (rq_headers h) /\
      (up <> [] \/ rq_method h = CONNECT)
  | PT_None =>
      rq_method h <> CONNECT /\ no_chunked (rq_headers h) /\
      (up = [] -> cl = [] \/ exists v, cl = [v] /\ content_length_of v = Some 0)
  | _ => False
  end.

Lemma set_payload_length_framing cfg v st pl v' :
  head_inv cfg st v ->
  request_set_payload_length v st (payload_length st) = Ok (pl, v') ->
  request_framing v' pl.
Proof.
  intros ([Hver Hc Hnc Hseen Hlen Hup Hnu] & _ & _) Hp.
  assert (Hh : rq_headers v' = headers_mut v) by (by eapply request_payload_headers).
  unfold request_framing, no_chunked. rewrite Hh. clear Hh.
  unfold request_set_payload_length, payload_length in Hp.
  destruct (bool_decide (rq_version v = HTTP_10) && _ && _); [done|].
  set (h2 := if Flag.contains (st_flags st) DFlags.EXPECT then _ else _) in Hp.
  destruct (Flag.contains (st_flags st) DFlags.CHUNKED) eqn:Ech.
  { destruct (Hc eq_refl) as (Hcl & Hte). simpl in Hp. injection Hp as <- <-.
    split; [done|]. intros Hu. specialize (Hnu Hu). by rewrite Hcl in Hnu. }
  specialize (Hnc eq_refl).
  assert (Hnone : forall v2 pl2,
    (if bool_decide (rq_method h2 = CONNECT)
     then Ok (PT_Stream eof_decoder, RequestHeadOps.set_upgrade h2)
     else Ok (PT_None, h2)) = (Ok (pl2, v2) : result _ DecodeError) ->
    (HeaderMapOps.values (headers_mut v) UPGRADE = [] ->
       HeaderMapOps.values (headers_mut v) CONTENT_LENGTH = [] \/
       exists w, HeaderMapOps.values (headers_mut v) CONTENT_LENGTH = [w] /\
                 content_length_of w = Some 0) ->
    match pl2 with
    | PT_Stream KEof => RequestHeadOps.upgrade v2 = true /\ rq_method v2 = CONNECT
    | PT_None => rq_method v2 <> CONNECT
    | _ => False
    end).
  { intros v2 pl2 Hx _. case_bool_decide; simplify_eq; simpl; [|done].
    unfold RequestHeadOps.upgrade, RequestHeadOps.set_upgrade. simpl. by flags. }
  destruct (st_content_length st) as [n|] eqn:Ecl.
  - destruct (Hlen n eq_refl) as (pre & w & Hw & Hn).
    destruct (decide (n = 0)) as [->|Hn0].
    + assert (Hz : HeaderMapOps.values (headers_mut v) UPGRADE = [] ->
         HeaderMapOps.values (headers_mut v) CONTENT_LENGTH = [] \/
         exists w, HeaderMapOps.values (headers_mut v) CONTENT_LENGTH = [w] /\
                   content_length_of w = Some 0).
      { intros Hu. destruct (Hnu Hu) as [w' Hw']. right. exists w.
        rewrite Hw in *. destruct pre as [|? [|]]; by simplify_eq/=. }
      simpl in Hp. specialize (Hnone _ _ Hp Hz).
      destruct pl as [|[]|[]]; try done; destruct Hnone; split_and!; auto.
    + unfold pl_is_zero in Hp. rewrite bool_decide_false in Hp
        by (unfold ZERO, length_decoder; congruence).
      injection Hp as <- <-. split_and!; auto. exists pre, w. split_and!; auto.
      intros Hu. destruct (Hnu Hu) as [w' Hw']. rewrite Hw in Hw'.
      destruct pre as [|? [|]]; by simplify_eq/=.
  - destruct (Flag.contains (st_flags st) DFlags.HAS_UPGRADE) eqn:Eu.
    + simpl in Hp. injection Hp as <- <-. split_and!; auto.
      * unfold RequestHeadOps.upgrade, RequestHeadOps.set_upgrade. simpl. by flags.
      * left. intros Hu. rewrite Hu in Hup. done.
    + simpl in Hp.
      assert (Hz : HeaderMapOps.values (headers_mut v) UPGRADE = [] ->
         HeaderMapOps.values (headers_mut v) CONTENT_LENGTH = [] \/
         exists w, HeaderMapOps.values (headers_mut v) CONTENT_LENGTH = [w] /\
                   content_length_of w = Some 0) by (left; auto).
      specialize (Hnone _ _ Hp Hz).
      destruct pl as [|[]|[]]; try done; destruct Hnone; split_and!; auto.
Qed.

(** C1.  No ambiguous framing.  Whenever the request decoder delivers a request,
    after any sequence of earlier calls, its payload type is the one its headers
    ask for: chunked needs exactly one Transfer-Encoding header, "chunked", and
    (unless the request carries an Upgrade header) no Content-Length at all; a
    length needs a Content-Length that parses to that length, the only one
    unless there is an Upgrade header, and no chunked Transfer-Encoding; no
    payload means that neither asks for one. *)
Theorem decoded_request_framing cfg (d d' : MessageDecoder RequestHead) n src h pl src' :
  reachable_decoder cfg d ->
  MessagePool.fresh_request n ->
  decode_msg d n src = Val (Ok (Some (h, pl)), d', src') ->
  request_framing h pl.
Proof.
  intros Hr Hn Hd. apply reachable_decoder_inv in Hr.
  change (mt_fresh n) in Hn. destruct (decode_msg_inv cfg d n src _ d' src' Hr Hn Hd) as [_ (_ & v & st & Hh & Hp)].
  by eapply set_payload_length_framing.
Qed.

(** The limits on a message head hold on every path: while the decoder asks
    for more, the bytes it has taken for the head and the bytes still buffered
    are fewer than [max_buf_size]; a delivered head has at most [max_headers]
    header names and its header map is well formed. *)
Theorem head_limits_enforced cfg (d d' : MessageDecoder RequestHead) n src r src' :
  reachable_decoder cfg d ->
  MessagePool.fresh_request n ->
  0 <= max_headers cfg ->
  decode_msg d n src = Val (Ok r, d', src') ->
  match r with
  | None => exists i, md_inner d' = Some i /\ in_consumed i + zlen src' < max_buf_size cfg
  | Some (h, _) => HeaderMapOps.wf (rq_headers h) /\
                   Z.of_nat (HeaderMapOps.len (rq_headers h)) <= max_headers cfg
  end.
Proof.
  intros Hr Hn Hm Hd. apply reachable_decoder_inv in Hr.
  change (mt_fresh n) in Hn. destruct (decode_msg_inv cfg d n src _ d' src' Hr Hn Hd) as [_ Hok].
  destruct r as [[h pl]|]; [|done].
  destruct Hok as (_ & v & st & (_ & Hw & Hl) & Hp).
  apply request_payload_headers in Hp. rewrite Hp. split; [done|].
  rewrite Z.max_r in Hl by done. done.
Qed.
End Requests.

(** ** Duplicate lengths around an Upgrade header *)
Section DuplicateLength.
Context `{Parsers}.

Definition set_headers_state (st : State) (hs : list (HeaderName * HeaderValue))
  : result unit DecodeError * State :=
  fold_left (fun r nv => match r with
                         | (Ok _, st) => set_header_state st nv.1 nv.2
                         | (Err e, st) => (Err e, st)
                         end) hs (Ok tt, st).

Definition websocket_value : HeaderValue := mkHeaderValue (bs "websocket") false.

Lemma set_content_length st v n :
  st_content_length st = None ->
  Flag.contains (st_flags st) DFlags.CHUNKED = false ->
  content_length_of v = Some n ->
  set_header_state st CONTENT_LENGTH v = (Ok tt, st_set_len st (Some n)).
Proof.
  intros Hcl Hc Hv. unfold set_header_state. rewrite decide_True by done.
  rewrite Hcl, Hc. simpl. unfold content_length_of in Hv.
  destruct (to_str v); [|done]. case_match; [done|]. by rewrite Hv.
Qed.

Lemma set_upgrade_websocket st :
  set_header_state st UPGRADE websocket_value
    = (Ok tt, st_set_len (st_insert st DFlags.HAS_UPGRADE) None).
Proof. reflexivity. Qed.

Lemma set_headers_state_cons st n v hs st' :
  set_header_state st n v = (Ok tt, st') ->
  set_headers_state st ((n, v) :: hs) = set_headers_state st' hs.
Proof. intros Hs. unfold set_headers_state. cbn [fold_left fst snd]. by rewrite Hs. Qed.

(** Two Content-Length headers are refused when they follow each other, with
    the same value or not; but an [Upgrade: websocket] header between them
    clears the first, and the second is accepted with a different value. *)
Theorem duplicate_content_length st v1 v2 n1 n2 :
  content_length_of v1 = Some n1 ->
  content_length_of v2 = Some n2 ->
  st_content_length st = None ->
  Flag.contains (st_flags st) DFlags.CHUNKED = false ->
  (set_headers_state st [(CONTENT_LENGTH, v1); (CONTENT_LENGTH, v2)]).1 = Err DE_Header /\
  exists st', set_headers_state st [(CONTENT_LENGTH, v1); (UPGRADE, websocket_value);
                                    (CONTENT_LENGTH, v2)] = (Ok tt, st') /\
    payload_length st' = PL_Payload (PT_Payload (Length n2)).
Proof.
  intros H1 H2 Hcl Hc. pose proof (set_content_length _ _ _ Hcl Hc H1) as E1. split.
  - rewrite (set_headers_state_cons _ _ _ _ _ E1). reflexivity.
  - rewrite (set_headers_state_cons _ _ _ _ _ E1).
    rewrite (set_headers_state_cons _ _ _ _ _ (set_upgrade_websocket _)).
    eexists. split.
    + erewrite set_headers_state_cons; [done|].
      apply set_content_length; [done| |done]. simpl. by flags.
    + unfold payload_length. simpl. flags. by rewrite Hc.
Qed.
End DuplicateLength.

(** ** The Connection header *)

Definition token_of (t : ConnectionType) : list Z :=
  match t with KeepAlive => S_KEEP_ALIVE | Close => S_CLOSE | Upgrade => S_UPGRADE end.

Lemma token_at_sound val i tok t t' pos :
  token_at val i tok t = Some (t', pos) ->
  t' = t /\ pos = i + zlen tok /\ pos <= zlen val /\
  eq_ignore_ascii_case (slice val (i, pos)) tok = true.
Proof. unfold token_at. intros. repeat case_match; zbool; by simplify_eq. Qed.

Lemma connection_type_loop_sound val rest : forall i t,
  0 <= i -> connection_type_loop val rest i = Some t ->
  exists j, i <= j < zlen S_CLOSE /\ j + zlen (token_of t) <= zlen val /\
    eq_ignore_ascii_case (slice val (j, j + zlen (token_of t))) (token_of t) = true.
Proof.
  induction rest as [|b rest IH]; intros i t Hi Hl; [done|]. cbn [connection_type_loop] in Hl.
  destruct (zlen S_CLOSE <=? i) eqn:E; zbool; [done|].
  assert (Hrec : connection_type_loop val rest (i + 1) = Some t ->
    exists j, i <= j < zlen S_CLOSE /\ j + zlen (token_of t) <= zlen val /\
      eq_ignore_ascii_case (slice val (j, j + zlen (token_of t))) (token_of t) = true).
  { intros Hr. destruct (IH (i + 1) t ltac:(lia) Hr) as (j & ? & ? & ?). exists j. split_and!; auto; lia. }
  match type of Hl with match ?e with _ => _ end = _ =>
    destruct e as [[t' pos]|] eqn:Et; [|by apply Hrec] end.
  assert (Htok : pos = i + zlen (token_of t') /\ pos <= zlen val /\
                 eq_ignore_ascii_case (slice val (i, pos)) (token_of t') = true).
  { repeat case_match; try done; apply token_at_sound in Et as (-> & ? & ? & ?); auto. }
  assert (Hres : t' = t -> exists j, i <= j < zlen S_CLOSE /\
      j + zlen (token_of t) <= zlen val /\
      eq_ignore_ascii_case (slice val (j, j + zlen (token_of t))) (token_of t) = true).
  { intros ->. destruct Htok as (-> & ? & ?). exists i. split_and!; auto; lia. }
  simpl in Hl. repeat case_match; auto; simplify_eq; auto.
Qed.

Lemma eq_ignore_ascii_case_length a b : eq_ignore_ascii_case a b = true -> length a = length b.
Proof.
  unfold eq_ignore_ascii_case. rewrite bool_decide_eq_true. intros Heq.
  apply (f_equal length) in Heq. by rewrite !length_fmap in Heq.
Qed.

(** Reading the Connection header: a result names a token that does occur,
    in any case, within the first five bytes of the value; and a value that is
    one of the three tokens, in any case, is recognized. *)
Theorem connection_type_correct val :
  (forall t, connection_type val = Some t ->
     exists j, 0 <= j < 5 /\
       eq_ignore_ascii_case (slice val (j, j + zlen (token_of t))) (token_of t) = true) /\
  (forall t, eq_ignore_ascii_case val (token_of t) = true -> connection_type val = Some t).
Proof.
  split.
  - intros t Ht. apply connection_type_loop_sound in Ht as (j & Hj & _ & Heq); [|lia].
    exists j. split; [change (zlen S_CLOSE) with 5 in Hj; lia|done].
  - intros t Ht. pose proof (eq_ignore_ascii_case_length _ _ Ht) as Hlen.
    unfold connection_type. destruct val as [|b rest]; [by destruct t|].
    assert (Hz : zlen (b :: rest) = zlen (token_of t)) by (unfold zlen; by rewrite Hlen).
    assert (Htok : token_at (b :: rest) 0 (token_of t) t = Some (t, zlen (token_of t))).
    { unfold token_at, slice. rewrite Z.add_0_l.
      rewrite Hz, Z.leb_refl. simpl snd. simpl fst. rewrite Z.sub_0_r, zdrop_0, ztake_all by lia.
      by rewrite Ht. }
    assert (Hb : to_ascii_lowercase b = to_ascii_lowercase (default 0 (head (token_of t)))).
    { unfold eq_ignore_ascii_case in Ht. apply bool_decide_eq_true in Ht.
      destruct t; simpl in Ht; by injection Ht as ->. }
    cbn [connection_type_loop].
    destruct (zlen S_CLOSE <=? 0) eqn:E0; [done|].
    assert (Hsel : (if (b =? 107) || (b =? 75) then token_at (b :: rest) 0 S_KEEP_ALIVE KeepAlive
          else if (b =? 99) || (b =? 67) then token_at (b :: rest) 0 S_CLOSE Close
          else if (b =? 117) || (b =? 85) then token_at (b :: rest) 0 S_UPGRADE Upgrade
          else None) = Some (t, zlen (token_of t))).
    { unfold to_ascii_lowercase in Hb.
      destruct t; simpl in Hb; destruct ((65 <=? b) && (b <=? 90)) eqn:Er; zbool;
        [assert (b = 67) as -> by lia|subst b
        |assert (b = 75) as -> by lia|subst b
        |assert (b = 85) as -> by lia|subst b]; exact Htok. }
    rewrite Hsel. destruct (zlen (token_of t) + 1 <? zlen (b :: rest)) eqn:E2; zbool; [lia|done].
Qed.

(** Where the Connection header is read too narrowly or too widely: the
    byte right after a token is never looked at, so any one byte may follow it,
    while a token followed by a comma and no space, or preceded by more than
    four bytes, is missed. *)
Theorem connection_type_separator c :
  connection_type (S_CLOSE ++ [c]) = Some Close /\
  connection_type (bs "close,te") = None /\
  connection_type (bs "foo, close") = None.
Proof. split; [reflexivity|]. split; reflexivity. Qed.

(** ** The decoder always returns *)

(** What httparse documents of a header line it reports: the line is in the
    buffer and not empty, and its name is a header name. *)
Class ParserLaws `{Parsers} : Prop := {
  hp_header hs src len name value hs' :
    parse_with_state hs src = (Ok (Complete (HPHeader len name value)), hs') ->
    1 <= len <= zlen src /\ is_Some (header_name_from_bytes (slice (ztake len src) name));
  hp_eof hs src len hs' :
    parse_with_state hs src = (Ok (Complete (HPEof len)), hs') -> len <= zlen src
}.

Section Totality.
Context `{ParserLaws} {T : Type} `{MessageType T}.

Lemma header_line_total (inner : Inner T) val buf name value :
  is_Some (header_name_from_bytes (slice buf name)) ->
  exists r i, header_line inner val buf name value = Val (r, i) /\
    (in_val inner = Some val -> is_Some (in_val i)).
Proof.
  intros [hname Hn]. unfold header_line. rewrite Hn. case_match; [eauto|].
  destruct (set_header _ _ _ _) as [[r v2] st2]. simpl. eauto 10.
Qed.

Lemma decode_headers_total fuel : forall src (inner : Inner T),
  (length src < fuel)%nat -> is_Some (in_val inner) ->
  exists p i src', decode_headers fuel src inner = Val (p, i, src') /\ is_Some (in_val i).
Proof.
  induction fuel as [|fuel IH]; intros src inner Hf [val Hv]; [lia|]. cbn [decode_headers].
  destruct (parse_with_state (in_hdr_st inner) src) as [[[[len name value|len]|]|e] hs] eqn:Ep;
    [| |eauto 10..].
  - destruct (hp_header _ _ _ _ _ _ Ep) as [Hlen Hname].
    destruct (zlen src <? len) eqn:El; zbool; [lia|]. rewrite Hv.
    destruct (header_line_total (set_hdr_st inner hs) val _ _ value Hname)
      as ([[]|e] & i & -> & Hi); [|eauto 10].
    apply IH; [|by apply Hi]. unfold zdrop, zlen in *. rewrite length_drop. lia.
  - apply hp_eof in Ep. destruct (zlen src <? len) eqn:El; zbool; [lia|]. eauto 10.
Qed.

(** [decode] returns, and gives the box back unless it fails. *)
Lemma decode_returns (d : MessageDecoder T) n src :
  is_Some (md_inner d) ->
  exists r d' src', decode_msg d n src = Val (r, d', src') /\
    (is_ok r = true -> is_Some (md_inner d')).
Proof.
  intros [inner Hi]. unfold decode_msg. rewrite Hi.
  destruct (match in_val inner with Some _ => _ | None => _ end) as [[[e|] i1] s1];
    [by do 3 eexists|].
  destruct (in_val i1) as [v|] eqn:Ev.
  - destruct (decode_headers_total (S (length s1)) s1 i1) as (p & i2 & s2 & -> & [w Hw]);
      [lia|by rewrite Ev|].
    destruct p as [[[]|e]|]; cbv zeta beta; rewrite ?Hw; repeat case_match;
      do 3 eexists; by split.
  - repeat case_match; do 3 eexists; by split.
Qed.

(** On any input, a decoder that has its box returns: [decode] does not panic
    and its loop over the header lines ends; and unless it returned an error,
    the box is back in its cell, so it can be called again. *)
Theorem decode_total (d : MessageDecoder T) n src :
  is_Some (md_inner d) ->
  exists r d' src', decode_msg d n src = Val (r, d', src') /\
    (is_ok r = true -> is_Some (md_inner d')).
Proof. apply decode_returns. Qed.

(** After an error in the first line the decoder is lost: the box is gone
    from its cell, and every later call of [decode], and [clone], panics. *)
Theorem first_line_error_poisons (d : MessageDecoder T) i n src e src1 :
  md_inner d = Some i ->
  in_val i = None ->
  decode_line n src = (Ready (Err e), src1) ->
  exists d', decode_msg d n src = Val (Err e, d', src1) /\
    clone_decoder d' = Panic /\ forall n2 src2, decode_msg d' n2 src2 = Panic.
Proof.
  intros Hi Hv Hl. unfold decode_msg. rewrite Hi, Hv, Hl. eexists. split; [done|]. done.
Qed.
End Totality.

(** ** An instance of the parsers *)
Module RefParsers.

Fixpoint index_of (c : Z) (l : list Z) (i : Z) : option Z :=
  match l with
  | [] => None
  | x :: l' => if x =? c then Some i else index_of c l' (i + 1)
  end.

(** The index of the first CRLF. *)
Fixpoint find_crlf (l : list Z) (i : Z) : option Z :=
  match l with
  | [] => None
  | x :: l' => match l' with
               | [] => None
               | y :: _ => if (x =? CR) && (y =? LF) then Some i else find_crlf l' (i + 1)
               end
  end.

Definition header_line_parse (_ : unit) (src : list Z)
  : result (Status HeaderParsed) HttparseError * unit :=
  match find_crlf src 0 with
  | None => (Ok Partial, tt)
  | Some k =>
      if k =? 0 then (Ok (Complete (HPEof 2)), tt)
      else match index_of 58 (ztake k src) 0 with
           | Some c => if c =? 0 then (Err HP_HeaderName, tt)
                       else (Ok (Complete (HPHeader (k + 2) (0, c) (c + 2, k))), tt)
           | None => (Err HP_HeaderName, tt)
           end
  end.

Definition request_line_parse (src : list Z) : result (Status ReqLine) HttparseError :=
  match find_crlf src 0 with
  | None => Ok Partial
  | Some k =>
      let line := ztake k src in
      match index_of 32 line 0 with
      | None => Err HP_Token
      | Some a => match index_of 32 (zdrop (a + 1) line) (a + 1) with
                  | None => Err HP_Token
                  | Some b =>
                      if bool_decide (zdrop (b + 1) line = bs "HTTP/1.1")
                      then Ok (Complete (mkReqLine (k + 2) (0, a) (a + 1, b) 1))
                      else if bool_decide (zdrop (b + 1) line = bs "HTTP/1.0")
                      then Ok (Complete (mkReqLine (k + 2) (0, a) (a + 1, b) 0))
                      else Err HP_Version
                  end
      end
  end.

Definition digits (l : list Z) : option Z :=
  match l with
  | [] => None
  | _ => foldl (fun a c => match a with
                           | Some v => if (48 <=? c) && (c <=? 57) then Some (10 * v + (c - 48)) else None
                           | None => None
                           end) (Some 0) l
  end.

Definition status_line_parse (src : list Z) : result (Status ResLine) HttparseError :=
  match find_crlf src 0 with
  | None => Ok Partial
  | Some k => match digits (slice src (9, 12)) with
              | Some c => Ok (Complete (mkResLine (k + 2) 1 c))
              | None => Err HP_Status
              end
  end.

#[export] Instance parsers : Parsers := {
  HState := unit;
  hstate_default := tt;
  parse_with_state := header_line_parse;
  parse_request := request_line_parse;
  parse_response := status_line_parse;
  header_name_from_bytes l := match l with [] => None | _ => Some (to_ascii_lowercase <$> l) end;
  method_from_bytes l := match l with [] => None | _ => Some l end;
  uri_try_from l := match l with [] => None | _ => Some (mkUri l (Some l)) end;
  status_from_u16 c := if (100 <=? c) && (c <=? 999) then Some c else None;
  atoi_u64 := digits
}.

Lemma index_of_bound c l : forall i k, index_of c l i = Some k -> i <= k < i + zlen l.
Proof.
  induction l as [|x l IH]; intros i k Hk; [done|]. simpl in Hk. rewrite zlen_cons.
  pose proof (zlen_nonneg l). case_match; [simplify_eq; lia|]. apply IH in Hk. lia.
Qed.

Lemma find_crlf_bound l : forall i k, find_crlf l i = Some k -> i <= k /\ k + 2 <= i + zlen l.
Proof.
  induction l as [|x [|y l] IH]; intros i k Hk; try done. cbn [find_crlf] in Hk.
  pose proof (zlen_nonneg l). rewrite zlen_cons.
  case_match; [simplify_eq; rewrite zlen_cons; lia|]. apply IH in Hk. lia.
Qed.

Lemma slice_nonempty (l : list Z) n k : 1 <= n <= k -> k <= zlen l -> slice (ztake k l) (0, n) <> [].
Proof.
  intros Hn Hk He. apply (f_equal length) in He. unfold slice, ztake, zdrop, zlen in *. simpl in *.
  rewrite length_take, length_drop, length_take in He. simpl in He. lia.
Qed.

#[export] Instance parser_laws : ParserLaws.
Proof.
  split; simpl; unfold header_line_parse; intros [] src; [intros len name value [] Hp|intros len [] Hp];
    (destruct (find_crlf src 0) as [k|] eqn:Ek; [|done]); apply find_crlf_bound in Ek;
    (destruct (k =? 0) eqn:E0; zbool; [by simplify_eq; lia|]);
    (destruct (index_of 58 (ztake k src) 0) as [c|] eqn:Ec; [|done]);
    (destruct (c =? 0) eqn:E1; zbool; [done|]); [|done]. simplify_eq.
  apply index_of_bound in Ec. rewrite zlen_ztake in Ec by lia. split; [lia|].
  pose proof (slice_nonempty src c (k + 2)) as Hs.
  destruct (slice (ztake (k + 2) src) (0, c)) eqn:E; [|eauto]. destruct Hs; auto; lia.
Qed.
End RefParsers.
Import RefParsers.

(** A POST of five bytes, and its head cut off in the middle of a header. *)
Definition sample_post : list Z :=
  bs "POST /x HTTP/1.1" ++ CRLF ++ bs "Content-Length: 5" ++ CRLF ++ CRLF ++ bs "hello".

Lemma default_is_fresh : MessagePool.fresh_request RequestHeadOps.default.
Proof. by repeat split. Qed.

Lemma decoded_request_framing_witness :
  exists h pl d' src',
    decode_msg (new_decoder ConfigOps.new) RequestHeadOps.default sample_post
      = Val (Ok (Some (h, pl)), d', src') /\ request_framing h pl /\ pl = PT_Payload (Length 5).
Proof.
  eexists _, _, _, _. split; [vm_compute; reflexivity|]. split; [|reflexivity].
  eapply (decoded_request_framing ConfigOps.new (new_decoder ConfigOps.new) _
            RequestHeadOps.default sample_post).
  - constructor.
  - exact default_is_fresh.
  - vm_compute. reflexivity.
Defined.

Lemma head_limits_enforced_witness :
  exists i d' src',
    decode_msg (new_decoder ConfigOps.new) RequestHeadOps.default (take 24 sample_post)
      = Val (Ok None, d', src') /\ md_inner d' = Some i /\ in_consumed i + zlen src' < 65536.
Proof.
  destruct (decode_msg (new_decoder ConfigOps.new) RequestHeadOps.default (take 24 sample_post))
    as [[[r d'] src']| |] eqn:E; [|vm_compute in E; discriminate..].
  assert (Hr : r = Ok None) by (vm_compute in E; congruence). subst r.
  destruct (head_limits_enforced ConfigOps.new (new_decoder ConfigOps.new) d'
              RequestHeadOps.default (take 24 sample_post) None src') as (i & Hi & Hl).
  - constructor.
  - exact default_is_fresh.
  - vm_compute. discriminate.
  - exact E.
  - exists i, d', src'. split_and!; auto.
Defined.

Lemma duplicate_content_length_witness :
  let v s := mkHeaderValue (bs s) false in
  (set_headers_state state_default [(CONTENT_LENGTH, v "5"); (CONTENT_LENGTH, v "6")]).1
    = Err DE_Header /\
  exists st', set_headers_state state_default
    [(CONTENT_LENGTH, v "5"); (UPGRADE, websocket_value); (CONTENT_LENGTH, v "6")] = (Ok tt, st') /\
    payload_length st' = PL_Payload (PT_Payload (Length 6)).
Proof. intros v. by apply (duplicate_content_length state_default (v "5") (v "6") 5 6). Defined.

Lemma decode_total_witness :
  exists r d' src',
    decode_msg (new_decoder ConfigOps.new) RequestHeadOps.default sample_post = Val (r, d', src') /\
    (is_ok r = true -> is_Some (md_inner d')).
Proof. apply (decode_total (new_decoder ConfigOps.new)). eexists. reflexivity. Defined.

Lemma first_line_error_poisons_witness :
  let src := bs "GET / SPDY/3" ++ CRLF in
  exists d', decode_msg (new_decoder ConfigOps.new) RequestHeadOps.default src
      = Val (Err DE_Version, d', src) /\
    clone_decoder d' = Panic /\ forall n2 src2, decode_msg d' n2 src2 = Panic.
Proof.
  intros src. eapply (first_line_error_poisons (new_decoder ConfigOps.new)).
  - reflexivity.
  - reflexivity.
  - vm_compute. reflexivity.
Defined.
