(* ===== verification/Encoder.v ===== *)
(** * The message encoder

    [h1/encoder.rs]: the transfer encodings of a body, the decimal printing
    routines with their lookup table and byte buffers, the status line, the
    header block and [MessageEncoder].  An output buffer ([BytePages]) is the
    list of bytes written so far.  The order in which the hash map yields its
    entries is a parameter; it only has to be some order of the entries. *)
From S2P Require Import Prelude Headers Message Config Errors Payload.

(** [BodySize] of [types/body.rs] *)
Inductive BodySize := BS_None | BS_Empty | BS_Sized (n : Z) | BS_Stream.

#[export] Instance BodySize_eq_dec : EqDecision BodySize.
Proof. solve_decision. Defined.

Definition body_is_eof (s : BodySize) : bool :=
  match s with BS_None | BS_Empty => true | BS_Sized n => n =? 0 | BS_Stream => false end.

(** ** Transfer encodings *)

Inductive TransferEncodingKind :=
| TE_Chunked (eof : bool)
| TE_Length (remaining : Z)
| TE_Eof.
Definition TransferEncoding := TransferEncodingKind.

Definition te_empty : TransferEncoding := TE_Length 0.
Definition te_eof : TransferEncoding := TE_Eof.
Definition te_chunked : TransferEncoding := TE_Chunked false.
Definition te_length (len : Z) : TransferEncoding := TE_Length len.

(** [TransferEncoding::encode]: the result, the encoder, the buffer.  Writing
    the size line into memory does not fail. *)
Definition te_encode (kind : TransferEncoding) (msg : list Z) (buf : list Z)
  : result bool EncodeError * TransferEncoding * list Z :=
  match kind with
  | TE_Eof => match msg with
              | [] => (Ok true, kind, buf)
              | _ => (Ok false, kind, buf ++ msg)
              end
  | TE_Chunked eof =>
      if eof then (Ok true, kind, buf)
      else match msg with
           | [] => (Ok true, TE_Chunked true, buf ++ bs "0" ++ CRLF ++ CRLF)
           | _ => (Ok false, kind, buf ++ size_line (zlen msg) ++ msg ++ CRLF)
           end
  | TE_Length remaining =>
      if 0 <? remaining then
        match msg with
        | [] => (Ok (remaining =? 0), kind, buf)
        | _ =>
            let len := Z.min remaining (zlen msg) in
            let remaining' := remaining - len in
            (Ok (remaining' =? 0), TE_Length remaining', buf ++ ztake len msg)
        end
      else (Ok true, kind, buf)
  end.

Definition te_encode_eof (kind : TransferEncoding) (buf : list Z)
  : result unit EncodeError * TransferEncoding * list Z :=
  match kind with
  | TE_Eof => (Ok tt, kind, buf)
  | TE_Length rem => ((if negb (rem =? 0) then Err EE_UnexpectedEof else Ok tt), kind, buf)
  | TE_Chunked eof =>
      if negb eof then (Ok tt, TE_Chunked true, buf ++ bs "0" ++ CRLF ++ CRLF)
      else (Ok tt, kind, buf)
  end.

(** ** Decimal numbers *)

Definition DEC_DIGITS_LUT : list Z :=
  bs "0001020304050607080910111213141516171819" ++
  bs "2021222324252627282930313233343536373839" ++
  bs "4041424344454647484950515253545556575859" ++
  bs "6061626364656667686970717273747576777879" ++
  bs "8081828384858687888990919293949596979899".

(** Writes through raw pointers: [Panic] stands for an access out of bounds,
    which is undefined behaviour in the source. *)
Definition put (buf : list Z) (i v : Z) : outcome (list Z) :=
  if (0 <=? i) && (i <? zlen buf) then Val (<[Z.to_nat i := v]> buf) else Panic.

(** [ptr::copy_nonoverlapping(lut_ptr.offset(d), buf_ptr.offset(curr), 2)] *)
Definition copy_lut2 (d : Z) (buf : list Z) (curr : Z) : outcome (list Z) :=
  match DEC_DIGITS_LUT !! Z.to_nat d, DEC_DIGITS_LUT !! Z.to_nat (d + 1) with
  | Some a, Some b =>
      if d <? 0 then Panic
      else buf1 ← put buf curr a; put buf1 (curr + 1) b
  | _, _ => Panic
  end.

Definition STATUS_LINE_BUF_SIZE : nat := 13.

Definition write_status_line (version : Version) (n : Z) (bytes : list Z) : outcome (list Z) :=
  let buf := match version with
             | HTTP_2 => bs "HTTP/2       "
             | HTTP_10 => bs "HTTP/1.0     "
             | HTTP_09 => bs "HTTP/0.9     "
             | _ => bs "HTTP/1.1     "
             end in
  let four := 999 <? n in
  let d1 := Z.shiftl (n mod 100) 1 in
  let n1 := n / 100 in
  buf1 ← copy_lut2 d1 buf 10;
  buf2 ← (if n1 <? 10 then put buf1 9 (u8 (u8 n1 + 48))
                else copy_lut2 (Z.shiftl n1 1) buf1 8);
  Val (bytes ++ buf2 ++ (if four then bs " " else [])).

(** The loop of [convert_usize]: four digits a turn. *)
Fixpoint convert_loop (fuel : nat) (n curr : Z) (buf : list Z) : outcome (Z * Z * list Z) :=
  if 10000 <=? n then
    match fuel with
    | O => NoFuel
    | S f =>
        let rem := n mod 10000 in
        let n' := n / 10000 in
        let d1 := Z.shiftl (rem / 100) 1 in
        let d2 := Z.shiftl (rem mod 100) 1 in
        let curr' := curr - 4 in
        buf1 ← copy_lut2 d1 buf curr';
        buf2 ← copy_lut2 d2 buf1 (curr' + 2);
        convert_loop f n' curr' buf2
    end
  else Val (n, curr, buf).

(** The digits that are left, at most four: the start of the number in the
    buffer, and the buffer. *)
Definition convert_tail (n curr : Z) (buf : list Z) : outcome (Z * list Z) :=
  st ← (if 100 <=? n
        then b ← copy_lut2 (Z.shiftl (n mod 100) 1) buf (curr - 2); Val (n / 100, curr - 2, b)
        else Val (n, curr, buf));
  let '(n1, curr1, buf1) := st in
  if n1 <? 10
  then b ← put buf1 (curr1 - 1) (u8 (u8 n1 + 48)); Val (curr1 - 1, b)
  else b ← copy_lut2 (Z.shiftl n1 1) buf1 (curr1 - 2); Val (curr1 - 2, b).

(** [convert_usize]; [junk] is the uninitialised contents of the buffer.  A u64
    has 20 digits, so the loop turns at most four times. *)
Definition convert_usize (junk : list Z) (n : Z) (bytes : list Z) (eol : bool) : outcome (list Z) :=
  let buf := take 39 junk ++ CRLF in
  st ← convert_loop 5 n 39 buf;
  let '(n1, curr1, buf1) := st in
  st2 ← convert_tail n1 curr1 buf1;
  let '(curr, buf2) := st2 in
  if eol then Val (bytes ++ ztake (41 - curr) (zdrop curr buf2))
  else Val (bytes ++ ztake (39 - curr) (zdrop curr buf2)).

Definition write_content_length (junk : list Z) (n : Z) (bytes : list Z) : outcome (list Z) :=
  if n <? 10 then
    let buf := CRLF ++ bs "content-length: 0" ++ CRLF in
    b ← put buf 18 (u8 (u8 n + 48)); Val (bytes ++ b)
  else if n <? 100 then
    let buf := CRLF ++ bs "content-length: 00" ++ CRLF in
    b ← copy_lut2 (Z.shiftl n 1) buf 18; Val (bytes ++ b)
  else if n <? 1000 then
    let buf := CRLF ++ bs "content-length: 000" ++ CRLF in
    let d1 := Z.shiftl (n mod 100) 1 in
    let n1 := n / 100 in
    b1 ← copy_lut2 d1 buf 19;
    b2 ← put b1 18 (u8 (u8 n1 + 48));
    Val (bytes ++ b2)
  else convert_usize junk n (bytes ++ CRLF ++ bs "content-length: ") true.

(** ** Messages *)

(** The encoder's trait [MessageType]. *)
Class EMessageType (T : Type) := {
  em_status : T -> option Z;
  em_headers : T -> HeaderMap;
  em_chunked : T -> bool;
  em_encode_status : T -> list Z -> outcome (list Z)
}.

(** The environment of the encoder: the order of a hash map's entries, the
    http crate's table of reason phrases, what is in an uninitialised buffer,
    and how the current time prints. *)
Class EncoderEnv := {
  entries : HeaderMap -> list (HeaderName * Value);
  canonical_reason : Z -> option (list Z);
  junk : list Z;
  now : list Z
}.
Class EncoderEnvLaws `{EncoderEnv} : Prop := {
  entries_perm m : entries m ≡ₚ map_to_list m;
  junk_length : length junk = 41%nat;
  now_length : zlen now = 29
}.

Section MessageTypes.
Context `{EncoderEnv}.

Definition encode_status_response (h : ResponseHead) (dst : list Z) : outcome (list Z) :=
  let reason := ResponseHeadOps.reason canonical_reason h in
  dst1 ← write_status_line (rs_version h) (rs_status h) dst;
  Val (dst1 ++ reason).

Definition encode_status_request (h : RequestHead) (dst : list Z) : outcome (list Z) :=
  Val (dst ++ rq_method h ++ bs " " ++
       (if RequestHeadOps.absolute_uri h then uri_string (rq_uri h)
        else match uri_path_and_query (rq_uri h) with Some u => u | None => bs "/" end) ++
       bs " " ++
       match rq_version h with
       | HTTP_09 => bs "HTTP/0.9"
       | HTTP_10 => bs "HTTP/1.0"
       | _ => bs "HTTP/1.1"
       end).

#[export] Instance Response_EMessageType : EMessageType ResponseHead := {
  em_status h := Some (rs_status h);
  em_headers := rs_headers;
  em_chunked := ResponseHeadOps.chunked;
  em_encode_status := encode_status_response
}.

#[export] Instance Request_EMessageType : EMessageType RequestHead := {
  em_status _ := None;
  em_headers := rq_headers;
  em_chunked := RequestHeadOps.chunked;
  em_encode_status := encode_status_request
}.

Definition put_header (dst : list Z) (key : HeaderName) (val : HeaderValue) : list Z :=
  dst ++ key ++ bs ": " ++ hv_inner val ++ CRLF.

(** One turn of the loop over the headers. *)
Definition write_header (skip_len : bool) (acc : list Z * bool) (kv : HeaderName * Value)
  : list Z * bool :=
  let '(dst, has_date) := acc in
  let '(key, value) := kv in
  if decide (key = CONNECTION) then (dst, has_date)
  else if (bool_decide (key = TRANSFER_ENCODING) || bool_decide (key = CONTENT_LENGTH)) && skip_len
  then (dst, has_date)
  else
    let has_date' := if decide (key = DATE) then true else has_date in
    match value with
    | One val => (put_header dst key val, has_date')
    | Multi vec => (fold_left (fun d val => put_header d key val) vec dst, has_date')
    end.

Definition encode_headers {T} `{EMessageType T} (self : T) (dst : list Z) (version : Version)
    (length0 : BodySize) (ctype : ConnectionType) (extra_headers : option HeaderMap)
    (date : DateService.t) : outcome (result unit EncodeError * list Z * DateService.t) :=
  let chunked := em_chunked self in
  let skip_len0 := negb (bool_decide (length0 = BS_Stream)) in
  let '(length, skip_len1) :=
    match em_status self with
    | Some status =>
        if (status =? NO_CONTENT) || (status =? CONTINUE) || (status =? PROCESSING)
        then (BS_None, skip_len0)
        else if status =? SWITCHING_PROTOCOLS then (BS_Stream, true)
        else (length0, skip_len0)
    | None => (length0, skip_len0)
    end in
  st ←
    match length with
    | BS_None => Val (dst ++ CRLF, skip_len1)
    | BS_Empty => Val (dst ++ CRLF ++ bs "content-length: 0" ++ CRLF, skip_len1)
    | BS_Sized len => d ← write_content_length junk len dst; Val (d, skip_len1)
    | BS_Stream =>
        if chunked then Val (dst ++ CRLF ++ bs "transfer-encoding: chunked" ++ CRLF, true)
        else Val (dst ++ CRLF, false)
    end;
  let '(dst1, skip_len) := st in
  let dst2 := match ctype with
              | Upgrade => dst1 ++ bs "connection: upgrade" ++ CRLF
              | KeepAlive => if version_lt version HTTP_11
                             then dst1 ++ bs "connection: keep-alive" ++ CRLF else dst1
              | Close => if version_ge version HTTP_11
                         then dst1 ++ bs "connection: close" ++ CRLF else dst1
              end in
  let extra := default HeaderMapOps.new extra_headers in
  let headers := List.filter (fun kv => negb (bool_decide (is_Some (extra !! kv.1))))
                   (entries (em_headers self)) ++ entries extra in
  let '(dst3, has_date) := fold_left (write_header skip_len) headers (dst2, false) in
  if has_date then Val (Ok tt, dst3 ++ CRLF, date)
  else r ← DateService.set_date_header now dst3 date;
       let '(dst4, date') := r in Val (Ok tt, dst4, date').

(** ** [MessageEncoder] *)

(** [MessageEncoder]: the field [length] is never read. *)
Record MessageEncoder := mkEncoder { me_length : BodySize; me_te : TransferEncoding }.
Definition encoder_default : MessageEncoder := mkEncoder BS_None te_empty.

Definition encode_chunk (e : MessageEncoder) (msg buf : list Z)
  : result bool EncodeError * MessageEncoder * list Z :=
  let '(r, te, buf') := te_encode (me_te e) msg buf in (r, mkEncoder (me_length e) te, buf').

Definition encode_eof (e : MessageEncoder) (buf : list Z)
  : result unit EncodeError * MessageEncoder * list Z :=
  let '(r, te, buf') := te_encode_eof (me_te e) buf in (r, mkEncoder (me_length e) te, buf').

Definition encode {T} `{EMessageType T} (e : MessageEncoder) (dst : list Z) (message : T)
    (head stream : bool) (version : Version) (length : BodySize) (ctype : ConnectionType)
    (extra_headers : option HeaderMap) (date : DateService.t)
  : outcome (result unit EncodeError * MessageEncoder * list Z * DateService.t) :=
  let te := if head then te_empty
            else match length with
                 | BS_Empty | BS_None => te_empty
                 | BS_Sized len => te_length len
                 | BS_Stream => if em_chunked message && negb stream then te_chunked else te_eof
                 end in
  dst1 ← em_encode_status message dst;
  r ← encode_headers message dst1 version length ctype extra_headers date;
  let '(res, dst2, date') := r in
  Val (res, mkEncoder (me_length e) te, dst2, date').
End MessageTypes.
