(* ===== verification/EncoderThms.v ===== *)
(** * Theorems about the message encoder

    The decimal routines print decimal numbers and stay inside their buffers;
    a body that was encoded decodes to itself; the framing of an encoded head
    agrees with the transfer encoding of the body that follows. *)
From S2P Require Import Prelude Headers Message Config Errors Payload Encoder.

Import RefChunkSize.
Import HeaderMapThms.

(** ** Decimal printing *)

(** The decimal digits of a number, the reference the routines are compared to. *)
Fixpoint dec_digits (fuel : nat) (n : Z) (acc : list Z) : list Z :=
  match fuel with
  | O => acc
  | S f => let acc' := 48 + n mod 10 :: acc in
           if n / 10 =? 0 then acc' else dec_digits f (n / 10) acc'
  end.
Definition to_dec (n : Z) : list Z := dec_digits 20 n [].

(** The number a string of digits denotes. *)
Definition dec_value (l : list Z) : Z := foldl (fun a c => 10 * a + (c - 48)) 0 l.

Definition two (d : Z) : list Z := [48 + d / 10; 48 + d mod 10].

Lemma dec_digits_S f n acc :
  dec_digits (S f) n acc =
  if n / 10 =? 0 then 48 + n mod 10 :: acc else dec_digits f (n / 10) (48 + n mod 10 :: acc).
Proof. done. Qed.

Lemma dec_digits_app fuel : forall n acc, dec_digits fuel n acc = dec_digits fuel n [] ++ acc.
Proof.
  induction fuel as [|f IH]; intros n acc; [done|]. simpl.
  destruct (n / 10 =? 0); [done|]. rewrite IH, (IH _ [_]). by rewrite <- app_assoc.
Qed.

Lemma dec_digits_fuel f : forall g n,
  (0 < f)%nat -> (0 < g)%nat -> 0 <= n < 10 ^ Z.of_nat f -> n < 10 ^ Z.of_nat g ->
  dec_digits f n [] = dec_digits g n [].
Proof.
  induction f as [|f IH]; intros [|g] n Hf Hg Hn Hn2; try lia. simpl.
  destruct (n / 10 =? 0) eqn:E; zbool; [done|]. rewrite (dec_digits_app f), (dec_digits_app g).
  f_equal. rewrite !Nat2Z.inj_succ, !Z.pow_succ_r in * by lia.
  assert (10 <= n) by (destruct (Z.le_gt_cases 10 n); [done|]; rewrite Z.div_small in E; lia).
  apply IH; try (split; [apply Z.div_pos|]); try apply Z.div_lt_upper_bound; try lia.
  - destruct f; [simpl in *; lia|lia].
  - destruct g; [simpl in *; lia|lia].
Qed.

Lemma to_dec_digit n : 0 <= n < 10 -> to_dec n = [48 + n].
Proof. intros Hn. unfold to_dec. simpl. rewrite Z.div_small, Z.mod_small by lia. done. Qed.

Lemma to_dec_step n :
  10 <= n < 10 ^ 20 -> to_dec n = to_dec (n / 10) ++ [48 + n mod 10].
Proof.
  intros Hn. unfold to_dec at 1. change 20%nat with (S 19). rewrite dec_digits_S.
  destruct (n / 10 =? 0) eqn:E; zbool; [Z.div_mod_to_equations; lia|].
  rewrite dec_digits_app. f_equal. unfold to_dec.
  apply dec_digits_fuel; try lia; Z.div_mod_to_equations; lia.
Qed.

Lemma to_dec_two n : 10 <= n < 100 -> to_dec n = two n.
Proof.
  intros Hn. rewrite to_dec_step by lia.
  rewrite to_dec_digit by (Z.div_mod_to_equations; lia). done.
Qed.

Lemma to_dec_100 n : 100 <= n < 10 ^ 20 -> to_dec n = to_dec (n / 100) ++ two (n mod 100).
Proof.
  intros Hn. rewrite to_dec_step, to_dec_step by (Z.div_mod_to_equations; lia).
  rewrite <- app_assoc. unfold two. f_equal; [f_equal|]; [by rewrite Z.div_div|].
  simpl. f_equal; [|f_equal]; Z.div_mod_to_equations; lia.
Qed.

Lemma to_dec_10000 n :
  10000 <= n < 10 ^ 20 ->
  to_dec n = to_dec (n / 10000) ++ two (n mod 10000 / 100) ++ two (n mod 10000 mod 100).
Proof.
  intros Hn. rewrite to_dec_100, to_dec_100 by (Z.div_mod_to_equations; lia).
  rewrite <- app_assoc. f_equal; [by rewrite Z.div_div|].
  f_equal; f_equal; Z.div_mod_to_equations; lia.
Qed.

(** The digits of a number denote it. *)
(** [str::parse] reads back the decimal text of every number below the bound. *)
Lemma parse_digits_app bound l1 : forall l2 acc n,
  parse_digits bound l1 acc = Some n -> parse_digits bound (l1 ++ l2) acc = parse_digits bound l2 n.
Proof.
  induction l1 as [|b l1 IH]; intros l2 acc n; simpl; [by intros [= ->]|].
  destruct (digit b) as [d|]; simpl; [|done]. destruct (_ <? _); [|done]. apply IH.
Qed.

Lemma parse_digits_one bound d acc :
  0 <= d < 10 -> acc * 10 + d < bound -> parse_digits bound [48 + d] acc = Some (acc * 10 + d).
Proof.
  intros Hd Ha. cbn [parse_digits]. unfold digit.
  replace ((48 <=? 48 + d) && (48 + d <=? 57)) with true by (symmetry; apply andb_true_intro; lia).
  cbn [mbind option_bind]. replace (48 + d - 48) with d by lia.
  by destruct (Z.ltb_spec (acc * 10 + d) bound); [|lia].
Qed.

Lemma to_dec_parsed bound k : forall n, (0 < k)%nat -> 0 <= n < bound -> n < 10 ^ 20 -> n < 10 ^ Z.of_nat k ->
  parse_digits bound (to_dec n) 0 = Some n /\ exists b l, to_dec n = b :: l /\ b <> 43.
Proof.
  induction k as [|k IH]; intros n Hk Hn H20 Hp; [lia|].
  destruct (Z_lt_le_dec n 10).
  - rewrite to_dec_digit by lia. rewrite parse_digits_one by lia. split; [done|]. exists (48 + n), []. split; [done|lia].
  - rewrite to_dec_step by lia. rewrite Nat2Z.inj_succ, Z.pow_succ_r in Hp by lia.
    destruct (IH (n / 10)) as [Hq (b & t & E & Hb)];
      [destruct k; [simpl in Hp; lia|lia]|Z.div_mod_to_equations; lia..|].
    rewrite (parse_digits_app _ _ _ _ _ Hq), parse_digits_one by (Z.div_mod_to_equations; lia).
    split; [f_equal; Z.div_mod_to_equations; lia|]. rewrite E. by exists b, (t ++ [48 + n mod 10]).
Qed.

Lemma parse_uint_dec bound n : 0 <= n < bound -> bound <= 10 ^ 20 -> parse_uint bound (to_dec n) = Some n.
Proof.
  intros Hn Hb. destruct (to_dec_parsed bound 20 n) as [Hp (b & l & E & Hne)]; [lia..|].
  unfold parse_uint. rewrite E. destruct (Z.eqb_spec b 43); [done|]. by rewrite <- E.
Qed.

Lemma dec_value_to_dec fuel : forall n, (0 < fuel)%nat -> 0 <= n < 10 ^ Z.of_nat fuel ->
  dec_value (dec_digits fuel n []) = n.
Proof.
  induction fuel as [|f IH]; intros n Hf Hn; [lia|]. simpl.
  pose proof (Z.div_mod n 10).
  destruct (n / 10 =? 0) eqn:E; zbool; [unfold dec_value; simpl; lia|].
  rewrite dec_digits_app. unfold dec_value. rewrite foldl_app. fold (dec_value (dec_digits f (n / 10) [])).
  rewrite Nat2Z.inj_succ, Z.pow_succ_r in Hn by lia.
  assert (10 <= n) by (destruct (Z.le_gt_cases 10 n); [done|]; rewrite Z.div_small in E; lia).
  rewrite IH; [simpl; lia|destruct f; [simpl in *; lia|lia]|].
  split; [apply Z.div_pos|apply Z.div_lt_upper_bound]; lia.
Qed.

(** *** Writing into the buffers *)

Definition lut_ok (d : nat) : bool :=
  bool_decide (DEC_DIGITS_LUT !! (2 * d)%nat = Some (48 + Z.of_nat d / 10)) &&
  bool_decide (DEC_DIGITS_LUT !! (2 * d + 1)%nat = Some (48 + Z.of_nat d mod 10)).

Lemma lut_all : forallb lut_ok (seq 0 100) = true.
Proof. vm_compute. reflexivity. Qed.

Lemma lut_lookup d : 0 <= d < 100 ->
  DEC_DIGITS_LUT !! Z.to_nat (2 * d) = Some (48 + d / 10) /\
  DEC_DIGITS_LUT !! Z.to_nat (2 * d + 1) = Some (48 + d mod 10).
Proof.
  intros Hd. pose proof lut_all as Hall. rewrite forallb_forall in Hall.
  specialize (Hall (Z.to_nat d)). unfold lut_ok in Hall.
  rewrite andb_true_iff, !bool_decide_eq_true, Z2Nat.id in Hall by lia.
  destruct Hall as [H1 H2]; [apply in_seq; lia|].
  split; [rewrite <- H1|rewrite <- H2]; f_equal; lia.
Qed.

Lemma put_at pre x suf v : put (pre ++ x :: suf) (zlen pre) v = Val (pre ++ v :: suf).
Proof.
  unfold put. pose proof (zlen_nonneg pre). rewrite zlen_app, zlen_cons.
  pose proof (zlen_nonneg suf).
  destruct (0 <=? zlen pre) eqn:E1, (zlen pre <? zlen pre + (1 + zlen suf)) eqn:E2; zbool; try lia.
  simpl. f_equal. unfold zlen. rewrite Nat2Z.id.
  rewrite <- (Nat.add_0_r (length pre)). by rewrite insert_app_r.
Qed.

Lemma copy_lut2_at d pre x y suf :
  0 <= d < 100 ->
  copy_lut2 (Z.shiftl d 1) (pre ++ x :: y :: suf) (zlen pre) = Val (pre ++ two d ++ suf).
Proof.
  intros Hd. unfold copy_lut2. rewrite Z.shiftl_mul_pow2 by lia.
  change (2 ^ 1) with 2. rewrite (Z.mul_comm d).
  destruct (lut_lookup d Hd) as [-> ->].
  destruct (2 * d <? 0) eqn:E; zbool; [lia|].
  rewrite put_at. simpl.
  replace (zlen pre + 1) with (zlen (pre ++ [48 + d / 10])) by (rewrite zlen_app; done).
  rewrite (app_assoc pre [_] (y :: suf) : pre ++ (48 + d / 10) :: y :: suf = _) by done.
  rewrite put_at, <- app_assoc. done.
Qed.

Lemma split_last2 (pre : list Z) :
  2 <= zlen pre -> exists p x y, pre = p ++ [x; y] /\ zlen p = zlen pre - 2.
Proof.
  intros Hl. destruct (drop (length pre - 2) pre) as [|x [|y [|z t]]] eqn:E;
    pose proof (f_equal length E) as El; rewrite length_drop in El; unfold zlen in *; simpl in El;
    try lia.
  exists (take (length pre - 2) pre), x, y. rewrite <- E, take_drop, length_take.
  split; [done|]. lia.
Qed.

Lemma copy_lut2_last d pre suf :
  0 <= d < 100 -> 2 <= zlen pre ->
  exists p, copy_lut2 (Z.shiftl d 1) (pre ++ suf) (zlen pre - 2) = Val (p ++ two d ++ suf) /\
            zlen p = zlen pre - 2.
Proof.
  intros Hd Hl. destruct (split_last2 pre Hl) as (p & x & y & -> & Hp). exists p.
  split; [|done]. rewrite <- Hp, <- app_assoc. by apply copy_lut2_at.
Qed.

Lemma put_last v pre suf :
  1 <= zlen pre ->
  exists p, put (pre ++ suf) (zlen pre - 1) v = Val (p ++ v :: suf) /\ zlen p = zlen pre - 1.
Proof.
  intros Hl. destruct pre as [|x p _] using rev_ind; [rewrite zlen_nil in Hl; lia|].
  exists p. rewrite zlen_app. change (zlen [x]) with 1. rewrite Z.add_simpl_r, <- app_assoc.
  split; [apply put_at|lia].
Qed.

Lemma convert_loop_ok fuel : forall n pre suf,
  0 <= n < 10 ^ (4 * Z.of_nat fuel + 4) -> n < 10 ^ 20 -> 4 * Z.of_nat fuel <= zlen pre ->
  exists n' p pad, convert_loop fuel n (zlen pre) (pre ++ suf) = Val (n', zlen p, p ++ pad ++ suf) /\
    0 <= n' < 10000 /\ to_dec n = to_dec n' ++ pad /\ zlen pre - 4 * Z.of_nat fuel <= zlen p.
Proof.
  induction fuel as [|f IH]; intros n pre suf Hn Hmax Hl;
    (destruct (10000 <=? n) eqn:E; zbool;
      [|simpl; rewrite (proj2 (Z.leb_gt _ _)) by lia;
        exists n, pre, []; rewrite app_nil_r; split_and!; try done; lia]).
  { simpl in Hn. lia. }
  cbn [convert_loop]. rewrite (proj2 (Z.leb_le _ _)) by lia.
  destruct (split_last2 pre) as (p1 & x & y & -> & Hp1); [lia|].
  destruct (split_last2 p1) as (p2 & x2 & y2 & -> & Hp2); [lia|].
  rewrite !zlen_app in *. change (zlen [x; y]) with 2 in *. change (zlen [x2; y2]) with 2 in *.
  replace (zlen p2 + 2 + 2 - 4) with (zlen p2) by lia.
  rewrite <- !app_assoc. simpl app.
  rewrite copy_lut2_at by (Z.div_mod_to_equations; lia). cbn [mbind outcome_bind].
  replace (zlen p2 + 2) with (zlen (p2 ++ two (n mod 10000 / 100))) by (rewrite zlen_app; done).
  rewrite app_assoc, copy_lut2_at, <- app_assoc by (Z.div_mod_to_equations; lia). cbn [mbind outcome_bind].
  destruct (IH (n / 10000) p2 (two (n mod 10000 / 100) ++ two (n mod 10000 mod 100) ++ suf))
    as (n' & p & pad & Hloop & Hn' & Hdec & Hlen).
  - split; [apply Z.div_pos; lia|]. apply Z.div_lt_upper_bound; [lia|].
    change 10000 with (10 ^ 4). rewrite <- Z.pow_add_r by lia.
    replace (4 + (4 * Z.of_nat f + 4)) with (4 * Z.of_nat (S f) + 4) by lia. lia.
  - Z.div_mod_to_equations; lia.
  - lia.
  - exists n', p, (pad ++ two (n mod 10000 / 100) ++ two (n mod 10000 mod 100)).
    rewrite <- !app_assoc. split_and!; try lia; [done| |].
    + rewrite to_dec_10000, Hdec by lia. by rewrite <- app_assoc.
    + rewrite zlen_app. change (zlen (two _)) with 2. lia.
Qed.

Lemma u8_digit n : 0 <= n < 10 -> u8 (u8 n + 48) = 48 + n.
Proof. intros. unfold u8. rewrite (Z.mod_small n), Z.mod_small by lia. lia. Qed.

Lemma convert_tail_ok n pre suf :
  0 <= n < 10000 -> 4 <= zlen pre ->
  exists p, convert_tail n (zlen pre) (pre ++ suf) = Val (zlen p, p ++ to_dec n ++ suf).
Proof.
  intros Hn Hl. unfold convert_tail.
  assert (Hlast : forall m (q t : list Z), 0 <= m < 100 -> 2 <= zlen q ->
    exists p, (if m <? 10 then b ← put (q ++ t) (zlen q - 1) (u8 (u8 m + 48)); Val (zlen q - 1, b)
               else b ← copy_lut2 (Z.shiftl m 1) (q ++ t) (zlen q - 2); Val (zlen q - 2, b))
              = Val (zlen p, p ++ to_dec m ++ t)).
  { intros m q t Hm Hq. destruct (m <? 10) eqn:E; zbool.
    - destruct (put_last (u8 (u8 m + 48)) q t) as (p & -> & Hp); [lia|]. exists p.
      cbn [mbind outcome_bind]. by rewrite u8_digit, to_dec_digit, Hp by lia.
    - destruct (copy_lut2_last m q t) as (p & -> & Hp); [lia..|]. exists p.
      cbn [mbind outcome_bind]. by rewrite to_dec_two, Hp by lia. }
  destruct (100 <=? n) eqn:E; zbool.
  - destruct (copy_lut2_last (n mod 100) pre suf) as (p & -> & Hp);
      [Z.div_mod_to_equations; lia|lia|].
    cbn [mbind outcome_bind]. rewrite <- Hp, to_dec_100, <- app_assoc by lia.
    apply Hlast; Z.div_mod_to_equations; lia.
  - cbn [mbind outcome_bind]. apply Hlast; lia.
Qed.

Lemma take_number (p s : list Z) (bytes : list Z) (eol : bool) :
  zlen (p ++ s ++ CRLF) = 41 ->
  (if eol then Val (bytes ++ ztake (41 - zlen p) (zdrop (zlen p) (p ++ s ++ CRLF)))
   else Val (bytes ++ ztake (39 - zlen p) (zdrop (zlen p) (p ++ s ++ CRLF))))
  = Val (bytes ++ s ++ if eol then CRLF else []).
Proof.
  intros Hl. rewrite zdrop_app_exact. rewrite !zlen_app in Hl. change (zlen CRLF) with 2 in Hl.
  destruct eol; simpl.
  - rewrite ztake_all; [done|]. rewrite zlen_app. change (zlen CRLF) with 2. lia.
  - replace (39 - zlen p) with (zlen s) by lia. by rewrite ztake_app_exact, app_nil_r.
Qed.

(** None of the routines changes the length of its buffer. *)
Lemma put_length buf i v b : put buf i v = Val b -> zlen b = zlen buf.
Proof.
  unfold put, zlen. case_match; [|done]. intros [= <-]. by rewrite length_insert.
Qed.
Lemma copy_lut2_length d buf c b : copy_lut2 d buf c = Val b -> zlen b = zlen buf.
Proof.
  unfold copy_lut2. repeat case_match; try done. destruct (put buf c z) eqn:E; simpl; try done.
  intros E2. apply put_length in E, E2. congruence.
Qed.
Lemma convert_loop_length fuel : forall n c buf n' c' b,
  convert_loop fuel n c buf = Val (n', c', b) -> zlen b = zlen buf.
Proof.
  induction fuel as [|f IH]; intros n c buf n' c' b; simpl; case_match; try done; try congruence.
  destruct (copy_lut2 _ _ _) as [b1| |] eqn:E1; simpl; try done.
  destruct (copy_lut2 _ b1 _) as [b2| |] eqn:E2; simpl; try done.
  intros Hl. apply IH in Hl. apply copy_lut2_length in E1, E2. congruence.
Qed.
Lemma convert_tail_length n c buf c' b : convert_tail n c buf = Val (c', b) -> zlen b = zlen buf.
Proof.
  unfold convert_tail. intros Hc.
  destruct (if 100 <=? n then _ else _) as [[[n1 c1] b1]| |] eqn:E; simpl in Hc; try done.
  assert (Hb1 : zlen b1 = zlen buf).
  { destruct (100 <=? n); [|congruence]. destruct (copy_lut2 _ _ _) eqn:E1; simpl in E; try done.
    apply copy_lut2_length in E1. congruence. }
  clear E. destruct (n1 <? 10).
  - destruct (put _ _ _) eqn:E2; simpl in Hc; try done. apply put_length in E2. simplify_eq. congruence.
  - destruct (copy_lut2 _ _ _) eqn:E2; simpl in Hc; try done. apply copy_lut2_length in E2.
    simplify_eq. congruence.
Qed.

Lemma convert_usize_ok junk n bytes eol :
  (39 <= length junk)%nat -> 0 <= n < 2 ^ 64 ->
  convert_usize junk n bytes eol = Val (bytes ++ to_dec n ++ if eol then CRLF else []).
Proof.
  intros Hj Hn. unfold convert_usize.
  assert (Hl : zlen (take 39 junk) = 39) by (unfold zlen; rewrite length_take; lia).
  destruct (convert_loop_ok 5 n (take 39 junk) CRLF) as (n' & p & pad & E & Hn' & Hdec & Hlen);
    [simpl; lia|lia|lia|].
  rewrite Hl in E. rewrite E. cbn [mbind outcome_bind].
  destruct (convert_tail_ok n' p (pad ++ CRLF)) as [q Eq]; [lia..|].
  rewrite Eq. cbn [mbind outcome_bind].
  apply convert_loop_length in E. apply convert_tail_length in Eq.
  rewrite (app_assoc (to_dec n')), <- Hdec in *. apply take_number.
  rewrite Eq, E, zlen_app, Hl. done.
Qed.

Lemma write_content_length_ok junk n bytes :
  (39 <= length junk)%nat -> 0 <= n < 2 ^ 64 ->
  write_content_length junk n bytes
  = Val (bytes ++ CRLF ++ bs "content-length: " ++ to_dec n ++ CRLF).
Proof.
  intros Hj Hn. unfold write_content_length.
  set (pre := CRLF ++ bs "content-length: ").
  destruct (n <? 10) eqn:E1; zbool.
  { change (CRLF ++ bs "content-length: 0" ++ CRLF) with (pre ++ 48 :: CRLF).
    change 18 with (zlen pre). rewrite put_at, u8_digit, to_dec_digit by lia. done. }
  destruct (n <? 100) eqn:E2; zbool.
  { change (CRLF ++ bs "content-length: 00" ++ CRLF) with (pre ++ 48 :: 48 :: CRLF).
    change 18 with (zlen pre). rewrite copy_lut2_at, to_dec_two by lia. done. }
  destruct (n <? 1000) eqn:E3; zbool.
  { change (CRLF ++ bs "content-length: 000" ++ CRLF) with ((pre ++ [48]) ++ 48 :: 48 :: CRLF).
    change 19 with (zlen (pre ++ [48])).
    rewrite copy_lut2_at by (Z.div_mod_to_equations; lia). cbn [mbind outcome_bind].
    rewrite <- app_assoc. change ([48] ++ two (n mod 100) ++ CRLF) with (48 :: (two (n mod 100) ++ CRLF)).
    change 18 with (zlen pre). rewrite put_at, u8_digit by (Z.div_mod_to_equations; lia).
    cbn [mbind outcome_bind]. rewrite to_dec_100, (to_dec_digit (n / 100))
      by (Z.div_mod_to_equations; lia). done. }
  rewrite convert_usize_ok by done. by rewrite <- !app_assoc.
Qed.

(** C29.  Content-Length as it is written: on every branch of
    [write_content_length], the optimised one included, every store is inside
    its buffer, and the header line carries the decimal digits of the length,
    which denote it. *)
Theorem content_length_line_exact junk n bytes :
  length junk = 41%nat -> 0 <= n < 2 ^ 64 ->
  write_content_length junk n bytes
  = Val (bytes ++ CRLF ++ bs "content-length: " ++ to_dec n ++ CRLF) /\
  convert_usize junk n bytes false = Val (bytes ++ to_dec n) /\
  dec_value (to_dec n) = n.
Proof.
  intros Hj Hn. split_and!.
  - apply write_content_length_ok; lia.
  - rewrite convert_usize_ok by lia. by rewrite app_nil_r.
  - apply dec_value_to_dec; simpl; lia.
Qed.

Lemma content_length_line_exact_witness :
  write_content_length (repeat 0 41) 18446744073709551615 (bs "OK")
  = Val (bs "OK" ++ CRLF ++ bs "content-length: 18446744073709551615" ++ CRLF).
Proof. apply (content_length_line_exact (repeat 0 41) 18446744073709551615 (bs "OK")); [done|lia]. Defined.

Definition version_text (v : Version) : list Z :=
  match v with
  | HTTP_2 => bs "HTTP/2  "
  | HTTP_10 => bs "HTTP/1.0"
  | HTTP_09 => bs "HTTP/0.9"
  | _ => bs "HTTP/1.1"
  end.

(** The status line: for every status code the http crate can hold, the
    version and the three digits of the code are written in place. *)
Theorem status_line_exact v n bytes :
  100 <= n <= 999 ->
  write_status_line v n bytes = Val (bytes ++ version_text v ++ bs " " ++ to_dec n ++ bs " ").
Proof.
  intros Hn. unfold write_status_line.
  destruct (999 <? n) eqn:E; zbool; [lia|].
  assert (Hb : match v with
               | HTTP_2 => bs "HTTP/2       " | HTTP_10 => bs "HTTP/1.0     "
               | HTTP_09 => bs "HTTP/0.9     " | _ => bs "HTTP/1.1     "
               end = (version_text v ++ [32; 32]) ++ 32 :: 32 :: [32]) by (by destruct v).
  rewrite Hb. assert (Hl : zlen (version_text v) = 8) by (by destruct v).
  replace 10 with (zlen (version_text v ++ [32; 32])) at 1 by (rewrite zlen_app, Hl; done).
  rewrite copy_lut2_at by (Z.div_mod_to_equations; lia). cbn [mbind outcome_bind].
  destruct (n / 100 <? 10) eqn:E1; zbool; [|Z.div_mod_to_equations; lia].
  replace ((version_text v ++ [32; 32]) ++ two (n mod 100) ++ [32])
    with ((version_text v ++ [32]) ++ 32 :: (two (n mod 100) ++ [32])) by (by rewrite <- !app_assoc).
  replace 9 with (zlen (version_text v ++ [32])) by (rewrite zlen_app, Hl; done).
  rewrite put_at, u8_digit by (Z.div_mod_to_equations; lia). cbn [mbind outcome_bind].
  rewrite to_dec_100, (to_dec_digit (n / 100)) by (Z.div_mod_to_equations; lia).
  by rewrite app_nil_r, <- !app_assoc.
Qed.

Lemma status_line_exact_witness : write_status_line HTTP_11 404 [] = Val (bs "HTTP/1.1 404 ").
Proof. apply (status_line_exact HTTP_11 404 []). lia. Defined.

(** ** Bodies *)

(** A body sent message by message and then ended, as the dispatcher does. *)
Fixpoint send_body (te : TransferEncoding) (msgs : list (list Z)) (buf : list Z)
  : result unit EncodeError * TransferEncoding * list Z :=
  match msgs with
  | [] => te_encode_eof te buf
  | m :: msgs' => let '(_, te', buf') := te_encode te m buf in send_body te' msgs' buf'
  end.

(** The messages before the first empty one, which ends a chunked body. *)
Fixpoint until_empty (msgs : list (list Z)) : list (list Z) :=
  match msgs with
  | [] | [] :: _ => []
  | m :: msgs' => m :: until_empty msgs'
  end.

Lemma send_body_ended msgs buf : send_body (TE_Chunked true) msgs buf = (Ok tt, TE_Chunked true, buf).
Proof. induction msgs; done. Qed.

Lemma send_body_chunked msgs : forall buf,
  send_body te_chunked msgs buf = (Ok tt, TE_Chunked true, buf ++ chunked_wire (until_empty msgs)).
Proof.
  unfold chunked_wire.
  induction msgs as [|[|x m] msgs IH]; intros buf; [done|by apply send_body_ended|].
  cbn [send_body te_encode te_chunked until_empty]. change (TE_Chunked false) with te_chunked.
  rewrite IH. simpl fmap. simpl concat. unfold chunk_wire at 2. by rewrite <- !app_assoc.
Qed.

Lemma until_empty_chunks msgs :
  Forall (fun m => zlen m < 2 ^ 64) msgs -> Forall is_chunk (until_empty msgs).
Proof.
  induction 1 as [|m msgs Hm _ IH]; [constructor|]. destruct m as [|x m]; [constructor|].
  constructor; [|done]. split; [|done]. rewrite zlen_cons. pose proof (zlen_nonneg m). lia.
Qed.

(** Round trip of a chunked body.  The messages up to the first empty one,
    sent through the encoder and ended, and received in any segments by the
    decoder: it delivers exactly their bytes, reports the end, and leaves what
    follows untouched; ending an ended body writes nothing. *)
Theorem chunked_body_roundtrip `{ChunkSizeLaws} msgs rest segs :
  Forall (fun m => zlen m < 2 ^ 64) msgs ->
  exists wire_bytes,
    send_body te_chunked msgs [] = (Ok tt, TE_Chunked true, wire_bytes) /\
    te_encode_eof (TE_Chunked true) wire_bytes = (Ok tt, TE_Chunked true, wire_bytes) /\
    (concat segs = wire_bytes ++ rest ->
     feed chunked_decoder [] segs = (concat (until_empty msgs), Finished, Chunked End 0, rest)).
Proof.
  intros Hm. exists (chunked_wire (until_empty msgs)). split_and!; [by apply send_body_chunked|done|].
  intros He. apply chunked_framing_ok; [by apply until_empty_chunks|done].
Qed.

Lemma chunked_body_roundtrip_witness :
  exists w, send_body te_chunked [bs "hello"; bs " world"] [] = (Ok tt, TE_Chunked true, w) /\
    te_encode_eof (TE_Chunked true) w = (Ok tt, TE_Chunked true, w) /\
    (concat [bs "5" ++ CRLF ++ bs "hel"; bs "lo" ++ CRLF ++ bs "6" ++ CRLF;
             bs " world" ++ CRLF ++ bs "0" ++ CRLF ++ CRLF ++ bs "GET"] = w ++ bs "GET" ->
     feed chunked_decoder [] [bs "5" ++ CRLF ++ bs "hel"; bs "lo" ++ CRLF ++ bs "6" ++ CRLF;
             bs " world" ++ CRLF ++ bs "0" ++ CRLF ++ CRLF ++ bs "GET"]
     = (bs "hello world", Finished, Chunked End 0, bs "GET")).
Proof.
  apply (chunked_body_roundtrip [bs "hello"; bs " world"]). repeat constructor.
Defined.

Lemma te_encode_length n m buf :
  0 <= n ->
  exists r, te_encode (te_length n) m buf
    = (r, te_length (n - Z.min n (zlen m)), buf ++ ztake n m).
Proof.
  intros Hn. pose proof (zlen_nonneg m). unfold te_encode, te_length.
  destruct (0 <? n) eqn:E; zbool.
  - destruct m as [|x m].
    + eexists. change (zlen (@nil Z)) with 0. rewrite Z.min_r, Z.sub_0_r by lia. unfold ztake. by rewrite take_nil, app_nil_r.
    + eexists. f_equal. f_equal.
      destruct (Z.min_spec n (zlen (x :: m))) as [[? ->]|[? ->]]; [done|]. by rewrite !ztake_all.
  - assert (n = 0) as -> by lia. eexists. rewrite Z.min_l by lia. by rewrite app_nil_r.
Qed.

Lemma send_body_length msgs : forall n buf,
  0 <= n ->
  send_body (te_length n) msgs buf =
  ((if zlen (concat msgs) <? n then Err EE_UnexpectedEof else Ok tt),
   TE_Length (Z.max 0 (n - zlen (concat msgs))), buf ++ ztake n (concat msgs)).
Proof.
  induction msgs as [|m msgs IH]; intros n buf Hn.
  - unfold te_length. cbn [send_body te_encode_eof concat]. change (zlen (@nil Z)) with 0.
    rewrite Z.sub_0_r, Z.max_r by lia. unfold ztake. rewrite take_nil, app_nil_r.
    destruct (n =? 0) eqn:E1, (0 <? n) eqn:E2; zbool; try lia; done.
  - cbn [send_body concat]. destruct (te_encode_length n m buf Hn) as [r ->].
    pose proof (zlen_nonneg (concat msgs)). pose proof (zlen_nonneg m).
    rewrite IH, zlen_app by lia. f_equal; [f_equal|].
    + destruct (zlen (concat msgs) <? n - Z.min n (zlen m)) eqn:E1,
        (zlen m + zlen (concat msgs) <? n) eqn:E2; zbool; try lia; done.
    + f_equal. lia.
    + rewrite <- app_assoc. f_equal. unfold ztake, zlen. rewrite take_app. f_equal. f_equal. lia.
Qed.

(** A body under Content-Length [n], in any messages: exactly the first
    [n] bytes of the body are written, never more; ending it is an error if and
    only if the body was shorter than promised. *)
Theorem length_body_exact n msgs buf :
  0 <= n ->
  send_body (te_length n) msgs buf =
  ((if zlen (concat msgs) <? n then Err EE_UnexpectedEof else Ok tt),
   TE_Length (Z.max 0 (n - zlen (concat msgs))), buf ++ ztake n (concat msgs)).
Proof. intros. by apply send_body_length. Qed.

Lemma length_body_exact_witness :
  send_body (te_length 6) [bs "hello"; []; bs " world"] [] = (Ok tt, TE_Length 0, bs "hello ").
Proof. apply (length_body_exact 6 [bs "hello"; []; bs " world"] []). lia. Defined.

(** ** The header block *)

(** Keeping the entries whose name satisfies [p]. *)
Lemma filter_key_values (p : HeaderName -> bool) kvs k :
  snd <$> filter (fun kv => kv.1 = k) (flat_map entry_pairs (List.filter (fun kv => p kv.1) kvs))
  = if p k then snd <$> filter (fun kv => kv.1 = k) (flat_map entry_pairs kvs) else [].
Proof.
  induction kvs as [|[k' v] kvs IH]; [by destruct (p k)|]. cbn [List.filter fst].
  destruct (p k') eqn:Ep; cbn [flat_map]; rewrite ?filter_app, ?fmap_app, IH;
    unfold entry_pairs; simpl; rewrite !entry_pairs_filter; case_decide; subst; rewrite ?Ep; try done;
    by destruct (p k).
Qed.

Section Heads.
Context `{EncoderEnvLaws} {T : Type} `{EMessageType T}.

Definition print_line (nv : HeaderName * HeaderValue) : list Z :=
  nv.1 ++ bs ": " ++ hv_inner nv.2 ++ CRLF.

(** The names the loop writes. *)
Definition written (skip_len : bool) (k : HeaderName) : bool :=
  negb (bool_decide (k = CONNECTION)) &&
  negb ((bool_decide (k = TRANSFER_ENCODING) || bool_decide (k = CONTENT_LENGTH)) && skip_len).

Lemma write_header_eq skip dst hd kv :
  write_header skip (dst, hd) kv =
  if written skip kv.1
  then (dst ++ concat (print_line <$> entry_pairs kv), hd || bool_decide (kv.1 = DATE))
  else (dst, hd).
Proof.
  destruct kv as [k v]. unfold write_header, written. simpl fst.
  destruct (decide (k = CONNECTION)); [by rewrite bool_decide_true|].
  rewrite (bool_decide_false (k = CONNECTION)) by done. simpl andb.
  destruct ((bool_decide (k = TRANSFER_ENCODING) || bool_decide (k = CONTENT_LENGTH)) && skip);
    [done|]. simpl negb. cbv iota.
  assert (Hd : (if decide (k = DATE) then true else hd) = hd || bool_decide (k = DATE)).
  { case_decide; [rewrite bool_decide_true by done|rewrite bool_decide_false by done];
      by rewrite ?orb_true_r, ?orb_false_r. }
  rewrite Hd. unfold entry_pairs, put_header, print_line. simpl.
  destruct v as [x|vec]; simpl; [by rewrite app_nil_r|]. f_equal. clear Hd. revert dst.
  induction vec as [|x vec IH]; intros dst; simpl; [by rewrite app_nil_r|].
  rewrite IH. by rewrite <- !app_assoc.
Qed.

Lemma write_headers_eq skip kvs : forall dst hd,
  fold_left (write_header skip) kvs (dst, hd) =
  (dst ++ concat (print_line <$> flat_map entry_pairs (List.filter (fun kv => written skip kv.1) kvs)),
   hd || existsb (fun kv => bool_decide (kv.1 = DATE)) (List.filter (fun kv => written skip kv.1) kvs)).
Proof.
  induction kvs as [|kv kvs IH]; intros dst hd.
  { simpl. by rewrite app_nil_r, orb_false_r. }
  cbn [fold_left List.filter]. rewrite write_header_eq. destruct (written skip kv.1).
  - rewrite IH. cbn [flat_map existsb]. rewrite fmap_app, concat_app, <- app_assoc.
    by rewrite <- orb_assoc.
  - apply IH.
Qed.

(** The values a head sends under a name: those of the extra headers if they
    have the name, the message's otherwise. *)
Definition merged_values (msg extra : HeaderMap) (k : HeaderName) : list HeaderValue :=
  if bool_decide (is_Some (extra !! k)) then HeaderMapOps.values extra k
  else HeaderMapOps.values msg k.

Definition merged_entries (msg extra : HeaderMap) : list (HeaderName * Value) :=
  List.filter (fun kv => negb (bool_decide (is_Some (extra !! kv.1)))) (entries msg) ++ entries extra.

Lemma merged_entries_values msg extra k :
  snd <$> filter (fun kv => kv.1 = k) (flat_map entry_pairs (merged_entries msg extra))
  = merged_values msg extra k.
Proof.
  unfold merged_entries, merged_values. rewrite flat_map_app, filter_app, fmap_app.
    pose proof (filter_key_values (fun n => negb (bool_decide (is_Some (extra !! n)))) (entries msg) k) as E.
  cbv beta in E. rewrite E. clear E.
  rewrite (entries_values msg), (entries_values extra) by apply entries_perm.
  case_bool_decide as Hk; simpl; [done|]. apply eq_None_not_Some in Hk.
  unfold HeaderMapOps.values at 2. by rewrite Hk, app_nil_r.
Qed.

(** The line that frames the body, and whether it excludes the application's
    own framing headers. *)
Definition framing_line (len : BodySize) (chunked : bool) : list Z :=
  match len with
  | BS_None => CRLF
  | BS_Empty => CRLF ++ bs "content-length: 0" ++ CRLF
  | BS_Sized n => CRLF ++ bs "content-length: " ++ to_dec n ++ CRLF
  | BS_Stream => if chunked then CRLF ++ bs "transfer-encoding: chunked" ++ CRLF else CRLF
  end.
Definition framed (len : BodySize) (chunked : bool) : bool :=
  negb (bool_decide (len = BS_Stream)) || chunked.
Definition connection_line (c : ConnectionType) (v : Version) : list Z :=
  match c with
  | Upgrade => bs "connection: upgrade" ++ CRLF
  | KeepAlive => if version_lt v HTTP_11 then bs "connection: keep-alive" ++ CRLF else []
  | Close => if version_ge v HTTP_11 then bs "connection: close" ++ CRLF else []
  end.
(** Statuses whose head the encoder frames in its own way. *)
Definition special_status (s : option Z) : bool :=
  match s with
  | Some s => (s =? NO_CONTENT) || (s =? CONTINUE) || (s =? PROCESSING) || (s =? SWITCHING_PROTOCOLS)
  | None => false
  end.
Definition sized_u64 (len : BodySize) : Prop :=
  match len with BS_Sized n => 0 <= n < 2 ^ 64 | _ => True end.

Definition te_for (len : BodySize) (chunked : bool) : TransferEncoding :=
  match len with
  | BS_None | BS_Empty => te_empty
  | BS_Sized n => te_length n
  | BS_Stream => if chunked then te_chunked else te_eof
  end.

(** The size the head announces, and whether the application's framing headers
    are left out. *)
Definition no_body_status (s : option Z) : bool :=
  match s with
  | Some s => (s =? NO_CONTENT) || (s =? CONTINUE) || (s =? PROCESSING)
  | None => false
  end.
Definition announced (s : option Z) (len : BodySize) : BodySize :=
  if no_body_status s then BS_None
  else if bool_decide (s = Some SWITCHING_PROTOCOLS) then BS_Stream else len.
Definition skips (s : option Z) (len : BodySize) (chunked : bool) : bool :=
  if no_body_status s then negb (bool_decide (len = BS_Stream)) else framed (announced s len) chunked.

(** The end of a head: the empty line, after a date line if there is none yet. *)
Definition head_end (date : DateService.t) (tail : list Z) (date' : DateService.t) : Prop :=
  (tail = CRLF /\ date' = date) \/ (DateService.check_date now date = Val date' /\ tail = DateService.ds_date date').

Lemma encode_headers_shape (msg : T) dst v len ct extra date :
  sized_u64 len ->
  exists lines tail date',
    encode_headers msg dst v len ct extra date
    = Val (Ok tt, dst ++ framing_line (announced (em_status msg) len) (em_chunked msg) ++
                  connection_line ct v ++ concat (print_line <$> lines) ++ tail, date') /\
    (forall k, snd <$> filter (fun nv => nv.1 = k) lines
      = if written (skips (em_status msg) len (em_chunked msg)) k
        then merged_values (em_headers msg) (default HeaderMapOps.new extra) k else []) /\
    head_end date tail date'.
Proof.
  intros Hl. unfold encode_headers.
  set (sk := negb (bool_decide (len = BS_Stream)) ||
             bool_decide (em_status msg = Some SWITCHING_PROTOCOLS)).
  assert (Hlen : match em_status msg with
    | Some status =>
        if (status =? NO_CONTENT) || (status =? CONTINUE) || (status =? PROCESSING)
        then (BS_None, negb (bool_decide (len = BS_Stream)))
        else if status =? SWITCHING_PROTOCOLS then (BS_Stream, true)
        else (len, negb (bool_decide (len = BS_Stream)))
    | None => (len, negb (bool_decide (len = BS_Stream)))
    end = (announced (em_status msg) len,
           if no_body_status (em_status msg) then negb (bool_decide (len = BS_Stream)) else sk)).
  { unfold announced, no_body_status, sk. destruct (em_status msg) as [s|]; [|by rewrite orb_false_r].
    case_match; [done|]. destruct (s =? SWITCHING_PROTOCOLS) eqn:E; zbool.
    - subst s. by rewrite orb_true_r.
    - rewrite (bool_decide_false (Some s = Some SWITCHING_PROTOCOLS)) by congruence. by rewrite orb_false_r. }
  rewrite Hlen. clear Hlen.
  match goal with |- context [mbind _ ?e] =>
    assert (Hf : e = Val (dst ++ framing_line (announced (em_status msg) len) (em_chunked msg),
                          skips (em_status msg) len (em_chunked msg))) end.
  { unfold skips, framed, announced, sk.
    destruct (no_body_status (em_status msg)); [done|].
    destruct (bool_decide (em_status msg = _)); [by destruct (em_chunked msg)|]. rewrite orb_false_r.
    destruct len as [| |n|]; simpl; try done.
    - rewrite write_content_length_ok by (done || rewrite junk_length; lia). done.
    - by destruct (em_chunked msg). }
  rewrite Hf. clear Hf. cbn [mbind outcome_bind].
  fold (merged_entries (em_headers msg) (default HeaderMapOps.new extra)).
  set (d2 := match ct with Upgrade => _ | KeepAlive => _ | Close => _ end).
  assert (Hd2 : d2 = dst ++ framing_line (announced (em_status msg) len) (em_chunked msg)
                       ++ connection_line ct v).
  { subst d2. unfold connection_line. destruct ct; repeat case_match; rewrite <- ?app_assoc;
      rewrite ?app_nil_r; done. }
  rewrite Hd2, write_headers_eq. clear Hd2 d2.
  set (lines := flat_map entry_pairs _). exists lines.
  assert (Hk : forall k, snd <$> filter (fun nv => nv.1 = k) lines
    = if written (skips (em_status msg) len (em_chunked msg)) k
      then merged_values (em_headers msg) (default HeaderMapOps.new extra) k else []).
  { intros k. subst lines. rewrite (filter_key_values (written _)).
    case_match; [|done]. apply merged_entries_values. }
  case_match.
  - exists CRLF, date. split; [by rewrite <- !app_assoc|]. split; [done|by left].
  - unfold DateService.set_date_header.
    destruct (DateService.check_date now date) as [d'| |] eqn:Ed.
    + exists (DateService.ds_date d'), d'. cbn [mbind outcome_bind]. split; [by rewrite <- !app_assoc|].
      split; [exact Hk|by right].
    + revert Ed. unfold DateService.check_date, DateService.update. rewrite now_length. by destruct (DateService.ds_current date).
    + revert Ed. unfold DateService.check_date, DateService.update. rewrite now_length. by destruct (DateService.ds_current date).
Qed.

(** The head and the body agree.  For every message whose status is not
    one of the four the encoder treats apart, [encode] succeeds; the framing
    line it writes is the one of the transfer encoding it sets for the body; it
    writes one Connection line at most, its own; it writes the application's
    Content-Length and Transfer-Encoding only for a stream that is not chunked;
    and under every other name it sends exactly the values of the merged
    headers, in order. *)
Theorem encoded_head_framing e (msg : T) dst v len ct extra date dst0 :
  em_encode_status msg dst = Val dst0 ->
  special_status (em_status msg) = false -> sized_u64 len ->
  exists lines tail date',
    encode e dst msg false false v len ct extra date
    = Val (Ok tt, mkEncoder (me_length e) (te_for len (em_chunked msg)),
           dst0 ++ framing_line len (em_chunked msg) ++ connection_line ct v ++
           concat (print_line <$> lines) ++ tail, date') /\
    forall k, snd <$> filter (fun nv => nv.1 = k) lines
      = if written (framed len (em_chunked msg)) k
        then merged_values (em_headers msg) (default HeaderMapOps.new extra) k else [].
Proof.
  intros He Hs Hl. unfold encode. rewrite He. cbn [mbind outcome_bind].
  assert (Hnb : no_body_status (em_status msg) = false /\
                bool_decide (em_status msg = Some SWITCHING_PROTOCOLS) = false).
  { unfold special_status in Hs. destruct (em_status msg) as [s|]; [|done]. simpl.
    apply orb_false_iff in Hs as [-> Hn]. zbool. split; [done|].
    apply bool_decide_eq_false. congruence. }
  destruct Hnb as [Hnb H101].
  destruct (encode_headers_shape msg dst0 v len ct extra date Hl)
    as (lines & tail & date' & -> & Hk & _). cbn [mbind outcome_bind].
  unfold skips, announced in *. rewrite Hnb, H101 in *. exists lines, tail, date'. split; [|done].
  repeat f_equal. unfold te_for. destruct len; try done. by rewrite andb_true_r.
Qed.

(** A response without content still writes its body: for status 204 with
    a body of [n] bytes the head has no framing at all, neither Content-Length
    nor Transfer-Encoding, but the body that is handed over next goes out after
    it. *)
Theorem no_content_body_unframed e (msg : T) dst v n ct extra date dst0 body :
  em_encode_status msg dst = Val dst0 ->
  em_status msg = Some NO_CONTENT -> 0 < n < 2 ^ 64 -> zlen body = n ->
  exists lines tail date' head enc,
    encode e dst msg false false v (BS_Sized n) ct extra date = Val (Ok tt, enc, head, date') /\
    head = dst0 ++ CRLF ++ connection_line ct v ++ concat (print_line <$> lines) ++ tail /\
    (forall nv, nv ∈ lines -> nv.1 <> CONTENT_LENGTH /\ nv.1 <> TRANSFER_ENCODING) /\
    (encode_chunk enc body head).2 = head ++ body.
Proof.
  intros He Hs Hn Hb. unfold encode. rewrite He. cbn [mbind outcome_bind].
  destruct (encode_headers_shape msg dst0 v (BS_Sized n) ct extra date)
    as (lines & tail & date' & -> & Hk & _); [simpl; lia|].
  rewrite Hs in *. cbn [mbind outcome_bind]. eexists lines, tail, date', _, _.
  split; [reflexivity|]. split; [reflexivity|]. split.
  - assert (Hno : forall k, written true k = false -> forall nv, nv ∈ lines -> nv.1 <> k).
    { intros k Hw nv Hin <-. specialize (Hk nv.1).
      change (skips (Some NO_CONTENT) (BS_Sized n) (em_chunked msg)) with true in Hk.
      rewrite Hw in Hk. apply fmap_nil_inv in Hk.
      assert (Hf : nv ∈ filter (fun x => x.1 = nv.1) lines) by (by apply list_elem_of_filter).
      rewrite Hk in Hf. by apply not_elem_of_nil in Hf. }
    intros nv Hin. split; by apply Hno.
  - unfold encode_chunk. simpl me_te. destruct (te_encode_length n body
      (dst0 ++ framing_line (announced (Some NO_CONTENT) (BS_Sized n)) (em_chunked msg) ++
       connection_line ct v ++ concat (print_line <$> lines) ++ tail)) as [r E]; [lia|].
    unfold te_length in *. rewrite E. simpl. by rewrite ztake_all by lia.
Qed.
End Heads.

(** ** An environment *)
Module RefEnv.
#[export] Instance env : EncoderEnv := {
  entries := map_to_list;
  canonical_reason _ := None;
  junk := repeat 255 41;
  now := bs "Thu, 01 Jan 1970 00:00:00 GMT"
}.
#[export] Instance env_laws : EncoderEnvLaws.
Proof. split; done. Qed.
End RefEnv.
Import RefEnv.

Definition sample_response (status : Z) : ResponseHead :=
  rs_set_headers (ResponseHeadOps.new status HTTP_11)
    (HeaderMapOps.insert (HeaderMapOps.insert HeaderMapOps.new HOST (mkHeaderValue (bs "h") false))
       CONTENT_LENGTH (mkHeaderValue (bs "99") false)).

Lemma encoded_head_framing_witness :
  exists lines tail date',
    encode encoder_default [] (sample_response 200) false false HTTP_11 (BS_Sized 5) Close None
      DateService.new
    = Val (Ok tt, mkEncoder BS_None (te_length 5),
           bs "HTTP/1.1 200 <unknown status code>" ++ CRLF ++ bs "content-length: 5" ++ CRLF ++
           bs "connection: close" ++ CRLF ++ concat (print_line <$> lines) ++ tail, date') /\
    snd <$> filter (fun nv => nv.1 = CONTENT_LENGTH) lines = [].
Proof.
  destruct (encoded_head_framing encoder_default (sample_response 200) [] HTTP_11 (BS_Sized 5)
    Close None DateService.new (bs "HTTP/1.1 200 <unknown status code>"))
    as (lines & tail & date' & He & Hk); [reflexivity|reflexivity|simpl; lia|].
  exists lines, tail, date'. split; [exact He|apply (Hk CONTENT_LENGTH)].
Defined.

Lemma no_content_body_unframed_witness :
  exists lines tail date' head enc,
    encode encoder_default [] (sample_response 204) false false HTTP_11 (BS_Sized 3) KeepAlive None
      DateService.new = Val (Ok tt, enc, head, date') /\
    head = bs "HTTP/1.1 204 <unknown status code>" ++ CRLF ++ [] ++
           concat (print_line <$> lines) ++ tail /\
    (forall nv, nv ∈ lines -> nv.1 <> CONTENT_LENGTH /\ nv.1 <> TRANSFER_ENCODING) /\
    (encode_chunk enc (bs "abc") head).2 = head ++ bs "abc".
Proof.
  apply (no_content_body_unframed encoder_default (sample_response 204) [] HTTP_11 3 KeepAlive None
    DateService.new); [reflexivity|reflexivity|lia|reflexivity].
Defined.
