(* ===== verification/HeaderValues.v ===== *)
(** * Header values: conversions, comparisons and text

    The rest of [types/value.rs]: the conversions into a [HeaderValue] and to and
    from the http crate's value, equality, order and hash, and the Debug text.
    The http crate's value is a class, with what it documents as laws; itoa is an
    argument. *)
From S2P Require Import Prelude Headers.

(** ** Conversions *)

(** [http::header::HeaderValue]. *)
Class HttpValue (V : Type) := {
  http_from_bytes : list Z -> option V;
  http_as_ref : V -> list Z;
  http_is_sensitive : V -> bool;
  http_set_sensitive : bool -> V -> V
}.
(** It takes the visible bytes, the tab and the bytes above 127, and holds nothing
    else. *)
Class HttpValueLaws V `{HttpValue V} : Prop := {
  http_takes s : forallb is_valid s = true -> exists h, http_from_bytes s = Some h /\ http_as_ref h = s;
  http_valid h : forallb is_valid (http_as_ref h) = true;
  http_set_ref b h : http_as_ref (http_set_sensitive b h) = http_as_ref h;
  http_set_get b h : http_is_sensitive (http_set_sensitive b h) = b
}.

Definition from_str (src : list Z) : result HeaderValue InvalidHeaderValue := try_from_generic src.
Definition from_bytes (src : list Z) : result HeaderValue InvalidHeaderValue := try_from_generic src.

(** The [TryFrom]s, of a str, a String, a ByteString, bytes and their references. *)
Definition try_from_str (t : list Z) : result HeaderValue InvalidHeaderValue := from_str t.
Definition try_from_string_ref (s : list Z) : result HeaderValue InvalidHeaderValue := from_bytes s.
Definition try_from_byte_string_ref (s : list Z) : result HeaderValue InvalidHeaderValue := from_shared s.
Definition try_from_slice (t : list Z) : result HeaderValue InvalidHeaderValue := from_bytes t.
Definition try_from_string (s : list Z) : result HeaderValue InvalidHeaderValue := from_shared s.
Definition try_from_byte_string (s : list Z) : result HeaderValue InvalidHeaderValue := from_shared s.
Definition try_from_vec (vec : list Z) : result HeaderValue InvalidHeaderValue := from_shared vec.

Definition set_sensitive (val : bool) (v : HeaderValue) : HeaderValue := mkHeaderValue (hv_inner v) val.
Definition value_len (v : HeaderValue) : Z := zlen (hv_inner v).
Definition value_is_empty (v : HeaderValue) : bool := bool_decide (hv_inner v = []).

Section Conversions.
Context {V : Type} `{HttpValue V} (itoa : Z -> list Z).

Definition from_http (t : V) : HeaderValue := mkHeaderValue (http_as_ref t) (http_is_sensitive t).
Definition into_http (t : HeaderValue) : outcome V :=
  match http_from_bytes (hv_inner t) with
  | Some hdr => Val (http_set_sensitive (hv_is_sensitive t) hdr)
  | None => Panic
  end.

(** [from_integers] *)
Definition from_integer (num : Z) : HeaderValue := mkHeaderValue (itoa num) false.
End Conversions.

(** ** Equality, order and hash *)

Definition value_eq (a b : HeaderValue) : bool := bool_decide (hv_inner a = hv_inner b).
Definition value_eq_bytes (a : HeaderValue) (b : list Z) : bool := bool_decide (hv_inner a = b).

(** The order of byte strings. *)
Fixpoint bytes_cmp (a b : list Z) : comparison :=
  match a, b with
  | [], [] => Eq
  | [], _ :: _ => Lt
  | _ :: _, [] => Gt
  | x :: a, y :: b => match Z.compare x y with Eq => bytes_cmp a b | c => c end
  end.
Definition value_cmp (a b : HeaderValue) : comparison := bytes_cmp (hv_inner a) (hv_inner b).
Definition value_cmp_bytes (a : HeaderValue) (b : list Z) : comparison := bytes_cmp (hv_inner a) b.

(** What the derived [Hash] feeds to the hasher: the fields. *)
Definition value_hash (v : HeaderValue) : list Z * bool := (hv_inner v, hv_is_sensitive v).

(** ** The Debug text *)

(** [{b:x}] *)
Definition hex_digit (d : Z) : Z := if d <? 10 then 48 + d else 87 + d.
Definition to_hex (b : Z) : list Z :=
  if b <? 16 then [hex_digit b] else [hex_digit (b / 16); hex_digit (b mod 16)].
Definition QUOTE : Z := 34.
Definition BACKSLASH : Z := 92.

(** The loop over [bytes[i..]]: [from] is the start of what is not written yet.  A
    slice of which the start is behind the end panics. *)
Definition write_slice (f bytes : list Z) (from i : Z) : outcome (list Z) :=
  if (from <=? i) && (i <=? zlen bytes) then Val (f ++ ztake (i - from) (zdrop from bytes)) else Panic.
Fixpoint debug_loop (bytes rest : list Z) (i from : Z) (f : list Z) : outcome (Z * list Z) :=
  match rest with
  | [] => Val (from, f)
  | b :: rest =>
      if negb (is_visible_ascii b) || (b =? QUOTE) then
        f ← if negb (from =? i) then write_slice f bytes from i else Val f;
        let f := f ++ if b =? QUOTE then [BACKSLASH; QUOTE] else [BACKSLASH; 120] ++ to_hex b in
        debug_loop bytes rest (i + 1) (i + 1) f
      else debug_loop bytes rest (i + 1) from f
  end.
Definition value_debug (v : HeaderValue) : outcome (list Z) :=
  if hv_is_sensitive v then Val (bs "Sensitive")
  else
    let bytes := hv_inner v in
    '(from, f) ← debug_loop bytes bytes 0 0 [QUOTE];
    f ← write_slice f bytes from (zlen bytes);
    Val (f ++ [QUOTE]).

(** ** Theorems *)

Definition value_valid (v : HeaderValue) : Prop := forallb is_valid (hv_inner v) = true.

Lemma visible_valid b : is_visible_ascii b = true -> is_valid b = true.
Proof. unfold is_visible_ascii, is_valid. destruct (Z.leb_spec 32 b), (Z.ltb_spec b 127), (Z.eqb_spec b 127), (Z.eqb_spec b 9); simpl; lia || done. Qed.

Lemma visible_all_valid s : forallb is_visible_ascii s = true -> forallb is_valid s = true.
Proof. rewrite !forallb_forall. intros Hv x Hx. by apply visible_valid, Hv. Qed.

Section Made.
Context {V : Type} `{HttpValueLaws V} (itoa : Z -> list Z).

(** The header values that safe code can make. *)
Inductive made : HeaderValue -> Prop :=
| made_static s v : from_static s = Val v -> made v
| made_str s v : try_from_str s = Ok v -> made v
| made_string_ref s v : try_from_string_ref s = Ok v -> made v
| made_byte_string_ref s v : try_from_byte_string_ref s = Ok v -> made v
| made_slice s v : try_from_slice s = Ok v -> made v
| made_string s v : try_from_string s = Ok v -> made v
| made_byte_string s v : try_from_byte_string s = Ok v -> made v
| made_vec s v : try_from_vec s = Ok v -> made v
| made_http (h : V) : made (from_http h)
| made_integer n : made (from_integer itoa n)
| made_sensitive b v : made v -> made (set_sensitive b v).

Lemma from_shared_valid s v : from_shared s = Ok v -> v = mkHeaderValue s false /\ value_valid v.
Proof. unfold from_shared, value_valid. destruct (forallb is_valid s) eqn:E; [|done]. by intros [= <-]. Qed.

Lemma made_valid v : (forall n, forallb is_visible_ascii (itoa n) = true) -> made v -> value_valid v.
Proof.
  intros Hi. induction 1 as [s v E| | | | | | | | | |]; try (by eapply from_shared_valid).
  - revert E. unfold from_static, value_valid. destruct (forallb is_visible_ascii s) eqn:Ev; [|done].
    intros [= <-]. by apply visible_all_valid.
  - apply http_valid.
  - apply visible_all_valid, Hi.
  - done.
Qed.

(** C31. A header value is always one that may be written.  Whatever safe code makes it
    of, a value holds visible characters, tabs and bytes above 127 only, no line end
    and no other control character; so its conversion to the http crate's never
    panics, and gives the same bytes and the same sensitivity, which the
    conversion back gives again; and of a number it is the digits. *)
Theorem header_values_typed v :
  (forall n, forallb is_visible_ascii (itoa n) = true) -> made v ->
  value_valid v /\ CR ∉ hv_inner v /\ LF ∉ hv_inner v /\
  exists h : V, into_http v = Val h /\ http_as_ref h = hv_inner v /\ http_is_sensitive h = hv_is_sensitive v /\
    from_http h = v.
Proof.
  intros Hi Hm. pose proof (made_valid v Hi Hm) as Hv. split; [done|].
  assert (Hno : forall c, is_valid c = false -> c ∉ hv_inner v).
  { intros c Hc Hin. unfold value_valid in Hv. rewrite forallb_forall in Hv.
    apply list_elem_of_In, Hv in Hin. congruence. }
  split; [by apply Hno|]. split; [by apply Hno|].
  destruct (http_takes _ Hv) as (h & E & Hr). exists (http_set_sensitive (hv_is_sensitive v) h).
  unfold into_http, from_http. rewrite E, http_set_ref, http_set_get, Hr. split_and!; [done..|]. by destruct v.
Qed.
End Made.

(** ** The Debug text *)

Definition escape (b : Z) : list Z :=
  if b =? QUOTE then [BACKSLASH; QUOTE]
  else if is_visible_ascii b then [b] else [BACKSLASH; 120] ++ to_hex b.

Lemma write_pending f pre cur rest :
  write_slice f (pre ++ cur ++ rest) (zlen pre) (zlen pre + zlen cur) = Val (f ++ cur).
Proof.
  unfold write_slice. pose proof (zlen_nonneg cur). pose proof (zlen_nonneg rest).
  destruct (Z.leb_spec (zlen pre) (zlen pre + zlen cur)); [|lia].
  destruct (Z.leb_spec (zlen pre + zlen cur) (zlen (pre ++ cur ++ rest))) as [_|Hx]; [|rewrite !zlen_app in Hx; lia].
  rewrite zdrop_app_exact. replace (zlen pre + zlen cur - zlen pre) with (zlen cur) by lia. by rewrite ztake_app_exact.
Qed.

Lemma debug_loop_ok rest : forall pre cur f,
  forallb (fun b => is_visible_ascii b && negb (b =? QUOTE)) cur = true ->
  exists from f', debug_loop (pre ++ cur ++ rest) rest (zlen pre + zlen cur) (zlen pre) f = Val (from, f') /\
    write_slice f' (pre ++ cur ++ rest) from (zlen (pre ++ cur ++ rest)) = Val (f ++ cur ++ flat_map escape rest).
Proof.
  induction rest as [|b rest IH]; intros pre cur f Hc; cbn [debug_loop flat_map].
  - do 2 eexists. split; [done|]. rewrite !app_nil_r, zlen_app.
    pose proof (write_pending f pre cur []) as E. by rewrite app_nil_r in E.
  - unfold escape at 1. destruct (negb (is_visible_ascii b) || (b =? QUOTE)) eqn:Eb.
    + assert (E1 : exists f1, (if negb (zlen pre =? zlen pre + zlen cur) then write_slice f (pre ++ cur ++ b :: rest) (zlen pre) (zlen pre + zlen cur) else Val f) = Val f1 /\ f1 = f ++ cur).
      { destruct (Z.eqb_spec (zlen pre) (zlen pre + zlen cur)) as [Hz|Hz]; simpl; eexists; (split; [|done]).
        - destruct cur; [by rewrite app_nil_r|]. rewrite zlen_cons in Hz. pose proof (zlen_nonneg cur). lia.
        - apply write_pending. }
      destruct E1 as (f1 & -> & ->). cbn [mbind outcome_bind].
      set (esc := if b =? QUOTE then [BACKSLASH; QUOTE] else [BACKSLASH; 120] ++ to_hex b).
      destruct (IH (pre ++ cur ++ [b]) [] ((f ++ cur) ++ esc) eq_refl) as (from & f' & E & Hw).
      replace ((pre ++ cur ++ [b]) ++ [] ++ rest) with (pre ++ cur ++ b :: rest) in * by (by rewrite <- !app_assoc).
      replace (zlen (pre ++ cur ++ [b]) + zlen (@nil Z)) with (zlen pre + zlen cur + 1) in E
        by (rewrite !zlen_app, zlen_cons, zlen_nil; lia).
      replace (zlen (pre ++ cur ++ [b])) with (zlen pre + zlen cur + 1) in E
        by (rewrite !zlen_app, zlen_cons, zlen_nil; lia).
      exists from, f'. split; [done|]. rewrite Hw. simpl. rewrite <- !app_assoc. subst esc.
      destruct (b =? QUOTE); [done|]. rewrite orb_false_r in Eb. by destruct (is_visible_ascii b).
    + apply orb_false_iff in Eb as [Ev Eq]. apply negb_false_iff in Ev. rewrite Eq, Ev.
      destruct (IH pre (cur ++ [b]) f) as (from & f' & E & Hw).
      { rewrite forallb_app, Hc. simpl. by rewrite Ev, Eq. }
      rewrite <- !app_assoc in *. simpl in *.
      replace (zlen pre + zlen (cur ++ [b])) with (zlen pre + zlen cur + 1) in E by (rewrite zlen_app, zlen_cons, zlen_nil; lia).
      exists from, f'. by split.
Qed.

(** The Debug text is the value's bytes, escaped one by one, in quotes; that of
    a sensitive value has none of them. *)
Theorem value_debug_escapes v :
  value_debug v = Val (if hv_is_sensitive v then bs "Sensitive" else [QUOTE] ++ flat_map escape (hv_inner v) ++ [QUOTE]).
Proof.
  unfold value_debug. destruct (hv_is_sensitive v); [done|].
  destruct (debug_loop_ok (hv_inner v) [] [] [QUOTE] eq_refl) as (from & f' & E & Hw).
  simpl in *. change (zlen (@nil Z) + zlen (@nil Z)) with 0 in E. change (zlen (@nil Z)) with 0 in E. rewrite E. simpl.
  rewrite Hw. simpl. done.
Qed.

(** ** The order *)

Lemma bytes_cmp_eq a : forall b, bytes_cmp a b = Eq <-> a = b.
Proof.
  induction a as [|x a IH]; intros [|y b]; simpl; try done. destruct (Z.compare_spec x y) as [->|Hl|Hl].
  - rewrite IH. split; [by intros ->|by intros [=]].
  - split; [done|intros [= -> _]; lia].
  - split; [done|intros [= -> _]; lia].
Qed.

Lemma bytes_cmp_opp a : forall b, bytes_cmp b a = CompOpp (bytes_cmp a b).
Proof.
  induction a as [|x a IH]; intros [|y b]; simpl; try done. rewrite (Z.compare_antisym x y).
  destruct (Z.compare x y); simpl; [apply IH|done..].
Qed.

Lemma bytes_cmp_trans a : forall b c, bytes_cmp a b = Lt -> bytes_cmp b c = Lt -> bytes_cmp a c = Lt.
Proof.
  induction a as [|x a IH]; intros [|y b] [|z c]; simpl; try done.
  destruct (Z.compare_spec x y), (Z.compare_spec y z), (Z.compare_spec x z); subst; try done; try lia. apply IH.
Qed.

(** Values are totally ordered, by their bytes alone, in agreement with their
    equality and with the comparisons with byte strings; but equal values of which
    one is sensitive have different hashes. *)
Theorem value_order_total a b c :
  (value_cmp a b = Eq <-> value_eq a b = true) /\
  value_cmp b a = CompOpp (value_cmp a b) /\
  (value_cmp a b = Lt -> value_cmp b c = Lt -> value_cmp a c = Lt) /\
  value_cmp_bytes a (hv_inner b) = value_cmp a b /\ value_eq_bytes a (hv_inner b) = value_eq a b /\
  (value_eq a (set_sensitive (negb (hv_is_sensitive a)) a) = true /\
   value_hash a <> value_hash (set_sensitive (negb (hv_is_sensitive a)) a)).
Proof.
  unfold value_cmp, value_eq, value_cmp_bytes, value_eq_bytes. split_and!; try done.
  - rewrite bool_decide_eq_true. apply bytes_cmp_eq.
  - apply bytes_cmp_opp.
  - apply bytes_cmp_trans.
  - by apply bool_decide_eq_true.
  - unfold value_hash. simpl. by destruct (hv_is_sensitive a).
Qed.

(** ** The http crate's value *)
Module RefHttp.
Record http := mkHttp { ht_bytes : list Z; ht_valid : forallb is_valid ht_bytes = true; ht_sensitive : bool }.
#[export] Instance http_ops : HttpValue http := {
  http_from_bytes s :=
    match decide (forallb is_valid s = true) with left Hv => Some (mkHttp s Hv false) | right _ => None end;
  http_as_ref := ht_bytes;
  http_is_sensitive := ht_sensitive;
  http_set_sensitive b h := mkHttp (ht_bytes h) (ht_valid h) b
}.
#[export] Instance http_laws : HttpValueLaws http.
Proof.
  split; simpl; try done; [|by intros []].
  intros s Hs. destruct (decide _); [|done]. by eexists.
Qed.
End RefHttp.
Import RefHttp.

Notation secret := (set_sensitive true (mkHeaderValue (bs "Basic eA==") false)).
Lemma header_values_typed_witness :
  value_valid secret /\ CR ∉ hv_inner secret /\ LF ∉ hv_inner secret /\
  exists h : http, into_http secret = Val h /\ http_as_ref h = hv_inner secret /\
    http_is_sensitive h = hv_is_sensitive secret /\ from_http h = secret.
Proof.
  apply (header_values_typed (fun _ => bs "0") secret); [done|].
  apply made_sensitive. apply made_string with (s := bs "Basic eA=="). reflexivity.
Defined.
