(* ===== verification/HeaderSafety.v ===== *)
(** * No header line but the ones that were set

    [safe_map]: a header map filled by safe code or by the decoder holds header
    names and values that can be written.  [head_reads_back]: a reader that splits a
    written head at its line ends and each line at its colon sees the status
    line, the fields the encoder adds and the map's, and nothing else. *)
From S2P Require Import Prelude Headers Message Config Errors Payload Decoder DecoderThms Encoder EncoderThms HeaderValues.
Import HeaderMapOps HeaderMapThms.

(** ** Names and maps *)

(** The visible characters but the space and the colon; the http crate's header
    names are made of some of them. *)
Definition name_char (b : Z) : bool := (32 <? b) && (b <? 127) && negb (b =? 58).
Definition name_ok (n : HeaderName) : Prop := forallb name_char n = true.
Definition map_ok (m : HeaderMap) : Prop :=
  map_Forall (fun k v => name_ok k /\ Forall value_valid (ValueOps.to_list v)) m.

Lemma map_ok_new : map_ok new.
Proof. apply map_Forall_empty. Qed.
Lemma map_ok_delete m k : map_ok m -> map_ok (delete k m).
Proof. apply map_Forall_delete. Qed.
Lemma map_ok_insert m k v : map_ok m -> name_ok k -> value_valid v -> map_ok (insert m k v).
Proof. intros Hm Hk Hv. apply map_Forall_insert_2; [|done]. split; [done|]. simpl. by constructor. Qed.
Lemma map_ok_append m k v : map_ok m -> name_ok k -> value_valid v -> map_ok (append m k v).
Proof.
  intros Hm Hk Hv. unfold append. destruct (m !! k) as [w|] eqn:E; apply map_Forall_insert_2; try done; (split; [done|]).
  - rewrite ValueOps.to_list_append. apply Forall_app. split; [by apply (Hm k w E)|by constructor].
  - simpl. by constructor.
Qed.

Lemma map_ok_values m k : map_ok m -> Forall value_valid (values m k).
Proof.
  intros Hm. unfold values. destruct (m !! k) as [v|] eqn:E; [by apply (Hm k v E)|constructor].
Qed.

(** ** What the decoder delivers *)

(** What httparse and the http crate document of the names and values they report. *)
Class HeaderTextLaws `{Parsers} : Prop := {
  ht_value hs src len name value hs' :
    parse_with_state hs src = (Ok (Complete (HPHeader len name value)), hs') ->
    forallb is_valid (slice (ztake len src) value) = true;
  ht_name s n : header_name_from_bytes s = Some n -> name_ok n
}.

Section Decoded.
Context `{HeaderTextLaws} {T : Type} `{MessageTypeLaws T}.

Definition val_ok (v : option T) : Prop := match v with Some v => map_ok (headers_mut v) | None => True end.

Lemma header_line_ok hs src len name value hs' (inner : Inner T) val r i :
  parse_with_state hs src = (Ok (Complete (HPHeader len name value)), hs') ->
  map_ok (headers_mut val) -> in_val inner = Some val ->
  header_line inner val (ztake len src) name value = Val (r, i) -> val_ok (in_val i).
Proof.
  intros Hp Hm Hi. unfold header_line. case_match; [by intros [= <- <-]; rewrite Hi|].
  destruct (header_name_from_bytes _) as [hname|] eqn:En; [|done].
  set (val1 := if headers_vec _ then _ else val).
  assert (Hv1 : headers_mut val1 = headers_mut val)
    by (subst val1; case_match; rewrite ?mt_headers_item; done).
  unfold set_header. simpl. destruct (set_header_state _ _ _) as [[[]|e] st2]; intros [= <- <-]; simpl.
  - rewrite mt_headers_update, Hv1. apply map_ok_append; [done|by eapply ht_name|]. by eapply ht_value.
  - by rewrite Hv1.
Qed.

Lemma decode_headers_map fuel : forall src (inner : Inner T) p i src',
  val_ok (in_val inner) -> decode_headers fuel src inner = Val (p, i, src') -> val_ok (in_val i).
Proof.
  induction fuel as [|fuel IH]; intros src inner p i src' Hi Hd; [done|]. simpl in Hd.
  destruct (parse_with_state (in_hdr_st inner) src) as [[[[len name value|len]|]|e] hs] eqn:Ep.
  - destruct (zlen src <? len); [done|]. destruct (in_val inner) as [val|] eqn:Ev; [|done].
    destruct (header_line (set_hdr_st inner hs) val (ztake len src) name value) as [[[[]|e] i1]| |] eqn:Eh; try done.
    + eapply IH, Hd. eapply header_line_ok; [exact Ep|exact Hi| |exact Eh]; exact Ev.
    + injection Hd as <- <- <-. eapply header_line_ok; [exact Ep|exact Hi| |exact Eh]; exact Ev.
  - destruct (zlen src <? len); [done|]. by injection Hd as <- <- <-.
  - by injection Hd as <- <- <-.
  - by injection Hd as <- <- <-.
Qed.

Definition decoder_ok (d : MessageDecoder T) : Prop := match md_inner d with Some i => val_ok (in_val i) | None => True end.

Lemma decode_msg_map (d : MessageDecoder T) n src r d' src' :
  decoder_ok d -> mt_fresh n -> decode_msg d n src = Val (r, d', src') ->
  decoder_ok d' /\
  match r with
  | Ok (Some (h, pl)) => exists v st, map_ok (headers_mut v) /\ set_payload_length v st (payload_length st) = Ok (pl, h)
  | _ => True
  end.
Proof.
  intros Hd Hn. unfold decode_msg. unfold decoder_ok in Hd. destruct (md_inner d) as [inner|]; [|done].
  set (hdrs := if 0 <? zlen src then true else md_hdrs d).
  assert (Hline : forall o i1 s1,
    match in_val inner with
    | Some _ => (None, inner, src)
    | None => match decode_line n src with
              | (Ready (Ok val), src1) => (None, set_val inner (Some val) (st_set_version (in_st inner) (msg_version val)), src1)
              | (Ready (Err e), src1) => (Some e, inner, src1)
              | (Pending, src1) => (None, inner, src1)
              end
    end = (o, i1, s1) -> val_ok (in_val i1)).
  { intros o i1 s1 Heq. destruct (in_val inner) as [v|] eqn:Ev; [simplify_eq; by rewrite Ev|].
    destruct (decode_line n src) as [[[v|e]|] s2] eqn:El; simplify_eq; rewrite ?Ev; try done.
    destruct (mt_decode_line n src v s1 Hn El) as (Hh & _ & _). simpl. rewrite Hh. apply map_ok_new. }
  destruct (match in_val inner with Some _ => _ | None => _ end) as [[o i1] s1].
  specialize (Hline o i1 s1 eq_refl). destruct o as [e|]; [by intros [= <- <- <-]|].
  destruct (in_val i1) as [v|] eqn:Ev1.
  - destruct (decode_headers (S (length s1)) s1 i1) as [[[[[[]|e]|] i2] s2]| |] eqn:Ed; try done;
      apply decode_headers_map in Ed; rewrite ?Ev1; try done.
    + destruct (in_val i2) as [w|] eqn:Ew; [|done].
      destruct (set_payload_length w (in_st i2) (payload_length (in_st i2))) as [[pl v']|e] eqn:Ep; [|by intros [= <- <- <-]].
      simpl. destruct (max_buf_size (in_cfg i2) <=? _); intros [= <- <- <-]; [done|]. split; [done|]. eauto.
    + destruct (max_buf_size (in_cfg i2) <=? 0); by intros [= <- <- <-].
    + simpl. destruct (max_buf_size (in_cfg i2) <=? _); by intros [= <- <- <-].
  - destruct (max_buf_size (in_cfg i1) <=? zlen src); intros [= <- <- <-]; [done|]. unfold decoder_ok. simpl. by rewrite Ev1.
Qed.

Lemma reachable_decoder_ok cfg d : reachable_decoder cfg d -> decoder_ok d.
Proof. induction 1 as [|d n src r d' src' _ IH Hn Hd]; [done|]. by apply (decode_msg_map d n src r d' src'). Qed.
End Decoded.

(** ** The maps of a program *)

Section Safe.
Context `{HeaderTextLaws} {V : Type} `{HttpValueLaws V} (itoa : Z -> list Z).

(** The maps that operations of the multimap with values of safe code make, and those
    of requests that were decoded. *)
Inductive safe_map : HeaderMap -> Prop :=
| safe_new : safe_map new
| safe_insert m k v : safe_map m -> name_ok k -> made (V := V) itoa v -> safe_map (insert m k v)
| safe_append m k v : safe_map m -> name_ok k -> made (V := V) itoa v -> safe_map (append m k v)
| safe_remove m k : safe_map m -> safe_map (delete k m)
| safe_copied m k v m' : safe_map m -> safe_map m' -> v ∈ values m' k -> safe_map (append m k v)
| safe_decoded cfg (d d' : MessageDecoder RequestHead) n src h pl src' :
    reachable_decoder cfg d -> MessagePool.fresh_request n ->
    decode_msg d n src = Val (Ok (Some (h, pl)), d', src') -> safe_map (rq_headers h).

Lemma safe_map_ok m : (forall n, forallb is_visible_ascii (itoa n) = true) -> safe_map m -> map_ok m.
Proof.
  intros Hi. induction 1 as [|m k v _ IH Hk Hv|m k v _ IH Hk Hv|m k _ IH|m k v m' _ IH _ IH' Hv|cfg d d' n src h pl src' Hr Hn Hd].
  - apply map_ok_new.
  - apply map_ok_insert; [done..|]. by apply (made_valid itoa).
  - apply map_ok_append; [done..|]. by apply (made_valid itoa).
  - by apply map_ok_delete.
  - pose proof (map_ok_values m' k IH') as Hall. rewrite Forall_forall in Hall.
    apply map_ok_append; [done| |by apply Hall]. unfold values in Hv.
    destruct (m' !! k) as [w|] eqn:E; [by apply (IH' k w E)|by apply not_elem_of_nil in Hv].
  - apply reachable_decoder_ok in Hr. change (mt_fresh n) in Hn.
    destruct (decode_msg_map d n src _ d' src' Hr Hn Hd) as [_ (v & st & Hm & Hp)].
    apply request_payload_headers in Hp. by rewrite Hp.
Qed.
End Safe.

(** ** Reading a head *)

(** The lines of a text, at its CRLFs. *)
Definition put_first (b : Z) (l : list (list Z)) : list (list Z) :=
  match l with x :: l => (b :: x) :: l | [] => [[b]] end.
Fixpoint crlf_lines (s : list Z) : list (list Z) :=
  match s with
  | [] => [[]]
  | b :: r =>
      match r with
      | c :: s' => if (b =? CR) && (c =? LF) then [] :: crlf_lines s' else put_first b (crlf_lines r)
      | [] => put_first b (crlf_lines r)
      end
  end.

(** A line's name and value, at its first colon and the space after it. *)
Fixpoint header_field (l : list Z) : option (list Z * list Z) :=
  match l with
  | [] => None
  | b :: l =>
      if b =? 58 then match l with c :: v => if c =? 32 then Some ([], v) else None | [] => None end
      else '(n, v) ← header_field l; Some (b :: n, v)
  end.

(** The first line and the fields, up to the empty line. *)
Fixpoint read_fields (l : list (list Z)) : option (list (list Z * list Z) * list (list Z)) :=
  match l with
  | [] => None
  | [] :: rest => Some ([], rest)
  | x :: l => f ← header_field x; '(fs, rest) ← read_fields l; Some (f :: fs, rest)
  end.
Definition read_head (s : list Z) : option (list Z * list (list Z * list Z) * list (list Z)) :=
  match crlf_lines s with
  | first :: l => '(fs, rest) ← read_fields l; Some (first, fs, rest)
  | [] => None
  end.

Lemma crlf_lines_app l s : CR ∉ l -> crlf_lines (l ++ CRLF ++ s) = l :: crlf_lines s.
Proof.
  induction l as [|b l IH]; intros Hl; [done|]. apply not_elem_of_cons in Hl as [Hb Hl].
  change ((b :: l) ++ CRLF ++ s) with (b :: (l ++ CRLF ++ s)). cbn [crlf_lines].
  destruct (l ++ CRLF ++ s) as [|c r] eqn:E; [by destruct l|]. specialize (IH Hl). rewrite IH.
  destruct (Z.eqb_spec b CR); [by subst|]. done.
Qed.

Lemma header_field_text n v : forallb name_char n = true -> header_field (n ++ bs ": " ++ v) = Some (n, v).
Proof.
  induction n as [|b n IH]; intros Hn; [done|]. simpl in Hn. apply andb_prop in Hn as [Hb Hn].
  cbn [app header_field]. destruct (Z.eqb_spec b 58) as [->|_]; [done|]. rewrite IH by done. done.
Qed.

(** A field that is written, and the text of a list of them with the end of the head. *)
Definition field_ok (f : list Z * list Z) : Prop := forallb name_char f.1 = true /\ CR ∉ f.2.
Definition field_line (f : list Z * list Z) : list Z := f.1 ++ bs ": " ++ f.2 ++ CRLF.

Lemma name_char_no_cr n : forallb name_char n = true -> CR ∉ n.
Proof.
  rewrite forallb_forall. intros Hn Hin. apply list_elem_of_In, Hn in Hin. done.
Qed.

Lemma read_fields_text fs : Forall field_ok fs -> read_fields (crlf_lines (concat (field_line <$> fs) ++ CRLF)) = Some (fs, [[]]).
Proof.
  induction 1 as [|[n v] fs [Hn Hv] _ IH]; [done|]. cbn [fmap list_fmap concat]. simpl in Hn, Hv.
  assert (E : crlf_lines ((field_line (n, v) ++ concat (field_line <$> fs)) ++ CRLF) =
              (n ++ bs ": " ++ v) :: crlf_lines (concat (field_line <$> fs) ++ CRLF)).
  { unfold field_line at 1. cbn [fst snd]. rewrite <- (crlf_lines_app (n ++ bs ": " ++ v)); [by rewrite <- !app_assoc|].
    rewrite !not_elem_of_app. split; [by apply name_char_no_cr|]. split; [|done]. by compute_done. }
  rewrite E. cbn [read_fields]. destruct (n ++ bs ": " ++ v) as [|b l] eqn:El; [by destruct n|].
  rewrite <- El, header_field_text by done. cbn [mbind option_bind]. by rewrite IH.
Qed.

Lemma read_head_text first fs : CR ∉ first -> Forall field_ok fs ->
  read_head (first ++ CRLF ++ concat (field_line <$> fs) ++ CRLF) = Some (first, fs, [[]]).
Proof. intros Hf Hfs. unfold read_head. rewrite crlf_lines_app by done. by rewrite read_fields_text. Qed.

(** ** Writing a head *)

(** The fields the encoder adds. *)
Definition framing_fields (len : BodySize) (chunked : bool) : list (list Z * list Z) :=
  match len with
  | BS_None => []
  | BS_Empty => [(CONTENT_LENGTH, bs "0")]
  | BS_Sized n => [(CONTENT_LENGTH, to_dec n)]
  | BS_Stream => if chunked then [(TRANSFER_ENCODING, bs "chunked")] else []
  end.
Definition connection_fields (c : ConnectionType) (v : Version) : list (list Z * list Z) :=
  match c with
  | Upgrade => [(CONNECTION, bs "upgrade")]
  | KeepAlive => if version_lt v HTTP_11 then [(CONNECTION, bs "keep-alive")] else []
  | Close => if version_ge v HTTP_11 then [(CONNECTION, bs "close")] else []
  end.

Lemma framing_line_fields len chunked : framing_line len chunked = CRLF ++ concat (field_line <$> framing_fields len chunked).
Proof.
  unfold framing_line, framing_fields, field_line. destruct len; simpl; rewrite ?app_nil_r; try done. by destruct chunked.
Qed.
Lemma connection_line_fields c v : connection_line c v = concat (field_line <$> connection_fields c v).
Proof. unfold connection_line, connection_fields. by destruct c; repeat case_match. Qed.

(** The cached date line. *)
Definition date_line (t : list Z) : list Z := bs "date: " ++ t ++ CRLF ++ CRLF.
Definition date_ok (d : DateService.t) : Prop :=
  DateService.ds_current d = true ->
  exists t, DateService.ds_date d = date_line t /\ forallb is_visible_ascii t = true.

Lemma visible_no_cr s : forallb is_visible_ascii s = true -> CR ∉ s.
Proof. rewrite forallb_forall. intros Hs Hin. by apply list_elem_of_In, Hs in Hin. Qed.
Lemma valid_no_cr s : forallb is_valid s = true -> CR ∉ s.
Proof. rewrite forallb_forall. intros Hs Hin. by apply list_elem_of_In, Hs in Hin. Qed.

Lemma to_dec_no_cr n : CR ∉ to_dec n.
Proof.
  unfold to_dec. assert (Hg : forall fuel n acc, CR ∉ acc -> CR ∉ dec_digits fuel n acc).
  { induction fuel as [|fuel IH]; intros m acc Ha; [done|]. rewrite dec_digits_S.
    assert (Hd : CR ∉ (48 + m mod 10) :: acc).
    { apply not_elem_of_cons. split; [|done]. unfold CR. pose proof (Z.mod_pos_bound m 10). lia. }
    case_match; [done|by apply IH]. }
  apply Hg. by apply not_elem_of_nil.
Qed.

Section Written.
Context `{EncoderEnvLaws} {T : Type} `{EMessageType T}.
Context `{HeaderTextLaws} {V : Type} `{HttpValueLaws V} (itoa : Z -> list Z).
Notation safe := (safe_map (V := V) itoa).

Lemma head_end_fields date tail date' :
  forallb is_visible_ascii now = true -> date_ok date -> head_end date tail date' ->
  date_ok date' /\
  exists dates, tail = concat (field_line <$> dates) ++ CRLF /\ Forall field_ok dates /\
    (dates = [] \/ exists t, dates = [(DATE, t)]).
Proof.
  intros Hnow Hd [[-> ->]|[E ->]]; [split; [done|]; exists []; split_and!; [done|constructor|by left]|].
  assert (Hl : exists t, DateService.ds_date date' = date_line t /\ forallb is_visible_ascii t = true).
  { revert E. unfold DateService.check_date. destruct (DateService.ds_current date) eqn:Ec; [intros [= <-]; by apply Hd|].
    unfold DateService.update. rewrite now_length. simpl (29 =? 29). intros [= <-]. exists now. split; [done|done]. }
  split; [by intros _|]. destruct Hl as (t & -> & Ht). exists [(DATE, t)]. split_and!; [|by repeat constructor; apply visible_no_cr|right; by eexists].
  unfold date_line, field_line. simpl. rewrite app_nil_r. by rewrite <- !app_assoc.
Qed.

Lemma lines_ok (lines : list (HeaderName * HeaderValue)) (sel : HeaderName -> bool) msg extra :
  map_ok msg -> map_ok extra ->
  (forall k, snd <$> filter (fun nv => nv.1 = k) lines = if sel k then merged_values msg extra k else []) ->
  Forall (fun nv => field_ok (nv.1, hv_inner nv.2)) lines.
Proof.
  intros Hm He Hk. apply Forall_forall. intros nv Hin.
  assert (Hv : nv.2 ∈ (if sel nv.1 then merged_values msg extra nv.1 else [])).
  { rewrite <- Hk. apply list_elem_of_fmap. exists nv. split; [done|]. by apply list_elem_of_filter. }
  destruct (sel nv.1); [|by apply not_elem_of_nil in Hv].
  assert (Hmap : exists m, map_ok m /\ nv.2 ∈ values m nv.1).
  { unfold merged_values in Hv. case_bool_decide; [by exists extra|by exists msg]. }
  destruct Hmap as (m & Hok & Hin'). pose proof (map_ok_values m nv.1 Hok) as Hall. rewrite Forall_forall in Hall.
  specialize (Hall _ Hin'). unfold values in Hin'. destruct (m !! nv.1) as [w|] eqn:E; [|by apply not_elem_of_nil in Hin'].
  split; [apply (Hok nv.1 w E)|]. simpl. by apply valid_no_cr.
Qed.

Lemma print_lines lines : concat (print_line <$> lines) = concat (field_line <$> ((fun nv => (nv.1, hv_inner nv.2)) <$> lines)).
Proof. by rewrite <- list_fmap_compose. Qed.

Lemma fields_values (lines : list (HeaderName * HeaderValue)) k :
  snd <$> filter (fun f => f.1 = k) ((fun nv => (nv.1, hv_inner nv.2)) <$> lines) =
  hv_inner <$> (snd <$> filter (fun nv => nv.1 = k) lines).
Proof.
  induction lines as [|nv lines IH]; [done|]. rewrite fmap_cons, !filter_cons. cbn [fst snd].
  by case_decide; rewrite ?fmap_cons; [f_equal|]; exact IH.
Qed.

(** C30. No header injection.  Whatever values a program puts into the headers of a
    message, or takes over from a request it has decoded: a reader that
    splits the head that is written at its line ends, and each line at its colon,
    reads back the first line, the fields that frame the message, and of every name
    exactly the values of the merged headers, in order and to the byte, with one
    date at most, and then the end of the head; no value adds a line, ends the head
    or hides in another field. *)
Theorem head_reads_back e (msg : T) v len ct extra date first :
  em_encode_status msg [] = Val first -> CR ∉ first ->
  special_status (em_status msg) = false -> sized_u64 len ->
  safe (em_headers msg) -> (forall m, extra = Some m -> safe m) ->
  (forall n, forallb is_visible_ascii (itoa n) = true) -> forallb is_visible_ascii now = true -> date_ok date ->
  exists fields dates enc head date',
    encode e [] msg false false v len ct extra date = Val (Ok tt, enc, head, date') /\
    read_head head =
      Some (first, framing_fields len (em_chunked msg) ++ connection_fields ct v ++ fields ++ dates, [[]]) /\
    (forall k, snd <$> filter (fun f => f.1 = k) fields =
       if written (EncoderThms.framed len (em_chunked msg)) k
       then hv_inner <$> merged_values (em_headers msg) (default new extra) k else []) /\
    (dates = [] \/ exists t, dates = [(DATE, t)]) /\ date_ok date'.
Proof.
  intros He Hf Hs Hl Hm Hx Hi Hnow Hd. unfold encode. rewrite He. cbn [mbind outcome_bind].
  assert (Hnb : no_body_status (em_status msg) = false /\ bool_decide (em_status msg = Some SWITCHING_PROTOCOLS) = false).
  { unfold special_status in Hs. destruct (em_status msg) as [s|]; [|done]. simpl.
    apply orb_false_iff in Hs as [-> Hn]. zbool. split; [done|]. apply bool_decide_eq_false. congruence. }
  destruct Hnb as [Hnb H101].
  destruct (encode_headers_shape msg first v len ct extra date Hl) as (lines & tail & date' & -> & Hk & Hend).
  cbn [mbind outcome_bind]. unfold skips, announced in *. rewrite Hnb, H101 in *.
  destruct (head_end_fields _ _ _ Hnow Hd Hend) as (Hd' & dates & -> & Hdates & Hshape).
  assert (Hlines : Forall (fun nv => field_ok (nv.1, hv_inner nv.2)) lines).
  { eapply lines_ok; [by apply (safe_map_ok itoa)| |apply Hk]. destruct extra as [m|]; [by apply (safe_map_ok itoa), Hx|apply map_ok_new]. }
  exists ((fun nv => (nv.1, hv_inner nv.2)) <$> lines), dates. do 3 eexists. split; [reflexivity|]. split; [|split_and!; [|done..]].
  - rewrite print_lines, framing_line_fields, connection_line_fields.
    rewrite <- (read_head_text first); [|done|].
    + by rewrite !fmap_app, !concat_app, <- !app_assoc.
    + rewrite !Forall_app. split_and!; [| |by apply Forall_fmap|done].
      * unfold framing_fields. destruct len; repeat constructor; simpl; try apply to_dec_no_cr; try (by compute_done).
        case_match; repeat constructor. by compute_done.
      * unfold connection_fields. destruct ct; repeat case_match; repeat constructor; by compute_done.
  - intros k. etransitivity; [apply fields_values|]. rewrite Hk. by destruct (written _ k).
Qed.
End Written.

(** ** Parsers *)
Module CheckedParsers.
Definition checked_line (s : unit) (src : list Z) : result (Status HeaderParsed) HttparseError * unit :=
  match RefParsers.header_line_parse s src with
  | (Ok (Complete (HPHeader len name value)), s) =>
      if forallb is_valid (slice (ztake len src) value) then (Ok (Complete (HPHeader len name value)), s)
      else (Err HP_HeaderValue, s)
  | r => r
  end.
#[export] Instance checked_parsers : Parsers := {
  HState := unit;
  hstate_default := tt;
  parse_with_state := checked_line;
  parse_request := RefParsers.request_line_parse;
  parse_response := RefParsers.status_line_parse;
  header_name_from_bytes l :=
    if negb (bool_decide (l = [])) && forallb name_char l then Some (to_ascii_lowercase <$> l) else None;
  method_from_bytes l := match l with [] => None | _ => Some l end;
  uri_try_from l := match l with [] => None | _ => Some (mkUri l (Some l)) end;
  status_from_u16 c := if (100 <=? c) && (c <=? 999) then Some c else None;
  atoi_u64 := RefParsers.digits
}.

Lemma lowercase_name l : forallb name_char l = true -> forallb name_char (to_ascii_lowercase <$> l) = true.
Proof.
  induction l as [|b l IH]; [done|]. cbn [fmap list_fmap forallb]. intros Hb. apply andb_prop in Hb as [Hb Hl].
  rewrite IH, andb_true_r by done. unfold to_ascii_lowercase. destruct ((65 <=? b) && (b <=? 90)) eqn:E; [|done].
  unfold name_char. zbool. destruct (Z.ltb_spec 32 (b + 32)), (Z.ltb_spec (b + 32) 127), (Z.eqb_spec (b + 32) 58); simpl; lia || done.
Qed.

#[export] Instance checked_laws : HeaderTextLaws.
Proof.
  split.
  - intros hs src len name value hs'. simpl. unfold checked_line.
    destruct (RefParsers.header_line_parse hs src) as [[[[len' n v|]|]|] s]; try done.
    case_match eqn:E; [|done]. by intros [= <- <- <- <-].
  - simpl. intros s n. destruct (negb _); simpl; [|done]. destruct (forallb name_char s) eqn:E; [|done].
    intros [= <-]. by apply lowercase_name.
Qed.
End CheckedParsers.
Import CheckedParsers EncoderThms.RefEnv HeaderValues.RefHttp.

(** A request that is relayed: its headers are decoded, copied, one is added, and the
    head is written. *)
Notation relayed_text := (bs "GET / HTTP/1.1" ++ CRLF ++ bs "X-Id: a: b" ++ CRLF ++ CRLF).
Notation x_id := (bs "x-id").
Notation added_value := (mkHeaderValue (bs "1") false).
Notation relayed_map := (append (append new x_id (mkHeaderValue (bs "a: b") false)) (bs "x-n") added_value).
Notation relayed_head := (rs_set_headers (ResponseHeadOps.new 200 HTTP_11) relayed_map).

Lemma relayed_decoded :
  exists h pl d' src', decode_msg (new_decoder ConfigOps.new) RequestHeadOps.default relayed_text = Val (Ok (Some (h, pl)), d', src') /\
    values (rq_headers h) x_id = [mkHeaderValue (bs "a: b") false].
Proof. eexists _, _, _, _. split; vm_compute; reflexivity. Qed.

Lemma head_reads_back_witness :
  exists fields dates enc head date',
    encode encoder_default [] relayed_head false false HTTP_11 BS_Empty Close None DateService.new = Val (Ok tt, enc, head, date') /\
    read_head head =
      Some (bs "HTTP/1.1 200 <unknown status code>",
            framing_fields BS_Empty false ++ connection_fields Close HTTP_11 ++ fields ++ dates, [[]]) /\
    (forall k, snd <$> filter (fun f => f.1 = k) fields =
       if written true k then hv_inner <$> merged_values relayed_map new k else []) /\
    (dates = [] \/ exists t, dates = [(DATE, t)]) /\ date_ok date'.
Proof.
  destruct (head_reads_back (V := http) (fun _ => bs "0") encoder_default relayed_head HTTP_11 BS_Empty Close None
    DateService.new (bs "HTTP/1.1 200 <unknown status code>")) as (fields & dates & enc & head & date' & He & Hr & Hk & Hd & Ho).
  - vm_compute. reflexivity.
  - apply (visible_no_cr (bs "HTTP/1.1 200 <unknown status code>")). vm_compute. reflexivity.
  - reflexivity.
  - exact I.
  - destruct relayed_decoded as (h & pl & d' & src' & Hd & Hv). apply safe_append; [|reflexivity|].
    + apply (safe_copied _ new x_id _ (rq_headers h)); [apply safe_new| |rewrite Hv; by apply list_elem_of_here].
      eapply safe_decoded; [apply rd_new|apply default_is_fresh|exact Hd].
    + apply made_str with (s := bs "1"). reflexivity.
  - intros m Hm. discriminate Hm.
  - reflexivity.
  - vm_compute. reflexivity.
  - intros Hc. discriminate Hc.
  - exists fields, dates, enc, head, date'. split; [exact He|]. split; [exact Hr|]. split; [exact Hk|]. split; [exact Hd|exact Ho].
Defined.
