(* ===== verification/H1Codec.v ===== *)
(** * The HTTP/1 codecs

    [h1/codec.rs] (the server's [Codec]) and [client/codec.rs] ([ClientCodec]
    and [ClientPayloadCodec]): the message decoder and encoder put together,
    with the connection state they keep between a request and its response. *)
From S2P Require Import Prelude Headers Message Config Errors Payload Decoder DecoderThms.
From S2P Require Import Encoder EncoderThms.

(** [h1::Message] *)
Inductive CodecMessage (A : Type) :=
| Item (x : A)
| MChunk (b : option (list Z)).
Arguments Item {A} x.
Arguments MChunk {A} b.

(** [h1::MessageType] *)
Inductive MessageKind := MT_None | MT_Payload | MT_Stream.

Module CFlags.
Definition HEAD : Z := 1.
Definition STREAM : Z := 2.
Definition KEEPALIVE_ENABLED : Z := 4.
End CFlags.

Module ClientFlags.
Definition HEAD : Z := 1.
Definition KEEPALIVE_ENABLED : Z := 8.
Definition STREAM : Z := 16.
End ClientFlags.

Section Codec.
Context `{Parsers} `{EncoderEnv}.

(** ** The server's codec *)

Record Codec := mkCodec {
  c_con_id : Z;
  c_decoder : MessageDecoder RequestHead;
  c_version : Version;
  c_ctype : ConnectionType;
  c_cfg : HttpServiceConfig;
  c_flags : Z;
  c_encoder : MessageEncoder
}.

Definition codec_new (con_id : Z) (cfg : HttpServiceConfig) : Codec :=
  mkCodec con_id (new_decoder cfg) HTTP_11 KeepAlive cfg
    (if ka_enabled cfg then CFlags.KEEPALIVE_ENABLED else 0) encoder_default.

Definition codec_clone (c : Codec) : outcome Codec :=
  d ← clone_decoder (c_decoder c);
  Val (mkCodec (c_con_id c) d (c_version c) (c_ctype c) (c_cfg c) (c_flags c) (c_encoder c)).

Definition codec_is_reading_hdrs (c : Codec) : bool := is_reading_hdrs (c_decoder c).
Definition codec_upgrade (c : Codec) : bool := bool_decide (c_ctype c = Upgrade).
Definition codec_keepalive (c : Codec) : bool := bool_decide (c_ctype c = KeepAlive).

Definition set_codec_flags (c : Codec) (f : Z) : Codec :=
  mkCodec (c_con_id c) (c_decoder c) (c_version c) (c_ctype c) (c_cfg c) f (c_encoder c).
Definition set_codec_decoder (c : Codec) (d : MessageDecoder RequestHead) : Codec :=
  mkCodec (c_con_id c) d (c_version c) (c_ctype c) (c_cfg c) (c_flags c) (c_encoder c).
Definition set_codec_encoder (c : Codec) (e : MessageEncoder) : Codec :=
  mkCodec (c_con_id c) (c_decoder c) (c_version c) (c_ctype c) (c_cfg c) (c_flags c) e.
Definition set_codec_ctype (c : Codec) (t : ConnectionType) : Codec :=
  mkCodec (c_con_id c) (c_decoder c) (c_version c) t (c_cfg c) (c_flags c) (c_encoder c).

Definition insert_flags (c : Codec) (f : Z) : Codec :=
  set_codec_flags c (Flag.insert (c_flags c) f).

Definition reset_upgrade (c : Codec) : Codec :=
  set_codec_ctype (set_codec_flags c (Flag.remove (c_flags c) CFlags.STREAM)) Close.

(** [Decoder for Codec]; [new_msg] is the head the pool hands out. *)
Definition codec_decode (c : Codec) (new_msg : RequestHead) (src : list Z)
  : outcome (result (option (RequestHead * PayloadType)) DecodeError * Codec * list Z) :=
  r ← decode_msg (c_decoder c) new_msg src;
  let '(res, d', src') := r in
  let c1 := set_codec_decoder c d' in
  match res with
  | Err e => Val (Err e, c1, src')
  | Ok None => Val (Ok None, c1, src')
  | Ok (Some (req, payload)) =>
      let req1 := set_id req (c_con_id c) in
      let flags := Flag.set (c_flags c) CFlags.HEAD (bool_decide (rq_method req1 = HEAD)) in
      let ctype := RequestHeadOps.connection_type req1 in
      let ctype' := if bool_decide (ctype = KeepAlive) &&
                       negb (Flag.contains flags CFlags.KEEPALIVE_ENABLED)
                    then Close else ctype in
      let c2 := mkCodec (c_con_id c) d' (rq_version req1) ctype' (c_cfg c) flags (c_encoder c) in
      let c3 := match payload with PT_Stream _ => insert_flags c2 CFlags.STREAM | _ => c2 end in
      Val (Ok (Some (req1, payload)), c3, src')
  end.

(** [Encoder for Codec]: the result, the codec, the output, the date cell. *)
Definition codec_encode (c : Codec) (item : CodecMessage (ResponseHead * BodySize)) (dst : list Z)
    (date : DateService.t) : outcome (result unit EncodeError * Codec * list Z * DateService.t) :=
  match item with
  | Item (res, length) =>
      let res1 := rs_set_version res (c_version c) in
      let c1 := match ResponseHeadOps.ctype res1 with
                | Some ct => if bool_decide (ct = KeepAlive) then c else set_codec_ctype c ct
                | None => c
                end in
      r ← encode (c_encoder c1) dst res1 (Flag.contains (c_flags c1) CFlags.HEAD)
            (Flag.contains (c_flags c1) CFlags.STREAM) (c_version c1) length (c_ctype c1) None date;
      let '(x, e', dst', date') := r in
      Val (x, set_codec_encoder c1 e', dst', date')
  | MChunk (Some bytes) =>
      match encode_chunk (c_encoder c) bytes dst with
      | (Ok _, e', dst') => Val (Ok tt, set_codec_encoder c e', dst', date)
      | (Err err, e', dst') => Val (Err err, set_codec_encoder c e', dst', date)
      end
  | MChunk None =>
      let '(x, e', dst') := encode_eof (c_encoder c) dst in
      Val (x, set_codec_encoder c e', dst', date)
  end.

(** ** The client's codec *)

Record ClientCodec := mkClientCodec {
  cc_decoder : MessageDecoder ResponseHead;
  cc_payload : option PayloadDecoder;
  cc_version : Version;
  cc_ctype : ConnectionType;
  cc_flags : Z;
  cc_encoder : MessageEncoder
}.

Definition client_new (keep_alive : bool) (cfg : HttpServiceConfig) : ClientCodec :=
  mkClientCodec (new_decoder cfg) None HTTP_11 Close
    (if keep_alive then ClientFlags.KEEPALIVE_ENABLED else 0) encoder_default.

Definition client_keepalive (c : ClientCodec) : bool := bool_decide (cc_ctype c = KeepAlive).

Definition client_message_type (c : ClientCodec) : MessageKind :=
  if Flag.contains (cc_flags c) ClientFlags.STREAM then MT_Stream
  else match cc_payload c with None => MT_None | Some _ => MT_Payload end.

(** [Decoder for ClientCodec] *)
Definition client_decode (c : ClientCodec) (src : list Z)
  : outcome (result (option ResponseHead) DecodeError * ClientCodec * list Z) :=
  r ← decode_msg (cc_decoder c) ResponseHeadOps.default src;
  let '(res, d', src') := r in
  let c1 := mkClientCodec d' (cc_payload c) (cc_version c) (cc_ctype c) (cc_flags c) (cc_encoder c) in
  match res with
  | Err e => Val (Err e, c1, src')
  | Ok None => Val (Ok None, c1, src')
  | Ok (Some (req, payload)) =>
      let ctype := match ResponseHeadOps.ctype req with
                   | Some t => if bool_decide (t = KeepAlive) then cc_ctype c else t
                   | None => cc_ctype c
                   end in
      let '(pl, flags) :=
        if Flag.contains (cc_flags c) ClientFlags.HEAD then (None, cc_flags c)
        else match payload with
             | PT_None => (None, cc_flags c)
             | PT_Payload pl => (Some pl, cc_flags c)
             | PT_Stream pl => (Some pl, Flag.insert (cc_flags c) ClientFlags.STREAM)
             end in
      Val (Ok (Some req), mkClientCodec d' pl (cc_version c) ctype flags (cc_encoder c), src')
  end.

(** [Decoder for ClientPayloadCodec]: [Some (Some b)] is a chunk, [Some None] the
    end of the body. *)
Definition client_payload_decode `{ChunkSizeParser} (c : ClientCodec) (src : list Z)
  : outcome (result (option (option (list Z))) PayloadError * ClientCodec * list Z) :=
  match cc_payload c with
  | None => Panic
  | Some pl =>
      let '(r, pl', src') := Payload.decode pl src in
      let c' p := mkClientCodec (cc_decoder c) p (cc_version c) (cc_ctype c) (cc_flags c)
                    (cc_encoder c) in
      match r with
      | Err e => Val (Err (PE_Decode e), c' (Some pl'), src')
      | Ok (Some (Chunk b)) => Val (Ok (Some (Some b)), c' (Some pl'), src')
      | Ok (Some Eof) => Val (Ok (Some None), c' None, src')
      | Ok None => Val (Ok None, c' (Some pl'), src')
      end
  end.

Record ClientRawRequest := mkRawRequest {
  raw_head : RequestHead;
  raw_headers : option HeaderMap;
  raw_size : BodySize
}.

(** [Encoder for ClientCodec] *)
Definition client_encode (c : ClientCodec) (item : CodecMessage ClientRawRequest) (dst : list Z)
    (date : DateService.t)
  : outcome (result unit EncodeError * ClientCodec * list Z * DateService.t) :=
  let with_encoder (c : ClientCodec) e :=
    mkClientCodec (cc_decoder c) (cc_payload c) (cc_version c) (cc_ctype c) (cc_flags c) e in
  match item with
  | Item req =>
      let head := raw_head req in
      let flags := Flag.set (cc_flags c) ClientFlags.HEAD (bool_decide (rq_method head = HEAD)) in
      let ctype := match RequestHeadOps.connection_type head with
                   | KeepAlive => if Flag.contains flags ClientFlags.KEEPALIVE_ENABLED
                                  then KeepAlive else Close
                   | Upgrade => Upgrade
                   | Close => Close
                   end in
      let c1 := mkClientCodec (cc_decoder c) (cc_payload c) (rq_version head) ctype flags (cc_encoder c) in
      r ← encode (cc_encoder c1) dst head false false (cc_version c1) (raw_size req) (cc_ctype c1)
            (raw_headers req) date;
      let '(x, e', dst', date') := r in
      Val (x, with_encoder c1 e', dst', date')
  | MChunk (Some bytes) =>
      match encode_chunk (cc_encoder c) bytes dst with
      | (Ok _, e', dst') => Val (Ok tt, with_encoder c e', dst', date)
      | (Err err, e', dst') => Val (Err err, with_encoder c e', dst', date)
      end
  | MChunk None =>
      let '(x, e', dst') := encode_eof (cc_encoder c) dst in
      Val (x, with_encoder c e', dst', date)
  end.
End Codec.

(** ** The connection type of a request and its response *)

(** The connection is kept when keep-alive is enabled, the request asks for it
    and the response says nothing else. *)
Lemma reuse_iff (en : bool) (a : ConnectionType) (t : option ConnectionType) :
  let mine := if bool_decide (a = KeepAlive) && negb en then Close else a in
  match t with Some ct => if bool_decide (ct = KeepAlive) then mine else ct | None => mine end
    = KeepAlive <->
  en = true /\ a = KeepAlive /\ t ∈ [None; Some KeepAlive].
Proof.
  intros mine. subst mine. set_unfold.
  destruct t as [[]|], a, en; simpl; intuition congruence.
Qed.

Section ServerThms.
Context `{Parsers} `{EncoderEnvLaws}.

(** The codecs a connection can have. *)
Inductive reachable_codec (cfg : HttpServiceConfig) : Codec -> Prop :=
| rc_new id : reachable_codec cfg (codec_new id cfg)
| rc_decode c n src r c' src' :
    reachable_codec cfg c -> codec_decode c n src = Val (r, c', src') -> reachable_codec cfg c'
| rc_encode c item dst date r c' dst' date' :
    reachable_codec cfg c -> codec_encode c item dst date = Val (r, c', dst', date') ->
    reachable_codec cfg c'
| rc_reset c : reachable_codec cfg c -> reachable_codec cfg (reset_upgrade c)
| rc_clone c c' : reachable_codec cfg c -> codec_clone c = Val c' -> reachable_codec cfg c'.

(** What a decoded request leaves in the codec. *)
Lemma codec_decode_request c n src req pl c' src' :
  codec_decode c n src = Val (Ok (Some (req, pl)), c', src') ->
  c_version c' = rq_version req /\
  Flag.contains (c_flags c') CFlags.HEAD = bool_decide (rq_method req = HEAD) /\
  Flag.contains (c_flags c') CFlags.KEEPALIVE_ENABLED
    = Flag.contains (c_flags c) CFlags.KEEPALIVE_ENABLED /\
  c_ctype c' = (if bool_decide (RequestHeadOps.connection_type req = KeepAlive) &&
                   negb (Flag.contains (c_flags c) CFlags.KEEPALIVE_ENABLED)
                then Close else RequestHeadOps.connection_type req).
Proof.
  unfold codec_decode. intros Hd.
  destruct (decode_msg (c_decoder c) n src) as [[[[[[h p]|]|e] d'] s']| |]; simpl in Hd; try done.
  injection Hd as <- <- <- <-. flags. destruct p; simpl; flags; auto.
Qed.

Lemma codec_decode_ka c n src r c' src' :
  codec_decode c n src = Val (r, c', src') ->
  Flag.contains (c_flags c') CFlags.KEEPALIVE_ENABLED
    = Flag.contains (c_flags c) CFlags.KEEPALIVE_ENABLED.
Proof.
  destruct r as [[[req pl]|]|e]; [intros Hd; by apply codec_decode_request in Hd as (_ & _ & ? & _)|..];
    unfold codec_decode; intros Hd;
    destruct (decode_msg (c_decoder c) n src) as [[[[[[h p]|]|e'] d'] s']| |]; simpl in Hd; try done;
    by simplify_eq.
Qed.

Lemma codec_encode_flags c item dst date r c' dst' date' :
  codec_encode c item dst date = Val (r, c', dst', date') ->
  c_flags c' = c_flags c /\ c_version c' = c_version c.
Proof.
  unfold codec_encode. intros He. destruct item as [[res len]|[b|]].
  - match type of He with context [mbind _ ?e] => destruct e as [[[[x e'] d'] t']| |] end;
      simpl in He; try done. simplify_eq. repeat case_match; done.
  - repeat case_match; by simplify_eq.
  - repeat case_match; by simplify_eq.
Qed.

Lemma reachable_ka cfg c :
  reachable_codec cfg c -> Flag.contains (c_flags c) CFlags.KEEPALIVE_ENABLED = ka_enabled cfg.
Proof.
  induction 1 as [id|c n src r c' src' _ IH Hd|c item dst date r c' dst' date' _ IH He|c _ IH|c c' _ IH Hc].
  - simpl. by destruct (ka_enabled cfg).
  - by rewrite (codec_decode_ka _ _ _ _ _ _ Hd).
  - by rewrite (proj1 (codec_encode_flags _ _ _ _ _ _ _ _ He)).
  - unfold reset_upgrade. simpl. by flags.
  - unfold codec_clone in Hc. destruct (clone_decoder _); simpl in Hc; by simplify_eq.
Qed.

(** What a peer reads from the Connection line of a head of version [v]. *)
Definition peer_reads (v : Version) (line : list Z) : option ConnectionType :=
  match line with
  | [] => Some (if version_lt v HTTP_11 then Close else KeepAlive)
  | _ => connection_type (drop 12 line)
  end.

Lemma peer_reads_line ct v : peer_reads v (connection_line ct v) = Some ct.
Proof. by destruct ct, v. Qed.

(** Keep-alive is decided once and announced truthfully.  After a request
    has been decoded and its response head encoded, the codec will keep the
    connection if and only if the service enables keep-alive, the request asked
    for it (explicitly or by its version) and the response did not ask for
    anything else; and the head carries a Connection line from which the peer
    reads exactly this decision. *)
Theorem keepalive_decision cfg c n src req pl c1 src' res len dst date r c2 out date' :
  reachable_codec cfg c ->
  codec_decode c n src = Val (Ok (Some (req, pl)), c1, src') ->
  special_status (Some (rs_status res)) = false -> sized_u64 len ->
  codec_encode c1 (Item (res, len)) dst date = Val (r, c2, out, date') ->
  (codec_keepalive c2 = true <->
     ka_enabled cfg = true /\ RequestHeadOps.connection_type req = KeepAlive /\
     ResponseHeadOps.ctype res ∈ [None; Some KeepAlive]) /\
  exists before line after,
    out = before ++ line ++ after /\ line = connection_line (c_ctype c2) (rq_version req) /\
    peer_reads (rq_version req) line = Some (c_ctype c2).
Proof.
  intros Hr Hd Hs Hl He. apply reachable_ka in Hr.
  apply codec_decode_request in Hd as (Hv & _ & Hka & Hct). rewrite Hr in *.
  unfold codec_encode in He.
  change (ResponseHeadOps.ctype (rs_set_version res (c_version c1))) with (ResponseHeadOps.ctype res) in He.
  set (c1' := match ResponseHeadOps.ctype res with Some _ => _ | None => _ end) in He.
  assert (Hc1' : c_version c1' = rq_version req) by (subst c1'; rewrite <- Hv; by repeat case_match).
  unfold encode in He.
  destruct (em_encode_status _ _) as [dst0| |]; cbn [mbind outcome_bind] in He; try done.
  destruct (encode_headers_shape (rs_set_version res (c_version c1)) dst0 (c_version c1') len
              (c_ctype c1') None date) as (lines & tail & d' & Hh & _); [done|].
  rewrite Hh in He. cbn [mbind outcome_bind] in He. injection He as <- <- <- <-.
  change (c_ctype (set_codec_encoder c1' _)) with (c_ctype c1'). rewrite Hc1'. split.
  - unfold codec_keepalive. rewrite bool_decide_eq_true, <- reuse_iff, <- Hct. subst c1'.
    destruct (ResponseHeadOps.ctype res) as [ct|]; [|done]. by case_bool_decide.
  - eexists (dst0 ++ framing_line _ _), (connection_line (c_ctype c1') (rq_version req)), _.
    split_and!; [by rewrite <- !app_assoc|done|apply peer_reads_line].
Qed.

(** The answer to a HEAD request has no body: once a HEAD request has been
    decoded and a response head encoded, of any announced size, chunks and the
    end of the body are accepted and write nothing. *)
Theorem head_response_has_no_body c n src req pl c1 src' res len dst date r c2 out date' body out2 :
  codec_decode c n src = Val (Ok (Some (req, pl)), c1, src') ->
  rq_method req = HEAD ->
  codec_encode c1 (Item (res, len)) dst date = Val (r, c2, out, date') ->
  codec_encode c2 (MChunk (Some body)) out2 date' = Val (Ok tt, c2, out2, date') /\
  codec_encode c2 (MChunk None) out2 date' = Val (Ok tt, c2, out2, date').
Proof.
  intros Hd Hm He. apply codec_decode_request in Hd as (_ & Hh & _).
  rewrite bool_decide_true in Hh by done.
  assert (Hte : c_encoder c2 = mkEncoder (me_length (c_encoder c2)) te_empty).
  { unfold codec_encode, encode in He.
    set (c1' := match ResponseHeadOps.ctype _ with Some _ => _ | None => _ end) in He.
    assert (Hf : c_flags c1' = c_flags c1) by (subst c1'; by repeat case_match).
    rewrite Hf, Hh in He.
    destruct (em_encode_status _ _) as [dst0| |]; cbn [mbind outcome_bind] in He; try done.
    destruct (encode_headers _ _ _ _ _ _ _) as [[[x y] z]| |]; cbn [mbind outcome_bind] in He; try done.
    injection He as <- <- <- <-. done. }
  unfold codec_encode, encode_chunk, encode_eof. rewrite Hte. simpl.
  by destruct c2 as [? ? ? ? ? ? [? ?]]; simplify_eq/=.
Qed.
End ServerThms.

Section ClientThms.
Context `{Parsers} `{EncoderEnv}.

(** A client connection is reusable, [keepalive], after a request has been
    encoded and its response head decoded, if and only if the pool allows it,
    the request asked for it, and the response head does not say otherwise in a
    Connection header.  The version of the response plays no part. *)
Theorem client_reuse_decision c req dst date r c1 out date' src h c2 src' :
  client_encode c (Item req) dst date = Val (r, c1, out, date') ->
  client_decode c1 src = Val (Ok (Some h), c2, src') ->
  (client_keepalive c2 = true <->
     Flag.contains (cc_flags c) ClientFlags.KEEPALIVE_ENABLED = true /\
     RequestHeadOps.connection_type (raw_head req) = KeepAlive /\
     ResponseHeadOps.ctype h ∈ [None; Some KeepAlive]).
Proof.
  intros He Hd. unfold client_encode in He.
  match type of He with context [mbind _ ?e] => destruct e as [[[[x e'] d'] t']| |] end;
    cbn [mbind outcome_bind] in He; try done. injection He as <- <- <- <-.
  unfold client_decode in Hd. simpl cc_decoder in Hd.
  destruct (decode_msg _ _ _) as [[[[[[h' p]|]|err] d2] s2]| |]; cbn [mbind outcome_bind] in Hd;
    try done.
  set (fl := if Flag.contains _ _ then _ else _) in Hd. destruct fl as [pl fl'].
  injection Hd as <- <- <-. unfold client_keepalive. rewrite bool_decide_eq_true, <- reuse_iff.
  simpl. flags.
  by destruct (RequestHeadOps.connection_type (raw_head req)),
    (Flag.contains (cc_flags c) ClientFlags.KEEPALIVE_ENABLED).
Qed.
End ClientThms.

(** ** Examples *)
Import RefParsers RefEnv.

Definition sample_get (method : string) : list Z :=
  bs method ++ bs " / HTTP/1.1" ++ CRLF ++ bs "Host: a" ++ CRLF ++ CRLF.

Lemma keepalive_decision_witness :
  exists req pl c1 src' r c2 out date',
    codec_decode (codec_new 7 ConfigOps.new) RequestHeadOps.default (sample_get "GET")
      = Val (Ok (Some (req, pl)), c1, src') /\
    codec_encode c1 (Item (sample_response 200, BS_Sized 5)) [] DateService.new
      = Val (r, c2, out, date') /\
    (codec_keepalive c2 = true <->
       ka_enabled ConfigOps.new = true /\ RequestHeadOps.connection_type req = KeepAlive /\
       ResponseHeadOps.ctype (sample_response 200) ∈ [None; Some KeepAlive]) /\
    exists before line after,
      out = before ++ line ++ after /\ line = connection_line (c_ctype c2) (rq_version req) /\
      peer_reads (rq_version req) line = Some (c_ctype c2).
Proof.
  eexists _, _, _, _, _, _, _, _. split; [vm_compute; reflexivity|].
  split; [vm_compute; reflexivity|].
  eapply (keepalive_decision ConfigOps.new (codec_new 7 ConfigOps.new) RequestHeadOps.default
            (sample_get "GET") _ _ _ _ (sample_response 200) (BS_Sized 5) [] DateService.new).
  - constructor.
  - vm_compute. reflexivity.
  - reflexivity.
  - simpl. lia.
  - vm_compute. reflexivity.
Defined.

Lemma head_response_has_no_body_witness :
  exists req pl c1 src' r c2 out date',
    codec_decode (codec_new 7 ConfigOps.new) RequestHeadOps.default (sample_get "HEAD")
      = Val (Ok (Some (req, pl)), c1, src') /\
    codec_encode c1 (Item (sample_response 200, BS_Sized 5)) [] DateService.new
      = Val (r, c2, out, date') /\
    codec_encode c2 (MChunk (Some (bs "hello"))) out date' = Val (Ok tt, c2, out, date') /\
    codec_encode c2 (MChunk None) out date' = Val (Ok tt, c2, out, date').
Proof.
  eexists _, _, _, _, _, _, _, _. split; [vm_compute; reflexivity|].
  split; [vm_compute; reflexivity|].
  eapply (head_response_has_no_body (codec_new 7 ConfigOps.new) RequestHeadOps.default
            (sample_get "HEAD") _ _ _ _ (sample_response 200) (BS_Sized 5) [] DateService.new).
  - vm_compute. reflexivity.
  - reflexivity.
  - vm_compute. reflexivity.
Defined.

Lemma client_reuse_decision_witness :
  exists r c1 out date' h c2 src',
    client_encode (client_new true ConfigOps.new)
      (Item (mkRawRequest RequestHeadOps.default None BS_Empty)) [] DateService.new
      = Val (r, c1, out, date') /\
    client_decode c1 (bs "HTTP/1.1 200 OK" ++ CRLF ++ bs "Connection: close" ++ CRLF ++ CRLF)
      = Val (Ok (Some h), c2, src') /\
    (client_keepalive c2 = true <->
       Flag.contains (cc_flags (client_new true ConfigOps.new)) ClientFlags.KEEPALIVE_ENABLED = true /\
       RequestHeadOps.connection_type RequestHeadOps.default = KeepAlive /\
       ResponseHeadOps.ctype h ∈ [None; Some KeepAlive]) /\
    client_keepalive c2 = false.
Proof.
  eexists _, _, _, _, _, _, _. split; [vm_compute; reflexivity|].
  split; [vm_compute; reflexivity|]. split; [|reflexivity].
  eapply (client_reuse_decision (client_new true ConfigOps.new)
            (mkRawRequest RequestHeadOps.default None BS_Empty) [] DateService.new _ _ _ _
            (bs "HTTP/1.1 200 OK" ++ CRLF ++ bs "Connection: close" ++ CRLF ++ CRLF)).
  - vm_compute. reflexivity.
  - vm_compute. reflexivity.
Defined.
