(* ===== verification/WsMask.v ===== *)
(** * WebSocket masking

    [ws/mask.rs]: the masking of a payload by blocks of eight bytes.  A buffer
    is its bytes and the address it starts at; the machine is little-endian. *)
From S2P Require Import Prelude.

(** ** Words and bytes *)

Definition byte_at (z : Z) (j : Z) : Z := Z.land (Z.shiftr z (8 * j)) 255.
(** [u64] from and to its bytes in memory. *)
Fixpoint le_word (l : list Z) : Z :=
  match l with
  | [] => 0
  | b :: l' => Z.lor b (Z.shiftl (le_word l') 8)
  end.
Definition le_bytes (n : nat) (z : Z) : list Z := (fun j => byte_at z (Z.of_nat j)) <$> seq 0 n.

Definition rotate_right64 (x n : Z) : Z := Z.lor (Z.shiftr x n) (u64 (Z.shiftl x (64 - n))).

(** ** [align_buf], [cast_slice], [xor_short], [apply_mask] *)

(** A slice of whole words, read and written in place. *)
Fixpoint words (l : list Z) : list Z :=
  match l with
  | b0 :: b1 :: b2 :: b3 :: b4 :: b5 :: b6 :: b7 :: l' =>
      le_word [b0; b1; b2; b3; b4; b5; b6; b7] :: words l'
  | _ => []
  end.

(** The head, the words in the middle, and the tail of the buffer [buf] at
    address [start_ptr]. *)
Definition align_buf (start_ptr : Z) (buf : list Z) : list Z * list Z * list Z :=
  let end_ptr := start_ptr + zlen buf in
  let start_aligned := Z.land (start_ptr + 7) (Z.lnot 7) in
  let end_aligned := Z.land end_ptr (Z.lnot 7) in
  if start_aligned <=? end_aligned then
    let tmp := ztake (end_aligned - start_ptr) buf in
    let tail := zdrop (end_aligned - start_ptr) buf in
    let head := ztake (start_aligned - start_ptr) tmp in
    let mid := zdrop (start_aligned - start_ptr) tmp in
    (head, words mid, tail)
  else (buf, [], []).

Definition xor_short (buf : list Z) (mask : Z) : list Z :=
  take (length buf) (le_bytes 8 (Z.lxor (le_word buf) mask)).

Definition apply_mask (start_ptr : Z) (buf : list Z) (mask_u32 : Z) : list Z :=
  let mask_u64 := Z.lor (u64 (Z.shiftl mask_u32 32)) mask_u32 in
  let '(head, mid, tail) := align_buf start_ptr buf in
  let head_len := zlen head in
  let '(head', mask) :=
    if 0 <? head_len
    then (xor_short head mask_u64, rotate_right64 mask_u64 (8 * head_len))
    else (head, mask_u64) in
  let mid' := (fun v => Z.lxor v mask) <$> mid in
  let tail' := if 0 <? zlen tail then xor_short tail mask else tail in
  head' ++ (mid' ≫= le_bytes 8) ++ tail'.

(** ** The reference: RFC 6455, section 5.3 *)

(** Octet [i] of the payload is xored with octet [i mod 4] of the key. *)
Fixpoint mask_from (k : nat) (m : Z) (l : list Z) : list Z :=
  match l with
  | [] => []
  | x :: l' => Z.lxor x (byte_at m (Z.of_nat k mod 4)) :: mask_from (S k) m l'
  end.
Definition mask_bytes (m : Z) (l : list Z) : list Z := mask_from 0 m l.

(** ** Bits *)

Lemma testbit_byte z j i :
  0 <= j -> 0 <= i -> Z.testbit (byte_at z j) i = (i <? 8) && Z.testbit z (8 * j + i).
Proof.
  intros Hj Hi. unfold byte_at. rewrite Z.land_spec, Z.shiftr_spec by lia.
  change 255 with (Z.ones 8). rewrite Z.testbit_ones_nonneg by lia.
  rewrite andb_comm. f_equal. f_equal. lia.
Qed.

Lemma byte_at_lxor a b j : byte_at (Z.lxor a b) j = Z.lxor (byte_at a j) (byte_at b j).
Proof.
  unfold byte_at. rewrite Z.shiftr_lxor. apply Z.bits_inj'. intros n Hn.
  rewrite !Z.land_spec, !Z.lxor_spec, !Z.land_spec.
  by destruct (Z.testbit (Z.shiftr a _) n), (Z.testbit (Z.shiftr b _) n), (Z.testbit 255 n).
Qed.

Lemma byte_testbit_high b n : 0 <= b < 256 -> 8 <= n -> Z.testbit b n = false.
Proof.
  intros Hb Hn. destruct (decide (b = 0)) as [->|]; [apply Z.bits_0|].
  apply Z.bits_above_log2; [lia|]. apply Z.log2_lt_pow2; [lia|].
  apply Z.lt_le_trans with (2 ^ 8); [lia|]. apply Z.pow_le_mono_r; lia.
Qed.

Lemma byte_at_le_word l : forall j, wf_bytes l ->
  byte_at (le_word l) (Z.of_nat j) = default 0 (l !! j).
Proof.
  induction l as [|b l IH]; intros j Hl.
  { unfold byte_at. simpl. by rewrite Z.shiftr_0_l. }
  inversion_clear Hl as [|? ? Hb Hl']. apply Z.bits_inj'. intros n Hn.
  rewrite testbit_byte by lia. simpl le_word. rewrite Z.lor_spec, Z.shiftl_spec by lia.
  destruct j as [|j]; simpl lookup; simpl default.
  - destruct (n <? 8) eqn:E; zbool; simpl.
    + rewrite (Z.testbit_neg_r _ (_ - 8)) by lia. by rewrite orb_false_r.
    + by rewrite byte_testbit_high.
  - rewrite <- IH, testbit_byte by (done || lia). rewrite (byte_testbit_high b) by lia.
    simpl. f_equal. f_equal. lia.
Qed.

Lemma byte_at_lt_word z j n : 0 <= z < 2 ^ n -> 0 <= j -> n <= 8 * j -> byte_at z j = 0.
Proof.
  intros Hz Hj Hn. unfold byte_at. rewrite Z.shiftr_div_pow2 by lia.
  rewrite Z.div_small; [done|]. split; [lia|].
  destruct (Z.lt_ge_cases n 0). { rewrite Z.pow_neg_r in Hz; lia. }
  apply Z.lt_le_trans with (2 ^ n); [lia|]. apply Z.pow_le_mono_r; lia.
Qed.

Lemma lor_bound a b n : 0 <= n -> 0 <= a < 2 ^ n -> 0 <= b < 2 ^ n -> 0 <= Z.lor a b < 2 ^ n.
Proof.
  intros Hn Ha Hb. assert (0 <= Z.lor a b) by (apply Z.lor_nonneg; lia). split; [done|].
  destruct (decide (Z.lor a b = 0)) as [->|]; [lia|].
  apply Z.log2_lt_pow2; [lia|]. rewrite Z.log2_lor by lia.
  destruct (decide (n = 0)) as [->|].
  { simpl in *. assert (a = 0) as -> by lia. by assert (b = 0) as -> by lia. }
  apply Z.max_lub_lt.
  - destruct (decide (a = 0)) as [->|]; [simpl; lia|]. apply Z.log2_lt_pow2; lia.
  - destruct (decide (b = 0)) as [->|]; [simpl; lia|]. apply Z.log2_lt_pow2; lia.
Qed.

(** The 64-bit mask repeats the 32-bit one. *)
Lemma mask64_byte m j :
  0 <= m < 2 ^ 32 -> 0 <= j < 8 ->
  byte_at (Z.lor (u64 (Z.shiftl m 32)) m) j = byte_at m (j mod 4).
Proof.
  intros Hm Hj.
  assert (Hu : u64 (Z.shiftl m 32) = Z.shiftl m 32).
  { unfold u64. rewrite Z.shiftl_mul_pow2 by lia. apply Z.mod_small. lia. }
  rewrite Hu. apply Z.bits_inj'. intros n Hn. rewrite !testbit_byte by (Z.div_mod_to_equations; lia).
  destruct (n <? 8) eqn:E; zbool; simpl; [|done].
  rewrite Z.lor_spec, Z.shiftl_spec by lia.
  assert (Hhi : forall k, 32 <= k -> Z.testbit m k = false).
  { intros k Hk. destruct (decide (m = 0)) as [->|]; [apply Z.bits_0|].
    apply Z.bits_above_log2; [lia|]. apply Z.log2_lt_pow2; [lia|].
    apply Z.lt_le_trans with (2 ^ 32); [lia|]. apply Z.pow_le_mono_r; lia. }
  destruct (Z.lt_ge_cases j 4).
  - rewrite (Z.testbit_neg_r _ (_ - 32)), Z.mod_small by lia. done.
  - rewrite (Hhi (8 * j + n)) by lia. rewrite orb_false_r. f_equal. Z.div_mod_to_equations; lia.
Qed.

Lemma rotate_byte x h j :
  0 <= x < 2 ^ 64 -> 0 < h < 8 -> 0 <= j < 8 ->
  byte_at (rotate_right64 x (8 * h)) j = byte_at x ((j + h) mod 8).
Proof.
  intros Hx Hh Hj. unfold rotate_right64, u64. apply Z.bits_inj'. intros n Hn.
  rewrite !testbit_byte by (Z.div_mod_to_equations; lia).
  destruct (n <? 8) eqn:E; zbool; simpl; [|done].
  rewrite Z.lor_spec, Z.shiftr_spec by lia.
  rewrite Z.mod_pow2_bits_low, Z.shiftl_spec by lia.
  assert (Hhi : forall k, 64 <= k -> Z.testbit x k = false).
  { intros k Hk. destruct (decide (x = 0)) as [->|]; [apply Z.bits_0|].
    apply Z.bits_above_log2; [lia|]. apply Z.log2_lt_pow2; [lia|].
    apply Z.lt_le_trans with (2 ^ 64); [lia|]. apply Z.pow_le_mono_r; lia. }
  destruct (Z.lt_ge_cases (j + h) 8).
  - rewrite (Z.testbit_neg_r _ (_ - (64 - _))), orb_false_r, Z.mod_small by lia. f_equal. lia.
  - rewrite Hhi by lia. simpl. f_equal. Z.div_mod_to_equations; lia.
Qed.

(** ** The blocks *)

Lemma lookup_mask_from l : forall k m i,
  mask_from k m l !! i = (fun x => Z.lxor x (byte_at m (Z.of_nat (k + i) mod 4))) <$> l !! i.
Proof.
  induction l as [|x l IH]; intros k m [|i]; simpl; try done.
  - by rewrite Nat.add_0_r.
  - rewrite IH. by rewrite Nat.add_succ_r.
Qed.

Lemma mask_from_app l1 l2 k m :
  mask_from k m (l1 ++ l2) = mask_from k m l1 ++ mask_from (k + length l1) m l2.
Proof.
  revert k. induction l1 as [|x l1 IH]; intros k; simpl; [by rewrite Nat.add_0_r|].
  by rewrite IH, Nat.add_succ_r.
Qed.

Lemma mask_from_congr l k k' m :
  Z.of_nat k mod 4 = Z.of_nat k' mod 4 -> mask_from k m l = mask_from k' m l.
Proof.
  revert k k'. induction l as [|x l IH]; intros k k' Hk; simpl; [done|].
  rewrite Hk. f_equal. apply IH. rewrite !Nat2Z.inj_succ. Z.div_mod_to_equations; lia.
Qed.

Lemma length_mask_from l k m : length (mask_from k m l) = length l.
Proof. revert k. induction l as [|x l IH]; intros k; simpl; auto. Qed.

(** [M] holds the key as it applies at position [k]. *)
Definition key_at (m : Z) (k : nat) (M : Z) : Prop :=
  forall j, 0 <= j < 8 -> byte_at M j = byte_at m ((Z.of_nat k + j) mod 4).

Lemma xor_bytes l M m k :
  wf_bytes l -> (length l <= 8)%nat -> key_at m k M ->
  take (length l) (le_bytes 8 (Z.lxor (le_word l) M)) = mask_from k m l.
Proof.
  intros Hl Hlen Hk. apply list_eq. intros i. rewrite lookup_mask_from.
  destruct (decide (i < length l)%nat) as [Hi|Hi].
  - rewrite lookup_take_lt by done. unfold le_bytes. rewrite list_lookup_fmap, lookup_seq_lt by lia.
    simpl fmap. destruct (lookup_lt_is_Some_2 l i Hi) as [x Hx]. rewrite Hx. simpl. f_equal.
    rewrite byte_at_lxor, byte_at_le_word, Hx by done. simpl. f_equal.
    rewrite Hk by lia. f_equal. f_equal. lia.
  - rewrite lookup_take_ge by lia. by rewrite lookup_ge_None_2 by lia.
Qed.

Lemma xor_words fuel : forall l M m k,
  (length l <= fuel)%nat -> wf_bytes l -> (8 | length l)%nat -> key_at m k M ->
  ((fun v => Z.lxor v M) <$> words l) ≫= le_bytes 8 = mask_from k m l.
Proof.
  induction fuel as [|fuel IH]; intros l M m k Hf Hl Hd Hk.
  { destruct l; [done|simpl in Hf; lia]. }
  destruct (decide (length l = 0)%nat) as [Hz|Hz]; [by destruct l|].
  assert (8 <= length l)%nat by (destruct Hd as [q Hq]; lia).
  destruct l as [|b0 [|b1 [|b2 [|b3 [|b4 [|b5 [|b6 [|b7 l]]]]]]]]; simpl in H; try lia.
  cbn [words]. rewrite fmap_cons, bind_cons.
  change (b0 :: b1 :: b2 :: b3 :: b4 :: b5 :: b6 :: b7 :: l)
    with ([b0; b1; b2; b3; b4; b5; b6; b7] ++ l) in *.
  apply Forall_app in Hl as [Hl1 Hl2]. rewrite mask_from_app. f_equal.
  - rewrite <- (xor_bytes _ M m k) by (done || simpl; lia). by rewrite take_ge by (simpl; lia).
  - rewrite (mask_from_congr _ _ k) by (simpl length; rewrite Nat2Z.inj_add; Z.div_mod_to_equations; lia).
    apply IH; [simpl in Hf; lia|done| |done].
    rewrite length_app in Hd. destruct Hd as [q Hq]. exists (q - 1)%nat. simpl in Hq. lia.
Qed.

(** *** Alignment *)

Lemma land_not_7 x : Z.land x (Z.lnot 7) = x - x mod 8.
Proof.
  change (Z.land x (Z.lnot 7)) with (Z.land x (Z.lnot (Z.ones 3))).
  rewrite <- Z.ldiff_land, Z.ldiff_ones_r, Z.shiftl_mul_pow2, Z.shiftr_div_pow2 by lia.
  change (2 ^ 3) with 8. pose proof (Z.div_mod x 8). lia.
Qed.

(** The three segments are a partition of the buffer, the outer ones shorter
    than a word, the middle one whole words. *)
Lemma align_buf_spec start buf head mid tail :
  0 <= start -> align_buf start buf = (head, mid, tail) ->
  exists m, buf = head ++ m ++ tail /\ mid = words m /\ (8 | length m)%nat /\
    (length head < 8)%nat /\ (length tail < 8)%nat /\ (head = buf \/ start + zlen head = 8 * ((start + 7) / 8)).
Proof.
  intros Hs. unfold align_buf. rewrite !land_not_7. pose proof (zlen_nonneg buf).
  destruct (start + 7 - (start + 7) mod 8 <=? start + zlen buf - (start + zlen buf) mod 8) eqn:E; zbool;
    intros [= <- <- <-].
  - set (a := start + 7 - (start + 7) mod 8 - start).
    set (b := start + zlen buf - (start + zlen buf) mod 8 - start).
    assert (Hab : 0 <= a <= b) by (subst a b; Z.div_mod_to_equations; lia).
    assert (Ha8 : a < 8) by (subst a; Z.div_mod_to_equations; lia).
    assert (Hb : b <= zlen buf < b + 8) by (subst b; Z.div_mod_to_equations; lia).
    assert (Hlb : zlen (ztake b buf) = b) by (apply zlen_ztake; lia).
    exists (zdrop a (ztake b buf)). split_and!; try done.
    + by rewrite app_assoc, !ztake_zdrop.
    + assert (Hd : zlen (zdrop a (ztake b buf)) = b - a) by (rewrite zlen_zdrop; lia).
      exists (Z.to_nat ((b - a) / 8)). unfold zlen in Hd.
      assert (b - a = 8 * ((b - a) / 8)) by (subst a b; Z.div_mod_to_equations; lia). lia.
    + assert (zlen (ztake a (ztake b buf)) = a) by (apply zlen_ztake; lia). unfold zlen in *. lia.
    + assert (zlen (zdrop b buf) = zlen buf - b) by (apply zlen_zdrop; lia). unfold zlen in *. lia.
    + right. rewrite zlen_ztake by lia. subst a. Z.div_mod_to_equations; lia.
  - exists []. rewrite app_nil_r. split_and!; try done; simpl; try lia; [by exists 0%nat| |by left].
    assert (zlen buf < 8) by (Z.div_mod_to_equations; lia). unfold zlen in *. lia.
Qed.

Lemma apply_mask_ok start buf m :
  0 <= start -> wf_bytes buf -> 0 <= m < 2 ^ 32 ->
  apply_mask start buf m = mask_bytes m buf.
Proof.
  intros Hs Hw Hm. unfold apply_mask.
  destruct (align_buf start buf) as [[head mid] tail] eqn:E.
  apply align_buf_spec in E as (w & -> & -> & Hd & Hh & Ht & _); [|done].
  apply Forall_app in Hw as [Hwh Hw]. apply Forall_app in Hw as [Hww Hwt].
  set (M := Z.lor (u64 (Z.shiftl m 32)) m).
  assert (HM : key_at m 0 M) by (intros j Hj; by apply mask64_byte).
  assert (HMb : 0 <= M < 2 ^ 64).
  { apply lor_bound; [lia|apply Z.mod_pos_bound; lia|lia]. }
  unfold mask_bytes. rewrite !mask_from_app. cbn [Nat.add].
  set (h := length head). assert (Hzh : zlen head = Z.of_nat h) by done. rewrite Hzh.
  assert (Hx : exists M', (if 0 <? Z.of_nat h
      then (xor_short head M, rotate_right64 M (8 * Z.of_nat h)) else (head, M))
      = (mask_from 0 m head, M') /\ key_at m h M').
  { destruct (0 <? Z.of_nat h) eqn:E; zbool.
    - eexists. split; [f_equal; apply xor_bytes; [done|lia|done]|].
      intros j Hj. rewrite rotate_byte, HM by (done || Z.div_mod_to_equations; lia).
      f_equal. Z.div_mod_to_equations; lia.
    - assert (Hh0 : h = 0%nat) by lia. exists M. split; [by destruct head|by rewrite Hh0]. }
  destruct Hx as (M' & -> & HM'). f_equal. f_equal.
  - by apply (xor_words (length w)).
  - rewrite (mask_from_congr _ _ h)
      by (destruct Hd as [q ->]; rewrite Nat2Z.inj_add, Nat2Z.inj_mul; Z.div_mod_to_equations; lia).
    destruct (0 <? zlen tail) eqn:E; zbool.
    + apply xor_bytes; [done|lia|done].
    + by assert (tail = []) as -> by (apply zlen_0; pose proof (zlen_nonneg tail); lia).
Qed.

Lemma lxor_byte_at_bound m j : 0 <= j -> 0 <= byte_at m j < 256.
Proof.
  intros. unfold byte_at. change 255 with (Z.ones 8). rewrite Z.land_ones by lia.
  apply Z.mod_pos_bound. lia.
Qed.

Lemma wf_mask_bytes l m k : wf_bytes l -> wf_bytes (mask_from k m l).
Proof.
  intros Hl. revert k. induction Hl as [|x l Hx _ IH]; intros k; constructor; [|apply IH].
  assert (0 <= byte_at m (Z.of_nat k mod 4) < 256) by (apply lxor_byte_at_bound; Z.div_mod_to_equations; lia).
  assert (0 <= Z.lxor x (byte_at m (Z.of_nat k mod 4))) by (apply Z.lxor_nonneg; lia).
  split; [done|].
  destruct (decide (Z.lxor x (byte_at m (Z.of_nat k mod 4)) = 0)) as [->|]; [lia|].
  change 256 with (2 ^ 8). apply Z.log2_lt_pow2; [lia|].
  eapply Z.le_lt_trans; [apply Z.log2_lxor; lia|]. apply Z.max_lub_lt.
  - destruct (decide (x = 0)) as [->|]; [simpl; lia|]. apply Z.log2_lt_pow2; lia.
  - destruct (decide (byte_at m (Z.of_nat k mod 4) = 0)) as [->|]; [simpl; lia|].
    apply Z.log2_lt_pow2; lia.
Qed.

Lemma mask_bytes_involutive l m k : mask_from k m (mask_from k m l) = l.
Proof.
  revert k. induction l as [|x l IH]; intros k; [done|]. simpl.
  by rewrite Z.lxor_assoc, Z.lxor_nilpotent, Z.lxor_0_r, IH.
Qed.

(** C35.  Masking by words is masking by octets: at every address the buffer may
    start at, the block-wise [apply_mask] computes the octet-wise masking of RFC
    6455; so it keeps the length, and undoes itself, even at another address. *)
Theorem apply_mask_rfc start start2 buf m :
  0 <= start -> 0 <= start2 -> wf_bytes buf -> 0 <= m < 2 ^ 32 ->
  apply_mask start buf m = mask_bytes m buf /\
  length (apply_mask start buf m) = length buf /\
  apply_mask start2 (apply_mask start buf m) m = buf.
Proof.
  intros Hs Hs2 Hw Hm. rewrite apply_mask_ok by done. split_and!; [done|apply length_mask_from|].
  rewrite apply_mask_ok by (done || by apply wf_mask_bytes). apply mask_bytes_involutive.
Qed.

Lemma apply_mask_rfc_witness :
  let b := bs "The quick brown fox" in
  apply_mask 1003 b 0x1234abcd = mask_bytes 0x1234abcd b /\
  length (apply_mask 1003 b 0x1234abcd) = length b /\
  apply_mask 16 (apply_mask 1003 b 0x1234abcd) 0x1234abcd = b.
Proof.
  apply (apply_mask_rfc 1003 16 (bs "The quick brown fox") 0x1234abcd); [lia|lia| |lia].
  apply (bool_decide_unpack (Forall (fun x => 0 <= x < 256) _)). vm_compute. exact I.
Defined.
