(* ===== verification/WsProto.v ===== *)
(** * WebSocket protocol codes and the handshake key

    [ws/proto.rs]: operation codes, close codes, and [hash_key], the SHA-1 of
    the handshake key.  The base64 crate's encoder is a parameter. *)
From S2P Require Import Prelude.

(** ** Operation codes *)

Inductive OpCode := OpContinue | OpText | OpBinary | OpClose | OpPing | OpPong | OpBad.

#[export] Instance OpCode_eq_dec : EqDecision OpCode.
Proof. solve_decision. Defined.

Definition opcode_to_u8 (c : OpCode) : Z :=
  match c with
  | OpContinue => 0 | OpText => 1 | OpBinary => 2 | OpClose => 8 | OpPing => 9 | OpPong => 10
  | OpBad => 8
  end.

Definition opcode_of_u8 (b : Z) : OpCode :=
  match b with
  | 0 => OpContinue | 1 => OpText | 2 => OpBinary | 8 => OpClose | 9 => OpPing | 10 => OpPong
  | _ => OpBad
  end.

(** ** Close codes *)

Inductive CloseCode :=
| Normal | Away | Protocol | Unsupported | Abnormal | Invalid | Policy | CSize | Extension
| CError | CRestart | Again | Tls | Other (code : Z).

Definition close_code_to_u16 (c : CloseCode) : Z :=
  match c with
  | Normal => 1000 | Away => 1001 | Protocol => 1002 | Unsupported => 1003 | Abnormal => 1006
  | Invalid => 1007 | Policy => 1008 | CSize => 1009 | Extension => 1010 | CError => 1011
  | CRestart => 1012 | Again => 1013 | Tls => 1015 | Other code => code
  end.

Definition close_code_of_u16 (code : Z) : CloseCode :=
  match code with
  | 1000 => Normal | 1001 => Away | 1002 => Protocol | 1003 => Unsupported | 1006 => Abnormal
  | 1007 => Invalid | 1008 => Policy | 1009 => CSize | 1010 => Extension | 1011 => CError
  | 1012 => CRestart | 1013 => Again | 1015 => Tls | _ => Other code
  end.

(** The description is the string's bytes. *)
Record CloseReason := mkCloseReason { cr_code : CloseCode; cr_description : option (list Z) }.

Lemma opcode_roundtrip c : c <> OpBad -> opcode_of_u8 (opcode_to_u8 c) = c.
Proof. by destruct c. Qed.

Lemma opcode_to_u8_of_u8 b : opcode_of_u8 b <> OpBad -> opcode_to_u8 (opcode_of_u8 b) = b.
Proof.
  destruct b as [|p|p]; [done| |by intros []].
  do 4 (try (destruct p as [p|p|]; try done)); by intros [].
Qed.

(** Every code on the wire survives being read and written again; a reason the
    program builds survives unless it spells a named code as [Other]. *)
Lemma close_code_u16_roundtrip n : close_code_to_u16 (close_code_of_u16 n) = n.
Proof.
  destruct n as [|p|p]; [done| |done].
  do 10 (try (destruct p as [p|p|]; try reflexivity)).
Qed.

Lemma close_code_roundtrip c :
  (forall n, c = Other n -> close_code_of_u16 n = Other n) ->
  close_code_of_u16 (close_code_to_u16 c) = c.
Proof. destruct c; try done. intros Hc. by apply Hc. Qed.

(** ** SHA-1 *)

Inductive HandshakeError :=
| GetMethodRequired
| NoWebsocketUpgrade
| NoConnectionUpgrade
| NoVersionHeader
| UnsupportedVersion
| BadWebsocketKey.

Definition H0 : Z := 0x67452301.
Definition H1 : Z := 0xEFCDAB89.
Definition H2 : Z := 0x98BADCFE.
Definition H3 : Z := 0x10325476.
Definition H4 : Z := 0xC3D2E1F0.
Definition WS_GUID : list Z := bs "258EAFA5-E914-47DA-95CA-C5AB0DC85B11".

Definition rotl32 (x n : Z) : Z := Z.lor (u32 (Z.shiftl x n)) (Z.shiftr x (32 - n)).
Definition not32 (x : Z) : Z := u32 (Z.lnot x).
Definition add32 (x y : Z) : Z := u32 (x + y).
(** [from_be_bytes] and [to_be_bytes]. *)
Definition of_be (l : list Z) : Z := foldl (fun a b => 256 * a + b) 0 l.
Fixpoint to_be (n : nat) (x : Z) : list Z :=
  match n with
  | O => []
  | S n' => Z.land (Z.shiftr x (8 * Z.of_nat n')) 255 :: to_be n' x
  end.

(** [chunks(n)] of a slice. *)
Fixpoint chunks (fuel n : nat) (l : list Z) : list (list Z) :=
  match fuel, l with
  | O, _ | _, [] => []
  | S f, _ => take n l :: chunks f n (drop n l)
  end.

(** [input[i..i + len].copy_from_slice(src)] *)
Definition copy_at (i : nat) (src input : list Z) : outcome (list Z) :=
  if (i + length src <=? length input)%nat
  then Val (take i input ++ src ++ drop (i + length src) input) else Panic.
Definition set_at (i : nat) (v : Z) (input : list Z) : outcome (list Z) :=
  if (i <? length input)%nat then Val (<[i := v]> input) else Panic.

(** The [while] loop of [pad_message]; at most 63 turns. *)
Fixpoint pad_loop (fuel : nat) (cur : nat) (input : list Z) : outcome (nat * list Z) :=
  if Z.of_nat cur * 8 mod 512 =? 448 then Val (cur, input)
  else match fuel with
       | O => NoFuel
       | S f => input' ← set_at cur 0 input; pad_loop f (S cur) input'
       end.

Definition pad_message (len : nat) (input : list Z) : outcome (list Z) :=
  let cur := S len in
  let bit_length := Z.of_nat len * 8 in
  input1 ← set_at len 0x80 input;
  st ← pad_loop 64 cur input1;
  let '(cur, input2) := st in
  let orig_len := to_be 8 bit_length in
  let total := (cur + length orig_len)%nat in
  input3 ← copy_at cur orig_len input2;
  Val (take total input3).

(** The message schedule of a 64-byte chunk. *)
Definition schedule_step (sch : list Z) (i : nat) : list Z :=
  let g k := default 0 (sch !! (i - k)%nat) in
  <[i := rotl32 (Z.lxor (Z.lxor (Z.lxor (g 3%nat) (g 8%nat)) (g 14%nat)) (g 16%nat)) 1]> sch.
Definition schedule (chunk : list Z) : list Z :=
  fold_left schedule_step (seq 16 64)
    ((of_be <$> chunks 16 4 chunk) ++ repeat 0 64).

Definition regs : Type := Z * Z * Z * Z * Z.

Definition round (r : regs) (isch : nat * Z) : regs :=
  let '(a, b, c, d, e) := r in
  let '(i, sch) := isch in
  let '(f, k) :=
    if (i <=? 19)%nat then (Z.lor (Z.land b c) (Z.land (not32 b) d), 0x5A827999)
    else if (i <=? 39)%nat then (Z.lxor (Z.lxor b c) d, 0x6ED9EBA1)
    else if (i <=? 59)%nat
    then (Z.lor (Z.lor (Z.land b c) (Z.land b d)) (Z.land c d), 0x8F1BBCDC)
    else (Z.lxor (Z.lxor b c) d, 0xCA62C1D6) in
  let temp := add32 (add32 (add32 (add32 (rotl32 a 5) f) e) k) sch in
  (temp, a, rotl32 b 30, c, d).

Definition add_regs (h r : regs) : regs :=
  let '(h0, h1, h2, h3, h4) := h in
  let '(a, b, c, d, e) := r in
  (add32 h0 a, add32 h1 b, add32 h2 c, add32 h3 d, add32 h4 e).

Definition compress (h : regs) (chunk : list Z) : regs :=
  add_regs h (fold_left round (imap pair (schedule chunk)) h).

Definition digest (h : regs) : list Z :=
  let '(h0, h1, h2, h3, h4) := h in
  to_be 4 h0 ++ to_be 4 h1 ++ to_be 4 h2 ++ to_be 4 h3 ++ to_be 4 h4.

Definition hash_key (base64_encode : list Z -> list Z) (key : list Z)
  : outcome (result (list Z) HandshakeError) :=
  if (32 <? length key)%nat then Val (Err BadWebsocketKey)
  else
    let input := repeat 0 192 in
    let klen := length key in
    let len := (klen + 36)%nat in
    input1 ← copy_at 0 key input;
    input2 ← copy_at klen WS_GUID input1;
    msg ← pad_message len input2;
    let h := fold_left compress (chunks 4 64 msg) (H0, H1, H2, H3, H4) in
    Val (Ok (base64_encode (digest h))).

(** ** The reference: FIPS 180-4, section 6.1 *)
Module Sha1.
Definition Ch (x y z : Z) : Z := Z.lxor (Z.land x y) (Z.land (not32 x) z).
Definition Parity (x y z : Z) : Z := Z.lxor (Z.lxor x y) z.
Definition Maj (x y z : Z) : Z := Z.lxor (Z.lxor (Z.land x y) (Z.land x z)) (Z.land y z).
Definition f (t : nat) : Z -> Z -> Z -> Z :=
  if (t <=? 19)%nat then Ch else if (t <=? 39)%nat then Parity
  else if (t <=? 59)%nat then Maj else Parity.
Definition K (t : nat) : Z :=
  if (t <=? 19)%nat then 0x5A827999 else if (t <=? 39)%nat then 0x6ED9EBA1
  else if (t <=? 59)%nat then 0x8F1BBCDC else 0xCA62C1D6.

(** The words [W_0 .. W_(t-1)] extended by [n] more. *)
Fixpoint extend (n : nat) (W : list Z) : list Z :=
  match n with
  | O => W
  | S n' =>
      let w k := default 0 (W !! (length W - k)%nat) in
      extend n' (W ++ [rotl32 (Z.lxor (Z.lxor (Z.lxor (w 3%nat) (w 8%nat)) (w 14%nat)) (w 16%nat)) 1])
  end.

Definition step (r : regs) (tw : nat * Z) : regs :=
  let '(a, b, c, d, e) := r in
  let '(t, w) := tw in
  let T := u32 (rotl32 a 5 + f t b c d + e + K t + w) in
  (T, a, rotl32 b 30, c, d).

Definition block (h : regs) (M : list Z) : regs :=
  add_regs h (fold_left step (imap pair (extend 64 (of_be <$> chunks 16 4 M))) h).

(** Padding to a multiple of 64 bytes. *)
Definition pad (m : list Z) : list Z :=
  m ++ [0x80] ++ repeat 0 (Z.to_nat ((55 - zlen m) mod 64)) ++ to_be 8 (8 * zlen m).

Definition sha1 (m : list Z) : list Z :=
  let p := pad m in
  digest (fold_left block (chunks (length p) 64 p) (H0, H1, H2, H3, H4)).
End Sha1.

(** *** Buffers *)

Lemma copy_at_app pre mid suf src :
  length mid = length src -> copy_at (length pre) src (pre ++ mid ++ suf) = Val (pre ++ src ++ suf).
Proof.
  intros Hl. unfold copy_at. rewrite !length_app.
  destruct (_ <=? _)%nat eqn:E; [|apply Nat.leb_gt in E; lia]. f_equal.
  rewrite take_app_length. f_equal. f_equal.
  rewrite app_assoc, drop_app_length' by (rewrite length_app; lia). done.
Qed.

Lemma copy_at_0 mid suf src :
  length mid = length src -> copy_at 0 src (mid ++ suf) = Val (src ++ suf).
Proof. apply (copy_at_app []). Qed.

Lemma set_at_app pre x suf v : set_at (length pre) v (pre ++ x :: suf) = Val (pre ++ v :: suf).
Proof.
  unfold set_at. rewrite length_app. simpl.
  destruct (_ <? _)%nat eqn:E; [|apply Nat.ltb_ge in E; lia]. f_equal.
  rewrite <- (Nat.add_0_r (length pre)). by rewrite insert_app_r.
Qed.

Lemma pad_loop_ok fuel : forall pre k suf,
  Z.of_nat k = (56 - zlen pre) mod 64 -> (k <= fuel)%nat ->
  pad_loop fuel (length pre) (pre ++ repeat 0 k ++ suf)
  = Val ((length pre + k)%nat, pre ++ repeat 0 k ++ suf).
Proof.
  induction fuel as [|fuel IH]; intros pre k suf Hk Hf; simpl;
    (destruct (Z.of_nat (length pre) * 8 mod 512 =? 448) eqn:E; zbool;
      [assert (k = 0%nat) as -> by (unfold zlen in Hk; Z.div_mod_to_equations; lia); by rewrite Nat.add_0_r|]).
  - unfold zlen in Hk. Z.div_mod_to_equations; lia.
  - destruct k as [|k]; [unfold zlen in Hk; Z.div_mod_to_equations; lia|].
    simpl repeat. cbn [app]. rewrite set_at_app. cbn [mbind outcome_bind].
    change (pre ++ 0 :: repeat 0 k ++ suf) with (pre ++ [0] ++ repeat 0 k ++ suf).
    rewrite app_assoc. replace (S (length pre)) with (length (pre ++ [0])) by (rewrite length_app; simpl; lia).
    rewrite IH; [|rewrite zlen_app; change (zlen [0]) with 1; Z.div_mod_to_equations; lia|lia].
    rewrite length_app. simpl. f_equal. f_equal. lia.
Qed.

Lemma length_to_be n x : length (to_be n x) = n.
Proof. induction n; simpl; auto. Qed.

Lemma pad_message_ok m n :
  (length m + 1 + Z.to_nat ((55 - zlen m) mod 64) + 8 <= n)%nat ->
  pad_message (length m) (m ++ repeat 0 (n - length m)) = Val (Sha1.pad m).
Proof.
  intros Hn. unfold pad_message. set (k := Z.to_nat ((55 - zlen m) mod 64)).
  assert (Hk : Z.of_nat k = (55 - zlen m) mod 64) by (unfold k; Z.div_mod_to_equations; lia).
  set (r := (n - length m - 1 - k - 8)%nat).
  replace (n - length m)%nat with (1 + (k + (8 + r)))%nat by (unfold r; lia).
  rewrite (repeat_app 0 1). simpl repeat at 1. cbn [app]. rewrite set_at_app. cbn [mbind outcome_bind].
  rewrite (repeat_app 0 k).
  change (m ++ 128 :: repeat 0 k ++ repeat 0 (8 + r))
    with (m ++ [128%Z] ++ repeat 0 k ++ repeat 0 (8 + r)).
  rewrite app_assoc. replace (S (length m)) with (length (m ++ [128%Z])) by (rewrite length_app; simpl; lia).
  rewrite pad_loop_ok;
    [|rewrite zlen_app; change (zlen [128%Z]) with 1; rewrite Hk;
      replace (56 - (zlen m + 1)) with (55 - zlen m) by lia; done|
      unfold k; Z.div_mod_to_equations; lia].
  cbn [mbind outcome_bind]. rewrite (repeat_app 0 8).
  rewrite (app_assoc (m ++ [128%Z])).
  replace (length (m ++ [128%Z]) + k)%nat with (length ((m ++ [128%Z]) ++ repeat 0 k))
    by (rewrite length_app, repeat_length; done).
  rewrite copy_at_app by (by rewrite length_to_be). cbn [mbind outcome_bind].
  rewrite (app_assoc _ (to_be _ _) (repeat 0 r)).
  rewrite length_to_be, take_app_length' by (by rewrite !length_app, length_to_be).
  unfold Sha1.pad. rewrite <- !app_assoc, (Z.mul_comm _ 8). done.
Qed.

(** *** Rounds *)

Lemma schedule_extend n : forall W,
  (16 <= length W)%nat ->
  fold_left schedule_step (seq (length W) n) (W ++ repeat 0 n) = Sha1.extend n W.
Proof.
  induction n as [|n IH]; intros W HW; simpl; [by rewrite app_nil_r|].
  unfold schedule_step at 2.
  rewrite !lookup_app_l by lia.
  match goal with |- context [<[length W := ?x]> (W ++ 0 :: repeat 0 n)] => set (w := x) end.
  assert (Hi : <[length W := w]> (W ++ 0 :: repeat 0 n) = (W ++ [w]) ++ repeat 0 n).
  { rewrite <- (Nat.add_0_r (length W)) at 1. rewrite insert_app_r, <- app_assoc. done. }
  rewrite Hi. replace (S (length W)) with (length (W ++ [w])) by (rewrite length_app; simpl; lia).
  apply IH. rewrite length_app. lia.
Qed.

Lemma length_chunks k : forall n l, (0 < n)%nat -> length l = (k * n)%nat -> length (chunks k n l) = k.
Proof.
  induction k as [|k IH]; intros n l Hn Hl; [done|]. destruct l as [|x l]; [simpl in Hl; lia|].
  cbn [chunks]. simpl length. f_equal. apply IH; [done|]. rewrite length_drop. simpl in *. lia.
Qed.

Lemma schedule_ok chunk :
  length chunk = 64%nat -> schedule chunk = Sha1.extend 64 (of_be <$> chunks 16 4 chunk).
Proof.
  intros Hl. unfold schedule.
  assert (HW : length (of_be <$> chunks 16 4 chunk) = 16%nat)
    by (rewrite length_fmap; apply length_chunks; lia).
  rewrite <- schedule_extend by lia. by rewrite HW.
Qed.

Lemma ch_lor x y z : Z.lor (Z.land x y) (Z.land (not32 x) z) = Sha1.Ch x y z.
Proof.
  unfold Sha1.Ch. apply Z.bits_inj'. intros n Hn. rewrite Z.lor_spec, Z.lxor_spec, !Z.land_spec.
  unfold not32, u32. destruct (Z.lt_ge_cases n 32).
  - rewrite Z.mod_pow2_bits_low, Z.lnot_spec by lia.
    by destruct (Z.testbit x n), (Z.testbit y n), (Z.testbit z n).
  - rewrite Z.mod_pow2_bits_high by lia. by destruct (Z.testbit x n && Z.testbit y n).
Qed.

Lemma maj_lor x y z :
  Z.lor (Z.lor (Z.land x y) (Z.land x z)) (Z.land y z) = Sha1.Maj x y z.
Proof.
  unfold Sha1.Maj. apply Z.bits_inj'. intros n Hn. rewrite !Z.lor_spec, !Z.lxor_spec, !Z.land_spec.
  by destruct (Z.testbit x n), (Z.testbit y n), (Z.testbit z n).
Qed.

Lemma add32_l x y : add32 (u32 x) y = u32 (x + y).
Proof. unfold add32, u32. by rewrite Zplus_mod_idemp_l. Qed.

Lemma round_ok r iw : round r iw = Sha1.step r iw.
Proof.
  destruct r as [[[[a b] c] d] e], iw as [i w]. unfold round, Sha1.step, Sha1.f, Sha1.K.
  rewrite ch_lor, maj_lor.
  repeat case_match; simplify_eq; unfold add32 at 4; rewrite !add32_l; done.
Qed.

Lemma compress_ok h chunk : length chunk = 64%nat -> compress h chunk = Sha1.block h chunk.
Proof.
  intros Hl. unfold compress, Sha1.block. rewrite schedule_ok by done. f_equal.
  generalize (imap pair (Sha1.extend 64 (of_be <$> chunks 16 4 chunk))). intros l.
  intros. clear Hl. revert h. induction l as [|iw l IH]; intros r; simpl; [done|].
  by rewrite round_ok.
Qed.

Lemma fold_compress_ok bs : forall h,
  Forall (fun b => length b = 64%nat) bs -> fold_left compress bs h = fold_left Sha1.block bs h.
Proof.
  induction bs as [|b bs IH]; intros h Hf; [done|]. inversion_clear Hf as [|? ? Hb Hr].
  simpl. rewrite compress_ok by done. by apply IH.
Qed.

Lemma chunks_full k : forall n l, length l = (k * n)%nat -> (0 < n)%nat ->
  Forall (fun b => length b = n) (chunks k n l).
Proof.
  induction k as [|k IH]; intros n l Hl Hn; [constructor|]. destruct l as [|x l]; [constructor|].
  cbn [chunks]. constructor.
  - rewrite length_take. simpl in *. lia.
  - apply IH; [|done]. rewrite length_drop. simpl in *. lia.
Qed.

Lemma chunks_fuel f : forall g n l, (length l <= f)%nat -> (length l <= g)%nat -> (0 < n)%nat ->
  chunks f n l = chunks g n l.
Proof.
  induction f as [|f IH]; intros [|g] n l Hf Hg Hn; (destruct l as [|x l]; [done|]);
    simpl in Hf, Hg; try lia.
  cbn [chunks]. f_equal. apply IH; [rewrite length_drop; simpl; lia..|done].
Qed.

Lemma chunks_enough q : forall k n l, length l = (q * n)%nat -> (q <= k)%nat -> (0 < n)%nat ->
  chunks k n l = chunks q n l.
Proof.
  induction q as [|q IH]; intros k n l Hl Hk Hn.
  { destruct l; [by destruct k|done]. }
  destruct k as [|k]; [lia|]. destruct l as [|x l]; [done|]. cbn [chunks]. f_equal.
  apply IH; [rewrite length_drop; simpl in *; lia|lia|done].
Qed.

Lemma length_pad m : exists q, length (Sha1.pad m) = (q * 64)%nat /\
  Z.of_nat (q * 64) = zlen m + 9 + (55 - zlen m) mod 64.
Proof.
  assert (Hl : Z.of_nat (length (Sha1.pad m)) = zlen m + 9 + (55 - zlen m) mod 64).
  { unfold Sha1.pad. rewrite !length_app, repeat_length, length_to_be. simpl length.
    unfold zlen. Z.div_mod_to_equations; lia. }
  exists (Z.to_nat (Z.of_nat (length (Sha1.pad m)) / 64)).
  split; [|rewrite <- Hl]; rewrite ?Hl; Z.div_mod_to_equations; lia.
Qed.

Lemma length_guid : length WS_GUID = 36%nat.
Proof. reflexivity. Qed.

Lemma hash_key_ok base64_encode key :
  (length key <= 32)%nat ->
  hash_key base64_encode key = Val (Ok (base64_encode (Sha1.sha1 (key ++ WS_GUID)))).
Proof.
  intros E. unfold hash_key. rewrite (proj2 (Nat.ltb_ge _ _) E).
  replace 192%nat with (length key + (36 + (192 - (length key + 36))))%nat by lia.
  rewrite (repeat_app 0 (length key)).
  rewrite copy_at_0 by (by rewrite repeat_length).
  cbn [mbind outcome_bind]. rewrite (repeat_app 0 36).
  rewrite copy_at_app by (by rewrite repeat_length, length_guid). cbn [mbind outcome_bind].
  rewrite app_assoc.
  assert (Hl : length (key ++ WS_GUID) = (length key + 36)%nat) by (by rewrite length_app, length_guid).
  rewrite <- Hl. rewrite pad_message_ok.
  2:{ rewrite Hl. unfold zlen. rewrite Hl. Z.div_mod_to_equations; lia. }
  cbn [mbind outcome_bind]. unfold Sha1.sha1. do 4 f_equal.
  destruct (length_pad (key ++ WS_GUID)) as (q & Hq & Hq2).
  assert (q <= 4)%nat by (unfold zlen in Hq2; rewrite Hl in Hq2; Z.div_mod_to_equations; lia).
  rewrite (chunks_enough q 4 64), (chunks_enough q (length _) 64) by lia.
  apply fold_compress_ok, chunks_full; lia.
Qed.

(** C36.  The handshake key.  A key of at most 32 bytes is hashed without leaving
    the 192-byte buffer, to the SHA-1 digest (FIPS 180-4) of the key and the
    protocol's GUID; a longer key is refused. *)
Theorem hash_key_is_sha1 base64_encode key :
  hash_key base64_encode key =
  Val (if (32 <? length key)%nat then Err BadWebsocketKey
       else Ok (base64_encode (Sha1.sha1 (key ++ WS_GUID)))).
Proof.
  destruct (32 <? length key)%nat eqn:E; [unfold hash_key; by rewrite E|].
  apply hash_key_ok. by apply Nat.ltb_ge.
Qed.

(** The example of RFC 6455, section 1.3. *)
Example hash_key_rfc6455 :
  hash_key (fun x => x) (bs "dGhlIHNhbXBsZSBub25jZQ==")
  = Val (Ok (of_be <$> [[0xb3]; [0x7a]; [0x4f]; [0x2c]; [0xc0]; [0x62]; [0x4f]; [0x16]; [0x90]; [0xf6];
                        [0x46]; [0x06]; [0xcf]; [0x38]; [0x59]; [0x45]; [0xb2]; [0xbe]; [0xc4]; [0xea]])).
Proof. vm_compute. reflexivity. Qed.
