(* ===== verification/WsFrame.v ===== *)
(** * WebSocket frames

    [ws/frame.rs]: parsing and writing frames.  The address of the receive
    buffer and the random masking key are arguments; [from_utf8_lossy] of the
    standard library is a parameter of [parse_close_payload]. *)
From S2P Require Import Prelude WsMask WsProto.

(** [ws::error::ProtocolError] *)
Inductive WsError :=
| UnmaskedFrame
| MaskedFrame
| InvalidOpcode (b : Z)
| InvalidLength (n : Z)
| BadOpCode
| WsOverflow
| ContinuationNotStarted
| ContinuationStarted
| ContinuationFragment (op : OpCode).

(** [src[i]] and [&src[i..j]] below the length that was checked. *)
Definition at_ (src : list Z) (i : nat) : Z := default 0 (src !! i).
Definition sub_ (src : list Z) (i n : nat) : list Z := take n (drop i src).

(** What the header of a frame says: where the payload starts, FIN, the opcode,
    the payload's length, the masking key. *)
Definition metadata : Type := nat * bool * OpCode * Z * option Z.

Definition parse_metadata (src : list Z) (server : bool) (max_size : Z)
  : result (option metadata) WsError :=
  let chunk_len := length src in
  if (chunk_len <? 2)%nat then Ok None
  else
    let first := at_ src 0 in
    let second := at_ src 1 in
    let finished := negb (Z.land first 0x80 =? 0) in
    let masked := negb (Z.land second 0x80 =? 0) in
    if negb masked && server then Err UnmaskedFrame
    else if masked && negb server then Err MaskedFrame
    else
      let opcode := opcode_of_u8 (Z.land first 0x0F) in
      if decide (opcode = OpBad) then Err (InvalidOpcode (Z.land first 0x0F))
      else
        let len := Z.land second 0x7F in
        let with_length (idx : nat) (length : Z) :=
          if max_size <? length then Err WsOverflow
          else if server then
            if (chunk_len <? idx + 4)%nat then Ok None
            else Ok (Some ((idx + 4)%nat, finished, opcode, length, Some (le_word (sub_ src idx 4))))
          else Ok (Some (idx, finished, opcode, length, None)) in
        if len =? 126 then
          if (chunk_len <? 4)%nat then Ok None else with_length 4%nat (of_be (sub_ src 2 2))
        else if len =? 127 then
          if (chunk_len <? 10)%nat then Ok None
          else let len := of_be (sub_ src 2 8) in
               if max_size <? len then Err WsOverflow else with_length 10%nat len
        else with_length 2%nat len.

(** [Parser::parse] on the buffer [src] at address [addr]: the frame, or more
    bytes needed, and the bytes left. *)
Definition parse (addr : Z) (src : list Z) (server : bool) (max_size : Z)
  : result (option (bool * OpCode * option (list Z))) WsError * list Z :=
  match parse_metadata src server max_size with
  | Err e => (Err e, src)
  | Ok None => (Ok None, src)
  | Ok (Some (idx, finished, opcode, length, mask)) =>
      if zlen src <? Z.of_nat idx + length then (Ok None, src)
      else
        let src1 := drop idx src in
        if length =? 0 then (Ok (Some (finished, opcode, None)), src1)
        else if (bool_decide (opcode = OpPing) || bool_decide (opcode = OpPong)) && (125 <? length)
        then (Err (InvalidLength length), src1)
        else if bool_decide (opcode = OpClose) && (125 <? length)
        then (Ok (Some (true, OpClose, None)), src1)
        else
          let pl := match mask with
                    | Some m => apply_mask (addr + Z.of_nat idx) (ztake length src1) m
                    | None => ztake length src1
                    end in
          (Ok (Some (finished, opcode, Some pl)), zdrop length src1)
  end.

Definition parse_close_payload (from_utf8_lossy : list Z -> list Z) (payload : list Z)
  : option CloseReason :=
  if 2 <=? zlen payload then
    let code := close_code_of_u16 (of_be (take 2 payload)) in
    let description := if 2 <? zlen payload then Some (from_utf8_lossy (drop 2 payload)) else None in
    Some (mkCloseReason code description)
  else None.

(** [Parser::write_message]: [key] is the key the generator returns, [addr] the
    address of the copy that is masked. *)
Definition write_message (key addr : Z) (dst payload : list Z) (op : OpCode) (fin mask : bool)
  : list Z :=
  let one := if fin then Z.lor 0x80 (opcode_to_u8 op) else opcode_to_u8 op in
  let payload_len := zlen payload in
  let two := if mask then 0x80 else 0 in
  let dst1 := if payload_len <? 126 then dst ++ [one; Z.lor two (u8 payload_len)]
              else if payload_len <=? 65535
              then dst ++ [one; Z.lor two 0x7e] ++ to_be 2 (u16 payload_len)
              else dst ++ [one; Z.lor two 127] ++ to_be 8 payload_len in
  if mask then dst1 ++ le_bytes 4 key ++ apply_mask addr payload key else dst1 ++ payload.

Definition close_payload (reason : option CloseReason) : list Z :=
  match reason with
  | None => []
  | Some r => to_be 2 (close_code_to_u16 (cr_code r)) ++ default [] (cr_description r)
  end.
Definition write_close (key addr : Z) (dst : list Z) (reason : option CloseReason) (mask : bool)
  : list Z :=
  write_message key addr dst (close_payload reason) OpClose true mask.

(** ** The frame on the wire *)

Lemma of_be_app l x : of_be (l ++ [x]) = 256 * of_be l + x.
Proof. unfold of_be. by rewrite foldl_app. Qed.

Lemma of_be_acc l : forall a, foldl (fun a b => 256 * a + b) a l = a * 256 ^ zlen l + of_be l.
Proof.
  induction l as [|x l IH] using rev_ind; intros a; [unfold of_be, zlen; simpl; lia|].
  rewrite foldl_app, of_be_app. simpl. rewrite IH, zlen_app. change (zlen [x]) with 1.
  rewrite Z.pow_add_r by (auto with geario; lia). lia.
Qed.

(** Big-endian numbers of [n] bytes. *)
Lemma of_be_to_be n : forall x, 0 <= x < 256 ^ Z.of_nat n -> of_be (to_be n x) = x.
Proof.
  assert (Hgen : forall n x, 0 <= x -> of_be (to_be n x) = x mod 256 ^ Z.of_nat n).
  { clear. induction n as [|n IH]; intros x Hx; [by rewrite Z.mod_1_r|].
    cbn [to_be]. unfold of_be. cbn [foldl]. rewrite of_be_acc, IH by done.
    unfold zlen. rewrite length_to_be.
    change 255 with (Z.ones 8). rewrite Z.land_ones, Z.shiftr_div_pow2 by lia.
    replace (2 ^ (8 * Z.of_nat n)) with (256 ^ Z.of_nat n) 
      by (rewrite Z.pow_mul_r by lia; done).
    rewrite Nat2Z.inj_succ, Z.pow_succ_r, (Z.mul_comm 256 (256 ^ _)) by lia.
    rewrite Z.rem_mul_r by lia. change (2 ^ 8) with 256. ring. }
  intros x Hx. rewrite Hgen, Z.mod_small by lia. done.
Qed.

(** A number is determined by its bytes. *)
Lemma byte_at_ext a b : (forall j, 0 <= j -> byte_at a j = byte_at b j) -> a = b.
Proof.
  intros Heq. apply Z.bits_inj'. intros n Hn.
  specialize (Heq (n / 8) ltac:(apply Z.div_pos; lia)).
  apply (f_equal (fun z => Z.testbit z (n mod 8))) in Heq.
  assert (Hm : 0 <= n mod 8 < 8) by (apply Z.mod_pos_bound; lia).
  rewrite !testbit_byte in Heq by (try apply Z.div_pos; lia).
  rewrite (proj2 (Z.ltb_lt _ _)) in Heq by lia. simpl andb in Heq.
  by rewrite <- Z.div_mod in Heq by lia.
Qed.

Lemma wf_le_bytes n x : wf_bytes (le_bytes n x).
Proof.
  unfold le_bytes. apply Forall_fmap, Forall_forall. intros j _. apply lxor_byte_at_bound. lia.
Qed.

Lemma le_word_le_bytes x : 0 <= x < 2 ^ 32 -> le_word (le_bytes 4 x) = x.
Proof.
  intros Hx. apply byte_at_ext. intros j Hj.
  replace j with (Z.of_nat (Z.to_nat j)) by lia. rewrite byte_at_le_word by apply wf_le_bytes.
  unfold le_bytes. rewrite list_lookup_fmap.
  destruct (Z.lt_ge_cases j 4).
  - rewrite lookup_seq_lt by lia. done.
  - rewrite lookup_seq_ge by lia. simpl. symmetry. apply (byte_at_lt_word _ _ 32); lia.
Qed.

(** The second byte's length field and the length that follows it. *)
Definition len7 (n : Z) : Z := if n <? 126 then n else if n <=? 65535 then 126 else 127.
Definition len_ext (n : Z) : list Z :=
  if n <? 126 then [] else if n <=? 65535 then to_be 2 n else to_be 8 n.
Definition first_byte (op : OpCode) (fin : bool) : Z :=
  if fin then Z.lor 0x80 (opcode_to_u8 op) else opcode_to_u8 op.
Definition second_byte (n : Z) (mask : bool) : Z := Z.lor (if mask then 0x80 else 0) (len7 n).
Definition key_bytes (key : Z) (mask : bool) : list Z := if mask then le_bytes 4 key else [].
Definition frame_header (key n : Z) (op : OpCode) (fin mask : bool) : list Z :=
  first_byte op fin :: second_byte n mask :: len_ext n ++ key_bytes key mask.
Definition frame_body (key : Z) (pl : list Z) (mask : bool) : list Z :=
  if mask then mask_bytes key pl else pl.

Definition wf_payload (pl : list Z) : Prop := wf_bytes pl /\ zlen pl < 2 ^ 64.
Definition wf_key (key : Z) : Prop := 0 <= key < 2 ^ 32.

Lemma write_message_frame key addr dst pl op fin mask :
  0 <= addr -> wf_payload pl -> wf_key key ->
  write_message key addr dst pl op fin mask
  = dst ++ frame_header key (zlen pl) op fin mask ++ frame_body key pl mask.
Proof.
  intros Ha [Hw Hl] Hk. pose proof (zlen_nonneg pl).
  unfold write_message, frame_header, second_byte, len_ext, len7, key_bytes, frame_body.
  fold (first_byte op fin).
  assert (H8 : zlen pl < 126 -> u8 (zlen pl) = zlen pl) by (intros; apply Z.mod_small; lia).
  assert (H16 : zlen pl <= 65535 -> u16 (zlen pl) = zlen pl) by (intros; apply Z.mod_small; lia).
  destruct mask; rewrite ?apply_mask_ok by done;
    (destruct (zlen pl <? 126) eqn:E; zbool;
      [rewrite H8 by lia|destruct (zlen pl <=? 65535) eqn:E2; zbool; [rewrite H16 by lia|]]);
    repeat (rewrite <- ?app_assoc; simpl app); by rewrite ?app_nil_r.
Qed.

(** *** Reading the header back *)

Definition second_ok (l : Z) : bool :=
  (Z.land (Z.lor 0x80 l) 0x80 =? 128) && (Z.land (Z.lor 0x80 l) 0x7F =? l) &&
  (Z.land (Z.lor 0 l) 0x80 =? 0) && (Z.land (Z.lor 0 l) 0x7F =? l).
Lemma second_all : forallb second_ok (Z.of_nat <$> seq 0 128) = true.
Proof. vm_compute. reflexivity. Qed.

Lemma second_byte_fields n mask :
  0 <= n ->
  negb (Z.land (second_byte n mask) 0x80 =? 0) = mask /\ Z.land (second_byte n mask) 0x7F = len7 n.
Proof.
  intros Hn. pose proof second_all as Hall. rewrite forallb_forall in Hall.
  assert (Hl : 0 <= len7 n < 128) by (unfold len7; repeat zcase; lia).
  specialize (Hall (len7 n)). unfold second_ok in Hall.
  rewrite !andb_true_iff, !Z.eqb_eq in Hall. destruct Hall as [[[H1 H2] H3] H4].
  { apply in_map_iff. exists (Z.to_nat (len7 n)). split; [lia|]. apply in_seq. lia. }
  unfold second_byte. destruct mask; [rewrite H1, H2|rewrite H3, H4]; done.
Qed.

Lemma first_byte_fields op fin :
  op <> OpBad ->
  negb (Z.land (first_byte op fin) 0x80 =? 0) = fin /\
  opcode_of_u8 (Z.land (first_byte op fin) 0x0F) = op.
Proof. by destruct op, fin. Qed.

Lemma length_key_bytes key mask : length (key_bytes key mask) = if mask then 4%nat else 0%nat.
Proof. by destruct mask. Qed.

Lemma len7_cases n : 0 <= n < 2 ^ 64 ->
  (len7 n = n /\ n < 126 /\ len_ext n = []) \/
  (len7 n = 126 /\ length (len_ext n) = 2%nat /\ of_be (len_ext n) = n) \/
  (len7 n = 127 /\ length (len_ext n) = 8%nat /\ of_be (len_ext n) = n).
Proof.
  intros Hn. unfold len7, len_ext. repeat zcase; rewrite ?length_to_be; auto.
  - right; left. rewrite of_be_to_be by (change (256 ^ Z.of_nat 2) with 65536; lia). done.
  - right; right. rewrite of_be_to_be by (change (256 ^ Z.of_nat 8) with (2 ^ 64); lia). done.
Qed.

Lemma take_app_exact {A} (l k : list A) n : length l = n -> take n (l ++ k) = l.
Proof. intros <-. apply take_app_length. Qed.

(** Decide the comparisons of a goal whose outcome [lia] knows. *)
Ltac conds :=
  repeat (match goal with
  | |- context [(?a <? ?b)%nat] => destruct (Nat.ltb_spec a b); try lia
  | |- context [?a <? ?b] => destruct (Z.ltb_spec a b); try lia
  | |- context [?a =? ?b] => destruct (Z.eqb_spec a b); try lia
  end).

(** A buffer that starts with a frame header, or with a part of it. *)
Record header_view (src ext mk rest : list Z) (one two : Z) : Prop := {
  hv_len : length src = (2 + length ext + length mk + length rest)%nat;
  hv_one : at_ src 0 = one;
  hv_two : at_ src 1 = two;
  hv_ext : sub_ src 2 (length ext) = ext;
  hv_mk : sub_ src (2 + length ext) (length mk) = mk
}.

Lemma header_view_intro one two ext mk rest :
  header_view (one :: two :: ext ++ mk ++ rest) ext mk rest one two.
Proof.
  split; try done.
  - simpl. rewrite !length_app. lia.
  - unfold sub_. simpl. by apply take_app_exact.
  - unfold sub_. cbn [Nat.add drop]. rewrite drop_app_length. by apply take_app_exact.
Qed.

(** [parse_metadata] on a complete header. *)
Lemma parse_metadata_header key n op fin mask max rest :
  op <> OpBad -> 0 <= n < 2 ^ 64 -> n <= max -> wf_key key ->
  parse_metadata (frame_header key n op fin mask ++ rest) mask max
  = Ok (Some (length (frame_header key n op fin mask), fin, op, n, if mask then Some key else None)).
Proof.
  intros Hop Hn Hmax Hk. unfold frame_header. cbn [app length]. rewrite <- app_assoc.
  rewrite length_app, length_key_bytes.
  pose proof (header_view_intro (first_byte op fin) (second_byte n mask) (len_ext n)
    (key_bytes key mask) rest) as [Hl H0 H1 He Hm].
  set (src := _ :: _) in *. clearbody src. rewrite length_key_bytes in *.
  destruct (first_byte_fields op fin Hop) as [Hf1 Hf2].
  destruct (second_byte_fields n mask) as [Hs1 Hs2]; [lia|].
  unfold parse_metadata. rewrite H0, H1, Hf1, Hf2, Hs1, Hs2.
  replace (negb mask && mask) with false by (by destruct mask).
  replace (mask && negb mask) with false by (by destruct mask).
  rewrite (decide_False (P := op = OpBad)) by done.
  pose proof (le_word_le_bytes key Hk) as Hkey. cbv beta zeta.
  destruct (Nat.ltb_spec (length src) 2); [lia|].
  assert (Hmask : forall idx, idx = (2 + length (len_ext n))%nat ->
    (if mask then if (length src <? idx + 4)%nat then Ok None
                  else Ok (Some ((idx + 4)%nat, fin, op, n, Some (le_word (sub_ src idx 4))))
     else Ok (Some (idx, fin, op, n, None)))
    = Ok (Some ((2 + (length (len_ext n) + if mask then 4 else 0))%nat, fin, op, n,
                if mask then Some key else None)) :> result (option metadata) WsError).
  { intros idx ->. destruct mask; conds; repeat f_equal; try lia.
    cbn [key_bytes] in Hm. by rewrite Hm. }
  destruct (len7_cases n Hn) as [(-> & Hlt & E)|[(-> & Hle & Hbe)|(-> & Hle & Hbe)]].
  - rewrite E in *. destruct (Z.eqb_spec n 126); [lia|]. destruct (Z.eqb_spec n 127); [lia|].
    destruct (Z.ltb_spec max n); [lia|]. by apply Hmask.
  - rewrite Hle in *. change (126 =? 126) with true. rewrite He, Hbe.
    destruct (Nat.ltb_spec (length src) 4); [lia|]. destruct (Z.ltb_spec max n); [lia|]. by apply Hmask.
  - rewrite Hle in *. change (127 =? 126) with false. change (127 =? 127) with true. rewrite He, Hbe.
    destruct (Nat.ltb_spec (length src) 10); [lia|]. destruct (Z.ltb_spec max n); [lia|]. by apply Hmask.
Qed.

(** ... on the header of a frame that is too large ... *)
Lemma parse_metadata_overflow key n op fin mask max rest :
  op <> OpBad -> max < n < 2 ^ 64 -> 0 <= n ->
  parse_metadata (frame_header key n op fin mask ++ rest) mask max = Err WsOverflow.
Proof.
  intros Hop Hn Hn0. unfold frame_header. cbn [app]. rewrite <- app_assoc.
  pose proof (header_view_intro (first_byte op fin) (second_byte n mask) (len_ext n)
    (key_bytes key mask) rest) as [Hl H0 H1 He _].
  set (src := _ :: _) in *. clearbody src.
  destruct (first_byte_fields op fin Hop) as [Hf1 Hf2].
  destruct (second_byte_fields n mask) as [Hs1 Hs2]; [lia|].
  unfold parse_metadata. rewrite H0, H1, Hf1, Hf2, Hs1, Hs2.
  replace (negb mask && mask) with false by (by destruct mask).
  replace (mask && negb mask) with false by (by destruct mask).
  rewrite (decide_False (P := op = OpBad)) by done. cbv beta zeta.
  destruct (len7_cases n) as [(-> & Hlt & E)|[(-> & Hle & Hbe)|(-> & Hle & Hbe)]]; [lia|..].
  - conds; done.
  - rewrite Hle in *. change (126 =? 126) with true. rewrite He, Hbe. conds; done.
  - rewrite Hle in *. change (127 =? 126) with false. change (127 =? 127) with true. rewrite He, Hbe.
    conds; done.
Qed.

(** ... and on a proper prefix of one. *)
Lemma parse_metadata_prefix key n op fin mask max k :
  op <> OpBad -> 0 <= n < 2 ^ 64 -> n <= max ->
  (k < length (frame_header key n op fin mask))%nat ->
  parse_metadata (take k (frame_header key n op fin mask)) mask max = Ok None.
Proof.
  intros Hop Hn Hmax Hk. unfold frame_header in *. cbn [length] in Hk.
  rewrite length_app, length_key_bytes in Hk.
  unfold parse_metadata. rewrite length_take. cbn [length]. rewrite length_app, length_key_bytes.
  destruct k as [|[|k]]; [conds; done|conds; done|]. cbn [take].
  set (tl := take k _).
  change (at_ (first_byte op fin :: second_byte n mask :: tl) 0) with (first_byte op fin).
  change (at_ (first_byte op fin :: second_byte n mask :: tl) 1) with (second_byte n mask).
  destruct (first_byte_fields op fin Hop) as [Hf1 Hf2].
  destruct (second_byte_fields n mask) as [Hs1 Hs2]; [lia|]. rewrite Hf1, Hf2, Hs1, Hs2.
  replace (negb mask && mask) with false by (by destruct mask).
  replace (mask && negb mask) with false by (by destruct mask).
  rewrite (decide_False (P := op = OpBad)) by done. cbv zeta.
  rewrite Nat.min_l by lia.
  assert (Hext : (length (len_ext n) <= k)%nat ->
    sub_ (first_byte op fin :: second_byte n mask :: tl) 2 (length (len_ext n)) = len_ext n).
  { intros Hle. unfold sub_. change (drop 2 _) with tl. unfold tl.
    rewrite take_take, Nat.min_l by lia. apply take_app_length. }
  destruct (len7_cases n Hn) as [(-> & Hlt & E)|[(-> & Hle & Hbe)|(-> & Hle & Hbe)]].
  - rewrite E in *. simpl in Hk. destruct mask; conds; done.
  - rewrite Hle in *. change (126 =? 126) with true.
    destruct (Nat.ltb_spec (S (S k)) 4); [done|]. rewrite Hext, Hbe by lia.
    destruct mask; conds; done.
  - rewrite Hle in *. change (127 =? 126) with false. change (127 =? 127) with true.
    destruct (Nat.ltb_spec (S (S k)) 10); [done|]. rewrite Hext, Hbe by lia.
    destruct mask; conds; done.
Qed.

Definition is_control (op : OpCode) : bool :=
  match op with OpClose | OpPing | OpPong => true | _ => false end.
Definition payload_opt (pl : list Z) : option (list Z) :=
  match pl with [] => None | _ => Some pl end.

Lemma length_frame_body key pl mask : length (frame_body key pl mask) = length pl.
Proof. destruct mask; [apply length_mask_from|done]. Qed.
Lemma zlen_frame_body key pl mask : zlen (frame_body key pl mask) = zlen pl.
Proof. unfold zlen. by rewrite length_frame_body. Qed.

(** [parse] on a whole frame. *)
Lemma parse_frame addr key pl op fin mask max rest :
  0 <= addr -> op <> OpBad -> wf_payload pl -> zlen pl <= max -> wf_key key ->
  (is_control op = true -> zlen pl <= 125) ->
  parse addr (frame_header key (zlen pl) op fin mask ++ frame_body key pl mask ++ rest) mask max
  = (Ok (Some (fin, op, payload_opt pl)), rest).
Proof.
  intros Ha Hop [Hw Hl] Hmax Hk Hc. pose proof (zlen_nonneg pl). unfold parse.
  rewrite parse_metadata_header by (done || lia).
  rewrite drop_app_length. rewrite !zlen_app, zlen_frame_body. pose proof (zlen_nonneg rest).
  destruct (Z.ltb_spec (zlen (frame_header key (zlen pl) op fin mask) + (zlen pl + zlen rest))
              (Z.of_nat (length (frame_header key (zlen pl) op fin mask)) + zlen pl));
    [unfold zlen in *; lia|].
  destruct (Z.eqb_spec (zlen pl) 0) as [Hz|Hz].
  { apply zlen_0 in Hz. subst pl. by destruct mask. }
  assert (Hctl : (bool_decide (op = OpPing) || bool_decide (op = OpPong)) && (125 <? zlen pl) = false /\
                 bool_decide (op = OpClose) && (125 <? zlen pl) = false).
  { destruct op; simpl in *; try done; (destruct (Z.ltb_spec 125 (zlen pl)); [lia|done]). }
  destruct Hctl as [-> ->].
  rewrite <- (zlen_frame_body key pl mask), ztake_app_exact, zdrop_app_exact.
  destruct mask; cbn [frame_body].
  - rewrite apply_mask_ok by (done || lia || by apply wf_mask_bytes).
    unfold mask_bytes. rewrite mask_bytes_involutive. by destruct pl.
  - by destruct pl.
Qed.

Lemma parse_frame_prefix addr key pl op fin mask max k :
  op <> OpBad -> wf_payload pl -> zlen pl <= max -> wf_key key ->
  let frame := frame_header key (zlen pl) op fin mask ++ frame_body key pl mask in
  (k < length frame)%nat ->
  parse addr (take k frame) mask max = (Ok None, take k frame).
Proof.
  intros Hop [Hw Hl] Hmax Hk frame Hlen. pose proof (zlen_nonneg pl). unfold parse.
  set (hdr := frame_header key (zlen pl) op fin mask) in *.
  destruct (decide (k < length hdr)%nat) as [Hh|Hh].
  - unfold frame. rewrite take_app_le by lia. unfold hdr at 1.
    by rewrite (parse_metadata_prefix key) by (done || lia).
  - assert (Ht : take k frame = hdr ++ take (k - length hdr) (frame_body key pl mask)).
    { unfold frame. rewrite take_app. f_equal. by rewrite take_ge by lia. }
    rewrite Ht. unfold hdr at 1. rewrite parse_metadata_header by (done || lia). fold hdr.
    unfold frame in Hlen. rewrite length_app, length_frame_body in Hlen.
    match goal with |- context [?a <? ?b] => destruct (Z.ltb_spec a b) as [|Hge] end; [done|].
    unfold zlen in Hge. rewrite length_app, length_take, length_frame_body in Hge. lia.
Qed.

(** Round trip of a frame.  What [write_message] writes, masked or not, on
    any buffer, is parsed back to the same FIN bit, opcode and payload by a peer
    that expects that masking, at any address and with anything behind it, which
    is left untouched; and any proper prefix of it only asks for more bytes. *)
Theorem frame_roundtrip key addr addr2 pl op fin mask max rest :
  0 <= addr -> 0 <= addr2 -> op <> OpBad -> wf_payload pl -> zlen pl <= max -> wf_key key ->
  (is_control op = true -> zlen pl <= 125) ->
  let frame := write_message key addr [] pl op fin mask in
  parse addr2 (frame ++ rest) mask max = (Ok (Some (fin, op, payload_opt pl)), rest) /\
  forall k, (k < length frame)%nat ->
    parse addr2 (take k frame) mask max = (Ok None, take k frame).
Proof.
  intros Ha Ha2 Hop Hpl Hmax Hk Hc frame. subst frame.
  rewrite write_message_frame by done. cbn [app]. split.
  - rewrite <- app_assoc. by apply parse_frame.
  - intros k Hlen. by apply parse_frame_prefix.
Qed.

Lemma frame_roundtrip_witness :
  let frame := write_message 0xdeadbeef 3 [] (bs "Hello") OpText true true in
  parse 64 (frame ++ bs "rest") true 1024 = (Ok (Some (true, OpText, Some (bs "Hello"))), bs "rest") /\
  forall k, (k < length frame)%nat -> parse 64 (take k frame) true 1024 = (Ok None, take k frame).
Proof.
  apply (frame_roundtrip 0xdeadbeef 3 64 (bs "Hello") OpText true true 1024 (bs "rest"));
    try done; try lia.
  split; [|done]. apply (bool_decide_unpack (Forall (fun x => 0 <= x < 256) _)). vm_compute. exact I.
Defined.

(** What a peer does with a frame it may not accept: one masked the wrong
    way is an error that consumes nothing; one above the size limit is
    [Overflow]; and a Ping, Pong or Close of more than 125 bytes loses its header
    but keeps its payload in the buffer, where it will be read as the next
    frame, and a Close of that kind is even delivered as a valid Close without
    a reason. *)
Theorem bad_frames key addr pl op fin mask max rest :
  0 <= addr -> op <> OpBad -> wf_payload pl -> wf_key key ->
  let frame := frame_header key (zlen pl) op fin mask ++ frame_body key pl mask ++ rest in
  parse addr frame (negb mask) max = (Err (if mask then MaskedFrame else UnmaskedFrame), frame) /\
  (max < zlen pl -> parse addr frame mask max = (Err WsOverflow, frame)) /\
  (zlen pl <= max -> 125 < zlen pl -> is_control op = true ->
   parse addr frame mask max
   = ((if decide (op = OpClose) then Ok (Some (true, OpClose, None)) else Err (InvalidLength (zlen pl))),
      frame_body key pl mask ++ rest)).
Proof.
  intros Ha Hop [Hw Hl] Hk frame. pose proof (zlen_nonneg pl). split_and!.
  - unfold parse, parse_metadata.
    destruct (second_byte_fields (zlen pl) mask) as [Hs1 _]; [lia|].
    change (at_ frame 1) with (second_byte (zlen pl) mask). rewrite Hs1.
    assert (Hlen : (length frame <? 2)%nat = false) by (apply Nat.ltb_ge; simpl; lia).
    rewrite Hlen. by destruct mask.
  - intros Hmax. unfold parse, frame. by rewrite parse_metadata_overflow by (done || lia).
  - intros Hmax Hbig Hc. unfold parse, frame. rewrite parse_metadata_header by (done || lia).
    rewrite drop_app_length, !zlen_app, zlen_frame_body. pose proof (zlen_nonneg rest).
    match goal with |- context [?a <? ?b] => destruct (Z.ltb_spec a b) end; [unfold zlen in *; lia|].
    destruct (Z.eqb_spec (zlen pl) 0); [lia|]. destruct (Z.ltb_spec 125 (zlen pl)); [|lia].
    by destruct op.
Qed.

Lemma bad_frames_witness :
  let pl := repeat 120 126 in
  let frame := frame_header 7 (zlen pl) OpClose true true ++ frame_body 7 pl true ++ [] in
  parse 0 frame false 1024 = (Err MaskedFrame, frame) /\
  (1024 < zlen pl -> parse 0 frame true 1024 = (Err WsOverflow, frame)) /\
  (zlen pl <= 1024 -> 125 < zlen pl -> is_control OpClose = true ->
   parse 0 frame true 1024 = (Ok (Some (true, OpClose, None)), frame_body 7 pl true ++ [])).
Proof.
  apply (bad_frames 7 0 (repeat 120 126) OpClose true true 1024 []); try done.
  split; [|done]. apply (bool_decide_unpack (Forall (fun x => 0 <= x < 256) _)). vm_compute. exact I.
Defined.
