(* ===== verification/WsCodec.v ===== *)
(** * The WebSocket codec

    [ws/codec.rs]: messages and frames, and the codec that checks how a message
    is fragmented.  Payloads are bytes; a [ByteString] is its bytes. *)
From S2P Require Import Prelude WsMask WsProto WsFrame.

Inductive WsItem :=
| FirstText (b : list Z)
| FirstBinary (b : list Z)
| Continue (b : list Z)
| Last (b : list Z).

Inductive WsMessage :=
| MText (b : list Z)
| MBinary (b : list Z)
| MContinuation (i : WsItem)
| MPing (b : list Z)
| MPong (b : list Z)
| MClose (r : option CloseReason).

Inductive WsFrame :=
| FText (b : list Z)
| FBinary (b : list Z)
| FContinuation (i : WsItem)
| FPing (b : list Z)
| FPong (b : list Z)
| FClose (r : option CloseReason).

Module WsFlags.
Definition SERVER : Z := 1.
Definition R_CONTINUATION : Z := 2.
Definition W_CONTINUATION : Z := 4.
Definition CLOSED : Z := 8.
End WsFlags.

Record WsCodec := mkWsCodec { ws_flags : Z; ws_max_size : Z }.

Definition ws_new : WsCodec := mkWsCodec WsFlags.SERVER 65536.
Definition max_size (c : WsCodec) (size : Z) : WsCodec := mkWsCodec (ws_flags c) size.
Definition has (c : WsCodec) (f : Z) : bool := Flag.contains (ws_flags c) f.
Definition ws_insert_flags (c : WsCodec) (f : Z) : WsCodec :=
  mkWsCodec (Flag.insert (ws_flags c) f) (ws_max_size c).
Definition ws_remove_flags (c : WsCodec) (f : Z) : WsCodec :=
  mkWsCodec (Flag.remove (ws_flags c) f) (ws_max_size c).
Definition client_mode (c : WsCodec) : WsCodec := ws_remove_flags c WsFlags.SERVER.
Definition is_closed (c : WsCodec) : bool := has c WsFlags.CLOSED.

Section Codec.
Context (from_utf8_lossy : list Z -> list Z).

Definition encode_page (key addr : Z) (c : WsCodec) (page dst : list Z) : list Z :=
  write_message key addr dst page OpBinary true (negb (has c WsFlags.SERVER)).

(** [Encoder::encodev] *)
Definition ws_encode (key addr : Z) (c : WsCodec) (item : WsMessage) (dst : list Z)
  : result unit WsError * WsCodec * list Z :=
  let mask := negb (has c WsFlags.SERVER) in
  let write pl op fin := write_message key addr dst pl op fin mask in
  match item with
  | MText txt => (Ok tt, c, write txt OpText true)
  | MBinary bin => (Ok tt, c, write bin OpBinary true)
  | MPing txt => (Ok tt, c, write txt OpPing true)
  | MPong txt => (Ok tt, c, write txt OpPong true)
  | MClose reason => (Ok tt, ws_insert_flags c WsFlags.CLOSED, write_close key addr dst reason mask)
  | MContinuation (FirstText data) =>
      if has c WsFlags.W_CONTINUATION then (Err ContinuationStarted, c, dst)
      else (Ok tt, ws_insert_flags c WsFlags.W_CONTINUATION, write data OpText false)
  | MContinuation (FirstBinary data) =>
      if has c WsFlags.W_CONTINUATION then (Err ContinuationStarted, c, dst)
      else (Ok tt, ws_insert_flags c WsFlags.W_CONTINUATION, write data OpBinary false)
  | MContinuation (Continue data) =>
      if has c WsFlags.W_CONTINUATION then (Ok tt, c, write data OpContinue false)
      else (Err ContinuationNotStarted, c, dst)
  | MContinuation (Last data) =>
      if has c WsFlags.W_CONTINUATION
      then (Ok tt, ws_remove_flags c WsFlags.W_CONTINUATION, write data OpContinue true)
      else (Err ContinuationNotStarted, c, dst)
  end.

(** The frame a parsed one is delivered as. *)
Definition deliver (c : WsCodec) (finished : bool) (opcode : OpCode) (payload : option (list Z))
  : result (option WsFrame) WsError * WsCodec :=
  let data := default [] payload in
  if finished then
    match opcode with
    | OpContinue =>
        if has c WsFlags.R_CONTINUATION
        then (Ok (Some (FContinuation (Last data))), ws_remove_flags c WsFlags.R_CONTINUATION)
        else (Err ContinuationNotStarted, c)
    | OpBad => (Err BadOpCode, c)
    | OpClose =>
        match payload with
        | Some pl => (Ok (Some (FClose (parse_close_payload from_utf8_lossy pl))), c)
        | None => (Ok (Some (FClose None)), c)
        end
    | OpPing => (Ok (Some (FPing data)), c)
    | OpPong => (Ok (Some (FPong data)), c)
    | OpBinary => (Ok (Some (FBinary data)), c)
    | OpText => (Ok (Some (FText data)), c)
    end
  else
    match opcode with
    | OpContinue =>
        if has c WsFlags.R_CONTINUATION
        then (Ok (Some (FContinuation (Continue data))), c)
        else (Err ContinuationNotStarted, c)
    | OpBinary =>
        if has c WsFlags.R_CONTINUATION then (Err ContinuationStarted, c)
        else (Ok (Some (FContinuation (FirstBinary data))), ws_insert_flags c WsFlags.R_CONTINUATION)
    | OpText =>
        if has c WsFlags.R_CONTINUATION then (Err ContinuationStarted, c)
        else (Ok (Some (FContinuation (FirstText data))), ws_insert_flags c WsFlags.R_CONTINUATION)
    | OpPing => (Ok (Some (FPing data)), c)
    | OpPong => (Ok (Some (FPong data)), c)
    | OpBad => (Err BadOpCode, c)
    | OpClose => (Err (ContinuationFragment opcode), c)
    end.

(** [Decoder::decode] *)
Definition ws_decode (addr : Z) (c : WsCodec) (src : list Z)
  : result (option WsFrame) WsError * WsCodec * list Z :=
  match parse addr src (has c WsFlags.SERVER) (ws_max_size c) with
  | (Ok (Some (finished, opcode, payload)), src') =>
      let '(r, c') := deliver c finished opcode payload in (r, c', src')
  | (Ok None, src') => (Ok None, c, src')
  | (Err e, src') => (Err e, c, src')
  end.

(** ** Fragmentation *)

(** A message is sent whole, or as a first, any middle and a last fragment. *)
Inductive FragKind := Whole | FirstK | MiddleK | LastK.

Definition item_kind (i : WsItem) : FragKind :=
  match i with FirstText _ | FirstBinary _ => FirstK | Continue _ => MiddleK | Last _ => LastK end.
Definition message_kind (m : WsMessage) : FragKind :=
  match m with MContinuation i => item_kind i | _ => Whole end.
Definition frame_kind (f : WsFrame) : FragKind :=
  match f with FContinuation i => item_kind i | _ => Whole end.

(** The fragmentation automaton: [open] says that a fragmented message has begun
    and not ended. *)
Definition frag_step (open : bool) (k : FragKind) : option bool :=
  match k, open with
  | Whole, _ => Some open
  | FirstK, false => Some true
  | MiddleK, true => Some true
  | LastK, true => Some false
  | _, _ => None
  end.

Lemma ws_encode_frag key addr c m dst :
  match frag_step (has c WsFlags.W_CONTINUATION) (message_kind m) with
  | Some open' => exists c' out, ws_encode key addr c m dst = (Ok tt, c', out) /\
                    has c' WsFlags.W_CONTINUATION = open' /\
                    has c' WsFlags.R_CONTINUATION = has c WsFlags.R_CONTINUATION /\
                    has c' WsFlags.SERVER = has c WsFlags.SERVER
  | None => exists e, ws_encode key addr c m dst = (Err e, c, dst)
  end.
Proof.
  destruct m as [b|b|[b|b|b|b]|b|b|r]; simpl;
    try destruct (has c WsFlags.W_CONTINUATION) eqn:E; eauto 10;
    (do 2 eexists; split; [done|]); unfold has in *; simpl; flags; auto.
Qed.

Lemma deliver_frag c fin op pl f c' :
  deliver c fin op pl = (Ok (Some f), c') ->
  frag_step (has c WsFlags.R_CONTINUATION) (frame_kind f) = Some (has c' WsFlags.R_CONTINUATION) /\
  has c' WsFlags.W_CONTINUATION = has c WsFlags.W_CONTINUATION /\
  has c' WsFlags.SERVER = has c WsFlags.SERVER.
Proof.
  unfold deliver. intros Hd. destruct fin, op; try done; try (by simplify_eq);
    try (destruct pl; by simplify_eq);
    (destruct (has c WsFlags.R_CONTINUATION) eqn:E; try done);
    simplify_eq; unfold has in *; simpl; flags; auto; by rewrite E.
Qed.

(** Fragmentation is enforced on both sides.  The encoder accepts a message
    if and only if the automaton has a step for it, and follows the step; what
    it refuses it does not write.  Every frame the decoder delivers is a step of
    the automaton on its own flag.  Sending and receiving do not disturb each
    other. *)
Theorem fragmentation_enforced key addr c m dst src :
  (match frag_step (has c WsFlags.W_CONTINUATION) (message_kind m) with
   | Some open' => exists c' out, ws_encode key addr c m dst = (Ok tt, c', out) /\
                     has c' WsFlags.W_CONTINUATION = open' /\
                     has c' WsFlags.R_CONTINUATION = has c WsFlags.R_CONTINUATION
   | None => exists e, ws_encode key addr c m dst = (Err e, c, dst)
   end) /\
  (match ws_decode addr c src with
   | (Ok (Some f), c', _) =>
       frag_step (has c WsFlags.R_CONTINUATION) (frame_kind f) = Some (has c' WsFlags.R_CONTINUATION) /\
       has c' WsFlags.W_CONTINUATION = has c WsFlags.W_CONTINUATION
   | (_, c', _) => c' = c
   end).
Proof.
  split.
  - pose proof (ws_encode_frag key addr c m dst) as He.
    case_match; [|done]. destruct He as (c' & out & ? & ? & ? & _). eauto 10.
  - unfold ws_decode. destruct (parse _ _ _ _) as [[[[[fin op] pl]|]|e] s']; try done.
    destruct (deliver c fin op pl) as [[[f|]|e] c'] eqn:E.
    + apply deliver_frag in E as (? & ? & _). auto.
    + unfold deliver in E. by repeat case_match; simplify_eq.
    + unfold deliver in E. by repeat case_match; simplify_eq.
Qed.

(** ** Round trip of a conversation *)

(** The frame a peer sees for a message. *)
Definition frame_of (m : WsMessage) : WsFrame :=
  match m with
  | MText b => FText b
  | MBinary b => FBinary b
  | MContinuation i => FContinuation i
  | MPing b => FPing b
  | MPong b => FPong b
  | MClose r => FClose r
  end.

Definition message_payload (m : WsMessage) : list Z :=
  match m with
  | MText b | MBinary b | MPing b | MPong b
  | MContinuation (FirstText b | FirstBinary b | Continue b | Last b) => b
  | MClose r => close_payload r
  end.
Definition message_control (m : WsMessage) : bool :=
  match m with MPing _ | MPong _ | MClose _ => true | _ => false end.

(** Messages a peer can be sent: the payload fits the peer's limit, a control
    payload is at most 125 bytes, a close code is not a named code in disguise,
    and a description is not empty and is valid UTF-8. *)
Definition sendable (max : Z) (m : WsMessage) : Prop :=
  wf_payload (message_payload m) /\ zlen (message_payload m) <= max /\
  (message_control m = true -> zlen (message_payload m) <= 125) /\
  match m with
  | MClose (Some r) =>
      0 <= close_code_to_u16 (cr_code r) < 65536 /\
      (forall n, cr_code r = Other n -> close_code_of_u16 n = Other n) /\
      match cr_description r with
      | Some d => d <> [] /\ from_utf8_lossy d = d
      | None => True
      end
  | _ => True
  end.

Lemma close_payload_roundtrip max r :
  sendable max (MClose r) ->
  match payload_opt (close_payload r) with
  | Some pl => parse_close_payload from_utf8_lossy pl
  | None => None
  end = r.
Proof.
  intros (_ & _ & _ & Hr). destruct r as [[code d]|]; [|done]. destruct Hr as (Hc & Hn & Hd).
  unfold close_payload. cbn [cr_code cr_description] in *. cbn [to_be app payload_opt].
  set (a := Z.land (Z.shiftr _ _) 255). set (b := Z.land (Z.shiftr _ _) 255).
  unfold parse_close_payload. rewrite !zlen_cons. pose proof (zlen_nonneg (default [] d)).
  destruct (Z.leb_spec 2 (1 + (1 + zlen (default [] d)))); [|lia].
  change (take 2 (a :: b :: default [] d)) with (to_be 2 (close_code_to_u16 code)).
  rewrite of_be_to_be by (change (256 ^ Z.of_nat 2) with 65536; lia).
  rewrite close_code_roundtrip by done. cbn [drop]. rewrite drop_0.
  destruct d as [[|x d]|]; simpl default.
  - by destruct Hd as [? _].
  - destruct Hd as [_ ->]. rewrite zlen_cons. pose proof (zlen_nonneg d).
    by destruct (Z.ltb_spec 2 (1 + (1 + (1 + zlen d)))); [|lia].
  - by destruct (Z.ltb_spec 2 (1 + (1 + zlen (@nil Z)))) as [Hl|].
Qed.

(** The two ends of one direction: opposite roles, the same fragmentation. *)
Definition in_sync (e d : WsCodec) : Prop :=
  has d WsFlags.SERVER = negb (has e WsFlags.SERVER) /\
  has d WsFlags.R_CONTINUATION = has e WsFlags.W_CONTINUATION.

Definition message_op (m : WsMessage) : OpCode * bool :=
  match m with
  | MText _ => (OpText, true)
  | MBinary _ => (OpBinary, true)
  | MPing _ => (OpPing, true)
  | MPong _ => (OpPong, true)
  | MClose _ => (OpClose, true)
  | MContinuation (FirstText _) => (OpText, false)
  | MContinuation (FirstBinary _) => (OpBinary, false)
  | MContinuation (Continue _) => (OpContinue, false)
  | MContinuation (Last _) => (OpContinue, true)
  end.

Lemma ws_encode_writes key addr e m dst e' out :
  ws_encode key addr e m dst = (Ok tt, e', out) ->
  out = write_message key addr dst (message_payload m) (message_op m).1 (message_op m).2
          (negb (has e WsFlags.SERVER)).
Proof.
  unfold ws_encode. intros He. destruct m as [b|b|[b|b|b|b]|b|b|r]; simpl in *;
    try case_match; by simplify_eq.
Qed.

Lemma deliver_message e d key addr m dst e' out max :
  in_sync e d -> sendable max m ->
  ws_encode key addr e m dst = (Ok tt, e', out) ->
  exists d', deliver d (message_op m).2 (message_op m).1 (payload_opt (message_payload m))
    = (Ok (Some (frame_of m)), d') /\ in_sync e' d' /\ ws_max_size d' = ws_max_size d.
Proof.
  intros [Hs Hw] Hok He. unfold in_sync.
  assert (Hpl : default [] (payload_opt (message_payload m)) = message_payload m)
    by (by destruct (message_payload m)).
  pose proof (close_payload_roundtrip max) as Hcp.
  unfold ws_encode in He. destruct m as [b|b|[b|b|b|b]|b|b|r];
    cbn [message_op fst snd deliver frame_of] in *; unfold deliver; rewrite ?Hpl; rewrite ?Hw;
    try (destruct (has e WsFlags.W_CONTINUATION) eqn:Ew; try done); simplify_eq;
    try (eexists; split_and!; [done|..]; unfold has in *; simpl; flags; congruence).
  all: specialize (Hcp r Hok); simpl message_payload;
    destruct (payload_opt (close_payload r)); subst; eexists; split_and!; try done;
    unfold has in *; simpl; flags; congruence.
Qed.

(** Send messages one after the other, each with its masking key; stop at the
    first error. *)
Fixpoint send_all (addr : Z) (c : WsCodec) (ms : list (WsMessage * Z)) (dst : list Z)
  : result unit WsError * WsCodec * list Z :=
  match ms with
  | [] => (Ok tt, c, dst)
  | (m, key) :: ms' =>
      match ws_encode key addr c m dst with
      | (Ok _, c', dst') => send_all addr c' ms' dst'
      | (Err e, c', dst') => (Err e, c', dst')
      end
  end.

(** Decode [n] frames. *)
Fixpoint receive (addr : Z) (n : nat) (c : WsCodec) (src : list Z)
  : list WsFrame * WsCodec * list Z :=
  match n with
  | O => ([], c, src)
  | S n' =>
      match ws_decode addr c src with
      | (Ok (Some f), c', src') =>
          let '(fs, c'', src'') := receive addr n' c' src' in (f :: fs, c'', src'')
      | (_, c', src') => ([], c', src')
      end
  end.

Lemma message_op_ok m : (message_op m).1 <> OpBad /\ is_control (message_op m).1 = message_control m.
Proof. by destruct m as [| |[]| | |]. Qed.

Lemma send_receive addr addr2 max ms : forall e dst e' out,
  0 <= addr -> 0 <= addr2 ->
  Forall (fun mk => sendable max mk.1 /\ wf_key mk.2) ms ->
  send_all addr e ms dst = (Ok tt, e', out) ->
  exists w, out = dst ++ w /\
    forall d rest, in_sync e d -> ws_max_size d = max ->
      exists d', receive addr2 (length ms) d (w ++ rest) = (frame_of <$> ms.*1, d', rest) /\
        in_sync e' d'.
Proof.
  induction ms as [|[m key] ms IH]; intros e dst e' out Ha Ha2 Hms Hs; simpl in Hs.
  { simplify_eq. exists []. rewrite app_nil_r. split; [done|]. intros d rest Hd _. eauto. }
  inversion_clear Hms as [|? ? [Hok Hk] Hms']. cbn [fst snd] in *.
  destruct (ws_encode key addr e m dst) as [[[[]|err] e1] d1] eqn:E; [|done].
  pose proof (ws_encode_writes _ _ _ _ _ _ _ E) as Hw.
  pose proof Hok as (Hp & Hmax & Hc & _). destruct (message_op_ok m) as [Hop Hctl].
  rewrite write_message_frame in Hw by done. subst d1.
  destruct (IH _ _ _ _ Ha Ha2 Hms' Hs) as (w & -> & Hrec). rewrite <- app_assoc.
  eexists. split; [done|]. intros d rest Hd Hsz.
  destruct (deliver_message _ d _ _ _ _ _ _ max Hd Hok E) as (d1 & Hdel & Hd1 & Hsz1).
  destruct (Hrec d1 rest) as (d' & Hr & Hd'); [done|congruence|].
  exists d'. split; [|done]. cbn [length receive]. unfold ws_decode.
  rewrite (proj1 Hd), Hsz, <- !app_assoc.
  rewrite parse_frame by (done || by rewrite Hctl).
  rewrite Hdel. by rewrite Hr.
Qed.

(** C33.  Round trip of a conversation.  A client and a server codec, in either
    direction: a sequence of messages that one of them accepts to send and that
    are [sendable] to the other - a payload within the other's frame limit, a
    control payload of at most 125 bytes, a close code that is not a named one in
    disguise, a description that is not empty and is UTF-8 - is, with any masking
    keys, decoded by the other to the corresponding frames, in order, from the
    concatenated bytes, leaving what follows untouched and both of them at the
    same point of fragmentation.  The sending codec itself does not ask for any of
    this: it also writes messages that the other one refuses. *)
Theorem conversation_roundtrip addr addr2 ms e e' out d rest :
  0 <= addr -> 0 <= addr2 ->
  in_sync e d ->
  Forall (fun mk => sendable (ws_max_size d) mk.1 /\ wf_key mk.2) ms ->
  send_all addr e ms [] = (Ok tt, e', out) ->
  exists d', receive addr2 (length ms) d (out ++ rest) = (frame_of <$> ms.*1, d', rest) /\
    in_sync e' d'.
Proof.
  intros Ha Ha2 Hd Hms Hs.
  destruct (send_receive addr addr2 _ _ _ _ _ _ Ha Ha2 Hms Hs) as (w & -> & Hr). by apply Hr.
Qed.
End Codec.

Definition sample_conversation : list (WsMessage * Z) :=
  [(MContinuation (FirstText (bs "Hel")), 1); (MPing (bs "?"), 2);
   (MContinuation (Last (bs "lo")), 0xffffffff); (MClose (Some (mkCloseReason Normal (Some (bs "bye")))), 4)].

Lemma conversation_roundtrip_witness :
  exists d', receive (fun x => x) 5 4 ws_new
      ((send_all 3 (client_mode ws_new) sample_conversation []).2 ++ bs "next")
    = (frame_of <$> sample_conversation.*1, d', bs "next") /\
    in_sync (send_all 3 (client_mode ws_new) sample_conversation []).1.2 d'.
Proof.
  apply (conversation_roundtrip (fun x => x) 3 5 sample_conversation (client_mode ws_new)); try done.
  assert (Hb : forall l, bool_decide (Forall (fun x => 0 <= x < 256) l) = true -> wf_bytes l)
    by (intros l Hl; by apply bool_decide_eq_true in Hl).
  repeat constructor; try done; try (apply Hb; vm_compute; reflexivity); simpl; try lia.
  all: vm_compute; congruence.
Defined.
