(* ===== verification/Body.v ===== *)
(** * Message bodies

    [types/body.rs]: the trait [MessageBody] and the bodies the crate implements
    it for.  A body is polled for its next chunk; the streaming bodies wrap a
    [Stream] of the application and skip its empty chunks in a loop, which the
    model cuts off at [fuel] rounds.  An [Rc<dyn Error>] is a number. *)
From S2P Require Import Prelude Errors Payload Encoder EncoderThms.

(** What polling a stream or a body answers: [None] is its end. *)
Definition ChunkPoll : Type := Poll (option (result (list Z) Z)).

(** [futures_core::Stream] of byte chunks, the application's. *)
Class Stream (T : Type) := poll_next : T -> ChunkPoll * T.

(** [trait MessageBody] *)
Class MessageBody (B : Type) := {
  size : B -> BodySize;
  poll_next_chunk : nat -> B -> outcome (ChunkPoll * B)
}.

#[export] Instance unit_body : MessageBody unit := {
  size _ := BS_Empty;
  poll_next_chunk _ b := Val (Ready None, b)
}.

(** [Bytes], and with the same text [BytesMut], [&str], [&[u8]], [Vec<u8>] and
    [String]. *)
Record Bytes := mkBytes { bytes_data : list Z }.
Definition bytes_next (b : Bytes) : ChunkPoll * Bytes :=
  if zlen (bytes_data b) =? 0 then (Ready None, b)
  else (Ready (Some (Ok (bytes_data b))), mkBytes []).
#[export] Instance bytes_body : MessageBody Bytes := {
  size b := BS_Sized (zlen (bytes_data b));
  poll_next_chunk _ b := Val (bytes_next b)
}.

(** ** [Body] and [ResponseBody] *)

(** [M] is the type in the box of [Body::Message]. *)
Inductive Body (M : Type) :=
| B_None
| B_Empty
| B_Bytes (b : Bytes)
| B_Message (m : M).
Arguments B_None {M}.
Arguments B_Empty {M}.
Arguments B_Bytes {M} b.
Arguments B_Message {M} m.

Definition body_size `{MessageBody M} (b : Body M) : BodySize :=
  match b with
  | B_None => BS_None
  | B_Empty => BS_Empty
  | B_Bytes b => BS_Sized (zlen (bytes_data b))
  | B_Message m => size m
  end.

Definition body_next `{MessageBody M} (fuel : nat) (b : Body M) : outcome (ChunkPoll * Body M) :=
  match b with
  | B_None | B_Empty => Val (Ready None, b)
  | B_Bytes bin => let '(r, bin') := bytes_next bin in Val (r, B_Bytes bin')
  | B_Message m => r ← poll_next_chunk fuel m; Val (r.1, B_Message r.2)
  end.

#[export] Instance body_body `{MessageBody M} : MessageBody (Body M) := {
  size := body_size; poll_next_chunk := body_next
}.

Inductive ResponseBody (B M : Type) :=
| RB_Body (b : B)
| RB_Other (b : Body M).
Arguments RB_Body {B M} b.
Arguments RB_Other {B M} b.

Definition response_body_size `{MessageBody B, MessageBody M} (b : ResponseBody B M) : BodySize :=
  match b with RB_Body b => size b | RB_Other b => size b end.

Definition response_body_next `{MessageBody B, MessageBody M} (fuel : nat) (b : ResponseBody B M)
  : outcome (ChunkPoll * ResponseBody B M) :=
  match b with
  | RB_Body b => r ← poll_next_chunk fuel b; Val (r.1, RB_Body r.2)
  | RB_Other b => r ← poll_next_chunk fuel b; Val (r.1, RB_Other r.2)
  end.

#[export] Instance response_body_body `{MessageBody B, MessageBody M}
  : MessageBody (ResponseBody B M) := {
  size := response_body_size; poll_next_chunk := response_body_next
}.

(** ** Streams *)

(** The loop of the streaming bodies. *)
Fixpoint skip_empty `{Stream T} (fuel : nat) (s : T) : outcome (ChunkPoll * T) :=
  match fuel with
  | O => NoFuel
  | S fuel =>
      let '(r, s') := poll_next s in
      match r with
      | Ready (Some (Ok bytes)) =>
          if zlen bytes =? 0 then skip_empty fuel s' else Val (r, s')
      | Ready _ => Val (r, s')
      | Pending => Val (Pending, s')
      end
  end.

(** [BodyStream], and [BoxedBodyStream] with the same text. *)
Record BodyStream (T : Type) := mkBodyStream { bst_stream : T }.
Arguments mkBodyStream {T} _.
Arguments bst_stream {T} _.
#[export] Instance body_stream_body `{Stream T} : MessageBody (BodyStream T) := {
  size _ := BS_Stream;
  poll_next_chunk fuel b := r ← skip_empty fuel (bst_stream b); Val (r.1, mkBodyStream r.2)
}.

Record SizedStream (T : Type) := mkSizedStream { ss_size : Z; ss_stream : T }.
Arguments mkSizedStream {T} _ _.
Arguments ss_size {T} _.
Arguments ss_stream {T} _.
#[export] Instance sized_stream_body `{Stream T} : MessageBody (SizedStream T) := {
  size b := BS_Sized (ss_size b);
  poll_next_chunk fuel b :=
    r ← skip_empty fuel (ss_stream b); Val (r.1, mkSizedStream (ss_size b) r.2)
}.

(** ** What a stream and a body deliver *)

(** [stream_yields s l]: polled again and again, with any number of [Pending]s in
    between, the stream gives the chunks [l] and then ends. *)
Inductive stream_yields `{Stream T} : T -> list (list Z) -> Prop :=
| sy_end s s' : poll_next s = (Ready None, s') -> stream_yields s []
| sy_pending s s' l : poll_next s = (Pending, s') -> stream_yields s' l -> stream_yields s l
| sy_chunk s s' b l :
    poll_next s = (Ready (Some (Ok b)), s') -> stream_yields s' l -> stream_yields s (b :: l).

Inductive body_yields `{MessageBody B} : B -> list (list Z) -> Prop :=
| by_end b b' fuel : poll_next_chunk fuel b = Val (Ready None, b') -> body_yields b []
| by_pending b b' fuel l :
    poll_next_chunk fuel b = Val (Pending, b') -> body_yields b' l -> body_yields b l
| by_chunk b b' fuel c l :
    poll_next_chunk fuel b = Val (Ready (Some (Ok c)), b') -> body_yields b' l ->
    body_yields b (c :: l).

(** The same with any fuel that is enough. *)
Inductive body_gives `{MessageBody B} : B -> list (list Z) -> Prop :=
| bg_end b b' n :
    (forall fuel, (n <= fuel)%nat -> poll_next_chunk fuel b = Val (Ready None, b')) -> body_gives b []
| bg_pending b b' n l :
    (forall fuel, (n <= fuel)%nat -> poll_next_chunk fuel b = Val (Pending, b')) -> body_gives b' l -> body_gives b l
| bg_chunk b b' n c l :
    (forall fuel, (n <= fuel)%nat -> poll_next_chunk fuel b = Val (Ready (Some (Ok c)), b')) ->
    body_gives b' l -> body_gives b (c :: l).

Definition non_empty (l : list (list Z)) : list (list Z) := filter (fun c => c <> []) l.

Section Streams.
Context `{Stream T}.

(** A wrapper of the stream that polls it through the loop. *)
Context {B : Type} `{MessageBody B} (wrap : T -> B).
Hypothesis wrap_poll : forall fuel s r s',
  skip_empty fuel s = Val (r, s') -> poll_next_chunk fuel (wrap s) = Val (r, wrap s').

(** An empty chunk costs one more round of the same call. *)
Lemma wrapped_skip s s' l :
  poll_next s = (Ready (Some (Ok [])), s') ->
  (exists fuel r s2, skip_empty fuel s' = Val (r, s2) /\
     match r with
     | Ready None => l = []
     | Pending => body_yields (wrap s2) l
     | Ready (Some (Ok c)) => exists l', l = c :: l' /\ body_yields (wrap s2) l'
     | Ready (Some (Err _)) => False
     end) ->
  exists fuel r s2, skip_empty fuel s = Val (r, s2) /\
     match r with
     | Ready None => l = []
     | Pending => body_yields (wrap s2) l
     | Ready (Some (Ok c)) => exists l', l = c :: l' /\ body_yields (wrap s2) l'
     | Ready (Some (Err _)) => False
     end.
Proof.
  intros Hs (fuel & r & s2 & Hf & Hr). exists (S fuel), r, s2. split; [|done].
  simpl. by rewrite Hs.
Qed.

Lemma wrapped_yields s l : stream_yields s l ->
  exists fuel r s2, skip_empty fuel s = Val (r, s2) /\
     match r with
     | Ready None => non_empty l = []
     | Pending => body_yields (wrap s2) (non_empty l)
     | Ready (Some (Ok c)) => exists l', non_empty l = c :: l' /\ body_yields (wrap s2) l'
     | Ready (Some (Err _)) => False
     end.
Proof.
  assert (Hup : forall s l fuel r s2, skip_empty fuel s = Val (r, s2) ->
     match r with
     | Ready None => l = []
     | Pending => body_yields (wrap s2) l
     | Ready (Some (Ok c)) => exists l', l = c :: l' /\ body_yields (wrap s2) l'
     | Ready (Some (Err _)) => False
     end -> body_yields (wrap s) l).
  { intros s0 l0 fuel r s2 Hs Hr. apply wrap_poll in Hs.
    destruct r as [[[c|e]|]|]; [| |subst|].
    - destruct Hr as (l' & -> & Hy). eapply by_chunk; eauto.
    - done.
    - eapply by_end; eauto.
    - eapply by_pending; eauto. }
  induction 1 as [s s' Hs|s s' l Hs Hy IH|s s' b l Hs Hy IH].
  - exists 1%nat, (Ready None), s'. simpl. by rewrite Hs.
  - exists 1%nat, Pending, s'. simpl. rewrite Hs. split; [done|].
    destruct IH as (f & r & s2 & Hf & Hr). eauto.
  - unfold non_empty. rewrite filter_cons. destruct (decide (b <> [])) as [Hb|Hb].
    + exists 1%nat, (Ready (Some (Ok b))), s'. simpl. rewrite Hs.
      apply zlen_pos in Hb. destruct (zlen b =? 0) eqn:E; zbool; [lia|]. split; [done|].
      eexists. split; [done|]. destruct IH as (f & r & s2 & Hf & Hr). eauto.
    + apply dec_stable in Hb. subst b. eapply wrapped_skip; [exact Hs|]. exact IH.
Qed.

Lemma wrapped_body_yields s l : stream_yields s l -> body_yields (wrap s) (non_empty l).
Proof.
  intros Hy. destruct (wrapped_yields s l Hy) as (fuel & r & s2 & Hs & Hr).
  apply wrap_poll in Hs. destruct r as [[[c|e]|]|].
  - destruct Hr as (l' & -> & Hy'). eapply by_chunk; eauto.
  - done.
  - rewrite Hr. eapply by_end; eauto.
  - eapply by_pending; eauto.
Qed.
End Streams.

Lemma until_empty_non_empty l : until_empty (non_empty l) = non_empty l.
Proof.
  unfold non_empty. induction l as [|[|x c] l IH]; [done|..].
  - by rewrite filter_cons_False by (intros Hn; by apply Hn).
  - rewrite filter_cons_True by done. simpl. by rewrite IH.
Qed.

Lemma concat_non_empty l : concat (non_empty l) = concat l.
Proof.
  unfold non_empty. induction l as [|[|x c] l IH]; [done|..].
  - by rewrite filter_cons_False by (intros Hn; by apply Hn).
  - rewrite filter_cons_True by done. simpl. by rewrite IH.
Qed.

(** C10.  A streamed response body arrives whole.  Whatever chunks the
    application's stream gives, empty ones and pauses included, the body it is
    wrapped in delivers the non-empty ones and its own end; sent under chunked
    coding and received in any segments they are exactly the stream's bytes, so
    that an empty chunk never ends the body early; and under a length they are
    cut off at it. *)
Theorem streamed_body_whole `{Stream T, ChunkSizeLaws} (s : T) l n rest segs :
  stream_yields s l ->
  Forall (fun c => zlen c < 2 ^ 64) l -> 0 <= n ->
  body_yields (mkBodyStream s) (non_empty l) /\
  body_yields (mkSizedStream n s) (non_empty l) /\
  (concat segs = (send_body te_chunked (non_empty l) []).2 ++ rest ->
   feed chunked_decoder [] segs = (concat l, Finished, Chunked End 0, rest)) /\
  (send_body (te_length n) (non_empty l) []).2 = ztake n (concat l).
Proof.
  intros Hy Hl Hn. split_and!.
  - apply (wrapped_body_yields mkBodyStream); [|done].
    intros fuel s0 r s' Hs. simpl. by rewrite Hs.
  - apply (wrapped_body_yields (mkSizedStream n)); [|done].
    intros fuel s0 r s' Hs. simpl. by rewrite Hs.
  - rewrite send_body_chunked. simpl. rewrite until_empty_non_empty. intros He.
    rewrite (chunked_framing_ok (non_empty l) rest segs); [by rewrite concat_non_empty| |done].
    rewrite <- (until_empty_non_empty l). apply until_empty_chunks.
    apply Forall_forall. intros c Hc. unfold non_empty in Hc. apply list_elem_of_filter in Hc as [_ Hc].
    rewrite Forall_forall in Hl. by apply Hl.
  - rewrite send_body_length by done. simpl. by rewrite concat_non_empty.
Qed.

(** ** Polling a body ends *)

(** A stream has finitely many chunks ready at any moment. *)
Class StreamProgress (T : Type) `{Stream T} := {
  stream_left : T -> nat;
  poll_next_left s c s' : poll_next s = (Ready (Some c), s') -> (stream_left s' < stream_left s)%nat
}.

(** Enough fuel is known before a body is polled, and chunks use it up. *)
Class BodyProgress (B : Type) `{MessageBody B} := {
  body_left : B -> nat;
  next_enough fuel b : (body_left b < fuel)%nat -> poll_next_chunk fuel b <> NoFuel;
  next_left fuel b c b' : poll_next_chunk fuel b = Val (Ready (Some c), b') ->
                          (body_left b' < body_left b)%nat
}.

#[export] Instance unit_progress : BodyProgress unit.
Proof. by refine {| body_left _ := 0%nat |}. Defined.

#[export] Instance bytes_progress : BodyProgress Bytes.
Proof.
  refine {| body_left b := length (bytes_data b) |}; [done|].
  intros fuel [l] c b'. simpl. unfold bytes_next. simpl. zcase; [done|].
  intros Hc. simplify_eq. simpl. unfold zlen in *. lia.
Defined.

#[export] Instance body_progress `{BodyProgress M} : BodyProgress (Body M).
Proof.
  refine {| body_left b := match b with
                           | B_None | B_Empty => 0%nat
                           | B_Bytes b => body_left b
                           | B_Message m => body_left m
                           end |}.
  - intros fuel [| |b|m] Hf; simpl; [done|done|by destruct (bytes_next b)|].
    pose proof (next_enough fuel m Hf). by destruct (poll_next_chunk fuel m).
  - intros fuel [| |b|m] c b' Hn; simpl in Hn; [done|done|..].
    + destruct (bytes_next b) as [r b2] eqn:E. simplify_eq. eapply (next_left 0 b c b2).
      simpl. by rewrite E.
    + destruct (poll_next_chunk fuel m) as [[r m']| |] eqn:E; simplify_eq/=. by eapply next_left.
Defined.

#[export] Instance response_body_progress `{BodyProgress B, BodyProgress M} :
  BodyProgress (ResponseBody B M).
Proof.
  refine {| body_left b := match b with RB_Body b => body_left b | RB_Other b => body_left b end |}.
  - intros fuel [b|b] Hf; simpl.
    + pose proof (next_enough fuel b Hf). by destruct (poll_next_chunk fuel b).
    + pose proof (next_enough fuel b Hf) as Hn. simpl in Hn. by destruct (body_next fuel b).
  - intros fuel [b|b] c b' Hn; simpl in Hn.
    + destruct (poll_next_chunk fuel b) as [[r m']| |] eqn:E; simplify_eq/=. by eapply next_left.
    + destruct (body_next fuel b) as [[r m']| |] eqn:E; simplify_eq/=.
      exact (next_left (B := Body M) fuel b c m' E).
Defined.

Lemma skip_empty_progress `{StreamProgress T} fuel : forall s,
  ((stream_left s < fuel)%nat -> skip_empty fuel s <> NoFuel) /\
  forall c s', skip_empty fuel s = Val (Ready (Some c), s') -> (stream_left s' < stream_left s)%nat.
Proof.
  induction fuel as [|fuel IH]; intros s; simpl; [split; [lia|done]|].
  destruct (poll_next s) as [[[[b|e]|]|] s1] eqn:Es.
  - apply poll_next_left in Es as Hl. destruct (IH s1) as [IH1 IH2]. zcase.
    + split; [intros; apply IH1; lia|]. intros c s' Hs. apply IH2 in Hs. lia.
    + split; [done|]. intros. by simplify_eq.
  - apply poll_next_left in Es as Hl. split; [done|]. intros. by simplify_eq.
  - done.
  - done.
Qed.

#[export] Instance body_stream_progress `{StreamProgress T} : BodyProgress (BodyStream T).
Proof.
  refine {| body_left b := stream_left (bst_stream b) |}.
  - intros fuel [s] Hf. simpl in *. destruct (skip_empty_progress fuel s) as [Hs _].
    specialize (Hs Hf). by destruct (skip_empty fuel s).
  - intros fuel [s] c b' Hn. simpl in *.
    destruct (skip_empty fuel s) as [[r s']| |] eqn:E; simplify_eq/=.
    by apply (proj2 (skip_empty_progress fuel s)) in E.
Defined.

(** ** A scripted stream *)
Module ScriptStream.
#[export] Instance script_stream : Stream (list ChunkPoll) := fun s =>
  match s with [] => (Ready None, []) | r :: s' => (r, s') end.
End ScriptStream.

Import ScriptStream RefChunkSize.

Lemma streamed_body_whole_witness :
  let s := [Ready (Some (Ok (bs "hel"))); Ready (Some (Ok [])); Pending; Ready (Some (Ok (bs "lo")))]
           : list ChunkPoll in
  let segs := [bs "3" ++ CRLF ++ bs "hel" ++ CRLF; bs "2" ++ CRLF ++ bs "lo" ++ CRLF ++ bs "0";
               CRLF ++ CRLF ++ bs "GET"] in
  feed chunked_decoder [] segs = (bs "hello", Finished, Chunked End 0, bs "GET").
Proof.
  intros s segs.
  apply (streamed_body_whole s [bs "hel"; []; bs "lo"] 4 (bs "GET") segs).
  - eapply sy_chunk; [done|]. eapply sy_chunk; [done|]. eapply sy_pending; [done|].
    eapply sy_chunk; [done|]. by eapply sy_end.
  - repeat constructor.
  - lia.
  - vm_compute. reflexivity.
Defined.
