(* ===== verification/Response.v ===== *)
(** * Responses and their builder

    [response.rs], and [ResponseError] of [error.rs].  The builder is the one
    without the [cookie] feature, which is off by default.  A key or a value that
    is converted by [TryFrom] is given as the result of its conversion, and a
    value that serde prints as the result of printing it.  Heads come from the
    thread's pool, which is passed along; that is why an operation returns it. *)
From S2P Require Import Prelude Headers Message Errors Encoder Body.

Definition CONTENT_TYPE : HeaderName := bs "content-type".
Definition ALLOW : HeaderName := bs "allow".
Definition METHOD_NOT_ALLOWED : Z := 405.

(** ** Errors of the http types: [types/error.rs] *)

Inductive HttpError :=
| HE_StatusCode
| HE_Method
| HE_Uri
| HE_UriParts
| HE_HeaderName
| HE_HeaderValue
| HE_Http.

(** [Display], through [get_ref]. *)
Definition http_error_text (e : HttpError) : list Z :=
  match e with
  | HE_StatusCode => bs "Invalid status code"
  | HE_Method => bs "Invalid HTTP method"
  | HE_Uri | HE_UriParts => bs "Invalid URI"
  | HE_HeaderName => bs "Invalid HTTP header name"
  | HE_HeaderValue => bs "Invalid HTTP header value"
  | HE_Http => bs "http error"
  end.

(** [HeaderValue::try_from(&str)], as an [HttpError] *)
Definition value_from (s : list Z) : result HeaderValue HttpError :=
  match try_from_generic s with Ok v => Ok v | Err _ => Err HE_HeaderValue end.

(** [HeaderValue::try_from(String)] *)
Definition value_from_string (s : list Z) : result HeaderValue HttpError :=
  match from_shared s with Ok v => Ok v | Err _ => Err HE_HeaderValue end.

Abbreviation HeadPool := (list ResponseHead).

(** [Message::with_status] *)
Definition with_status (status : Z) (p : HeadPool) : ResponseHead * HeadPool :=
  let '(msg, p') := MessagePool.get_message p in (rs_set_status msg status, p').

(** ** [Response] *)

Record Response (B M : Type) := mkResponse { res_head : ResponseHead; res_body : ResponseBody B M }.
Arguments mkResponse {B M} _ _.
Arguments res_head {B M} _.
Arguments res_body {B M} _.

Section Responses.
Context {M : Type}.

Definition response_new (status : Z) (p : HeadPool) : Response (Body M) M * HeadPool :=
  let '(h, p') := with_status status p in (mkResponse h (RB_Body B_Empty), p').

Definition response_with_body {B} (status : Z) (body : B) (p : HeadPool) : Response B M * HeadPool :=
  let '(h, p') := with_status status p in (mkResponse h (RB_Body body), p').

Definition response_into_body {B} (r : Response (Body M) M) : Response B M :=
  mkResponse (res_head r) (RB_Other match res_body r with RB_Body b | RB_Other b => b end).

Definition response_set_body {B B2} (r : Response B M) (body : B2) : Response B2 M :=
  mkResponse (res_head r) (RB_Body body).

Definition response_into_parts {B} (r : Response B M) : Response unit M * ResponseBody B M :=
  (mkResponse (res_head r) (RB_Body tt), res_body r).

Definition response_drop_body {B} (r : Response B M) : Response unit M :=
  mkResponse (res_head r) (RB_Body tt).

Definition response_map_body {B B2}
    (f : ResponseHead -> ResponseBody B M -> ResponseHead * ResponseBody B2 M)
    (r : Response B M) : Response B2 M :=
  let '(h, b) := f (res_head r) (res_body r) in mkResponse h b.

(** [ResponseBody::take_body], and [Response::take_body]. *)
Definition take_body {B} (b : ResponseBody B M) : ResponseBody B M * ResponseBody B M :=
  (b, RB_Other B_None).
Definition response_take_body {B} (r : Response B M) : ResponseBody B M * Response B M :=
  let '(b, b') := take_body (res_body r) in (b, mkResponse (res_head r) b').

(** [ResponseError::error_response] as it is unless overridden; [text] is what
    the error displays as. *)
Definition error_response_default (text : list Z) (p : HeadPool)
  : outcome (Response (Body M) M * HeadPool) :=
  let '(resp, p') := response_new INTERNAL_SERVER_ERROR p in
  v ← from_static (bs "text/plain; charset=utf-8");
  let h := res_head resp in
  let h' := rs_set_headers h (HeaderMapOps.insert (rs_headers h) CONTENT_TYPE v) in
  Val (response_set_body (mkResponse h' (res_body resp)) (B_Bytes (mkBytes text)), p').

(** ** [ResponseBuilder] *)

Record ResponseBuilder := mkResponseBuilder { rb_head : option ResponseHead; rb_err : option HttpError }.

Definition builder_new (status : Z) (p : HeadPool) : ResponseBuilder * HeadPool :=
  let '(h, p') := with_status status p in (mkResponseBuilder (Some h) None, p').

Definition parts (b : ResponseBuilder) : option ResponseHead :=
  match rb_err b with Some _ => None | None => rb_head b end.

(** What every setter does: a change of the head, or an error that is kept. *)
Definition with_parts (b : ResponseBuilder) (f : ResponseHead -> result ResponseHead HttpError)
  : ResponseBuilder :=
  match parts b with
  | None => b
  | Some h => match f h with
              | Ok h' => mkResponseBuilder (Some h') (rb_err b)
              | Err e => mkResponseBuilder (rb_head b) (Some e)
              end
  end.

Definition rs_set_reason (h : ResponseHead) (reason : list Z) : ResponseHead :=
  mkResponseHead (rs_version h) (rs_status h) (rs_headers h) (rs_headers_vec h)
    (Some reason) (rs_io h) (rs_extensions h) (rs_flags h).

Definition builder_status (b : ResponseBuilder) (status : Z) : ResponseBuilder :=
  with_parts b (fun h => Ok (rs_set_status h status)).

Definition builder_header (b : ResponseBuilder) (key : result HeaderName HttpError)
    (value : result HeaderValue HttpError) : ResponseBuilder :=
  with_parts b (fun h =>
    match key with
    | Err e => Err e
    | Ok key => match value with
                | Err e => Err e
                | Ok value => Ok (rs_set_headers h (HeaderMapOps.append (rs_headers h) key value))
                end
    end).

Definition builder_set_header (b : ResponseBuilder) (key : result HeaderName HttpError)
    (value : result HeaderValue HttpError) : ResponseBuilder :=
  with_parts b (fun h =>
    match key with
    | Err e => Err e
    | Ok key => match value with
                | Err e => Err e
                | Ok value => Ok (rs_set_headers h (HeaderMapOps.insert (rs_headers h) key value))
                end
    end).

Definition builder_reason (b : ResponseBuilder) (reason : list Z) : ResponseBuilder :=
  with_parts b (fun h => Ok (rs_set_reason h reason)).

Definition builder_keep_alive (b : ResponseBuilder) : ResponseBuilder :=
  with_parts b (fun h => Ok (ResponseHeadOps.set_connection_type h KeepAlive)).

Definition builder_upgrade (b : ResponseBuilder) (value : result HeaderValue HttpError)
  : ResponseBuilder :=
  builder_set_header (with_parts b (fun h => Ok (ResponseHeadOps.set_connection_type h Upgrade)))
    (Ok UPGRADE) value.

Definition builder_force_close (b : ResponseBuilder) : ResponseBuilder :=
  with_parts b (fun h => Ok (ResponseHeadOps.set_connection_type h Close)).

Definition builder_no_chunking (b : ResponseBuilder) : ResponseBuilder :=
  with_parts b (fun h => Ok (ResponseHeadOps.no_chunking h true)).

Definition builder_content_type (b : ResponseBuilder) (value : result HeaderValue HttpError)
  : ResponseBuilder :=
  with_parts b (fun h =>
    match value with
    | Err e => Err e
    | Ok value => Ok (rs_set_headers h (HeaderMapOps.insert (rs_headers h) CONTENT_TYPE value))
    end).

Definition builder_content_length (b : ResponseBuilder) (len : result HeaderValue HttpError)
  : ResponseBuilder := builder_header b (Ok CONTENT_LENGTH) len.

Definition builder_take (b : ResponseBuilder) : ResponseBuilder * ResponseBuilder :=
  (b, mkResponseBuilder None None).

(** [message_body]: the head can be taken once. *)
Definition message_body {B} (b : ResponseBuilder) (body : B) (p : HeadPool)
  : outcome (Response B M * ResponseBuilder * HeadPool) :=
  match rb_err b with
  | Some e =>
      r ← error_response_default (http_error_text e) p;
      Val (response_into_body r.1, mkResponseBuilder (rb_head b) None, r.2)
  | None =>
      match rb_head b with
      | Some h => Val (mkResponse h (RB_Body body), mkResponseBuilder None None, p)
      | None => Panic
      end
  end.

Definition builder_finish (b : ResponseBuilder) (p : HeadPool)
  : outcome (Response (Body M) M * ResponseBuilder * HeadPool) := message_body b B_Empty p.

Definition builder_json (b : ResponseBuilder) (json : result (list Z) (list Z)) (p : HeadPool)
  : outcome (Response (Body M) M * ResponseBuilder * HeadPool) :=
  match json with
  | Ok body =>
      let contains := match parts b with
                      | Some h => HeaderMapOps.contains_key (fun _ => None) (rs_headers h) (NameLeft CONTENT_TYPE)
                      | None => true
                      end in
      let b' := if contains then b
                else builder_header b (Ok CONTENT_TYPE) (Ok (mkHeaderValue (bs "application/json") false)) in
      message_body b' (B_Bytes (mkBytes body)) p
  | Err text =>
      r ← error_response_default text p; Val (r.1, b, r.2)
  end.

(** [From<&'static str>], [From<String>] and [From<&String>] for [Response];
    [From<&'static [u8]>], [From<Bytes>] and [From<BytesMut>]. *)
Definition response_of_type (ctype body : list Z) (p : HeadPool)
  : outcome (Response (Body M) M * ResponseBuilder * HeadPool) :=
  let '(b, p') := builder_new OK_ p in
  message_body (builder_content_type b (value_from ctype)) (B_Bytes (mkBytes body)) p'.
Definition response_from_string := response_of_type (bs "text/plain; charset=utf-8").
Definition response_from_bytes := response_of_type (bs "application/octet-stream").

(** [From<Response<B>> for ResponseBuilder] *)
Definition builder_from_response {B} (r : Response B M) : ResponseBuilder :=
  mkResponseBuilder (Some (res_head r)) None.

(** [From<&ResponseHead> for ResponseBuilder]; the headers are visited in the
    order [inner] of the hash map. *)
Definition builder_from_head (head : ResponseHead) (inner : list (HeaderName * Value)) (p : HeadPool)
  : ResponseBuilder * HeadPool :=
  let '(msg, p') := with_status (rs_status head) p in
  let msg := rs_set_version msg (rs_version head) in
  let msg := mkResponseHead (rs_version msg) (rs_status msg) (rs_headers msg) (rs_headers_vec msg)
               (rs_reason head) (rs_io msg) (rs_extensions msg) (rs_flags msg) in
  let pairs := drain HeaderMapOps.iter_next (S (length (flat_map HeaderMapThms.entry_pairs inner)))
                 (HeaderMapOps.iter inner) in
  let headers := fold_left (fun m kv => HeaderMapOps.append m kv.1 kv.2) pairs (rs_headers msg) in
  (mkResponseBuilder
     (Some (ResponseHeadOps.no_chunking (rs_set_headers msg headers) (negb (ResponseHeadOps.chunked head))))
     None, p').
End Responses.

(** ** What a builder builds *)

Import HeaderMapOps HeaderMapThms.

Inductive builder_op :=
| BStatus (s : Z)
| BHeader (k : result HeaderName HttpError) (v : result HeaderValue HttpError)
| BSetHeader (k : result HeaderName HttpError) (v : result HeaderValue HttpError)
| BReason (r : list Z)
| BKeepAlive
| BUpgrade (v : result HeaderValue HttpError)
| BForceClose
| BNoChunking
| BContentType (v : result HeaderValue HttpError)
| BContentLength (v : result HeaderValue HttpError).

Definition run_op (b : ResponseBuilder) (op : builder_op) : ResponseBuilder :=
  match op with
  | BStatus s => builder_status b s
  | BHeader k v => builder_header b k v
  | BSetHeader k v => builder_set_header b k v
  | BReason r => builder_reason b r
  | BKeepAlive => builder_keep_alive b
  | BUpgrade v => builder_upgrade b v
  | BForceClose => builder_force_close b
  | BNoChunking => builder_no_chunking b
  | BContentType v => builder_content_type b v
  | BContentLength v => builder_content_length b v
  end.

(** The first conversion of a setter that fails. *)
Definition op_error (op : builder_op) : option HttpError :=
  match op with
  | BHeader (Err e) _ | BSetHeader (Err e) _ => Some e
  | BHeader _ (Err e) | BSetHeader _ (Err e) => Some e
  | BUpgrade (Err e) | BContentType (Err e) | BContentLength (Err e) => Some e
  | _ => None
  end.

(** The abstract response: its status, reason, the multimap of its headers, and
    which connection types were asked for. *)
Record Built := mkBuilt {
  bt_status : Z;
  bt_reason : option (list Z);
  bt_headers : Spec.t;
  bt_close : bool;
  bt_keep_alive : bool;
  bt_upgrade : bool;
  bt_chunked : bool
}.

Definition built_new (status : Z) : Built := mkBuilt status None Spec.empty false false false true.

Definition built_set (t : Built) (f : Spec.t -> Spec.t) : Built :=
  mkBuilt (bt_status t) (bt_reason t) (f (bt_headers t)) (bt_close t) (bt_keep_alive t)
    (bt_upgrade t) (bt_chunked t).

Definition built_op (t : Built) (op : builder_op) : Built :=
  match op with
  | BStatus s => mkBuilt s (bt_reason t) (bt_headers t) (bt_close t) (bt_keep_alive t) (bt_upgrade t) (bt_chunked t)
  | BHeader (Ok k) (Ok v) => built_set t (fun m => Spec.append m k v)
  | BSetHeader (Ok k) (Ok v) => built_set t (fun m => Spec.insert m k v)
  | BReason r => mkBuilt (bt_status t) (Some r) (bt_headers t) (bt_close t) (bt_keep_alive t) (bt_upgrade t) (bt_chunked t)
  | BKeepAlive => mkBuilt (bt_status t) (bt_reason t) (bt_headers t) (bt_close t) true (bt_upgrade t) (bt_chunked t)
  | BUpgrade (Ok v) =>
      mkBuilt (bt_status t) (bt_reason t) (Spec.insert (bt_headers t) UPGRADE v)
        (bt_close t) (bt_keep_alive t) true (bt_chunked t)
  | BForceClose => mkBuilt (bt_status t) (bt_reason t) (bt_headers t) true (bt_keep_alive t) (bt_upgrade t) (bt_chunked t)
  | BNoChunking => mkBuilt (bt_status t) (bt_reason t) (bt_headers t) (bt_close t) (bt_keep_alive t) (bt_upgrade t) false
  | BContentType (Ok v) => built_set t (fun m => Spec.insert m CONTENT_TYPE v)
  | BContentLength (Ok v) => built_set t (fun m => Spec.append m CONTENT_LENGTH v)
  | _ => t
  end.

(** A head is the abstract response [t]; closing wins over keeping alive, and
    that over upgrading. *)
Definition agrees (h : ResponseHead) (t : Built) : Prop :=
  rs_status h = bt_status t /\ rs_reason h = bt_reason t /\
  (forall k, HeaderMapOps.values (rs_headers h) k = bt_headers t k) /\
  ResponseHeadOps.ctype h = (if bt_close t then Some Close
                             else if bt_keep_alive t then Some KeepAlive
                             else if bt_upgrade t then Some Upgrade else None) /\
  ResponseHeadOps.chunked h = bt_chunked t.

(** The flags behind [ctype] and [chunked]. *)
Definition flags_agree (h : ResponseHead) (t : Built) : Prop :=
  Flag.contains (rs_flags h) HeadFlags.CLOSE = bt_close t /\
  Flag.contains (rs_flags h) HeadFlags.KEEP_ALIVE = bt_keep_alive t /\
  Flag.contains (rs_flags h) HeadFlags.UPGRADE = bt_upgrade t /\
  Flag.contains (rs_flags h) HeadFlags.NO_CHUNKING = negb (bt_chunked t).

Definition tracks (h : ResponseHead) (t : Built) : Prop :=
  rs_status h = bt_status t /\ rs_reason h = bt_reason t /\
  (forall k, HeaderMapOps.values (rs_headers h) k = bt_headers t k) /\ flags_agree h t.

Lemma tracks_agrees h t : tracks h t -> agrees h t.
Proof.
  intros (? & ? & ? & Hc & Hk & Hu & Hn). unfold agrees, ResponseHeadOps.ctype, ResponseHeadOps.chunked.
  rewrite Hc, Hk, Hu, Hn, negb_involutive. done.
Qed.

(** A builder without an error tracks the abstract response. *)
Definition builds (b : ResponseBuilder) (t : Built) : Prop :=
  exists h, b = mkResponseBuilder (Some h) None /\ tracks h t.

Lemma tracks_headers h t f g :
  tracks h t ->
  (forall m s, (forall k, values m k = s k) -> forall k, values (f m) k = g s k) ->
  tracks (rs_set_headers h (f (rs_headers h))) (built_set t g).
Proof. intros (? & ? & Hv & Hf) Hg. split_and!; try done. simpl. by apply Hg. Qed.

Lemma values_append_spec k v m s :
  (forall k, values m k = s k) -> forall k', values (append m k v) k' = Spec.append s k v k'.
Proof. intros Hs. apply (update_refines (fun _ => None) m (UAppend k v) s Hs). Qed.
Lemma values_insert_spec k v m s :
  (forall k, values m k = s k) -> forall k', values (insert m k v) k' = Spec.insert s k v k'.
Proof. intros Hs. apply (update_refines (fun _ => None) m (UInsert k v) s Hs). Qed.

Lemma run_op_tracks h t op :
  tracks h t -> op_error op = None ->
  builds (run_op (mkResponseBuilder (Some h) None) op) (built_op t op).
Proof.
  intros Ht He. pose proof Ht as (Hs & Hr & Hv & Hc & Hk & Hu & Hn).
  destruct op as [s|[k|] [v|]|[k|] [v|]|r| |[v|]| | |[v|]|[v|]]; simpl in He; try done;
    (eexists; split; [reflexivity|]).
  - done.
  - apply (tracks_headers h t (fun m => append m k v) _ Ht (values_append_spec k v)).
  - apply (tracks_headers h t (fun m => insert m k v) _ Ht (values_insert_spec k v)).
  - done.
  - unfold tracks, flags_agree. split_and!; try done; simpl; by flags.
  - unfold tracks, flags_agree. split_and!; try done; simpl; try (by flags). by apply values_insert_spec.
  - unfold tracks, flags_agree. split_and!; try done; simpl; by flags.
  - unfold tracks, flags_agree. split_and!; try done; simpl; by flags.
  - apply (tracks_headers h t (fun m => insert m CONTENT_TYPE v) _ Ht (values_insert_spec _ v)).
  - apply (tracks_headers h t (fun m => append m CONTENT_LENGTH v) _ Ht (values_append_spec _ v)).
Qed.

(** After an error a builder does not change any more. *)
Lemma run_op_err b op e : rb_err b = Some e -> run_op b op = b.
Proof.
  intros He. assert (Hp : forall f, with_parts b f = b) by (intros f; unfold with_parts, parts; by rewrite He).
  destruct op; simpl; unfold builder_status, builder_header, builder_set_header, builder_reason,
    builder_keep_alive, builder_upgrade, builder_force_close, builder_no_chunking,
    builder_content_type, builder_content_length, builder_set_header, builder_header;
    rewrite ?Hp; done.
Qed.

Lemma run_op_fails h op e :
  op_error op = Some e -> rb_err (run_op (mkResponseBuilder (Some h) None) op) = Some e.
Proof.
  intros He. destruct op as [s|[k|] [v|]|[k|] [v|]|r| |[v|]| | |[v|]|[v|]]; simpl in He; by simplify_eq.
Qed.

Lemma run_ops_err ops : forall b e, rb_err b = Some e -> fold_left run_op ops b = b.
Proof.
  induction ops as [|op ops IH]; intros b e He; simpl; [done|]. erewrite run_op_err by done. by eapply IH.
Qed.

Lemma run_ops_spec ops : forall h t,
  tracks h t ->
  match omap op_error ops with
  | [] => builds (fold_left run_op ops (mkResponseBuilder (Some h) None)) (fold_left built_op ops t)
  | e :: _ => rb_err (fold_left run_op ops (mkResponseBuilder (Some h) None)) = Some e
  end.
Proof.
  induction ops as [|op ops IH]; intros h t Ht; simpl; [by exists h|].
  destruct (op_error op) as [e|] eqn:He; simpl.
  - pose proof (run_op_fails h op e He) as Hf. by rewrite (run_ops_err ops _ e Hf).
  - destruct (run_op_tracks h t op Ht He) as (h' & Hb & Ht'). rewrite Hb. by apply IH.
Qed.

(** A head from the pool is the empty response. *)
Lemma with_status_tracks status p : tracks (with_status status p).1 (built_new status).
Proof.
  unfold with_status, MessagePool.get_message. destruct p as [|h p]; simpl;
    split_and!; try done; split_and!; reflexivity.
Qed.

Lemma fold_append_values l : forall m k,
  values (fold_left (fun m kv => append m kv.1 kv.2) l m) k
  = values m k ++ (snd <$> filter (fun kv => kv.1 = k) l).
Proof.
  induction l as [|[k' v] l IH]; intros m k; simpl; [by rewrite app_nil_r|].
  rewrite IH, values_append. destruct (decide (k' = k)) as [->|Hk].
  - by rewrite filter_cons_True, fmap_cons, <- app_assoc.
  - by rewrite filter_cons_False.
Qed.

Section Built.
Context {M : Type}.

(** What a builder makes of any sequence of setters.  When every conversion
    succeeds it is a response with the body given whose status, reason, headers
    (as a multimap), connection type and chunking are those of the abstract
    response after the same setters, closing winning over keeping alive and that
    over upgrading; the first conversion that fails decides otherwise, and the
    response is the 500 that displays its error, whatever was set before or
    after it. *)
Theorem builder_result {B} status ops (body : B) (p0 p : HeadPool) :
  let b := fold_left run_op ops (builder_new status p0).1 in
  match omap op_error ops with
  | [] =>
      exists h, message_body (M := M) b body p
                = Val (mkResponse h (RB_Body body), mkResponseBuilder None None, p) /\
        agrees h (fold_left built_op ops (built_new status))
  | e :: _ =>
      exists h p', message_body (M := M) b body p
                   = Val (mkResponse h (RB_Other (B_Bytes (mkBytes (http_error_text e)))),
                          mkResponseBuilder (rb_head b) None, p') /\
        agrees h (built_op (built_new INTERNAL_SERVER_ERROR)
                    (BContentType (Ok (mkHeaderValue (bs "text/plain; charset=utf-8") false))))
  end.
Proof.
  intros b. subst b. unfold builder_new. pose proof (with_status_tracks status p0) as Ht.
  destruct (with_status status p0) as [h0 p1]. simpl fst in *.
  pose proof (run_ops_spec ops h0 _ Ht) as Hr. destruct (omap op_error ops) as [|e es].
  - destruct Hr as (h & -> & Hh). exists h. split; [done|]. by apply tracks_agrees.
  - unfold message_body. rewrite Hr. unfold error_response_default, response_new.
    pose proof (with_status_tracks INTERNAL_SERVER_ERROR p) as Ht2.
    destruct (with_status INTERNAL_SERVER_ERROR p) as [h1 p2]. simpl fst in *.
    eexists _, _. split; [reflexivity|]. apply tracks_agrees.
    apply (tracks_headers h1 _ (fun m => insert m CONTENT_TYPE _) _ Ht2 (values_insert_spec _ _)).
Qed.

(** A builder made from a response head copies its status, version, reason,
    chunking and every value of every header in order, in whatever order the
    hash map is visited; the connection type, the extensions and the io handle
    stay behind. *)
Theorem builder_from_head_copies {B} (head : ResponseHead) inner (body : B) (p : HeadPool) :
  inner ≡ₚ map_to_list (rs_headers head) ->
  let '(b, p') := builder_from_head head inner p in
  exists h, message_body (M := M) b body p'
            = Val (mkResponse h (RB_Body body), mkResponseBuilder None None, p') /\
    rs_status h = rs_status head /\ rs_version h = rs_version head /\
    rs_reason h = rs_reason head /\ ResponseHeadOps.chunked h = ResponseHeadOps.chunked head /\
    (forall k, values (rs_headers h) k = values (rs_headers head) k) /\
    ResponseHeadOps.ctype h = None /\ rs_extensions h = [] /\ rs_io h = IoNone.
Proof.
  intros Hperm. unfold builder_from_head.
  rewrite (drain_iter_rest _ (iter inner)) by apply Nat.lt_succ_diag_r.
  assert (Hw : exists v st p', with_status (rs_status head) p
                 = (rs_set_status (rs_set_version (ResponseHeadOps.new st v) v) (rs_status head), p')).
  { unfold with_status, MessagePool.get_message. destruct p as [|h p]; eexists _, _, _; reflexivity. }
  destruct Hw as (v & st & p' & ->). eexists. split; [reflexivity|]. simpl.
  split_and!; try done.
  - unfold ResponseHeadOps.chunked, ResponseHeadOps.no_chunking. simpl.
    by destruct (Flag.contains (rs_flags head) HeadFlags.NO_CHUNKING).
  - intros k. rewrite fold_append_values.
    by apply entries_values.
  - unfold ResponseHeadOps.ctype, ResponseHeadOps.no_chunking, ResponseHeadOps.chunked. simpl.
    by destruct (Flag.contains (rs_flags head) HeadFlags.NO_CHUNKING).
Qed.
End Built.
