(* ===== verification/WsHandshake.v ===== *)
(** * The WebSocket handshake

    The server's side is [ws/handshake.rs] with the error responses of
    [ws/error.rs]; the client's side is the request that [WsClient::connect] of
    [ws/client.rs] sends, its check of the response, and the settings of
    [ws/cfg.rs].  The base64 crate's encoder, the host of a URI and the random
    nonce are arguments. *)
From S2P Require Import Prelude Headers Message Config Errors Payload Decoder Encoder.
From S2P Require Import Body Response WsProto WsCodec.

Definition SEC_WEBSOCKET_PROTOCOL : HeaderName := bs "sec-websocket-protocol".
Definition ORIGIN : HeaderName := bs "origin".
Definition AUTHORIZATION : HeaderName := bs "authorization".

(** [str::contains] *)
Fixpoint contains_str (pat s : list Z) : bool :=
  bool_decide (pat `prefix_of` s) ||
  match s with [] => false | _ :: s' => contains_str pat s' end.

(** [headers.get(name)] for a constant name. *)
Definition hget (m : HeaderMap) (k : HeaderName) : outcome (option HeaderValue) :=
  HeaderMapOps.get (fun _ => None) m (NameLeft k).
Definition hcontains (m : HeaderMap) (k : HeaderName) : bool :=
  HeaderMapOps.contains_key (fun _ => None) m (NameLeft k).

(** Both sides look for a word in a header this way: the value must be visible
    ASCII and contain the word in any case. *)
Definition mentions (word : list Z) (v : HeaderValue) : bool :=
  match to_str v with
  | Ok s => contains_str word (to_ascii_lowercase <$> s)
  | Err _ => false
  end.

(** ** Server *)

Definition verify_handshake (req : RequestHead) : outcome (result unit HandshakeError) :=
  if negb (bool_decide (rq_method req = GET)) then Val (Err GetMethodRequired)
  else
    up ← hget (rq_headers req) UPGRADE;
    let has_hdr := match up with Some hdr => mentions (bs "websocket") hdr | None => false end in
    if negb has_hdr then Val (Err NoWebsocketUpgrade)
    else if negb (RequestHeadOps.upgrade req) then Val (Err NoConnectionUpgrade)
    else if negb (hcontains (rq_headers req) SEC_WEBSOCKET_VERSION) then Val (Err NoVersionHeader)
    else
      ver ← hget (rq_headers req) SEC_WEBSOCKET_VERSION;
      let supported_ver := match ver with
                           | Some hdr => bool_decide (hv_inner hdr = bs "13")
                                         || bool_decide (hv_inner hdr = bs "8")
                                         || bool_decide (hv_inner hdr = bs "7")
                           | None => false
                           end in
      if negb supported_ver then Val (Err UnsupportedVersion)
      else if negb (hcontains (rq_headers req) SEC_WEBSOCKET_KEY) then Val (Err BadWebsocketKey)
      else Val (Ok tt).

Section Handshake.
Context (base64_encode : list Z -> list Z) {M : Type}.

Definition handshake_response (req : RequestHead) (p : HeadPool)
  : outcome (ResponseBuilder * HeadPool) :=
  k ← hget (rq_headers req) SEC_WEBSOCKET_KEY;
  match k with
  | None => Panic
  | Some k =>
      h ← hash_key base64_encode (hv_inner k);
      let key := match h with Ok s => s | Err _ => [] end in
      let '(b, p') := builder_new SWITCHING_PROTOCOLS p in
      let b1 := builder_upgrade b (value_from (bs "websocket")) in
      let b2 := builder_header b1 (Ok TRANSFER_ENCODING) (value_from (bs "chunked")) in
      let b3 := builder_header b2 (Ok SEC_WEBSOCKET_ACCEPT) (value_from_string key) in
      Val ((builder_take b3).1, p')
  end.

Definition handshake (req : RequestHead) (p : HeadPool)
  : outcome (result (ResponseBuilder * HeadPool) HandshakeError) :=
  v ← verify_handshake req;
  match v with
  | Err e => Val (Err e)
  | Ok _ => r ← handshake_response req p; Val (Ok r)
  end.

(** [HandshakeError::error_response] *)
Definition handshake_error_response (e : HandshakeError) (p : HeadPool)
  : outcome (Response (Body M) M * ResponseBuilder * HeadPool) :=
  let bad reason :=
    let '(b, p') := builder_new BAD_REQUEST p in builder_finish (builder_reason b reason) p' in
  match e with
  | GetMethodRequired =>
      let '(b, p') := builder_new METHOD_NOT_ALLOWED p in
      builder_finish (builder_header b (Ok ALLOW) (value_from (bs "GET"))) p'
  | NoWebsocketUpgrade => bad (bs "No WebSocket UPGRADE header found")
  | NoConnectionUpgrade => bad (bs "No CONNECTION upgrade")
  | NoVersionHeader => bad (bs "Websocket version header is required")
  | UnsupportedVersion => bad (bs "Unsupported version")
  | BadWebsocketKey => bad (bs "Handshake error")
  end.

(** ** Client *)

(** [WsClientConfig]; the socket address and the context are left out. *)
Record WsClientConfig := mkWsConfig {
  wc_max_size : Z;
  wc_timeout : Z;
  wc_headers : HeaderMap;
  wc_server_mode : bool
}.

Definition ws_config_new : WsClientConfig :=
  mkWsConfig 65536 5000
    (HeaderMapOps.insert
       (HeaderMapOps.insert HeaderMapOps.new UPGRADE (mkHeaderValue (bs "websocket") false))
       SEC_WEBSOCKET_VERSION (mkHeaderValue (bs "13") false))
    false.

Definition ws_set_headers (c : WsClientConfig) (m : HeaderMap) : WsClientConfig :=
  mkWsConfig (wc_max_size c) (wc_timeout c) m (wc_server_mode c).
Definition set_max_frame_size (c : WsClientConfig) (size : Z) : WsClientConfig :=
  mkWsConfig size (wc_timeout c) (wc_headers c) (wc_server_mode c).
Definition set_timeout (c : WsClientConfig) (timeout : Z) : WsClientConfig :=
  mkWsConfig (wc_max_size c) timeout (wc_headers c) (wc_server_mode c).
Definition set_server_mode (c : WsClientConfig) : WsClientConfig :=
  mkWsConfig (wc_max_size c) (wc_timeout c) (wc_headers c) true.

(** The protocols with a comma after each, the last one dropped; a value that is
    no header value panics. *)
Definition set_protocols (c : WsClientConfig) (protos : list (list Z)) : outcome WsClientConfig :=
  let s := fold_left (fun acc s => acc ++ s ++ bs ",") protos [] in
  match value_from (removelast s) with
  | Ok v => Val (ws_set_headers c (HeaderMapOps.insert (wc_headers c) SEC_WEBSOCKET_PROTOCOL v))
  | Err _ => Panic
  end.

Definition set_origin (c : WsClientConfig) (origin : result HeaderValue HttpError)
  : result WsClientConfig HttpError :=
  match origin with
  | Ok v => Ok (ws_set_headers c (HeaderMapOps.insert (wc_headers c) ORIGIN v))
  | Err e => Err e
  end.

Definition ws_set_header (c : WsClientConfig) (key : result HeaderName HttpError)
    (value : result HeaderValue HttpError) : result WsClientConfig HttpError :=
  match key with
  | Err e => Err e
  | Ok key => match value with
              | Err e => Err e
              | Ok value => Ok (ws_set_headers c (HeaderMapOps.insert (wc_headers c) key value))
              end
  end.

Definition set_header_if_unset (c : WsClientConfig) (key : result HeaderName HttpError)
    (value : result HeaderValue HttpError) : result WsClientConfig HttpError :=
  match key with
  | Err e => Err e
  | Ok key =>
      if hcontains (wc_headers c) key then Ok c
      else match value with
           | Err e => Err e
           | Ok value => Ok (ws_set_headers c (HeaderMapOps.insert (wc_headers c) key value))
           end
  end.

Definition set_basic_auth (c : WsClientConfig) (username : list Z) (password : option (list Z))
  : result WsClientConfig HttpError :=
  let auth := match password with
              | Some password => username ++ bs ":" ++ password
              | None => username ++ bs ":"
              end in
  ws_set_header c (Ok AUTHORIZATION) (value_from_string (bs "Basic " ++ base64_encode auth)).

Definition set_bearer_auth (c : WsClientConfig) (token : list Z) : result WsClientConfig HttpError :=
  ws_set_header c (Ok AUTHORIZATION) (value_from_string (bs "Bearer " ++ token)).

(** The headers of the settings are copied under the names the head has not got
    yet; [inner] is the order the hash map is visited in. *)
Definition copy_headers (inner : list (HeaderName * Value)) (m : HeaderMap) : HeaderMap :=
  fold_left (fun m kv => if hcontains m kv.1 then m else HeaderMapOps.insert m kv.1 kv.2)
    (drain HeaderMapOps.iter_next (S (length (flat_map HeaderMapThms.entry_pairs inner)))
       (HeaderMapOps.iter inner)) m.

(** The first part of [WsClient::connect]: the head that is sent, and the key. *)
Definition connect_head (inner : list (HeaderName * Value)) (uri : Uri) (host nonce : list Z)
    (p : list RequestHead) : outcome (RequestHead * list Z * list RequestHead) :=
  let '(head, p') := MessagePool.get_message p in
  let head := RequestHeadOps.set_connection_type (set_request_line head uri GET (rq_version head)) Upgrade in
  let m := copy_headers inner (rq_headers head) in
  m ← (if hcontains m HOST then Val m
       else match value_from host with
            | Ok v => Val (HeaderMapOps.insert m HOST v)
            | Err _ => Panic
            end);
  let key := base64_encode nonce in
  match value_from key with
  | Ok v => Val (set_headers head (HeaderMapOps.insert m SEC_WEBSOCKET_KEY v), key, p')
  | Err _ => Panic
  end.

(** The errors of the client's check. *)
Inductive WsClientError :=
| InvalidResponseStatus (status : Z)
| InvalidUpgradeHeader
| InvalidConnectionHeader (v : HeaderValue)
| MissingConnectionHeader
| MissingWebSocketAcceptHeader
| InvalidChallengeResponse (encoded : list Z) (v : HeaderValue).

(** The last part of [WsClient::connect]. *)
Definition verify_response (key : list Z) (response : ResponseHead)
  : outcome (result unit WsClientError) :=
  if negb (rs_status response =? SWITCHING_PROTOCOLS)
  then Val (Err (InvalidResponseStatus (rs_status response)))
  else
    up ← hget (rs_headers response) UPGRADE;
    let has_hdr := match up with Some hdr => mentions (bs "websocket") hdr | None => false end in
    if negb has_hdr then Val (Err InvalidUpgradeHeader)
    else
      conn ← hget (rs_headers response) CONNECTION;
      match conn with
      | None => Val (Err MissingConnectionHeader)
      | Some conn =>
          if negb (mentions (bs "upgrade") conn) then Val (Err (InvalidConnectionHeader conn))
          else
            acc ← hget (rs_headers response) SEC_WEBSOCKET_ACCEPT;
            match acc with
            | None => Val (Err MissingWebSocketAcceptHeader)
            | Some hdr_key =>
                h ← hash_key base64_encode key;
                match h with
                | Err _ => Val (Err (InvalidChallengeResponse [] hdr_key))
                | Ok encoded =>
                    if negb (bool_decide (hv_inner hdr_key = encoded))
                    then Val (Err (InvalidChallengeResponse encoded hdr_key))
                    else Val (Ok tt)
                end
            end
      end.

(** The codec the connection goes on with. *)
Definition connection_codec (c : WsClientConfig) : WsCodec :=
  let codec := max_size ws_new (wc_max_size c) in
  if wc_server_mode c then codec else client_mode codec.
End Handshake.

(** ** Header lookups *)

Import HeaderMapOps HeaderMapThms.

Lemma hget_head m k : wf m -> hget m k = Val (head (values m k)).
Proof. intros Hwf. apply (get_first (fun _ => None) m (NameLeft k) Hwf). Qed.

Lemma hcontains_values m k : wf m -> hcontains m k = negb (bool_decide (values m k = [])).
Proof.
  intros Hwf. unfold hcontains, contains_key. pose proof (values_nil m k Hwf) as Hn.
  rewrite <- bool_decide_not. apply bool_decide_ext. rewrite Hn. symmetry. apply not_eq_None_Some.
Qed.

Lemma copy_headers_values inner m0 : forall m k,
  inner ≡ₚ map_to_list m0 -> wf m ->
  wf (copy_headers inner m) /\
  values (copy_headers inner m) k = match values m k with
                                    | [] => take 1 (values m0 k)
                                    | vs => vs
                                    end.
Proof.
  intros m k Hperm Hwf. unfold copy_headers.
  rewrite (drain_iter_rest _ (iter inner)) by apply Nat.lt_succ_diag_r.
  rewrite <- (entries_values m0 inner k Hperm).
  change (iter_rest (iter inner)) with (flat_map entry_pairs inner). clear Hperm.
  revert m Hwf. induction (flat_map entry_pairs inner) as [|[k' v] l IH]; intros m Hwf; simpl.
  { split; [done|]. by destruct (values m k). }
  rewrite (hcontains_values m k' Hwf). case_bool_decide as Hk; simpl.
  - destruct (IH (insert m k' v)) as [Hw ->]; [by apply wf_insert|]. split; [done|].
    rewrite values_insert. destruct (decide (k' = k)) as [->|Hne].
    + by rewrite Hk, filter_cons_True.
    + by rewrite filter_cons_False.
  - destruct (IH m Hwf) as [Hw ->]. split; [done|]. destruct (decide (k' = k)) as [->|Hne].
    + by destruct (values m k).
    + by rewrite filter_cons_False.
Qed.

(** A check that fails: the conjunction has the part that contradicts it. *)
Ltac refused :=
  split; [done|]; intros (? & (? & ? & ?) & ? & (? & ? & ?) & ?); simplify_eq/=; (congruence || done).

Section Agreement.
Context (base64_encode : list Z -> list Z) {M : Type}.

(** What the base64 crate documents of its standard alphabet. *)
Hypothesis base64_is_value : forall l, forallb is_valid (base64_encode l) = true.

(** The accept value of RFC 6455, 4.2.2, where the code computes it. *)
Definition accept_value (key : list Z) : list Z :=
  if (32 <? length key)%nat then [] else base64_encode (Sha1.sha1 (key ++ WS_GUID)).

Definition text_value (s : list Z) : HeaderValue := mkHeaderValue s false.

Lemma accept_value_valid key : from_shared (accept_value key) = Ok (text_value (accept_value key)).
Proof.
  unfold from_shared, accept_value. destruct (32 <? length key)%nat; [done|]. by rewrite base64_is_value.
Qed.

Lemma hash_key_accept key :
  (match hash_key base64_encode key with
   | Val (Ok s) => Val s | Val (Err _) => Val [] | Panic => Panic | NoFuel => NoFuel end)
  = Val (accept_value key).
Proof.
  unfold accept_value. destruct (32 <? length key)%nat eqn:E.
  - unfold hash_key. by rewrite E.
  - rewrite hash_key_ok by by apply Nat.ltb_ge. done.
Qed.

(** The response a server builds for a key. *)
Definition switching (acc : list Z) : Built :=
  mkBuilt SWITCHING_PROTOCOLS None
    (Spec.append (Spec.append (Spec.insert Spec.empty UPGRADE (text_value (bs "websocket")))
       TRANSFER_ENCODING (text_value (bs "chunked"))) SEC_WEBSOCKET_ACCEPT (text_value acc))
    false false true true.

Lemma handshake_response_builds req p k rest :
  wf (rq_headers req) -> values (rq_headers req) SEC_WEBSOCKET_KEY = k :: rest ->
  exists b p', handshake_response base64_encode req p = Val (b, p') /\
    builds b (switching (accept_value (hv_inner k))).
Proof.
  intros Hwf Hk. unfold handshake_response. rewrite hget_head, Hk by done. cbn [mbind outcome_bind head].
  pose proof (hash_key_accept (hv_inner k)) as Hh.
  destruct (hash_key base64_encode (hv_inner k)) as [h| |]; try done. cbn [mbind outcome_bind].
  assert (Hs : match h with Ok s => s | Err _ => [] end = accept_value (hv_inner k)).
  { by destruct h; simplify_eq. }
  rewrite Hs. clear Hh Hs h. unfold builder_new.
  pose proof (with_status_tracks SWITCHING_PROTOCOLS p) as Ht.
  destruct (with_status SWITCHING_PROTOCOLS p) as [h0 p0]. simpl fst in Ht.
  eexists _, _. split; [reflexivity|]. simpl fst.
  unfold value_from_string. rewrite accept_value_valid.
  pose proof (run_ops_spec [BUpgrade (value_from (bs "websocket"));
    BHeader (Ok TRANSFER_ENCODING) (value_from (bs "chunked"));
    BHeader (Ok SEC_WEBSOCKET_ACCEPT) (Ok (text_value (accept_value (hv_inner k))))] h0 _ Ht) as Hr.
  exact Hr.
Qed.

(** What the server asks of a request. *)
Definition handshake_request (req : RequestHead) : Prop :=
  rq_method req = GET /\
  (exists u, head (values (rq_headers req) UPGRADE) = Some u /\ mentions (bs "websocket") u = true) /\
  RequestHeadOps.upgrade req = true /\
  (exists v, head (values (rq_headers req) SEC_WEBSOCKET_VERSION) = Some v /\
             hv_inner v ∈ [bs "13"; bs "8"; bs "7"]) /\
  values (rq_headers req) SEC_WEBSOCKET_KEY <> [].

Lemma verify_handshake_iff (req : RequestHead) :
  wf (rq_headers req) -> verify_handshake req = Val (Ok tt) <-> handshake_request req.
Proof.
  intros Hwf. unfold handshake_request.
  unfold verify_handshake. case_bool_decide as Hm; cbn [negb]; [|by refused].
  rewrite !hget_head, !hcontains_values by done. cbn [mbind outcome_bind].
  destruct (head (values _ UPGRADE)) as [u|] eqn:Eu; [|by refused].
  destruct (mentions _ u) eqn:Hu; [|by refused]. cbn [negb].
  destruct (RequestHeadOps.upgrade req) eqn:Hup; [|by refused]. cbn [negb].
  destruct (values _ SEC_WEBSOCKET_VERSION) as [|v vs] eqn:Ev; [by refused|].
  cbn [head]. rewrite bool_decide_false by done. cbn [negb].
  assert (Hin : bool_decide (hv_inner v = bs "13") || bool_decide (hv_inner v = bs "8")
            || bool_decide (hv_inner v = bs "7") = bool_decide (hv_inner v ∈ [bs "13"; bs "8"; bs "7"])).
  { rewrite <- !bool_decide_or. apply bool_decide_ext.
    rewrite !elem_of_cons, elem_of_nil. tauto. }
  rewrite Hin. clear Hin. case_bool_decide as Hver; cbn [negb];
    [|split; [done|]; intros (_ & _ & _ & (v' & [= <-] & Hv') & _); by destruct Hver].
  case_bool_decide as Hk; cbn [negb]; [by refused|]. split; [|done]. intros _.
  split_and!; try done; [by exists u|by exists v].
Qed.

(** The server's side of the handshake.  A request is accepted if and only if
    it is a GET, its Upgrade header names websocket, its connection is to be
    upgraded, its version is 13, 8 or 7, and it has a key.  For a request with a
    key the response is a 101 that upgrades the connection to websocket and
    accepts with the base64 of the SHA-1 of key and GUID; but for a key of more
    than 32 bytes, which is not refused, it accepts with an empty value. *)
Theorem server_handshake (req : RequestHead) (p : HeadPool) :
  wf (rq_headers req) ->
  (verify_handshake req = Val (Ok tt) <-> handshake_request req) /\
  forall k rest, values (rq_headers req) SEC_WEBSOCKET_KEY = k :: rest ->
    exists b p' h, handshake_response base64_encode req p = Val (b, p') /\
      builder_finish (M := M) b p' = Val (mkResponse h (RB_Body B_Empty), mkResponseBuilder None None, p') /\
      rs_status h = SWITCHING_PROTOCOLS /\ ResponseHeadOps.ctype h = Some Upgrade /\
      values (rs_headers h) UPGRADE = [text_value (bs "websocket")] /\
      values (rs_headers h) SEC_WEBSOCKET_ACCEPT
        = [text_value (if (32 <? length (hv_inner k))%nat then []
                       else base64_encode (Sha1.sha1 (hv_inner k ++ WS_GUID)))].
Proof.
  intros Hwf. split.
  - by apply verify_handshake_iff.
  - intros k rest Hk. destruct (handshake_response_builds req p k rest Hwf Hk) as (b & p' & Hb & h & -> & Ht).
    exists (mkResponseBuilder (Some h) None), p', h. split; [done|]. split; [done|].
    apply tracks_agrees in Ht as (Hs & _ & Hv & Hc & _). split; [done|]. split; [done|].
    rewrite !Hv. done.
Qed.
(** ** The two sides together *)

(** The headers of the settings after calls of [set_header]. *)
Definition client_headers (extra : list (HeaderName * HeaderValue)) : HeaderMap :=
  fold_left (fun m kv => insert m kv.1 kv.2) extra (wc_headers ws_config_new).

(** The value of the last call for this name. *)
Fixpoint last_set (k : HeaderName) (extra : list (HeaderName * HeaderValue)) : option HeaderValue :=
  match extra with
  | [] => None
  | kv :: extra => match last_set k extra with
                   | Some v => Some v
                   | None => if decide (kv.1 = k) then Some kv.2 else None
                   end
  end.

Lemma client_headers_values extra k :
  values (client_headers extra) k =
  match last_set k extra with Some v => [v] | None => values (wc_headers ws_config_new) k end.
Proof.
  unfold client_headers. generalize (wc_headers ws_config_new) as m.
  induction extra as [|kv extra IH]; intros m; simpl; [done|].
  rewrite IH, values_insert. destruct (last_set k extra); [done|]. by destruct (decide (kv.1 = k)).
Qed.

(** What the head says under a name that the settings have a value for anyway. *)
Definition asked (k : HeaderName) (own : list Z) (extra : list (HeaderName * HeaderValue)) : HeaderValue :=
  default (text_value own) (last_set k extra).

Definition same_values (ks : list HeaderName) (m m' : HeaderMap) : Prop :=
  forall k, k ∈ ks -> hv_inner <$> values m' k = hv_inner <$> values m k.

Lemma same_values_one ks m m' k s :
  same_values ks m m' -> k ∈ ks -> hv_inner <$> values m k = [s] ->
  exists v, values m' k = [v] /\ hv_inner v = s.
Proof.
  intros Hs Hk Hm. specialize (Hs k Hk). rewrite Hm in Hs.
  destruct (values m' k) as [|v [|w l]]; simplify_eq/=. eauto.
Qed.

(** A value that is the word itself mentions it. *)
Lemma mentions_inner word v v' : hv_inner v = hv_inner v' -> mentions word v = mentions word v'.
Proof. intros Hv. unfold mentions, to_str. by rewrite Hv. Qed.

Lemma connect_head_ok extra inner uri host nonce p :
  inner ≡ₚ map_to_list (client_headers extra) -> forallb is_valid host = true ->
  exists hd p', connect_head base64_encode inner uri host nonce p = Val (hd, base64_encode nonce, p') /\
    rq_method hd = GET /\ RequestHeadOps.connection_type hd = Upgrade /\
    values (rq_headers hd) UPGRADE = [asked UPGRADE (bs "websocket") extra] /\
    values (rq_headers hd) SEC_WEBSOCKET_VERSION = [asked SEC_WEBSOCKET_VERSION (bs "13") extra] /\
    values (rq_headers hd) SEC_WEBSOCKET_KEY = [text_value (base64_encode nonce)].
Proof.
  intros Hperm Hhost. unfold connect_head.
  assert (Hm : exists hd p', MessagePool.get_message p = (hd, p') /\ rq_headers hd = new /\ rq_flags hd = 0).
  { unfold MessagePool.get_message. destruct p; eexists _, _; (split; [reflexivity|done]). }
  destruct Hm as (hd & p' & -> & Hh & Hf). simpl rq_headers. rewrite Hh.
  assert (Hv : forall k own, values (wc_headers ws_config_new) k = [text_value own] ->
    values (copy_headers inner new) k = [asked k own extra]).
  { intros k own Hk. destruct (copy_headers_values inner _ new k Hperm wf_empty) as [_ ->].
    change (values new k) with (@nil HeaderValue). rewrite client_headers_values. unfold asked.
    destruct (last_set k extra); [done|by rewrite Hk]. }
  set (m1 := copy_headers inner new) in *.
  assert (Hm2 : exists m2, (if hcontains m1 HOST then Val m1
       else match value_from host with Ok v => Val (insert m1 HOST v) | Err _ => Panic end) = Val m2 /\
       forall k, k <> HOST -> values m2 k = values m1 k).
  { destruct (hcontains m1 HOST); [by exists m1|].
    unfold value_from, try_from_generic. rewrite Hhost. eexists. split; [done|].
    intros k Hk. rewrite values_insert. by rewrite decide_False. }
  destruct Hm2 as (m2 & -> & Hm2). cbn [mbind outcome_bind].
  unfold value_from, try_from_generic. rewrite base64_is_value. eexists _, _. split; [reflexivity|].
  cbn [rq_headers set_headers rq_method]. rewrite !values_insert.
  split_and!; [done|unfold RequestHeadOps.connection_type; simpl; by rewrite Hf| | |by rewrite decide_True].
  - rewrite decide_False, Hm2 by done. by apply Hv.
  - rewrite decide_False, Hm2 by done. by apply Hv.
Qed.

(** C34. A client and a server of this library agree on the handshake, unless the
    settings take back what the handshake needs.  Whatever headers the client's
    settings add, the head it sends is a GET that asks for an upgrade.  A server
    that receives it, with the values of the three headers it looks at as they
    were sent, accepts it if and only if the last Upgrade value that was set, if
    one was, still names websocket and the last version that was set is 13, 8 or
    7; so it does when neither was set, while a value that was set takes the
    place of the library's own.  The server answers with a 101; and a client that
    receives this answer, with the upgrade and accept values as they were sent
    and the Connection line the encoder writes for an upgrade, accepts it.  The key
    is the base64 of a 16-byte nonce, at most 32 characters. *)
Theorem ws_handshake_agrees extra inner uri host nonce p :
  inner ≡ₚ map_to_list (client_headers extra) -> forallb is_valid host = true ->
  (length (base64_encode nonce) <= 32)%nat ->
  exists hd key p', connect_head base64_encode inner uri host nonce p = Val (hd, key, p') /\
    rq_method hd = GET /\ RequestHeadOps.connection_type hd = Upgrade /\
    forall req p2,
      wf (rq_headers req) -> rq_method req = rq_method hd -> RequestHeadOps.upgrade req = true ->
      same_values [UPGRADE; SEC_WEBSOCKET_VERSION; SEC_WEBSOCKET_KEY] (rq_headers hd) (rq_headers req) ->
      (verify_handshake req = Val (Ok tt) <->
         mentions (bs "websocket") (asked UPGRADE (bs "websocket") extra) = true /\
         hv_inner (asked SEC_WEBSOCKET_VERSION (bs "13") extra) ∈ [bs "13"; bs "8"; bs "7"]) /\
      (last_set UPGRADE extra = None -> last_set SEC_WEBSOCKET_VERSION extra = None -> verify_handshake req = Val (Ok tt)) /\
      exists b p3 h, handshake_response base64_encode req p2 = Val (b, p3) /\
        builder_finish (M := M) b p3 = Val (mkResponse h (RB_Body B_Empty), mkResponseBuilder None None, p3) /\
        ResponseHeadOps.ctype h = Some Upgrade /\
        forall r, wf (rs_headers r) -> rs_status r = rs_status h ->
          same_values [UPGRADE; SEC_WEBSOCKET_ACCEPT] (rs_headers h) (rs_headers r) ->
          hv_inner <$> values (rs_headers r) CONNECTION = [bs "upgrade"] ->
          verify_response base64_encode key r = Val (Ok tt).
Proof.
  intros Hperm Hhost Hlen.
  destruct (connect_head_ok extra inner uri host nonce p Hperm Hhost)
    as (hd & p' & Hc & Hget & Hct & Hu & Hv & Hk).
  exists hd, (base64_encode nonce), p'. split_and!; [done..|].
  intros req p2 Hwf Hm Hup Hs.
  destruct (same_values_one _ _ _ UPGRADE _ Hs ltac:(set_solver) (f_equal (fmap hv_inner) Hu)) as (u & Hu' & Hu2).
  destruct (same_values_one _ _ _ SEC_WEBSOCKET_VERSION _ Hs ltac:(set_solver) (f_equal (fmap hv_inner) Hv)) as (v & Hv' & Hv2).
  destruct (same_values_one _ _ _ SEC_WEBSOCKET_KEY (base64_encode nonce) Hs) as (k & Hk' & Hk2);
    [set_solver|by rewrite Hk|].
  assert (Hiff : verify_handshake req = Val (Ok tt) <->
    mentions (bs "websocket") (asked UPGRADE (bs "websocket") extra) = true /\
    hv_inner (asked SEC_WEBSOCKET_VERSION (bs "13") extra) ∈ [bs "13"; bs "8"; bs "7"]).
  { rewrite verify_handshake_iff by done. unfold handshake_request. rewrite Hu', Hv', Hk', <- Hv2, <- (mentions_inner _ u _ Hu2).
    split; [by intros (_ & (? & [= <-] & ?) & _ & (? & [= <-] & ?) & _)|]. intros [? ?].
    split_and!; [congruence|by exists u|done|by exists v|done]. }
  split; [exact Hiff|]. split; [intros H1 H2; apply Hiff; unfold asked; rewrite H1, H2; split; [reflexivity|left]|].
  destruct (handshake_response_builds req p2 k [] Hwf Hk') as (b & p3 & Hb & h & -> & Ht).
  apply tracks_agrees in Ht as (Hst & _ & Hvs & Hcty & _).
  exists (mkResponseBuilder (Some h) None), p3, h. split_and!; [done..|].
  intros r Hwr Hstr Hsr Hconn.
  destruct (same_values_one _ _ _ UPGRADE (bs "websocket") Hsr) as (u2 & Hu3 & Hu4); [set_solver|by rewrite Hvs|].
  destruct (same_values_one _ _ _ SEC_WEBSOCKET_ACCEPT (accept_value (hv_inner k)) Hsr) as (a & Ha & Ha2);
    [set_solver|by rewrite Hvs|].
  destruct (values (rs_headers r) CONNECTION) as [|cv [|]] eqn:Ecv; simplify_eq/=.
  unfold verify_response. rewrite Hstr, Hst. cbn [negb Z.eqb].
  rewrite !hget_head, Hu3, Ecv, Ha by done. cbn [mbind outcome_bind head].
  rewrite (mentions_inner _ u2 (text_value (bs "websocket"))) by done.
  rewrite (mentions_inner _ cv (text_value (bs "upgrade"))) by done.
  rewrite hash_key_ok by done. cbn [mbind outcome_bind].
  rewrite Ha2, Hk2. unfold accept_value. rewrite (proj2 (Nat.ltb_ge _ _) Hlen).
  rewrite bool_decide_true by done. reflexivity.
Qed.
End Agreement.
