(* ===== verification/WsHandshakeWorld.v ===== *)
(** * A WebSocket handshake, from bytes to bytes

    The base64 of RFC 4648, and the client's and the server's side of the
    handshake run over the HTTP/1 codecs; the theorems on the handshake and on
    the response builder applied to concrete messages. *)
From S2P Require Import Prelude Headers Message Config Errors Payload Decoder DecoderThms.
From S2P Require Import Encoder EncoderThms H1Codec Body Response WsProto WsCodec WsHandshake.
Import RefParsers RefEnv HeaderMapOps.

Module Base64.
Definition alphabet (i : Z) : Z :=
  if i <? 26 then 65 + i else if i <? 52 then 71 + i else if i <? 62 then i - 4
  else if i =? 62 then 43 else 47.
Definition sextet (x : Z) : Z := alphabet (Z.land x 63).
Fixpoint encode (l : list Z) : list Z :=
  match l with
  | a :: b :: c :: l' =>
      sextet (Z.shiftr a 2) :: sextet (16 * a + Z.shiftr b 4) :: sextet (4 * b + Z.shiftr c 6)
      :: sextet c :: encode l'
  | [a; b] => [sextet (Z.shiftr a 2); sextet (16 * a + Z.shiftr b 4); sextet (4 * b); 61]
  | [a] => [sextet (Z.shiftr a 2); sextet (16 * a); 61; 61]
  | [] => []
  end.

Lemma sextet_valid x : is_valid (sextet x) = true.
Proof.
  unfold sextet. assert (Hx : 0 <= Z.land x 63 < 64).
  { change 63 with (Z.ones 6). rewrite Z.land_ones by lia. apply Z.mod_pos_bound. lia. }
  unfold alphabet, is_valid. repeat case_match; zbool; lia.
Qed.

Lemma encode_valid l : forallb is_valid (encode l) = true.
Proof.
  induction l as [l IH] using (induction_ltof1 _ length). unfold ltof in IH.
  destruct l as [|a [|b [|c l]]]; cbn [encode forallb]; rewrite ?sextet_valid; try done.
  simpl. apply IH. simpl. lia.
Qed.

(** RFC 6455, section 1.3. *)
Example accept_rfc6455 :
  accept_value encode (bs "dGhlIHNhbXBsZSBub25jZQ==") = bs "s3pPLMBiTxaQ9kYGzzhZRbK+xOo=".
Proof. vm_compute. reflexivity. Qed.
End Base64.

(** The headers of a head, in the order they are visited. *)
Definition visited (m : HeaderMap) : list (HeaderName * Value) := map_to_list m.

Definition uri : Uri := mkUri (bs "http://h/chat") (Some (bs "/chat")).
Definition nonce : list Z := bs "the sample nonce".

(** The client's request as it is sent, and as the server's codec reads it. *)
Definition sent_head : RequestHead :=
  match connect_head Base64.encode (visited (client_headers [])) uri (bs "h") nonce [] with
  | Val (hd, _, _) => hd
  | _ => RequestHeadOps.default
  end.

Definition request_bytes : list Z :=
  match client_encode (client_new true ConfigOps.new) (Item (mkRawRequest sent_head None BS_None)) []
          DateService.new with
  | Val (_, _, out, _) => out
  | _ => []
  end.

Definition received : RequestHead :=
  match codec_decode (codec_new 1 ConfigOps.new) RequestHeadOps.default request_bytes with
  | Val (Ok (Some (req, _)), _, _) => req
  | _ => RequestHeadOps.default
  end.

(** The server's codec after the request. *)
Definition server_codec : Codec :=
  match codec_decode (codec_new 1 ConfigOps.new) RequestHeadOps.default request_bytes with
  | Val (_, c, _) => c
  | _ => codec_new 1 ConfigOps.new
  end.

Definition answer : ResponseHead :=
  match handshake_response Base64.encode received [] with
  | Val (b, p) => match builder_finish (M := Empty_set) b p with
                  | Val (r, _, _) => res_head r
                  | _ => ResponseHeadOps.default
                  end
  | _ => ResponseHeadOps.default
  end.

Definition response_bytes : list Z :=
  match codec_encode server_codec (Item (answer, BS_Empty)) [] DateService.new with
  | Val (_, _, out, _) => out
  | _ => []
  end.

Definition accepted : ResponseHead :=
  match client_decode (client_new true ConfigOps.new) response_bytes with
  | Val (Ok (Some r), _, _) => r
  | _ => ResponseHeadOps.default
  end.

#[local] Instance value_wf_dec (v : Value) : Decision (ValueOps.wf v).
Proof. unfold ValueOps.wf. apply _. Defined.
#[local] Instance map_wf_dec (m : HeaderMap) : Decision (wf m).
Proof. unfold wf. apply _. Defined.

Ltac by_values :=
  let k := fresh "k" in let Hk := fresh "Hk" in
  intros k Hk; repeat (apply elem_of_cons in Hk as [->|Hk]; [vm_compute; reflexivity|]);
  exfalso; exact (not_elem_of_nil _ Hk).

Lemma received_wf : wf (rq_headers received).
Proof. apply (bool_decide_unpack _). vm_compute. exact I. Qed.
Lemma accepted_wf : wf (rs_headers accepted).
Proof. apply (bool_decide_unpack _). vm_compute. exact I. Qed.

Lemma received_get : rq_method received = rq_method sent_head.
Proof. vm_compute. reflexivity. Qed.
Lemma received_upgrade : RequestHeadOps.upgrade received = true.
Proof. vm_compute. reflexivity. Qed.
Lemma received_values :
  same_values [UPGRADE; SEC_WEBSOCKET_VERSION; SEC_WEBSOCKET_KEY] (rq_headers sent_head) (rq_headers received).
Proof. by_values. Qed.
Lemma accepted_status : rs_status accepted = rs_status answer.
Proof. vm_compute. reflexivity. Qed.
Lemma accepted_values :
  same_values [UPGRADE; SEC_WEBSOCKET_ACCEPT] (rs_headers answer) (rs_headers accepted).
Proof. by_values. Qed.
Lemma accepted_connection : hv_inner <$> values (rs_headers accepted) CONNECTION = [bs "upgrade"].
Proof. vm_compute. reflexivity. Qed.

(** What the codecs carry over is what the theorem asks for, so the client's
    check of the decoded answer succeeds. *)
Lemma ws_handshake_agrees_witness :
  verify_handshake received = Val (Ok tt) /\
  verify_response Base64.encode (Base64.encode nonce) accepted = Val (Ok tt).
Proof.
  destruct (ws_handshake_agrees Base64.encode (M := Empty_set) Base64.encode_valid [] (visited (client_headers [])) uri
    (bs "h") nonce []) as (hd & key & p' & Hc & Hm & _ & Hs).
  - reflexivity.
  - reflexivity.
  - vm_compute. lia.
  - assert (Hhd : hd = sent_head) by (unfold sent_head; by rewrite Hc).
    assert (Hkey : key = Base64.encode nonce) by (clear Hs; revert Hc; vm_compute; congruence).
    rewrite Hhd, Hkey in Hs. clear Hc Hm Hhd Hkey.
    destruct (Hs received [] received_wf received_get received_upgrade received_values)
      as (_ & Hv & b & p3 & h & Hr & Hf & _ & Ha).
    split; [exact (Hv eq_refl eq_refl)|].
    assert (Hh : h = answer) by (unfold answer; by rewrite Hr, Hf). rewrite Hh in Ha.
    exact (Ha accepted accepted_wf accepted_status accepted_values accepted_connection).
Defined.

(** A key of 33 bytes is accepted, and answered with nothing. *)
Definition long_key_request : RequestHead :=
  RequestHeadOps.set_upgrade (set_headers RequestHeadOps.default
    (insert (rq_headers received) SEC_WEBSOCKET_KEY (mkHeaderValue (repeat 65 33) false))).

Lemma server_handshake_witness :
  (verify_handshake received = Val (Ok tt) <-> handshake_request received) /\
  verify_handshake long_key_request = Val (Ok tt) /\
  exists b p' h, handshake_response Base64.encode long_key_request [] = Val (b, p') /\
    builder_finish (M := Empty_set) b p' = Val (mkResponse h (RB_Body B_Empty), mkResponseBuilder None None, p') /\
    values (rs_headers h) SEC_WEBSOCKET_ACCEPT = [mkHeaderValue [] false].
Proof.
  split; [apply (server_handshake Base64.encode (M := Empty_set) Base64.encode_valid received [] received_wf)|].
  split; [vm_compute; reflexivity|].
  assert (Hwf : wf (rq_headers long_key_request)) by (by apply wf_insert, received_wf).
  destruct (server_handshake Base64.encode (M := Empty_set) Base64.encode_valid long_key_request [] Hwf) as [_ Hr].
  destruct (Hr (mkHeaderValue (repeat 65 33) false) []) as (b & p' & h & Hb & Hf & _ & _ & _ & Ha);
    [vm_compute; reflexivity|].
  exists b, p', h. split; [exact Hb|]. split; [exact Hf|exact Ha].
Defined.

(** A response rebuilt from the head of the handshake's answer. *)
Lemma builder_from_head_copies_witness :
  match builder_from_head answer (visited (rs_headers answer)) [] with
  | (b, p') => exists h, message_body (M := Empty_set) b tt p'
                         = Val (mkResponse h (RB_Body tt), mkResponseBuilder None None, p') /\
                 values (rs_headers h) UPGRADE = [mkHeaderValue (bs "websocket") false] /\
                 ResponseHeadOps.ctype h = None
  end.
Proof.
  pose proof (builder_from_head_copies (M := Empty_set) answer (visited (rs_headers answer)) tt []) as Hc.
  destruct (builder_from_head answer (visited (rs_headers answer)) []) as [b p'].
  destruct Hc as (h & Hm & _ & _ & _ & _ & Hv & Hct & _); [reflexivity|].
  exists h. split; [exact Hm|]. rewrite Hv. split; [vm_compute; reflexivity|exact Hct].
Defined.
