(* ===== verification/Control.v ===== *)
(** * Control messages

    [h1/control.rs] and [h1/default.rs]: what the dispatcher asks its control
    service, and what the service can answer.  A [ControlAck] has private
    fields, so an answer is made by the methods of the message alone; [answers]
    lists them.  The application's error type is [E]; an [io::Error] is its
    kind. *)
From S2P Require Import Prelude Headers Message Config Errors Payload Decoder Encoder H1Codec Body.

(** [Request]: its head, and the reading end of its payload channel
    ([Payload::H1]), by number. *)
Record Request := mkRequest { r_head : RequestHead; r_payload : option nat }.

Definition request_upgrade (r : Request) : bool :=
  RequestHeadOps.upgrade (r_head r) || bool_decide (rq_method (r_head r) = CONNECT).

Definition request_set_io (r : Request) (io : CurrentIo) : Request :=
  mkRequest (set_io (r_head r) io) (r_payload r).
Definition replace_payload (r : Request) (pl : nat) : Request :=
  mkRequest (r_head r) (Some pl).

Inductive ServiceDisconnectReason :=
| SDR_Shutdown
| SDR_UpgradeHandled
| SDR_UpgradeFailed
| SDR_ExpectFailed
| SDR_PayloadDropped.

Section Control.
Context `{Parsers} {M E : Type}.

(** [trait ResponseError]: the response of an application error. *)
Class ResponseError := error_response : E -> ResponseHead * Body M.

Inductive Reason :=
| Reason_Service (reason : ServiceDisconnectReason)
| Reason_Error (err : E) (pkt : ResponseHead * Body M)
| Reason_ProtocolError (err : ProtocolError)
| Reason_PeerGone (err : option Z)
| Reason_KeepAlive (enabled : bool).

Inductive Control :=
| Control_Connect (id : Z)
| Control_Request (req : Request)
| Control_Upgrade (req : Request) (codec : Codec)
| Control_Expect (req : Request)
| Control_Disconnect (reason : Reason).

Inductive ControlResult :=
| CR_Connect
| CR_Continue (req : Request)
| CR_Expect (req : Request)
| CR_Upgrade (req : Request)
| CR_UpgradeAck (req : Request)
| CR_UpgradeHandled
| CR_Publish (req : Request)
| CR_Response (res : ResponseHead) (body : Body M)
| CR_Error (res : ResponseHead) (body : Body M)
| CR_ProtocolError (res : ResponseHead) (body : Body M)
| CR_UpgradeFailed (res : ResponseHead) (body : Body M)
| CR_ExpectFailed (res : ResponseHead) (body : Body M)
| CR_Stop.

(** ** The messages the dispatcher makes *)
Definition control_err `{ResponseError} (err : E) : Control :=
  Control_Disconnect (Reason_Error err (error_response err)).
Definition control_peer_gone (err : option Z) : Control :=
  Control_Disconnect (Reason_PeerGone err).
Definition control_proto_err (err : ProtocolError) : Control :=
  Control_Disconnect (Reason_ProtocolError err).
Definition control_keepalive (enabled : bool) : Control :=
  Control_Disconnect (Reason_KeepAlive enabled).
Definition control_svc_disconnect (reason : ServiceDisconnectReason) : Control :=
  Control_Disconnect (Reason_Service reason).

(** ** Acknowledgements *)

(** [ProtocolError::error_response] as a response: [Response::BadRequest().into()]
    and the like, a status and an empty body. *)
Definition protocol_error_response (e : ProtocolError) : ResponseHead * Body M :=
  (ResponseHeadOps.new (error_response_status e) HTTP_11, B_Empty).

Definition reason_ack (r : Reason) : ControlResult :=
  match r with
  | Reason_Error _ pkt => CR_Error pkt.1 pkt.2
  | Reason_ProtocolError e => let '(res, body) := protocol_error_response e in CR_ProtocolError res body
  | Reason_PeerGone _ => CR_Stop
  | Reason_KeepAlive _ => CR_Stop
  | Reason_Service _ => CR_Stop
  end.

Definition new_request_ack (r : Request) : ControlResult :=
  if RequestHeadOps.expect (r_head r) then CR_Expect r
  else if request_upgrade r then CR_Upgrade r
  else CR_Publish r.

(** [Upgrade::ack] moves the io into the request; [IoAccess] is the handle that
    gives it away. *)
Definition upgrade_ack (req : Request) (io : nat) : ControlResult :=
  CR_UpgradeAck (request_set_io req (IoAccess io)).

Definition ack (io : nat) (c : Control) : ControlResult :=
  match c with
  | Control_Connect _ => CR_Connect
  | Control_Request req => new_request_ack req
  | Control_Upgrade req _ => upgrade_ack req io
  | Control_Expect req => CR_Continue req
  | Control_Disconnect r => reason_ack r
  end.

(** Everything a control service can answer: [ack], and the methods [fail],
    [fail_with] and [handle] of the messages that have them.  [get_mut] lets it
    change a request before. *)
Inductive answers : Control -> ControlResult -> Prop :=
| ans_connect id : answers (Control_Connect id) CR_Connect
| ans_request req req' : answers (Control_Request req) (new_request_ack req')
| ans_request_fail req res body : answers (Control_Request req) (CR_Response res body)
| ans_upgrade req codec req' io : answers (Control_Upgrade req codec) (upgrade_ack req' io)
| ans_upgrade_handle req codec : answers (Control_Upgrade req codec) CR_UpgradeHandled
| ans_upgrade_fail req codec res body :
    answers (Control_Upgrade req codec) (CR_UpgradeFailed res body)
| ans_expect req : answers (Control_Expect req) (CR_Continue req)
| ans_expect_fail req res body : answers (Control_Expect req) (CR_ExpectFailed res body)
| ans_disconnect r : answers (Control_Disconnect r) (reason_ack r)
| ans_error_fail err pkt res body :
    answers (Control_Disconnect (Reason_Error err pkt)) (CR_Error res body)
| ans_proto_fail err res body :
    answers (Control_Disconnect (Reason_ProtocolError err)) (CR_ProtocolError res body).

(** The default control service acknowledges every message, which is an answer. *)
Lemma default_control_answers io c : answers c (ack io c).
Proof. destruct c; constructor. Qed.
End Control.
Arguments Reason : clear implicits.
Arguments Control {_} M E.
Arguments ControlResult M : clear implicits.
Arguments ResponseError : clear implicits.
