(* ===== verification/HttpService.v ===== *)
(** * The HTTP/1 services

    [H1Service] of [h1/service.rs] and [HttpService] of [service.rs]: the future of a
    connection's [call], with [handle_io] in it, and the future of [shutdown], over the
    [DispatcherConfig] they share.  A future's step is what runs between two awaits;
    what it awaited, the factories' services, the control service's answer and the
    dispatcher's result, comes with the event.  The dispatcher's own steps are those of
    [Dispatcher].  A connection is named by its io, and the io by a number. *)
From S2P Require Import Prelude Headers Message Config Errors Payload Decoder Encoder H1Codec Body Control.

Inductive DispatchError (E : Type) := DispatchError_Service (e : E) | DispatchError_Control.
Arguments DispatchError_Service {E} e.
Arguments DispatchError_Control {E}.

(** Where the future of a [call] is: awaiting the handler's factory, the control
    service's factory (registered already or not), the answer to [Connect], or the
    dispatcher; ended, or dropped by its owner.  The last two keep the connection's
    number when its io is left in the set of those in flight. *)
Inductive CallPhase (E : Type) :=
| P_Handler
| P_Control (reg : option Z)
| P_Connect (id : Z)
| P_Run (id : Z)
| P_Done (kept : option Z) (r : result unit (DispatchError E))
| P_Dropped (kept : option Z).
Arguments P_Handler {E}.
Arguments P_Control {E} reg.
Arguments P_Connect {E} id.
Arguments P_Run {E} id.
Arguments P_Done {E} kept r.
Arguments P_Dropped {E} kept.

(** The future of a [shutdown]: awaiting the message, returned, or dropped. *)
Inductive ShutPhase := Sh_Waiting | Sh_Done | Sh_Dropped.

#[export] Instance ShutPhase_eq_dec : EqDecision ShutPhase.
Proof. solve_decision. Defined.

Record Service (E : Type) := mkService {
  hs_config : DispatcherConfig.t;
  hs_calls : gmap nat (CallPhase E);
  hs_shuts : gmap nat ShutPhase;
  hs_notified : gset nat
}.
Arguments mkService {E} _ _ _ _.
Arguments hs_config {E} _.
Arguments hs_calls {E} _.
Arguments hs_shuts {E} _.
Arguments hs_notified {E} _.

(** Which of the two services. *)
Inductive Kind := K_H1 | K_Http.

Section Service.
Context {M E : Type}.

Definition service_new : Service E := mkService DispatcherConfig.default ∅ ∅ ∅.

Definition set_call (i : nat) (p : CallPhase E) (w : Service E) : Service E :=
  mkService (hs_config w) (<[i := p]> (hs_calls w)) (hs_shuts w) (hs_notified w).
Definition set_shut (j : nat) (s : ShutPhase) (w : Service E) : Service E :=
  mkService (hs_config w) (hs_calls w) (<[j := s]> (hs_shuts w)) (hs_notified w).
Definition set_config (c : DispatcherConfig.t) (w : Service E) : Service E :=
  mkService c (hs_calls w) (hs_shuts w) (hs_notified w).

(** A number for the connection, and its io among those in flight. *)
Definition call_register (i : nat) (w : Service E) : Z * Service E :=
  let '(id, c) := DispatcherConfig.next_id (hs_config w) in
  let '(_, c) := DispatcherConfig.insert_io c i in
  (id, set_config c w).

(** The end of [call], after [handle_io]: the io is removed, and a shutdown told when
    it was the last. *)
Definition call_end (i : nat) (r : result unit (DispatchError E)) (w : Service E) : Service E :=
  let '(inflight, c) := DispatcherConfig.remove_io (hs_config w) i in
  let c := if (inflight =? 0)%nat && DispatcherConfig.is_shutdown c then DispatcherConfig.notify_shutdown c else c in
  set_call i (P_Done None r) (set_config c w).

(** ** [H1Service::call]: both services are made before the connection is registered *)

Definition h1_call_handler (i : nat) (made : bool) (w : Service E) : Service E :=
  set_call i (if made then P_Control None else P_Done None (Err DispatchError_Control)) w.

Definition h1_call_control (i : nat) (made : bool) (w : Service E) : Service E :=
  if made then let '(id, w) := call_register i w in set_call i (P_Connect id) w
  else set_call i (P_Done None (Err DispatchError_Control)) w.

(** ** [HttpService::call]: the control service is made afterwards, and when it cannot
    be, the function returns at once *)

Definition http_call_handler (i : nat) (made : bool) (w : Service E) : Service E :=
  if made then let '(id, w) := call_register i w in set_call i (P_Control (Some id)) w
  else set_call i (P_Done None (Err DispatchError_Control)) w.

Definition http_call_control (i : nat) (id : Z) (made : bool) (w : Service E) : Service E :=
  set_call i (if made then P_Connect id else P_Done (Some id) (Err DispatchError_Control)) w.

(** ** [handle_io] *)

(** The control service has answered [Connect]; another answer is [unreachable!]. *)
Definition handle_connect (i : nat) (id : Z) (ack : result (ControlResult M) Z) (w : Service E) : outcome (Service E) :=
  match ack with
  | Ok CR_Connect => Val (set_call i (P_Run id) w)
  | Ok _ => Panic
  | Err _ => Val (call_end i (Err DispatchError_Control) w)
  end.

Definition handle_run (i : nat) (r : result unit Z) (w : Service E) : Service E :=
  call_end i (match r with Ok _ => Ok tt | Err _ => Err DispatchError_Control end) w.

(** ** [shutdown] *)

(** [wait_shutdown], which takes the receiver, if it is there. *)
Definition shutdown_wait (j inflight : nat) (w : Service E) : Service E :=
  if (inflight =? 0)%nat then set_shut j Sh_Done w
  else
    set_shut j (if DispatcherConfig.dc_rx (hs_config w) then Sh_Waiting else Sh_Done)
      (set_config (DispatcherConfig.wait_shutdown (hs_config w)) w).

(** [DispatcherConfig::shutdown]: the dispatchers in flight are notified. *)
Definition config_shutdown (w : Service E) : nat * Service E :=
  let '(ios, inflight, c) := DispatcherConfig.shutdown (hs_config w) in
  (inflight, mkService c (hs_calls w) (hs_shuts w) (ios ∪ hs_notified w)).

Definition h1_shutdown (j : nat) (w : Service E) : Service E :=
  let '(_, w) := config_shutdown w in
  let '(inflight, w) := config_shutdown w in
  shutdown_wait j inflight w.

Definition http_shutdown (j : nat) (w : Service E) : Service E :=
  let '(inflight, w) := config_shutdown w in shutdown_wait j inflight w.

(** A poll of a shutdown's future, which there is while it is in [Sh_Waiting]: [None]
    while there is no message, and where there is no such future any more. *)
Definition shutdown_poll (j : nat) (w : Service E) : option (Service E) :=
  match hs_shuts w !! j with
  | Some Sh_Waiting => if DispatcherConfig.dc_sent (hs_config w) then Some (set_shut j Sh_Done w) else None
  | _ => None
  end.

(** ** Runs *)

Inductive ServiceEvent :=
| Ev_Accept (i : nat)
| Ev_Handler (i : nat) (made : bool)
| Ev_Control (i : nat) (made : bool)
| Ev_Connect (i : nat) (ack : result (ControlResult M) Z)
| Ev_Dispatched (i : nat) (r : result unit Z)
| Ev_Drop (i : nat)
| Ev_Shutdown (j : nat)
| Ev_Poll (j : nat)
| Ev_DropShutdown (j : nat).

(** What a phase has registered, or left so. *)
Definition registered (p : CallPhase E) : option Z :=
  match p with
  | P_Handler => None
  | P_Control reg => reg
  | P_Connect id | P_Run id => Some id
  | P_Done kept _ | P_Dropped kept => kept
  end.

(** The future is dropped by its owner, in any phase: nothing runs. *)
Definition call_drop (i : nat) (w : Service E) : option (Service E) :=
  match hs_calls w !! i with
  | Some (P_Done _ _ | P_Dropped _) | None => None
  | Some p => Some (set_call i (P_Dropped (registered p)) w)
  end.

(** A step; [Val None] when there is no such step in this state. *)
Definition service_step (kind : Kind) (e : ServiceEvent) (w : Service E) : outcome (option (Service E)) :=
  match e with
  | Ev_Accept i => Val (if bool_decide (hs_calls w !! i = None) then Some (set_call i P_Handler w) else None)
  | Ev_Handler i made =>
      Val match hs_calls w !! i with
          | Some P_Handler => Some (match kind with K_H1 => h1_call_handler | K_Http => http_call_handler end i made w)
          | _ => None
          end
  | Ev_Control i made =>
      Val match hs_calls w !! i, kind with
          | Some (P_Control None), K_H1 => Some (h1_call_control i made w)
          | Some (P_Control (Some id)), K_Http => Some (http_call_control i id made w)
          | _, _ => None
          end
  | Ev_Connect i ack =>
      match hs_calls w !! i with
      | Some (P_Connect id) => w ← handle_connect i id ack w; Val (Some w)
      | _ => Val None
      end
  | Ev_Dispatched i r =>
      Val match hs_calls w !! i with Some (P_Run _) => Some (handle_run i r w) | _ => None end
  | Ev_Drop i => Val (call_drop i w)
  | Ev_Shutdown j =>
      Val (if bool_decide (hs_shuts w !! j = None)
           then Some (match kind with K_H1 => h1_shutdown | K_Http => http_shutdown end j w) else None)
  | Ev_Poll j => Val (shutdown_poll j w)
  | Ev_DropShutdown j =>
      Val (if bool_decide (hs_shuts w !! j = Some Sh_Waiting) then Some (set_shut j Sh_Dropped w) else None)
  end.

Fixpoint service_run (kind : Kind) (es : list ServiceEvent) (w : Service E) : outcome (option (Service E)) :=
  match es with
  | [] => Val (Some w)
  | e :: es =>
      w ← service_step kind e w;
      match w with Some w => service_run kind es w | None => Val None end
  end.
End Service.
Arguments ServiceEvent : clear implicits.
