(* ===== verification/HttpServiceThms.v ===== *)
(** * The services' account of their connections

    Which connections are in flight, what a waiting shutdown waits for, and what it
    does when a connection was left behind. *)
From S2P Require Import Prelude Headers Message Config Errors Payload Decoder Encoder H1Codec Body Control HttpService.

Import DispatcherConfig.

Section Account.
Context {M E : Type}.
Implicit Types (w : Service E) (es : list (ServiceEvent M)).

Lemma service_run_app kind es es' w :
  service_run kind (es ++ es') w
  = (r ← service_run kind es w; match r with Some w => service_run kind es' w | None => Val None end).
Proof.
  revert w. induction es as [|e es IH]; intros w; [done|]. cbn [app service_run].
  destruct (service_step kind e w) as [[w1|]| |]; cbn [mbind outcome_bind]; [apply IH|done..].
Qed.

(** A connection whose future is over or gone, and whose io is still registered. *)
Definition left_behind w (i : nat) : Prop :=
  exists id, hs_calls w !! i = Some (P_Dropped (Some id)) \/ exists r, hs_calls w !! i = Some (P_Done (Some id) r).

(** ** The configuration's own invariant *)

Lemma inv_register c i : inv c -> inv (snd (insert_io (snd (next_id c)) i)).
Proof. apply (inv_run_event c (Enter i)). Qed.

Lemma inv_shutdown c : inv c -> inv (shutdown c).2.
Proof.
  intros (Ht & Hs & Hw & He). unfold shutdown. cbn [snd]. split_and!; cbn; [done|..].
  - intros _. apply is_shutdown_insert.
  - intros _. apply is_shutdown_insert.
  - intros Hx Hy. by apply He.
Qed.

Lemma inv_shutdown_wait (c : t) : inv c -> is_shutdown c = true -> base.size (dc_inflight c) <> 0%nat -> inv (wait_shutdown c).
Proof.
  intros (Ht & Hs & Hw & He) Hd Hn. split_and!; cbn; [done|exact Hs|done|].
  intros _ Hemp. by rewrite Hemp, size_empty in Hn.
Qed.

(** ** The invariant *)

(** The connections registered, by the set of those in flight and the next number. *)
Record Calls (ios : gset nat) (next : Z) (m : gmap nat (CallPhase E)) : Prop := {
  ca_inflight : forall i, i ∈ ios <-> exists p id, m !! i = Some p /\ registered p = Some id;
  ca_number : forall i p id, m !! i = Some p -> registered p = Some id -> id < next;
  ca_numbers : forall i j p q id, m !! i = Some p -> m !! j = Some q ->
    registered p = Some id -> registered q = Some id -> i = j
}.

Lemma calls_same ios next m i p :
  Calls ios next m -> registered p = (m !! i ≫= registered) -> Calls ios next (<[i := p]> m).
Proof.
  intros [H1 H2 H3] Hp.
  assert (Hl : forall j q id, <[i := p]> m !! j = Some q -> registered q = Some id -> exists q', m !! j = Some q' /\ registered q' = Some id).
  { intros j q id Hq Hr. destruct (decide (i = j)) as [<-|Hn].
    - rewrite lookup_insert_eq in Hq. injection Hq as ->. rewrite Hr in Hp. destruct (m !! i) as [q'|]; [|done]. eauto.
    - rewrite lookup_insert_ne in Hq by done. eauto. }
  split.
  - intros j. rewrite H1. split.
    + intros (q & id & Hq & Hr). destruct (decide (i = j)) as [<-|Hn].
      * exists p, id. rewrite lookup_insert_eq, Hp, Hq. done.
      * exists q, id. by rewrite lookup_insert_ne.
    + intros (q & id & Hq & Hr). destruct (Hl j q id Hq Hr) as (q' & ? & ?). eauto.
  - intros j q id Hq Hr. destruct (Hl j q id Hq Hr) as (q' & ? & ?). eauto.
  - intros j k q r id Hq Hr Hq' Hr'. destruct (Hl j q id Hq Hq') as (q1 & ? & ?), (Hl k r id Hr Hr') as (q2 & ? & ?). eauto.
Qed.

Lemma calls_add ios next m i p :
  Calls ios next m -> m !! i ≫= registered = None -> registered p = Some next -> Calls ({[i]} ∪ ios) (next + 1) (<[i := p]> m).
Proof.
  intros [H1 H2 H3] Hn Hp.
  assert (Hl : forall j q id, <[i := p]> m !! j = Some q -> registered q = Some id ->
    (j = i /\ id = next) \/ (j <> i /\ m !! j = Some q)).
  { intros j q id Hq Hr. destruct (decide (i = j)) as [<-|Hd].
    - rewrite lookup_insert_eq in Hq. injection Hq as ->. left. split; congruence.
    - rewrite lookup_insert_ne in Hq by done. auto. }
  split.
  - intros j. rewrite elem_of_union, elem_of_singleton, H1. split.
    + intros [->|(q & id & Hq & Hr)]; [exists p, next; by rewrite lookup_insert_eq|].
      exists q, id. rewrite lookup_insert_ne; [done|]. intros ->. rewrite Hq in Hn. cbn in Hn. congruence.
    + intros (q & id & Hq & Hr). destruct (Hl j q id Hq Hr) as [[-> _]|[_ Hj]]; [by left|right; eauto].
  - intros j q id Hq Hr. destruct (Hl j q id Hq Hr) as [[_ ->]|[_ Hj]]; [lia|]. specialize (H2 _ _ _ Hj Hr). lia.
  - intros j k q r id Hq Hr Hq' Hr'.
    destruct (Hl j q id Hq Hq') as [[-> Hj']|[_ Hj]], (Hl k r id Hr Hr') as [[-> Hk']|[_ Hk]]; [done|..].
    + specialize (H2 _ _ _ Hk Hr'). lia.
    + specialize (H2 _ _ _ Hj Hq'). lia.
    + eauto.
Qed.

Lemma calls_remove ios next m i p : Calls ios next m -> registered p = None -> Calls (ios ∖ {[i]}) next (<[i := p]> m).
Proof.
  intros [H1 H2 H3] Hp.
  assert (Hl : forall j q id, <[i := p]> m !! j = Some q -> registered q = Some id -> j <> i /\ m !! j = Some q).
  { intros j q id Hq Hr. destruct (decide (i = j)) as [<-|Hd].
    - rewrite lookup_insert_eq in Hq. injection Hq as ->. congruence.
    - rewrite lookup_insert_ne in Hq by done. auto. }
  split.
  - intros j. rewrite elem_of_difference, elem_of_singleton, H1. split.
    + intros [(q & id & Hq & Hr) Hj]. exists q, id. by rewrite lookup_insert_ne.
    + intros (q & id & Hq & Hr). destruct (Hl j q id Hq Hr) as [Hj Hm]. eauto.
  - intros j q id Hq Hr. destruct (Hl j q id Hq Hr) as [_ Hm]. eauto.
  - intros j k q r id Hq Hr Hq' Hr'. destruct (Hl j q id Hq Hq') as [_ Hj], (Hl k r id Hr Hr') as [_ Hk]. eauto.
Qed.

(** [es] is the run so far. *)
Record Account (kind : Kind) es w : Prop := {
  ac_run : service_run kind es service_new = Val (Some w);
  ac_config : inv (hs_config w);
  ac_calls : Calls (dc_inflight (hs_config w)) (dc_idx (hs_config w)) (hs_calls w);
  ac_waiting : forall j, hs_shuts w !! j = Some Sh_Waiting -> waiting (hs_config w);
  ac_left : forall i, left_behind w i -> Ev_Drop i ∈ es \/ (kind = K_Http /\ Ev_Control i false ∈ es);
  ac_moment : dc_sent (hs_config w) = true ->
    exists es1 es2 w1, es = es1 ++ es2 /\ service_run kind es1 service_new = Val (Some w1) /\
      is_shutdown (hs_config w1) = true /\ dc_inflight (hs_config w1) = ∅
}.

Lemma account_new kind : Account kind [] service_new.
Proof.
  split; try done; [split|]; cbn.
  - intros i. rewrite elem_of_empty. split; [done|]. by intros (p & id & Hp & _).
  - done.
  - done.
  - intros i (id & [Hi|[r Hi]]); done.
Qed.

(** What is left of a step once its configuration, its calls and its shutdowns are
    accounted for. *)
Lemma account_step kind es w e w' :
  Account kind es w -> service_step kind e w = Val (Some w') ->
  inv (hs_config w') -> Calls (dc_inflight (hs_config w')) (dc_idx (hs_config w')) (hs_calls w') ->
  (forall j, hs_shuts w' !! j = Some Sh_Waiting -> waiting (hs_config w')) ->
  (forall i, left_behind w' i -> left_behind w i \/ e = Ev_Drop i \/ (kind = K_Http /\ e = Ev_Control i false)) ->
  (dc_sent (hs_config w') = true -> dc_sent (hs_config w) = true \/
     (is_shutdown (hs_config w') = true /\ dc_inflight (hs_config w') = ∅)) ->
  Account kind (es ++ [e]) w'.
Proof.
  intros HA He Hc Hm Hw Hl Hs. assert (Hr : service_run kind (es ++ [e]) service_new = Val (Some w')).
  { rewrite service_run_app, (ac_run _ _ _ HA). cbn. by rewrite He. }
  split; try done.
  - intros i Hi. destruct (Hl i Hi) as [Hi'|[->|[-> ->]]]; [|left; set_solver|right; split; [done|set_solver]].
    destruct (ac_left _ _ _ HA i Hi') as [Hd|[Hk Hd]]; [left|right; split; [done|]]; set_solver.
  - intros Hd. destruct (Hs Hd) as [Hd'|[Hd' Hemp]].
    + destruct (ac_moment _ _ _ HA Hd') as (es1 & es2 & w1 & -> & Hrun & Hsd & Hemp).
      exists es1, (es2 ++ [e]), w1. by rewrite <- app_assoc.
    + exists (es ++ [e]), [], w'. by rewrite app_nil_r.
Qed.

(** ** The steps *)

Lemma left_insert w i p c j :
  left_behind (set_call i p (set_config c w)) j ->
  left_behind w j \/ (j = i /\ exists id, p = P_Dropped (Some id) \/ exists r, p = P_Done (Some id) r).
Proof.
  unfold left_behind, set_call, set_config. cbn [hs_calls]. intros (id & H). destruct (decide (i = j)) as [<-|Hn].
  - right. split; [done|]. exists id. rewrite lookup_insert_eq in H. destruct H as [H|[r H]]; injection H as ->; eauto.
  - left. exists id. by rewrite lookup_insert_ne in H.
Qed.

Definition at_rest (p : CallPhase E) : bool :=
  match p with P_Done (Some _) _ | P_Dropped (Some _) => true | _ => false end.

(** A step of one call, which goes on with the configuration [c]. *)
Lemma account_call kind es w e i p c :
  Account kind es w -> service_step kind e w = Val (Some (set_call i p (set_config c w))) ->
  inv c -> Calls (dc_inflight c) (dc_idx c) (<[i := p]> (hs_calls w)) ->
  dc_rx c = dc_rx (hs_config w) ->
  at_rest p = false \/ e = Ev_Drop i \/ (kind = K_Http /\ e = Ev_Control i false) ->
  (dc_sent c = true -> dc_sent (hs_config w) = true \/ (is_shutdown c = true /\ dc_inflight c = ∅)) ->
  Account kind (es ++ [e]) (set_call i p (set_config c w)).
Proof.
  intros HA He Hc Hm Hw Hl Hs. eapply account_step; eauto.
  - intros j Hj. unfold waiting. cbn. rewrite Hw. apply (ac_waiting _ _ _ HA j Hj).
  - intros j Hj. destruct (left_insert _ _ _ _ _ Hj) as [|[-> (id & Hp)]]; [by left|right].
    destruct Hl as [Hl|Hl]; [|done]. by destruct Hp as [->|[r ->]].
Qed.

Lemma set_config_same w : set_config (hs_config w) w = w.
Proof. by destruct w. Qed.

(** A step that leaves the configuration as it is. *)
Lemma account_same kind es w e i p :
  Account kind es w -> service_step kind e w = Val (Some (set_call i p w)) ->
  registered p = (hs_calls w !! i ≫= registered) ->
  at_rest p = false \/ e = Ev_Drop i \/ (kind = K_Http /\ e = Ev_Control i false) ->
  Account kind (es ++ [e]) (set_call i p w).
Proof.
  intros HA He Hp Hl. assert (set_call i p w = set_call i p (set_config (hs_config w) w)) as Heq by (by rewrite set_config_same).
  rewrite Heq in He |- *.
  apply account_call; [done|exact He|apply (ac_config _ _ _ HA)| |done|done|by left].
  apply calls_same; [apply (ac_calls _ _ _ HA)|done].
Qed.

Lemma account_register kind es w e i p :
  Account kind es w ->
  service_step kind e w = Val (Some (let '(id, w) := call_register i w in set_call i (p id) w)) ->
  hs_calls w !! i ≫= registered = None -> (forall id, registered (p id) = Some id) -> (forall id, at_rest (p id) = false) ->
  Account kind (es ++ [e]) (let '(id, w) := call_register i w in set_call i (p id) w).
Proof.
  intros HA He Hn Hp Hl. cbn in *.
  change (Account kind (es ++ [e]) (set_call i (p (dc_idx (hs_config w))) (set_config (snd (insert_io (snd (next_id (hs_config w))) i)) w))).
  apply account_call; [done|exact He| | |done|by left|by left].
  - apply (inv_register (hs_config w) i), (ac_config _ _ _ HA).
  - cbn. apply calls_add; [apply (ac_calls _ _ _ HA)|done|apply Hp].
Qed.

Lemma svc_leave_spec c i :
  let c' := svc_leave c i in
  dc_inflight c' = dc_inflight c ∖ {[i]} /\ dc_idx c' = dc_idx c /\ dc_rx c' = dc_rx c /\ dc_flags c' = dc_flags c /\
  (dc_sent c' = true -> dc_sent c = true \/ (is_shutdown c = true /\ dc_inflight c' = ∅)).
Proof.
  destruct c as [f n s rx tx sent]. unfold svc_leave, remove_io, notify_shutdown, is_shutdown. cbn.
  destruct (base.size (s ∖ {[i]}) =? 0)%nat eqn:Hz, (Flag.contains f SHUTDOWN) eqn:Hd, tx; cbn; split_and!; auto.
  intros _. right. split; [done|]. apply Nat.eqb_eq, size_empty_inv in Hz. set_solver.
Qed.

Lemma account_end kind es w e i r :
  Account kind es w -> service_step kind e w = Val (Some (call_end i r w)) -> Account kind (es ++ [e]) (call_end i r w).
Proof.
  intros HA He. change (call_end i r w) with (set_call i (P_Done None r) (set_config (svc_leave (hs_config w) i) w)) in *.
  destruct (svc_leave_spec (hs_config w) i) as (Hi & Hn & Hx & Hf & Hs).
  apply account_call; [done|exact He| | |exact Hx|by left|].
  - apply inv_leave, (ac_config _ _ _ HA).
  - rewrite Hi, Hn. apply calls_remove; [apply (ac_calls _ _ _ HA)|done].
  - intros Hd. destruct (Hs Hd) as [|[Hd1 Hd2]]; [by left|right]. split; [|done]. unfold is_shutdown in *. by rewrite Hf.
Qed.

(** *** Shutdown *)

Lemma shutdown_twice c : (shutdown (shutdown c).2).2 = (shutdown c).2.
Proof.
  unfold shutdown. cbn. f_equal. unfold Flag.insert. by rewrite <- Z.lor_assoc, Z.lor_diag.
Qed.

Definition shutdown_step (kind : Kind) (j : nat) w : Service E :=
  match kind with K_H1 => h1_shutdown | K_Http => http_shutdown end j w.

Lemma shutdown_shape kind j w :
  exists told, dc_inflight (hs_config w) ⊆ told /\
    shutdown_step kind j w
    = shutdown_wait j (base.size (dc_inflight (hs_config w))) (mkService (shutdown (hs_config w)).2 (hs_calls w) (hs_shuts w) told).
Proof.
  destruct kind; cbn [shutdown_step].
  - eexists. split; [|unfold h1_shutdown, config_shutdown; cbn; by rewrite <- (shutdown_twice (hs_config w)) at 1]. set_solver.
  - eexists. split; [|done]. set_solver.
Qed.

Lemma account_shutdown kind es w j :
  Account kind es w -> hs_shuts w !! j = None -> Account kind (es ++ [Ev_Shutdown j]) (shutdown_step kind j w).
Proof.
  intros HA Hj. destruct (shutdown_shape kind j w) as (told & _ & Hw).
  assert (He : service_step (M := M) kind (Ev_Shutdown j) w = Val (Some (shutdown_step kind j w)))
    by (cbn [service_step]; by rewrite bool_decide_true).
  pose proof (inv_shutdown _ (ac_config _ _ _ HA)) as Hi.
  pose proof (ac_calls _ _ _ HA) as Hc. pose proof (ac_waiting _ _ _ HA) as Hwt.
  assert (Hd : is_shutdown (shutdown (hs_config w)).2 = true) by apply is_shutdown_insert.
  revert He. rewrite Hw. unfold shutdown_wait. destruct (Nat.eqb_spec (base.size (dc_inflight (hs_config w))) 0) as [Hz|Hz]; intros He.
  - apply (account_step _ _ _ _ _ HA He); cbn; [exact Hi|exact Hc| |by left|by left].
    intros k Hk. destruct (decide (j = k)) as [<-|Hn]; [by rewrite lookup_insert_eq in Hk|].
    rewrite lookup_insert_ne in Hk by done. by apply (Hwt k).
  - apply (account_step _ _ _ _ _ HA He); cbn; [by apply inv_shutdown_wait|exact Hc|done|by left|by left].
Qed.

(** A step of a shutdown that is there already. *)
Lemma account_shut kind es w e j s :
  Account kind es w -> service_step kind e w = Val (Some (set_shut j s w)) -> s <> Sh_Waiting ->
  Account kind (es ++ [e]) (set_shut j s w).
Proof.
  intros HA He Hs. apply (account_step _ _ _ _ _ HA He); cbn; [apply (ac_config _ _ _ HA)|apply (ac_calls _ _ _ HA)| |by left|by left].
  intros k Hk. destruct (decide (j = k)) as [<-|Hn]; [rewrite lookup_insert_eq in Hk; congruence|].
  rewrite lookup_insert_ne in Hk by done. by apply (ac_waiting _ _ _ HA k).
Qed.

(** ** Every step *)

Lemma step_account kind es w e w' :
  Account kind es w -> service_step kind e w = Val (Some w') -> Account kind (es ++ [e]) w'.
Proof.
  intros HA He. pose proof He as Hw. destruct e as [i|i made|i made|i ack|i r|i|j|j|j]; cbn [service_step] in Hw.
  - case_bool_decide as Hi; [|done]. injection Hw as <-. apply account_same; [done|exact He|by rewrite Hi|by left].
  - destruct (hs_calls w !! i) as [[]|] eqn:Hi; try done. injection Hw as <-.
    destruct kind, made; unfold h1_call_handler, http_call_handler in *;
      first [apply account_same; [done|exact He|by rewrite Hi|by left]
            |apply account_register; [done|exact He|by rewrite Hi|done|done]].
  - destruct (hs_calls w !! i) as [[|[id|]| | | |]|] eqn:Hi, kind; try done; injection Hw as <-;
      destruct made; unfold h1_call_control, http_call_control in *;
      first [apply account_same; [done|exact He|by rewrite Hi|by auto]
            |apply (account_register _ _ _ _ _ P_Connect); [done|exact He|by rewrite Hi|done|done]].
  - destruct (hs_calls w !! i) as [[]|] eqn:Hi; try done. destruct ack as [[]|]; try done; injection Hw as <-;
      first [apply account_same; [done|exact He|by rewrite Hi|by left] | by apply account_end].
  - destruct (hs_calls w !! i) as [[]|] eqn:Hi; try done. injection Hw as <-. by apply account_end.
  - injection Hw as Hw. unfold call_drop in Hw. destruct (hs_calls w !! i) as [[]|] eqn:Hi; try done; injection Hw as <-;
      (apply account_same; [done|cbn [service_step]; unfold call_drop; by rewrite Hi|by rewrite Hi|by auto]).
  - case_bool_decide as Hj; [|done]. injection Hw as <-. by apply account_shutdown.
  - injection Hw as Hw. unfold shutdown_poll in Hw. destruct (hs_shuts w !! j) as [[]|] eqn:Hj; try done.
    destruct (dc_sent (hs_config w)) eqn:Hs; [|done]. injection Hw as <-.
    apply account_shut; [done|cbn; unfold shutdown_poll; by rewrite Hj, Hs|done].
  - case_bool_decide as Hj; [|done]. injection Hw as <-. by apply account_shut.
Qed.

Lemma run_account kind es es0 w0 w :
  Account kind es0 w0 -> service_run kind es w0 = Val (Some w) -> Account kind (es0 ++ es) w.
Proof.
  revert es0 w0. induction es as [|e es IH]; intros es0 w0 HA Hr; cbn in Hr; [simplify_eq; by rewrite app_nil_r|].
  destruct (service_step kind e w0) as [[w1|]| |] eqn:He; cbn in Hr; try done.
  replace (es0 ++ e :: es) with ((es0 ++ [e]) ++ es) by (by rewrite <- app_assoc). eapply IH; [|exact Hr].
  by eapply step_account.
Qed.

Lemma run_new kind es w : service_run kind es service_new = Val (Some w) -> Account kind es w.
Proof. apply (run_account kind es []). apply account_new. Qed.

(** ** What is over stays so *)

Definition over (p : CallPhase E) : bool := match p with P_Done _ _ | P_Dropped _ => true | _ => false end.

Lemma set_call_other w i p k q c :
  hs_calls w !! i = Some p -> over p = true -> (forall p', hs_calls w !! k = Some p' -> over p' = false) ->
  hs_calls (set_call k q (set_config c w)) !! i = Some p.
Proof. intros Hi Hp Hk. cbn. rewrite lookup_insert_ne; [done|]. intros ->. specialize (Hk _ Hi). congruence. Qed.

Lemma step_over kind (e : ServiceEvent M) w w' i p :
  service_step kind e w = Val (Some w') -> hs_calls w !! i = Some p -> over p = true -> hs_calls w' !! i = Some p.
Proof.
  assert (H : forall k q, (forall p', hs_calls w !! k = Some p' -> over p' = false) ->
    hs_calls w !! i = Some p -> over p = true -> <[k := q]> (hs_calls w) !! i = Some p).
  { intros k q Hk Hi Hp. rewrite lookup_insert_ne; [done|]. intros ->. specialize (Hk _ Hi). congruence. }
  intros Hw Hi Hp. destruct e as [k|k made|k made|k ack|k r|k|k|k|k]; cbn [service_step] in Hw.
  - case_bool_decide as Hk; [|done]. injection Hw as <-. apply H; [|done..]. by intros ? ?; simplify_eq.
  - destruct (hs_calls w !! k) as [[]|] eqn:Hk; try done. injection Hw as <-.
    destruct kind, made; (apply H; [by intros ? ?; simplify_eq|done..]).
  - destruct (hs_calls w !! k) as [[|[id|]| | | |]|] eqn:Hk, kind; try done; injection Hw as <-;
      destruct made; (apply H; [by intros ? ?; simplify_eq|done..]).
  - destruct (hs_calls w !! k) as [[]|] eqn:Hk; try done. destruct ack as [[]|]; try done; injection Hw as <-;
      (apply H; [by intros ? ?; simplify_eq|done..]).
  - destruct (hs_calls w !! k) as [[]|] eqn:Hk; try done. injection Hw as <-. apply H; [by intros ? ?; simplify_eq|done..].
  - injection Hw as Hw. unfold call_drop in Hw. destruct (hs_calls w !! k) as [[]|] eqn:Hk; try done; injection Hw as <-;
      (apply H; [by intros ? ?; simplify_eq|done..]).
  - case_bool_decide as Hk; [|done]. injection Hw as <-. fold (shutdown_step kind k w).
    destruct (shutdown_shape kind k w) as (told & _ & ->). unfold shutdown_wait. by destruct (_ =? _)%nat.
  - injection Hw as Hw. unfold shutdown_poll in Hw. destruct (hs_shuts w !! k) as [[]|]; try done.
    destruct (dc_sent _); [|done]. by injection Hw as <-.
  - case_bool_decide as Hk; [|done]. by injection Hw as <-.
Qed.

Lemma run_over kind (es : list (ServiceEvent M)) w w' i p :
  service_run kind es w = Val (Some w') -> hs_calls w !! i = Some p -> over p = true -> hs_calls w' !! i = Some p.
Proof.
  revert w. induction es as [|e es IH]; intros w Hr Hi Hp; cbn in Hr; [by simplify_eq|].
  destruct (service_step kind e w) as [[w1|]| |] eqn:He; cbn in Hr; try done.
  apply (IH w1); [done| |done]. by eapply step_over.
Qed.

Lemma left_behind_stays kind (es : list (ServiceEvent M)) w w' i :
  service_run kind es w = Val (Some w') -> left_behind w i -> left_behind w' i.
Proof.
  intros Hr (id & H). exists id. destruct H as [H|[r H]]; [left|right; exists r]; by eapply run_over.
Qed.

(** [HttpService] leaves a connection behind whose control service cannot be made. *)
Lemma refused_left_behind es w0 w i :
  service_run K_Http es w0 = Val (Some w) -> Ev_Control i false ∈ es -> left_behind w i.
Proof.
  revert w0. induction es as [|e es IH]; intros w0 Hr Hin; [set_solver|]. cbn in Hr.
  destruct (service_step K_Http e w0) as [[w1|]| |] eqn:He; cbn in Hr; try done.
  apply elem_of_cons in Hin as [<-|Hin]; [|by eapply IH]. apply (left_behind_stays _ _ _ _ _ Hr).
  cbn in He. destruct (hs_calls w0 !! i) as [[|[id|]| | | |]|]; try done. injection He as <-.
  exists id. right. eexists. cbn. apply lookup_insert_eq.
Qed.

(** As long as something is registered nobody is told. *)
Lemma left_behind_in_flight kind es w i : Account kind es w -> left_behind w i -> i ∈ dc_inflight (hs_config w).
Proof.
  intros HA (id & H). apply (ca_inflight _ _ _ (ac_calls _ _ _ HA)). destruct H as [H|[r H]]; by eexists _, id.
Qed.

Lemma step_sent kind (e : ServiceEvent M) w w' :
  service_step kind e w = Val (Some w') -> dc_sent (hs_config w') = true ->
  dc_sent (hs_config w) = true \/ dc_inflight (hs_config w') = ∅.
Proof.
  assert (H : forall k r, dc_sent (hs_config (call_end k r w)) = true ->
    dc_sent (hs_config w) = true \/ dc_inflight (hs_config (call_end k r w)) = ∅).
  { intros k r Hs. destruct (svc_leave_spec (hs_config w) k) as (_ & _ & _ & _ & Hl).
    destruct (Hl Hs) as [|[_ Hi]]; [by left|by right]. }
  intros Hw. destruct e as [k|k made|k made|k ack|k r|k|k|k|k]; cbn [service_step] in Hw.
  - case_bool_decide; [|done]. injection Hw as <-. by left.
  - destruct (hs_calls w !! k) as [[]|]; try done. injection Hw as <-. destruct kind, made; by left.
  - destruct (hs_calls w !! k) as [[|[id|]| | | |]|], kind; try done; injection Hw as <-; destruct made; by left.
  - destruct (hs_calls w !! k) as [[]|]; try done. destruct ack as [[]|]; try done; injection Hw as <-; [by left|apply H].
  - destruct (hs_calls w !! k) as [[]|]; try done. injection Hw as <-. apply H.
  - injection Hw as Hw. unfold call_drop in Hw. destruct (hs_calls w !! k) as [[]|]; try done; injection Hw as <-; by left.
  - case_bool_decide as Hk; [|done]. injection Hw as <-. fold (shutdown_step kind k w).
    destruct (shutdown_shape kind k w) as (told & _ & ->). unfold shutdown_wait. destruct (_ =? _)%nat; by left.
  - injection Hw as Hw. unfold shutdown_poll in Hw. destruct (hs_shuts w !! k) as [[]|]; try done.
    destruct (dc_sent _) eqn:Hs; [|done]. injection Hw as <-. by left.
  - case_bool_decide; [|done]. injection Hw as <-. by left.
Qed.

Lemma not_sent kind es es' w w' i :
  Account kind es w -> service_run kind es' w = Val (Some w') -> left_behind w i -> dc_sent (hs_config w) = false ->
  dc_sent (hs_config w') = false.
Proof.
  revert es w. induction es' as [|e es' IH]; intros es w HA Hr Hl Hs; cbn in Hr; [by simplify_eq|].
  destruct (service_step kind e w) as [[w1|]| |] eqn:He; cbn in Hr; try done.
  pose proof (step_account _ _ _ _ _ HA He) as HA1.
  assert (Hl1 : left_behind w1 i) by (apply (left_behind_stays kind [e] w); [cbn; by rewrite He|done]).
  apply (IH (es ++ [e]) w1 HA1 Hr Hl1). apply not_true_iff_false. intros Hs1.
  destruct (step_sent _ _ _ _ He Hs1) as [|Hemp]; [congruence|].
  pose proof (left_behind_in_flight _ _ _ _ HA1 Hl1). set_solver.
Qed.

(** C8. What a shutdown waits for.  In every interleaving of connections, factories,
    control services, dispatchers and shutdowns: the connections in flight are those
    whose future is between its registration and its end, with a number of their own,
    and those left behind; a shutdown that waits goes on waiting only while something
    is in flight, and goes on only after a moment, since it was asked for, at which
    nothing was; and a connection is left behind only when its future was dropped, or,
    in [HttpService], when its control service could not be made. *)
Theorem shutdown_waits_for_connections kind es w :
  service_run kind es service_new = Val (Some w) ->
  (forall i, i ∈ dc_inflight (hs_config w) <-> exists p id, hs_calls w !! i = Some p /\ registered p = Some id) /\
  (forall i j p q id, hs_calls w !! i = Some p -> hs_calls w !! j = Some q ->
     registered p = Some id -> registered q = Some id -> i = j) /\
  (forall j, hs_shuts w !! j = Some Sh_Waiting ->
     match shutdown_poll j w with
     | None => exists i, i ∈ dc_inflight (hs_config w)
     | Some _ => exists es1 es2 w1, es = es1 ++ es2 /\ service_run kind es1 service_new = Val (Some w1) /\
         is_shutdown (hs_config w1) = true /\ dc_inflight (hs_config w1) = ∅
     end) /\
  (forall i, left_behind w i -> Ev_Drop i ∈ es \/ (kind = K_Http /\ Ev_Control i false ∈ es)).
Proof.
  intros Hr. pose proof (run_new _ _ _ Hr) as HA. pose proof (ac_calls _ _ _ HA) as Hc. split_and!.
  - apply (ca_inflight _ _ _ Hc).
  - apply (ca_numbers _ _ _ Hc).
  - intros j Hj. unfold shutdown_poll. rewrite Hj. destruct (dc_sent (hs_config w)) eqn:Hs; [by apply (ac_moment _ _ _ HA)|].
    destruct (ac_config _ _ _ HA) as (_ & _ & _ & He). apply set_choose_L. intros Hemp.
    specialize (He (ac_waiting _ _ _ HA j Hj) Hemp). congruence.
  - apply (ac_left _ _ _ HA).
Qed.

(** A shutdown that waits goes on by its message alone, or is dropped. *)
Lemma step_waits kind (e : ServiceEvent M) w w' j :
  service_step kind e w = Val (Some w') -> dc_sent (hs_config w) = false -> e <> Ev_DropShutdown j ->
  hs_shuts w !! j = Some Sh_Waiting -> hs_shuts w' !! j = Some Sh_Waiting.
Proof.
  intros Hw Hs He Hj. destruct e as [k|k made|k made|k ack|k r|k|k|k|k]; cbn [service_step] in Hw.
  - case_bool_decide; [|done]. by injection Hw as <-.
  - destruct (hs_calls w !! k) as [[]|]; try done. injection Hw as <-. by destruct kind, made.
  - destruct (hs_calls w !! k) as [[|[id|]| | | |]|], kind; try done; injection Hw as <-; by destruct made.
  - destruct (hs_calls w !! k) as [[]|]; try done. destruct ack as [[]|]; try done; by injection Hw as <-.
  - destruct (hs_calls w !! k) as [[]|]; try done. by injection Hw as <-.
  - injection Hw as Hw. unfold call_drop in Hw. destruct (hs_calls w !! k) as [[]|]; try done; by injection Hw as <-.
  - case_bool_decide as Hk; [|done]. injection Hw as <-. fold (shutdown_step kind k w).
    destruct (shutdown_shape kind k w) as (told & _ & ->). assert (k <> j) by congruence.
    unfold shutdown_wait. destruct (_ =? _)%nat; cbn; by rewrite lookup_insert_ne.
  - injection Hw as Hw. unfold shutdown_poll in Hw. rewrite Hs in Hw. by destruct (hs_shuts w !! k) as [[]|].
  - case_bool_decide; [|done]. injection Hw as <-. cbn. rewrite lookup_insert_ne; congruence.
Qed.

Lemma run_waits kind es es' w w' i j :
  Account kind es w -> service_run kind es' w = Val (Some w') -> left_behind w i -> dc_sent (hs_config w) = false ->
  Ev_DropShutdown j ∉ es' -> hs_shuts w !! j = Some Sh_Waiting -> hs_shuts w' !! j = Some Sh_Waiting.
Proof.
  revert es w. induction es' as [|e es' IH]; intros es w HA Hr Hl Hs Hj Hw; cbn in Hr; [by simplify_eq|].
  destruct (service_step kind e w) as [[w1|]| |] eqn:He; cbn in Hr; try done. apply not_elem_of_cons in Hj as [Hj1 Hj2].
  assert (H1 : service_run kind [e] w = Val (Some w1)) by (cbn; by rewrite He).
  apply (IH (es ++ [e]) w1); [by eapply step_account|done|by eapply left_behind_stays|by eapply not_sent|done|].
  eapply step_waits; [exact He|done|congruence|done].
Qed.

(** C9. What a connection left behind does, when no shutdown was told before.  It is in
    flight for ever, whatever follows.  A shutdown, of either service, that waits goes
    on waiting, unless it is dropped: it never returns.  And one that is asked for
    then waits, if no earlier one took the receiver; only a later one, which finds
    the receiver taken, returns at once.  With [HttpService] every connection whose
    control service could not be made is such a one. *)
Theorem left_behind_blocks_shutdown kind es es' w w' i :
  service_run kind es service_new = Val (Some w) ->
  (kind = K_Http /\ Ev_Control i false ∈ es) \/ left_behind w i ->
  dc_sent (hs_config w) = false -> service_run kind es' w = Val (Some w') ->
  i ∈ dc_inflight (hs_config w') /\
  (forall j, hs_shuts w !! j = Some Sh_Waiting -> Ev_DropShutdown j ∉ es' ->
     hs_shuts w' !! j = Some Sh_Waiting /\ shutdown_poll j w' = None) /\
  (forall j w1, service_step (M := M) kind (Ev_Shutdown j) w' = Val (Some w1) ->
     hs_shuts w1 !! j = Some (if dc_rx (hs_config w') then Sh_Waiting else Sh_Done)).
Proof.
  intros Hr Hl Hs Hr'. pose proof (run_new _ _ _ Hr) as HA.
  assert (Hl' : left_behind w i) by (destruct Hl as [[-> Hin]|]; [by eapply refused_left_behind|done]).
  assert (Hin : i ∈ dc_inflight (hs_config w')).
  { eapply left_behind_in_flight; [by eapply run_account|by eapply left_behind_stays]. }
  split_and!; [exact Hin|..].
  - intros j Hj Hd. pose proof (run_waits _ _ _ _ _ _ j HA Hr' Hl' Hs Hd Hj) as Hw. split; [exact Hw|].
    unfold shutdown_poll. by rewrite Hw, (not_sent _ _ _ _ _ _ HA Hr' Hl' Hs).
  - intros j w1. cbn [service_step]. case_bool_decide; [|done]. intros [= <-]. fold (shutdown_step kind j w').
    destruct (shutdown_shape kind j w') as (told & _ & ->). unfold shutdown_wait.
    destruct (Nat.eqb_spec (base.size (dc_inflight (hs_config w'))) 0) as [Hz|_].
    + apply size_empty_inv in Hz. set_solver.
    + cbn. by rewrite lookup_insert_eq.
Qed.
End Account.

(** ** Two runs *)

Module ServiceRun.
Definition ev : Type := ServiceEvent nat.

(** Two connections, one of which is refused by the control service, and a shutdown
    that waits for the other. *)
Definition quiet : list ev :=
  [Ev_Accept 0; Ev_Handler 0 true; Ev_Control 0 true; Ev_Accept 1; Ev_Handler 1 true; Ev_Connect 0 (Ok (CR_Connect));
   Ev_Control 1 true; Ev_Shutdown 0; Ev_Connect 1 (Err 5); Ev_Dispatched 0 (Ok tt)].

(** The control service of the second cannot be made. *)
Definition refused : list ev :=
  [Ev_Accept 0; Ev_Handler 0 true; Ev_Control 0 true; Ev_Accept 1; Ev_Handler 1 true; Ev_Connect 0 (Ok (CR_Connect));
   Ev_Control 1 false; Ev_Shutdown 0].
Definition go (kind : Kind) (es : list ev) (w : Service nat) : Service nat :=
  match service_run kind es w with Val (Some w) => w | _ => service_new end.

Lemma not_dropped : (Ev_DropShutdown 0 : ev) ∉ [Ev_Dispatched 0 (Ok tt)].
Proof. set_solver. Qed.
Lemma refused_in : (Ev_Control 1 false : ev) ∈ refused.
Proof. unfold refused. set_solver. Qed.
End ServiceRun.

Lemma shutdown_waits_for_connections_witness :
  exists es1 es2 w1, ServiceRun.quiet = es1 ++ es2 /\ service_run (E := nat) K_H1 es1 service_new = Val (Some w1) /\
    is_shutdown (hs_config w1) = true /\ dc_inflight (hs_config w1) = ∅.
Proof.
  apply (proj1 (proj2 (proj2 (shutdown_waits_for_connections K_H1 ServiceRun.quiet
           (ServiceRun.go K_H1 ServiceRun.quiet service_new) ltac:(vm_compute; reflexivity)))) 0%nat ltac:(vm_compute; reflexivity)).
Defined.

(** The shutdown waits; the first connection ends, and it goes on waiting. *)
Lemma left_behind_blocks_shutdown_witness :
  let w := ServiceRun.go K_Http ServiceRun.refused service_new in
  let w' := ServiceRun.go K_Http [Ev_Dispatched 0 (Ok tt)] w in
  hs_shuts w' !! 0%nat = Some Sh_Waiting /\ shutdown_poll 0 w' = None.
Proof.
  apply (proj1 (proj2 (left_behind_blocks_shutdown K_Http ServiceRun.refused [Ev_Dispatched 0 (Ok tt)]
                  (ServiceRun.go K_Http ServiceRun.refused service_new) _ 1
                  ltac:(vm_compute; reflexivity) (or_introl (conj eq_refl ServiceRun.refused_in))
                  ltac:(vm_compute; reflexivity) ltac:(vm_compute; reflexivity))) 0%nat ltac:(vm_compute; reflexivity)
           ServiceRun.not_dropped).
Defined.

(** With [H1Service] the same run ends the wait. *)
Example refused_h1 :
  let w := ServiceRun.go K_H1 (ServiceRun.refused ++ [Ev_Dispatched 0 (Ok tt)]) service_new in
  dc_inflight (hs_config w) = ∅ /\ exists w', shutdown_poll 0 w = Some w'.
Proof. vm_compute. split; [done|eauto]. Qed.
