(* ===== verification/Dispatcher.v ===== *)
(** * The HTTP/1 dispatcher

    [h1/dispatcher.rs]: the state machine that serves one connection.  It sits
    between the io of the connection, the publish service, the control service,
    the sending half of the request payload's channel, and the state shared by
    the service's connections.  All of these are code outside the crate or of
    the application; they are the operations of the class [World] on an abstract
    world, and a future or a channel is a number (the call to the control
    service also holds its message).  The dispatcher itself is
    written in a state monad whose state is the dispatcher's fields, the world,
    and a ghost log of what it did, in order.  A [Context] is not modelled: every
    [poll_] operation may answer [Pending].  A loop whose length is up to the
    world is cut off by [fuel]. *)
From S2P Require Import Prelude Headers Message Config Errors Payload Decoder Encoder H1Codec.
From S2P Require Import Body Control.

Module DspFlags.
Definition DISCONNECT_SENT : Z := 1.
Definition READ_KA_TIMEOUT : Z := 16.
Definition READ_HDRS_TIMEOUT : Z := 32.
Definition READ_PL_TIMEOUT : Z := 64.
End DspFlags.

(** ** What the dispatcher is connected to *)

(** [geario::io::Decoded]: an item, if there is one, the bytes that remain in the
    buffer and the bytes that were consumed. *)
Record Decoded (A : Type) := mkDecoded { dc_item : option A; dc_remains : Z; dc_consumed : Z }.
Arguments mkDecoded {A} _ _ _.
Arguments dc_item {A} _.
Arguments dc_remains {A} _.
Arguments dc_consumed {A} _.

(** [geario::io::RecvError] *)
Inductive RecvError :=
| RE_KeepAlive
| RE_WriteBackpressure
| RE_Decoder (err : DecodeError)
| RE_PeerGone (err : option Z).

(** [geario::io::IoStatusUpdate] *)
Inductive IoStatusUpdate :=
| IOU_KeepAlive
| IOU_WriteBackpressure
| IOU_PeerGone (err : option Z).

(** [bstream::Status] *)
Inductive SndStatus := Snd_Ready | Snd_Dropped | Snd_Eof.

Declare Scope dispatcher_scope.

Section World.
Context `{Parsers} {B M E : Type} `{MessageBody B, MessageBody M} `{ResponseError M E}.

(** [W] is everything outside; [E] is the application's error, a plain error of
    the control service is a number. *)
Class World (W : Type) := {
  svc_call : Request -> W -> nat * W;
  svc_poll : nat -> W -> Poll (result (ResponseHead * ResponseBody B M) E) * W;
  svc_spawn : nat -> W -> W;
  ctl_call : Control M E -> W -> nat * W;
  ctl_poll : Control M E -> nat -> W -> Poll (result (ControlResult M) Z) * W;
  io_recv_request : Codec -> W ->
    outcome (result (Decoded (RequestHead * PayloadType)) RecvError * Codec * W);
  io_recv_payload : PayloadDecoder -> W ->
    result (Decoded PayloadItem) RecvError * PayloadDecoder * W;
  io_encode : CodecMessage (ResponseHead * BodySize) -> Codec -> W ->
    outcome (result unit EncodeError * Codec * W);
  io_encode_slice : list Z -> W -> result unit Z * W;
  io_poll_flush : bool -> W -> Poll (result unit Z) * W;
  io_poll_status_update : W -> Poll IoStatusUpdate * W;
  io_poll_shutdown : W -> Poll (result unit Z) * W;
  io_is_closed : W -> bool;
  io_start_timer : Z -> W -> W;
  io_stop_timer : W -> W;
  io_close : W -> W;
  io_id : W -> nat;
  cfg_is_shutdown : W -> bool;
  bstream_channel : W -> nat * W;
  snd_poll_ready : nat -> W -> Poll SndStatus * W;
  snd_is_closed : nat -> W -> bool;
  snd_feed_data : nat -> list Z -> W -> W;
  snd_feed_eof : nat -> W -> W;
  snd_set_error : nat -> PayloadError -> W -> W
}.
Context {W : Type} `{World W}.

(** ** State *)

Inductive DState :=
| S_CallPublish (fut : nat)
| S_CallControl (c : Control M E) (fut : nat)
| S_ReadRequest
| S_ReadPayload
| S_SendPayload (body : ResponseBody B M)
| S_Stop.

(** [DispatcherInner], without the handles that never change. *)
Record DInner := mkDInner {
  di_flags : Z;
  di_disconnect : option ServiceDisconnectReason;
  di_codec : Codec;
  di_payload : option (PayloadDecoder * nat);
  di_read_remains : Z;
  di_read_consumed : Z;
  di_read_max_timeout : Z
}.

(** The ghost log. *)
Inductive Event :=
| Ev_Recv (h : RequestHead) (pl : PayloadType)
| Ev_Publish (r : Request)
| Ev_Control (c : Control M E)
| Ev_Head (h : ResponseHead) (s : BodySize)
| Ev_Chunk (b : list Z)
| Ev_Eof
| Ev_StartTimer (s : Z)
| Ev_StopTimer
| Ev_Close.

Record DS := mkDS { ds_inner : DInner; ds_world : W; ds_log : list Event }.

(** ** The monad *)

Definition D (A : Type) : Type := DS -> outcome (A * DS).
Definition dret {A} (x : A) : D A := fun s => Val (x, s).
Definition dbind {A C} (m : D A) (f : A -> D C) : D C := fun s =>
  match m s with Val (x, s') => f x s' | Panic => Panic | NoFuel => NoFuel end.
#[local] Notation "x ← y ; z" := (dbind y (fun x => z)) : dispatcher_scope.
#[local] Notation "y ;; z" := (dbind y (fun _ => z)) : dispatcher_scope.
#[local] Open Scope dispatcher_scope.

Definition d_panic {A} : D A := fun _ => Panic.
Definition d_nofuel {A} : D A := fun _ => NoFuel.
Definition get_inner : D DInner := fun s => Val (ds_inner s, s).
Definition put_inner (i : DInner) : D unit := fun s => Val (tt, mkDS i (ds_world s) (ds_log s)).
Definition asks {A} (f : W -> A) : D A := fun s => Val (f (ds_world s), s).
(** An operation of the world. *)
Definition world {A} (f : W -> A * W) : D A := fun s =>
  let '(x, w) := f (ds_world s) in Val (x, mkDS (ds_inner s) w (ds_log s)).
Definition effect (f : W -> W) : D unit := world (fun w => (tt, f w)).
Definition emit (e : Event) : D unit := fun s =>
  Val (tt, mkDS (ds_inner s) (ds_world s) (ds_log s ++ [e])).

(** Assignments to the fields. *)
Definition with_flags (i : DInner) (f : Z) : DInner :=
  mkDInner f (di_disconnect i) (di_codec i) (di_payload i) (di_read_remains i)
    (di_read_consumed i) (di_read_max_timeout i).
Definition with_disconnect (i : DInner) (d : option ServiceDisconnectReason) : DInner :=
  mkDInner (di_flags i) d (di_codec i) (di_payload i) (di_read_remains i)
    (di_read_consumed i) (di_read_max_timeout i).
Definition with_codec (i : DInner) (c : Codec) : DInner :=
  mkDInner (di_flags i) (di_disconnect i) c (di_payload i) (di_read_remains i)
    (di_read_consumed i) (di_read_max_timeout i).
Definition with_payload (i : DInner) (p : option (PayloadDecoder * nat)) : DInner :=
  mkDInner (di_flags i) (di_disconnect i) (di_codec i) p (di_read_remains i)
    (di_read_consumed i) (di_read_max_timeout i).
Definition with_read (i : DInner) (remains consumed max : Z) : DInner :=
  mkDInner (di_flags i) (di_disconnect i) (di_codec i) (di_payload i) remains consumed max.

Definition modify (f : DInner -> DInner) : D unit := i ← get_inner; put_inner (f i).
Definition flags_insert (f : Z) : D unit := modify (fun i => with_flags i (Flag.insert (di_flags i) f)).
Definition flags_remove (f : Z) : D unit := modify (fun i => with_flags i (Flag.remove (di_flags i) f)).
Definition flags_contains (f : Z) : D bool := i ← get_inner; dret (Flag.contains (di_flags i) f).
Definition set_disconnect (r : ServiceDisconnectReason) : D unit :=
  modify (fun i => with_disconnect i (Some r)).

Definition start_timer (s : Z) : D unit := effect (io_start_timer s);; emit (Ev_StartTimer s).
Definition stop_timer : D unit := effect io_stop_timer;; emit Ev_StopTimer.

(** ** Leaving a state *)

Definition publish (req : Request) : D DState :=
  fut ← world (svc_call req); emit (Ev_Publish req);; dret (S_CallPublish fut).

Definition control (c : Control M E) : D DState :=
  fut ← world (ctl_call c); emit (Ev_Control c);; dret (S_CallControl c fut).

Definition ctl_upgrade (req : Request) : D DState :=
  modify (fun i => with_codec i (reset_upgrade (di_codec i)));;
  i ← get_inner;
  match codec_clone (di_codec i) with
  | Val c => control (Control_Upgrade req c)
  | Panic => d_panic
  | NoFuel => d_nofuel
  end.

Definition ctl_disconnect (c : Control M E) : D DState :=
  flags_insert DspFlags.DISCONNECT_SENT;; control c.
Definition ctl_keepalive (enabled : bool) : D DState := ctl_disconnect (control_keepalive enabled).
Definition ctl_error (err : E) : D DState := ctl_disconnect (control_err err).
Definition ctl_proto_err (err : ProtocolError) : D DState := ctl_disconnect (control_proto_err err).
Definition ctl_peer_gone (err : option Z) : D DState := ctl_disconnect (control_peer_gone err).

Definition stop : D DState := stop_timer;; dret S_Stop.

Definition ctl_svc_disconnect (reason : ServiceDisconnectReason) : D DState :=
  sent ← flags_contains DspFlags.DISCONNECT_SENT;
  if sent then stop else ctl_disconnect (control_svc_disconnect reason).

Definition check_disconnect : D (option DState) :=
  i ← get_inner;
  if Flag.contains (di_flags i) DspFlags.DISCONNECT_SENT then st ← stop; dret (Some st)
  else match di_disconnect i with
       | Some reason =>
           modify (fun i => with_disconnect i None);;
           st ← ctl_disconnect (control_svc_disconnect reason); dret (Some st)
       | None => dret None
       end.

(** ** Timers *)

Definition set_payload_error (err : PayloadError) : D unit :=
  i ← get_inner;
  match di_payload i with
  | Some (_, snd) => effect (snd_set_error snd err)
  | None => dret tt
  end.

(** [io::ErrorKind::TimedOut] *)
Definition TIMED_OUT : Z := 110.

(** [handle_timeout]; the difference of the two u32 counters wraps around, as it
    does in a release build, where a build with overflow checks panics. *)
Definition handle_timeout : D (result unit ProtocolError) :=
  i ← get_inner;
  let hdrs := Flag.contains (di_flags i) DspFlags.READ_HDRS_TIMEOUT in
  let pl := Flag.contains (di_flags i) DspFlags.READ_PL_TIMEOUT in
  if negb hdrs && negb pl then dret (Ok tt)
  else
    let cfg := if hdrs then headers_read_rate (c_cfg (di_codec i))
               else payload_read_rate (c_cfg (di_codec i)) in
    match cfg with
    | None => dret (Ok tt)
    | Some cfg =>
        let remains := if hdrs then 0 else di_read_remains i in
        let consumed := if hdrs then di_read_consumed i else 0 in
        put_inner (with_read i remains consumed (di_read_max_timeout i));;
        let total := u32 (remains - consumed) in
        extended ← (if fr_rate cfg <? total then
                      let max := if fr_max_timeout cfg =? 0 then di_read_max_timeout i
                                 else Z.max 0 (di_read_max_timeout i - fr_timeout cfg) in
                      put_inner (with_read i remains consumed max);;
                      if (fr_max_timeout cfg =? 0) || negb (max =? 0)
                      then start_timer (fr_timeout cfg);; dret true
                      else dret false
                    else dret false);
        if (extended : bool) then dret (Ok tt)
        else if pl then
          set_payload_error (PE_Io TIMED_OUT);; dret (Err PErr_SlowPayloadTimeout)
        else dret (Err PErr_SlowRequestTimeout)
    end.

Definition update_hdrs_timer (decoded : Decoded (RequestHead * PayloadType)) : D (option DState) :=
  i ← get_inner;
  let reading := codec_is_reading_hdrs (di_codec i) in
  let hdrs := Flag.contains (di_flags i) DspFlags.READ_HDRS_TIMEOUT in
  match dc_item decoded with
  | Some _ =>
      put_inner (with_read i 0 (di_read_consumed i) (di_read_max_timeout i));;
      flags_remove (Z.lor (Z.lor DspFlags.READ_KA_TIMEOUT DspFlags.READ_HDRS_TIMEOUT)
                      DspFlags.READ_PL_TIMEOUT);;
      dret None
  | None =>
      if hdrs then
        put_inner (with_read i (u32 (dc_remains decoded)) (di_read_consumed i) (di_read_max_timeout i));;
        dret None
      else if (di_read_remains i =? 0) && (dc_remains decoded =? 0) && negb reading then
        if codec_keepalive (di_codec i) then
          if negb (Flag.contains (di_flags i) DspFlags.READ_KA_TIMEOUT) && ka_enabled (c_cfg (di_codec i))
          then flags_insert DspFlags.READ_KA_TIMEOUT;;
               start_timer (keep_alive (c_cfg (di_codec i)));;
               dret None
          else dret None
        else
          effect io_close;; emit Ev_Close;;
          st ← ctl_keepalive false; dret (Some st)
      else
        match headers_read_rate (c_cfg (di_codec i)) with
        | Some cfg =>
            if reading && negb hdrs then
              flags_remove (Z.lor DspFlags.READ_KA_TIMEOUT DspFlags.READ_PL_TIMEOUT);;
              flags_insert DspFlags.READ_HDRS_TIMEOUT;;
              modify (fun i => with_read i (u32 (dc_remains decoded)) 0 (fr_max_timeout cfg));;
              start_timer (fr_timeout cfg);;
              dret None
            else dret None
        | None => dret None
        end
  end.

Definition update_payload_timer (decoded : Decoded PayloadItem) : D unit :=
  i ← get_inner;
  if Flag.contains (di_flags i) DspFlags.READ_PL_TIMEOUT then
    put_inner (with_read i (u32 (dc_remains decoded))
                 (u32 (di_read_consumed i + u32 (dc_consumed decoded))) (di_read_max_timeout i))
  else
    match payload_read_rate (c_cfg (di_codec i)) with
    | Some cfg =>
        flags_insert DspFlags.READ_PL_TIMEOUT;;
        modify (fun i => with_read i (u32 (dc_remains decoded)) (u32 (dc_consumed decoded))
                           (fr_max_timeout cfg));;
        start_timer (fr_timeout cfg)
    | None => dret tt
    end.

(** ** The request's payload *)

(** [Either<ProtocolError, Option<io::Error>>] *)
Definition PayloadFailure : Type := ProtocolError + option Z.

(** The loop has ended by [break]. *)
Definition payload_read (updated : bool) : Poll (result unit PayloadFailure) :=
  if updated then Ready (Ok tt) else Pending.

(** One attempt to decode from the io with the payload's decoder. *)
Definition recv_payload (pd : PayloadDecoder) (snd : nat) : D (result (Decoded PayloadItem) RecvError) :=
  r ← world (fun w => let '(r, pd', w') := io_recv_payload pd w in ((r, pd'), w'));
  modify (fun i => with_payload i (Some (r.2, snd)));;
  dret r.1.

Fixpoint payload_loop (fuel : nat) (updated : bool) : D (Poll (result unit PayloadFailure)) :=
  match fuel with
  | O => d_nofuel
  | S fuel =>
      i ← get_inner;
      match di_payload i with
      | None => d_panic
      | Some (pd, snd) =>
          recv ← recv_payload pd snd;
          match recv with
          | Ok decoded =>
              update_payload_timer decoded;;
              match dc_item decoded with
              | None => dret (payload_read updated)
              | Some (Chunk chunk) => effect (snd_feed_data snd chunk);; payload_loop fuel true
              | Some Eof =>
                  flags_remove DspFlags.READ_PL_TIMEOUT;;
                  effect (snd_feed_eof snd);;
                  modify (fun i => with_payload i None);;
                  dret (payload_read true)
              end
          | Err RE_WriteBackpressure =>
              flush ← world (io_poll_flush false);
              match flush with
              | Ready (Err e) => dret (Ready (Err (inr (Some e))))
              | Ready (Ok _) => payload_loop fuel updated
              | Pending => dret (payload_read updated)
              end
          | Err RE_KeepAlive =>
              t ← handle_timeout;
              match t with
              | Err err => dret (Ready (Err (inl err)))
              | Ok _ => payload_loop fuel updated
              end
          | Err (RE_PeerGone err) =>
              set_payload_error PE_EncodingCorrupted;; dret (Ready (Err (inr err)))
          | Err (RE_Decoder e) =>
              set_payload_error PE_EncodingCorrupted;; dret (Ready (Err (inl (PErr_Decode e))))
          end
      end
  end.

Definition poll_request_payload_inner (fuel : nat) : D (Poll (result unit PayloadFailure)) :=
  i ← get_inner;
  match di_payload i with
  | None => dret (Ready (Ok tt))
  | Some (_, snd) =>
      status ← world (snd_poll_ready snd);
      match status with
      | Ready Snd_Ready => payload_loop fuel false
      | Pending =>
          t ← flags_contains DspFlags.READ_PL_TIMEOUT;
          (if t : bool then flags_remove DspFlags.READ_PL_TIMEOUT;; stop_timer else dret tt);;
          dret Pending
      | Ready (Snd_Dropped | Snd_Eof) =>
          modify (fun i => with_payload i None);;
          set_disconnect SDR_PayloadDropped;;
          dret Pending
      end
  end.

Definition poll_request_payload (fuel : nat) : D (Poll (option DState)) :=
  r ← poll_request_payload_inner fuel;
  match r with
  | Pending => dret Pending
  | Ready (Ok _) => dret (Ready None)
  | Ready (Err (inl e)) => st ← ctl_proto_err e; dret (Ready (Some st))
  | Ready (Err (inr e)) => st ← ctl_peer_gone e; dret (Ready (Some st))
  end.

(** The service is at work: keep the payload going, watch the io. *)
Definition poll_request (fuel : nat) : D (Poll DState) :=
  i ← get_inner;
  match di_payload i with
  | Some _ =>
      r ← poll_request_payload fuel;
      match r with
      | Ready (Some st) => dret (Ready st)
      | Ready None | Pending => dret Pending
      end
  | None =>
      r ← world io_poll_status_update;
      match r with
      | Pending | Ready (IOU_KeepAlive | IOU_WriteBackpressure) => dret Pending
      | Ready (IOU_PeerGone e) => st ← ctl_peer_gone e; dret (Ready st)
      end
  end.

(** ** Reading a request *)

Definition recv_request : D (result (Decoded (RequestHead * PayloadType)) RecvError) := fun s =>
  match io_recv_request (di_codec (ds_inner s)) (ds_world s) with
  | Val (r, c, w) => Val (r, mkDS (with_codec (ds_inner s) c) w (ds_log s))
  | Panic => Panic
  | NoFuel => NoFuel
  end.

(** A request has been decoded: give it the io and its payload's channel. *)
Definition new_request (h : RequestHead) (pl : PayloadType) : D DState :=
  emit (Ev_Recv h pl);;
  io ← asks io_id;
  let req := request_set_io (mkRequest h None) (IoRef io) in
  match pl with
  | PT_None => control (Control_Request req)
  | PT_Payload decoder | PT_Stream decoder =>
      ch ← world bstream_channel;
      modify (fun i => with_payload i (Some (decoder, ch)));;
      control (Control_Request (replace_payload req ch))
  end.

Fixpoint poll_read_request (fuel : nat) : D (Poll DState) :=
  match fuel with
  | O => d_nofuel
  | S fuel =>
      down ← asks cfg_is_shutdown;
      if down : bool then st ← ctl_svc_disconnect SDR_Shutdown; dret (Ready st)
      else
        result ← recv_request;
        match result with
        | Ok decoded =>
            o ← update_hdrs_timer decoded;
            match o with
            | Some st => dret (Ready st)
            | None => match dc_item decoded with
                      | Some (h, pl) => st ← new_request h pl; dret (Ready st)
                      | None => dret Pending
                      end
            end
        | Err RE_WriteBackpressure =>
            flush ← world (io_poll_flush false);
            match flush with
            | Pending => dret Pending
            | Ready (Err err) => st ← ctl_peer_gone (Some err); dret (Ready st)
            | Ready (Ok _) => poll_read_request fuel
            end
        | Err (RE_Decoder err) => st ← ctl_proto_err (PErr_Decode err); dret (Ready st)
        | Err (RE_PeerGone err) => st ← ctl_peer_gone err; dret (Ready st)
        | Err RE_KeepAlive =>
            hdrs ← flags_contains DspFlags.READ_HDRS_TIMEOUT;
            if hdrs : bool then
              t ← handle_timeout;
              match t with
              | Err err => st ← ctl_proto_err err; dret (Ready st)
              | Ok _ => poll_read_request fuel
              end
            else st ← ctl_keepalive true; dret (Ready st)
        end
  end.

(** ** Sending a response *)

Definition encode (item : CodecMessage (ResponseHead * BodySize)) : D (result unit EncodeError) := fun s =>
  match io_encode item (di_codec (ds_inner s)) (ds_world s) with
  | Val (r, c, w) => Val (r, mkDS (with_codec (ds_inner s) c) w (ds_log s))
  | Panic => Panic
  | NoFuel => NoFuel
  end.

(** The response is complete. *)
Definition response_done : D DState :=
  o ← check_disconnect;
  match o with
  | Some st => dret st
  | None => i ← get_inner;
            match di_payload i with
            | Some _ => dret S_ReadPayload
            | None => dret S_ReadRequest
            end
  end.

Definition send_response (msg : ResponseHead) (body : ResponseBody B M) : D DState :=
  i ← get_inner;
  dropped ← match di_payload i with
            | Some (_, snd) => asks (snd_is_closed snd)
            | None => dret false
            end;
  let msg := if dropped : bool then ResponseHeadOps.set_connection_type msg Close else msg in
  closed ← asks io_is_closed;
  if closed : bool then ctl_peer_gone None
  else
    result ← encode (Item (msg, size body));
    match result with
    | Ok _ =>
        emit (Ev_Head msg (size body));;
        match size body with
        | BS_None | BS_Empty => response_done
        | _ => dret (S_SendPayload body)
        end
    | Err err => set_payload_error (PE_Incomplete None);; ctl_proto_err (PErr_Encode err)
    end.

(** The loop of [poll_send_payload]; the body is left where the loop stopped. *)
Fixpoint send_loop (fuel : nat) (body : ResponseBody B M) : D (Poll DState * ResponseBody B M) :=
  match fuel with
  | O => d_nofuel
  | S fuel' =>
      flush ← world (io_poll_flush false);
      match flush with
      | Pending => dret (Pending, body)
      | Ready _ =>
          next ← (fun s => match poll_next_chunk fuel body with
                           | Val r => Val (r, s) | Panic => Panic | NoFuel => NoFuel end);
          let body' := next.2 in
          match next.1 with
          | Pending => dret (Pending, body')
          | Ready (Some (Ok item)) =>
              result ← encode (MChunk (Some item));
              match result with
              | Ok _ => emit (Ev_Chunk item);; send_loop fuel' body'
              | Err err => st ← ctl_proto_err (PErr_Encode err); dret (Ready st, body')
              end
          | Ready None =>
              result ← encode (MChunk None);
              match result with
              | Ok _ => emit Ev_Eof;; st ← response_done; dret (Ready st, body')
              | Err err => st ← ctl_proto_err (PErr_Encode err); dret (Ready st, body')
              end
          | Ready (Some (Err err)) => st ← ctl_proto_err PErr_ResponsePayload; dret (Ready st, body')
          end
      end
  end.

Definition poll_send_payload (fuel : nat) (body : ResponseBody B M) : D (Poll DState * ResponseBody B M) :=
  closed ← asks io_is_closed;
  if closed : bool then st ← ctl_peer_gone None; dret (Ready st, body)
  else
    i ← get_inner;
    match di_disconnect i with
    | None =>
        r ← poll_request_payload fuel;
        match r with
        | Ready (Some _) => set_disconnect SDR_PayloadDropped;; send_loop fuel body
        | Ready None | Pending => send_loop fuel body
        end
    | Some _ => send_loop fuel body
    end.

(** ** [Dispatcher::poll] *)

(** One round of the loop: on to another state, [Pending] in a state, or the end. *)
Inductive Flow :=
| Goto (st : DState)
| Park (st : DState)
| Finish (r : result unit Z).

Definition goto (m : D DState) : D Flow := st ← m; dret (Goto st).

Definition control_result (r : ControlResult M) : D Flow :=
  match r with
  | CR_Publish req => goto (publish req)
  | CR_Response res body | CR_Error res body | CR_ProtocolError res body =>
      goto (send_response res (RB_Other body))
  | CR_Continue req =>
      result ← world (io_encode_slice (bs "HTTP/1.1 100 Continue" ++ CRLF ++ CRLF));
      match result with
      | Err err => goto (ctl_peer_gone (Some err))
      | Ok _ => if request_upgrade req then goto (ctl_upgrade req) else goto (publish req)
      end
  | CR_Expect req => goto (control (Control_Expect req))
  | CR_ExpectFailed res body =>
      set_disconnect SDR_ExpectFailed;; goto (send_response res (RB_Other body))
  | CR_Upgrade req => goto (ctl_upgrade req)
  | CR_UpgradeAck req => set_disconnect SDR_UpgradeHandled;; goto (publish req)
  | CR_UpgradeHandled => goto (ctl_svc_disconnect SDR_UpgradeHandled)
  | CR_UpgradeFailed res body =>
      set_disconnect SDR_UpgradeFailed;; goto (send_response res (RB_Other body))
  | CR_Stop => goto stop
  | CR_Connect => d_panic
  end.

Definition poll_step (fuel : nat) (st : DState) : D Flow :=
  match st with
  | S_CallPublish fut =>
      r ← world (svc_poll fut);
      match r with
      | Ready (Ok (res, body)) => goto (send_response res body)
      | Ready (Err err) => goto (ctl_error err)
      | Pending =>
          r ← poll_request fuel;
          match r with
          | Pending => dret (Park st)
          | Ready st' =>
              i ← get_inner;
              match di_payload i with
              | Some _ => effect (svc_spawn fut);; dret (Goto st')
              | None => dret (Goto st')
              end
          end
      end
  | S_CallControl c fut =>
      r ← world (ctl_poll c fut);
      match r with
      | Ready (Ok result) => control_result result
      | Ready (Err err) => dret (Finish (Err err))
      | Pending => poll_request_payload_inner fuel;; dret (Park st)
      end
  | S_ReadRequest =>
      o ← check_disconnect;
      match o with
      | Some st' => dret (Goto st')
      | None =>
          r ← poll_read_request fuel;
          match r with Ready st' => dret (Goto st') | Pending => dret (Park st) end
      end
  | S_ReadPayload =>
      result ← poll_request_payload fuel;
      o ← check_disconnect;
      match o with
      | Some st' => dret (Goto st')
      | None =>
          match result with
          | Pending => dret (Park st)
          | Ready (Some st') => dret (Goto st')
          | Ready None => dret (Goto S_ReadRequest)
          end
      end
  | S_SendPayload body =>
      r ← poll_send_payload fuel body;
      match r.1 with
      | Ready st' => dret (Goto st')
      | Pending => dret (Park (S_SendPayload r.2))
      end
  | S_Stop =>
      r ← world io_poll_shutdown;
      match r with Ready r => dret (Finish r) | Pending => dret (Park st) end
  end.

(** [poll]: the loop; [n] bounds the rounds. *)
Fixpoint dispatcher_poll (n fuel : nat) (st : DState) : D Flow :=
  match n with
  | O => d_nofuel
  | S n =>
      f ← poll_step fuel st;
      match f with
      | Goto st' => dispatcher_poll n fuel st'
      | Park _ | Finish _ => dret f
      end
  end.

(** [Dispatcher::new] *)
Definition dispatcher_new (id : Z) (cfg : HttpServiceConfig) (w : W) : DState * DS :=
  let codec := codec_new id cfg in
  match headers_read_rate cfg with
  | Some rate =>
      (S_ReadRequest,
       mkDS (mkDInner DspFlags.READ_HDRS_TIMEOUT None codec None 0 0 (fr_max_timeout rate))
         (io_start_timer (fr_timeout rate) w) [Ev_StartTimer (fr_timeout rate)])
  | None => (S_ReadRequest, mkDS (mkDInner 0 None codec None 0 0 0) w [])
  end.

(** The configurations of a connection: rounds of the loop, and in between the
    world may change in any way. *)
Inductive reach : DState -> DS -> Prop :=
| reach_new id cfg w : reach (dispatcher_new id cfg w).1 (dispatcher_new id cfg w).2
| reach_goto fuel st s st' s' : reach st s -> poll_step fuel st s = Val (Goto st', s') -> reach st' s'
| reach_park fuel st s st' s' : reach st s -> poll_step fuel st s = Val (Park st', s') -> reach st' s'
| reach_env st s w : reach st s -> reach st (mkDS (ds_inner s) w (ds_log s)).
End World.
Arguments Event {_} M E.
Arguments DS {_} M E W.
Arguments DState {_} B M E.
Arguments Flow {_} B M E.
Arguments World {_} B M E W.
