(* ===== verification/DispatcherThms.v ===== *)
(** * What the dispatcher does

    The contract of a connection is an automaton on the dispatcher's log,
    [spec_step]: a request is read, the control service is asked, the request is
    published, one response is written, and the next request is read; a
    [Disconnect] message ends this, after which no request is read or published.
    The dispatcher refines it, from every state and in any world whose services
    answer with their own acknowledgements.  The proof is a small weakest
    precondition calculus for the dispatcher's monad. *)
From S2P Require Import Prelude Headers Message Config Errors Payload Decoder Encoder H1Codec.
From S2P Require Import Body Control Dispatcher.

#[local] Notation "x ← y ; z" := (dbind y (fun x => z)) : dispatcher_scope.
#[local] Notation "y ;; z" := (dbind y (fun _ => z)) : dispatcher_scope.
#[local] Open Scope dispatcher_scope.

(** ** The specification *)

Inductive Phase := P_Idle | P_Received | P_Asked | P_Serving | P_Answering | P_Closing.

#[export] Instance Phase_eq_dec : EqDecision Phase.
Proof. solve_decision. Defined.

Section Spec.
Context `{Parsers} {M E : Type}.
Implicit Types (e : Event M E) (ph : Phase).

(** A response of this size has no body to send. *)
Definition bodiless (s : BodySize) : bool :=
  match s with BS_None | BS_Empty => true | _ => false end.

Definition spec_step ph e : option Phase :=
  match e with
  | Ev_StartTimer _ | Ev_StopTimer | Ev_Close => Some ph
  | Ev_Control (Control_Disconnect _) => Some P_Closing
  | Ev_Recv _ _ => match ph with P_Idle => Some P_Received | _ => None end
  | Ev_Control (Control_Request _) => match ph with P_Received => Some P_Asked | _ => None end
  | Ev_Control (Control_Upgrade _ _ | Control_Expect _) =>
      match ph with P_Asked => Some P_Asked | _ => None end
  | Ev_Control (Control_Connect _) => None
  | Ev_Publish _ => match ph with P_Asked => Some P_Serving | _ => None end
  | Ev_Head _ s =>
      match ph with
      | P_Asked | P_Serving => Some (if bodiless s then P_Idle else P_Answering)
      | P_Closing => Some P_Closing
      | _ => None
      end
  | Ev_Chunk _ =>
      match ph with P_Answering => Some P_Answering | P_Closing => Some P_Closing | _ => None end
  | Ev_Eof =>
      match ph with P_Answering => Some P_Idle | P_Closing => Some P_Closing | _ => None end
  end.

Fixpoint spec_run ph (l : list (Event M E)) : option Phase :=
  match l with
  | [] => Some ph
  | e :: l => match spec_step ph e with Some ph' => spec_run ph' l | None => None end
  end.

Lemma spec_run_snoc ph l e :
  spec_run ph (l ++ [e]) = match spec_run ph l with Some ph' => spec_step ph' e | None => None end.
Proof.
  revert ph. induction l as [|e' l IH]; intros ph; simpl; [by destruct (spec_step ph e)|].
  by destruct (spec_step ph e').
Qed.

(** The requests read and the response heads written. *)
Definition is_recv e : bool := match e with Ev_Recv _ _ => true | _ => false end.
Definition is_head e : bool := match e with Ev_Head _ _ => true | _ => false end.
Definition recvs (l : list (Event M E)) : nat := length (filter is_recv l).
Definition heads (l : list (Event M E)) : nat := length (filter is_head l).

(** A request has been read and not yet answered. *)
Definition owed ph : nat :=
  match ph with P_Received | P_Asked | P_Serving => 1 | _ => 0 end.
End Spec.

(** ** Weakest preconditions *)
Section WP.
Context `{Parsers} {B M E : Type} `{MessageBody B, MessageBody M} `{ResponseError M E}.
Context {W : Type} `{!World B M E W}.
Abbreviation St := (DS M E W).

(** [m] ends in [Q] from [s]; [P] is what holds if it panics, [N] if it runs out of
    fuel. *)
Definition wpg (P N : Prop) {A} (m : D A) (Q : A -> St -> Prop) (s : St) : Prop :=
  match m s with Val (x, s') => Q x s' | Panic => P | NoFuel => N end.

Section Rules.
Context {P N : Prop}.
Lemma wp_ret {A} (x : A) Q s : Q x s -> wpg P N (dret x) Q s.
Proof. done. Qed.
Lemma wp_bind {A C} (m : D A) (f : A -> D C) Q s :
  wpg P N m (fun x => wpg P N (f x) Q) s -> wpg P N (x ← m; f x) Q s.
Proof. unfold wpg, dbind. by destruct (m s) as [[x s']| |]. Qed.
Lemma wp_mono {A} (m : D A) (Q1 Q2 : A -> St -> Prop) s :
  wpg P N m Q1 s -> (forall x s', Q1 x s' -> Q2 x s') -> wpg P N m Q2 s.
Proof. unfold wpg. destruct (m s) as [[x s']| |]; auto. Qed.
Lemma wp_get Q s : Q (ds_inner s) s -> wpg P N get_inner Q s.
Proof. done. Qed.
Lemma wp_put i Q s : Q tt (mkDS i (ds_world s) (ds_log s)) -> wpg P N (put_inner i) Q s.
Proof. done. Qed.
Lemma wp_asks {A} (f : W -> A) Q s : Q (f (ds_world s)) s -> wpg P N (asks f) Q s.
Proof. done. Qed.
Lemma wp_world {A} (f : W -> A * W) Q s :
  (forall x w, f (ds_world s) = (x, w) -> Q x (mkDS (ds_inner s) w (ds_log s))) ->
  wpg P N (world f) Q s.
Proof. unfold wpg, world. intros Hq. destruct (f (ds_world s)) as [x w]. auto. Qed.
Lemma wp_emit e Q s :
  Q tt (mkDS (ds_inner s) (ds_world s) (ds_log s ++ [e])) -> wpg P N (emit e) Q s.
Proof. done. Qed.
Lemma wp_modify f Q s :
  Q tt (mkDS (f (ds_inner s)) (ds_world s) (ds_log s)) -> wpg P N (modify f) Q s.
Proof. done. Qed.
End Rules.
Lemma wp_nofuel {P A} (Q : A -> St -> Prop) s : wpg P True d_nofuel Q s.
Proof. done. Qed.
Lemma wp_panic {N A} (Q : A -> St -> Prop) s : wpg True N d_panic Q s.
Proof. done. Qed.
End WP.

(** No panic; running out of fuel is let pass, and shown not to happen in
    [DispatcherLive]. *)
Abbreviation wp := (wpg False True).

(** Run the calculus through the primitive operations. *)
Ltac wp1 :=
  lazymatch goal with
  | |- wpg _ _ (dbind _ _) _ _ => apply wp_bind
  | |- wpg _ _ (dret _) _ _ => apply wp_ret
  | |- wpg _ _ get_inner _ _ => apply wp_get
  | |- wpg _ _ (put_inner _) _ _ => apply wp_put
  | |- wpg _ _ (asks _) _ _ => apply wp_asks
  | |- wpg _ _ (emit _) _ _ => apply wp_emit
  | |- wpg _ _ (modify _) _ _ => apply wp_modify
  | |- wpg _ True d_nofuel _ _ => apply wp_nofuel
  | |- wpg True _ d_panic _ _ => apply wp_panic
  | |- wpg _ _ (effect _) _ _ => unfold effect
  | |- wpg _ _ (world _) _ _ => apply wp_world; intros ? ? _
  | |- wpg _ _ (flags_insert _) _ _ => unfold flags_insert
  | |- wpg _ _ (flags_remove _) _ _ => unfold flags_remove
  | |- wpg _ _ (flags_contains _) _ _ => unfold flags_contains
  | |- wpg _ _ (set_disconnect _) _ _ => unfold set_disconnect
  | |- wpg _ _ (start_timer _) _ _ => unfold start_timer
  | |- wpg _ _ stop_timer _ _ => unfold stop_timer
  end; simpl.
Ltac wps := repeat (wp1).
Ltac split_match := match goal with |- wpg _ _ (if ?b then _ else _) _ _ => destruct b eqn:? end.

(** ** What the refinement relies on *)

(** The decoder still has its box. *)
Definition codec_ready `{Parsers} (c : Codec) : Prop := is_Some (md_inner (c_decoder c)).

(** The body of a response does not panic when it is polled. *)
Class BodyLaws (B : Type) `{MessageBody B} : Prop :=
  next_no_panic fuel (b : B) : poll_next_chunk fuel b <> Panic.

#[export] Instance response_body_laws `{BodyLaws B, BodyLaws M} : BodyLaws (ResponseBody B M).
Proof.
  intros fuel [b|b]; simpl.
  - pose proof (next_no_panic fuel b). by destruct (poll_next_chunk fuel b).
  - destruct b as [| |b|m]; simpl; [done|done|by destruct (bytes_next b)|].
    pose proof (next_no_panic fuel m). by destruct (poll_next_chunk fuel m).
Qed.

(** The control service answers a message with an acknowledgement of that
    message.  Decoding and encoding go through the codec, which decodes as long
    as it has its box, loses it only with a decoder error, and never panics while
    encoding. *)
Class WorldLaws `{World B M E W} : Prop := {
  ctl_poll_answers c fut w r w' : ctl_poll c fut w = (Ready (Ok r), w') -> answers c r;
  recv_request_ready c w : codec_ready c ->
    match io_recv_request c w with
    | Val (r, c', _) => (forall e, r <> Err (RE_Decoder e)) -> codec_ready c'
    | _ => False
    end;
  encode_ready item c w :
    match io_encode item c w with
    | Val (_, c', _) => codec_ready c -> codec_ready c'
    | _ => False
    end
}.

#[local] Arguments size {B _} _ : simpl never.
#[local] Arguments poll_next_chunk {B _} _ _ : simpl never.

(** ** The invariant *)
Section Refinement.
Context `{Parsers} {B M E : Type} `{MessageBody B, MessageBody M} `{ResponseError M E}.
Context {W : Type} `{!World B M E W}.
Abbreviation St := (DS M E W).

Definition phase (s : St) : option Phase := spec_run P_Idle (ds_log s).
Definition disc (s : St) : bool := Flag.contains (di_flags (ds_inner s)) DspFlags.DISCONNECT_SENT.

Definition Inv (ph : Phase) (s : St) : Prop :=
  phase s = Some ph /\ disc s = bool_decide (ph = P_Closing) /\
  (ph <> P_Closing -> codec_ready (di_codec (ds_inner s))).

Definition corresponds (st : DState B M E) (ph : Phase) : Prop :=
  match st, ph with
  | S_CallPublish _, P_Serving
  | S_CallControl (Control_Request _ | Control_Upgrade _ _ | Control_Expect _) _, P_Asked
  | S_CallControl (Control_Disconnect _) _, P_Closing
  | (S_ReadRequest | S_ReadPayload), P_Idle
  | S_SendPayload _, (P_Answering | P_Closing)
  | S_Stop, P_Closing => True
  | _, _ => False
  end.

Definition Sim (st : DState B M E) (s : St) : Prop := exists ph, Inv ph s /\ corresponds st ph.

(** What an operation leaves alone that neither asks, answers nor disconnects. *)
Definition quiet (s s' : St) : Prop :=
  disc s' = disc s /\ (forall ph, phase s = Some ph -> phase s' = Some ph) /\
  di_codec (ds_inner s') = di_codec (ds_inner s).
Definition keeps_payload (s s' : St) : Prop :=
  quiet s s' /\ (is_Some (di_payload (ds_inner s)) -> is_Some (di_payload (ds_inner s'))).

Lemma quiet_refl s : quiet s s.
Proof. done. Qed.
Lemma quiet_trans s1 s2 s3 : quiet s1 s2 -> quiet s2 s3 -> quiet s1 s3.
Proof. intros (? & ? & ?) (? & ? & ?). split_and!; [congruence|auto|congruence]. Qed.
Lemma Inv_quiet ph s s' : Inv ph s -> quiet s s' -> Inv ph s'.
Proof.
  intros (? & ? & ?) (? & ? & Hc). split_and!; [auto|congruence|]. by rewrite Hc.
Qed.

(** A quiet event leaves the phase. *)
Lemma phase_snoc e (l : list (Event M E)) ph :
  spec_run P_Idle l = Some ph -> spec_run P_Idle (l ++ [e]) = spec_step ph e.
Proof. intros Hl. by rewrite spec_run_snoc, Hl. Qed.

Ltac quiet_tac :=
  split_and!; unfold disc, phase; simpl; flags; try done;
  intros; by repeat (erewrite phase_snoc; [|eassumption || (by erewrite phase_snoc; [|eassumption])]).

Lemma set_payload_error_quiet err s : wp (set_payload_error err) (fun _ => keeps_payload s) s.
Proof.
  unfold set_payload_error. wps. destruct (di_payload (ds_inner s)) as [[pd snd]|] eqn:Ep; wps;
    (split; [quiet_tac|by rewrite ?Ep]).
Qed.

Lemma keeps_trans s1 s2 s3 : keeps_payload s1 s2 -> keeps_payload s2 s3 -> keeps_payload s1 s3.
Proof. intros [? ?] [? ?]. split; [by eapply quiet_trans|auto]. Qed.

Tactic Notation "wp_use" uconstr(L) "as" simple_intropattern(P) :=
  eapply wp_mono; [eapply L|cbv beta; intros ? ? P].
Ltac wp_quiet L := eapply wp_mono; [eapply L|cbv beta; intros ? ? ?].

(** Chain the steps of the context; what is left is one assignment. *)
Ltac quiet_end :=
  repeat match goal with Hk : keeps_payload _ _ |- _ => destruct Hk end; simpl in *;
  repeat match goal with
         | Hq : quiet _ _ |- quiet _ _ => eapply quiet_trans; [exact Hq|]; clear Hq
         end;
  solve [auto | quiet_tac].

Lemma handle_timeout_quiet s : wp handle_timeout (fun _ => keeps_payload s) s.
Proof.
  unfold handle_timeout. wps. split_match; [by wps|]. case_match; [|by wps]. wps.
  assert (Hend : forall s', keeps_payload s s' ->
    wp (if Flag.contains (di_flags (ds_inner s)) DspFlags.READ_PL_TIMEOUT
        then set_payload_error (PE_Io TIMED_OUT);; dret (Err PErr_SlowPayloadTimeout)
        else dret (Err PErr_SlowRequestTimeout) : D (result unit ProtocolError))
      (fun _ => keeps_payload s) s').
  { intros s' Hs'. split_match; wps; [|done]. wp_quiet set_payload_error_quiet. wps.
    by eapply keeps_trans. }
  split_match; wps; [split_match; wps|]; first [by apply Hend|split; [quiet_tac|done]].
Qed.

Lemma update_payload_timer_quiet d s : wp (update_payload_timer d) (fun _ => keeps_payload s) s.
Proof.
  unfold update_payload_timer. wps. split_match; wps; [split; [quiet_tac|done]|].
  case_match; wps; [split; [quiet_tac|done]|done].
Qed.

Lemma recv_payload_quiet pd snd s :
  wp (recv_payload pd snd) (fun _ s' => quiet s s' /\ is_Some (di_payload (ds_inner s'))) s.
Proof. unfold recv_payload. wps. done. Qed.

Lemma payload_loop_quiet fuel : forall u s,
  is_Some (di_payload (ds_inner s)) -> wp (payload_loop fuel u) (fun _ => quiet s) s.
Proof.
  induction fuel as [|fuel IH]; intros u s Hp; simpl; [wps|]. wps.
  destruct Hp as [[pd snd] Hp]. rewrite Hp. wps. wp_quiet recv_payload_quiet.
  match goal with Hr : quiet s ?s1 /\ _ |- _ => destruct Hr as [Hq Hs1] end.
  repeat match goal with
  | |- wpg _ _ (match ?x with _ => _ end) _ _ => destruct x
  | |- wpg _ _ (dbind (update_payload_timer _) _) _ _ =>
      wps; wp_quiet update_payload_timer_quiet; wps
  | |- wpg _ _ (dbind (set_payload_error _) _) _ _ => wps; wp_quiet set_payload_error_quiet; wps
  | |- wpg _ _ (dbind handle_timeout _) _ _ => wps; wp_quiet handle_timeout_quiet; wps
  | |- wpg _ _ (dbind _ _) _ _ => wp1; wps
  | |- wpg _ _ (dret _) _ _ => wps
  | |- wpg _ _ (payload_loop _ _) _ _ =>
      eapply wp_mono; [apply IH|intros ? ? ?]
  end.
  all: quiet_end.
Qed.

(** *** Leaving a state *)

Definition Closed (st : DState B M E) (s : St) : Prop := Inv P_Closing s /\ corresponds st P_Closing.

Lemma Closed_Sim st s : Closed st s -> Sim st s.
Proof. intros [??]. by exists P_Closing. Qed.

Lemma spec_disconnect ph (r : Reason M E) : spec_step ph (Ev_Control (Control_Disconnect r)) = Some P_Closing.
Proof. done. Qed.

Lemma ctl_disconnect_spec r s :
  is_Some (phase s) -> wp (ctl_disconnect (Control_Disconnect r)) Closed s.
Proof.
  intros [ph Hp]. unfold ctl_disconnect, control. wps. split; [|done].
  split_and!; [|unfold disc; simpl; by flags|done].
  unfold phase. simpl. rewrite (phase_snoc _ _ ph Hp). apply spec_disconnect.
Qed.

Lemma Inv_phase ph s : Inv ph s -> is_Some (phase s).
Proof. intros (-> & _). eauto. Qed.

Lemma stop_spec s : Inv P_Closing s -> wp stop Closed s.
Proof. intros Hi. unfold stop. wps. split; [|done]. eapply Inv_quiet; [exact Hi|quiet_tac]. Qed.

Lemma check_disconnect_spec ph s :
  Inv ph s ->
  wp check_disconnect (fun o s' => match o with
                                   | Some st => Closed st s'
                                   | None => Inv ph s' /\ ph <> P_Closing
                                   end) s.
Proof.
  intros Hi. pose proof Hi as (_ & Hd & _). unfold check_disconnect. wps.
  change (Flag.contains (di_flags (ds_inner s)) DspFlags.DISCONNECT_SENT) with (disc s).
  rewrite Hd. case_bool_decide as Hph.
  - subst. wps. wp_quiet stop_spec; [done|]. by wps.
  - destruct (di_disconnect (ds_inner s)); wps; [|done].
    wp_quiet ctl_disconnect_spec; [|by wps]. by eapply Inv_phase, Inv_quiet.
Qed.

Lemma ctl_svc_disconnect_spec r ph s : Inv ph s -> wp (ctl_svc_disconnect r) Closed s.
Proof.
  intros Hi. pose proof Hi as (_ & Hd & _). unfold ctl_svc_disconnect. wps.
  change (Flag.contains (di_flags (ds_inner s)) DspFlags.DISCONNECT_SENT) with (disc s).
  rewrite Hd. case_bool_decide as Hph; [subst; by apply stop_spec|].
  apply ctl_disconnect_spec. by eapply Inv_phase.
Qed.

(** *** The request's payload *)

Lemma poll_payload_inner_quiet fuel s : wp (poll_request_payload_inner fuel) (fun _ => quiet s) s.
Proof.
  unfold poll_request_payload_inner. wps.
  destruct (di_payload (ds_inner s)) as [[pd snd]|] eqn:Ep; wps; [|done].
  repeat case_match; wps; try quiet_tac.
  - eapply wp_mono; [apply payload_loop_quiet; simpl; by rewrite Ep|]. done.
  - split_match; wps; quiet_tac.
Qed.

Lemma poll_request_payload_spec ph fuel s :
  Inv ph s ->
  wp (poll_request_payload fuel) (fun r s' => match r with
                                              | Ready (Some st) => Closed st s'
                                              | _ => Inv ph s'
                                              end) s.
Proof.
  intros Hi. unfold poll_request_payload. wps. wp_quiet poll_payload_inner_quiet.
  assert (Hi' : Inv ph s') by by eapply Inv_quiet.
  repeat case_match; wps; try done;
    (wp_quiet ctl_disconnect_spec; [by eapply Inv_phase|by wps]).
Qed.

Lemma poll_request_spec fuel ph s :
  Inv ph s ->
  wp (poll_request fuel) (fun r s' => match r with Ready st => Closed st s' | Pending => Inv ph s' end) s.
Proof.
  intros Hi. unfold poll_request. wps. case_match; wps.
  - wp_quiet poll_request_payload_spec; [done|]. repeat case_match; by wps.
  - repeat case_match; wps; try done.
    wp_quiet ctl_disconnect_spec; [|by wps]. by eapply Inv_phase.
Qed.

(** *** Reading a request *)
Context `{!WorldLaws} `{!BodyLaws B, !BodyLaws M}.

Lemma recv_request_spec ph s :
  Inv ph s -> ph <> P_Closing ->
  wp recv_request (fun r s' => is_Some (phase s') /\
                               ((forall e, r <> Err (RE_Decoder e)) -> Inv ph s')) s.
Proof.
  intros (Hp & Hd & Hc) Hph. unfold wpg, recv_request.
  pose proof (recv_request_ready (di_codec (ds_inner s)) (ds_world s) (Hc Hph)) as Hr.
  destruct (io_recv_request _ _) as [[[r c'] w']| |]; [|done|done].
  split; [by eexists|]. intros Hne. split_and!; auto.
Qed.

Lemma update_hdrs_timer_spec ph d s :
  Inv ph s ->
  wp (update_hdrs_timer d) (fun o s' => match o with Some st => Closed st s' | None => Inv ph s' end) s.
Proof.
  intros Hi. unfold update_hdrs_timer. wps.
  repeat first
    [ split_match | case_match | progress wps
    | match goal with |- wpg _ _ (ctl_keepalive _) _ _ => wp_quiet ctl_disconnect_spec; [|by wps] end ];
    try solve [eapply Inv_quiet; [exact Hi|quiet_tac]].
  eapply Inv_phase, Inv_quiet; [exact Hi|quiet_tac].
Qed.

Lemma new_request_spec h pl s : Inv P_Idle s -> wp (new_request h pl) Sim s.
Proof.
  intros (Hp & Hd & Hc). unfold new_request, control. wps. unfold phase in Hp.
  destruct pl; wps; exists P_Asked; (split; [|done]); split_and!; try done;
    try (intros _; by apply Hc); unfold phase; simpl; by rewrite !spec_run_snoc, Hp.
Qed.

Lemma poll_read_request_spec fuel : forall s,
  Inv P_Idle s ->
  wp (poll_read_request fuel) (fun r s' => match r with Ready st => Sim st s' | Pending => Inv P_Idle s' end) s.
Proof.
  induction fuel as [|fuel IH]; intros s Hi; [done|]. simpl. wps. split_match.
  { wps. wp_quiet ctl_svc_disconnect_spec; [exact Hi|]. wps. by apply Closed_Sim. }
  wps. wp_use recv_request_spec as [Hph Hi']; [exact Hi|done|].
  assert (Hdone : forall r s0, is_Some (phase s0) ->
    wp (st ← ctl_disconnect (Control_Disconnect r); dret (Ready st))
      (fun r0 s1 => match r0 with Ready st => Sim st s1 | Pending => Inv P_Idle s1 end) s0).
  { intros r s0 Hs0. wps. wp_quiet ctl_disconnect_spec; [done|]. wps. by apply Closed_Sim. }
  destruct x as [d|[| |e|e]].
  - assert (Hi2 : Inv P_Idle s') by by apply Hi'.
    wps. wp_quiet update_hdrs_timer_spec; [exact Hi2|].
    destruct x; wps; [by apply Closed_Sim|]. destruct (dc_item d) as [[h pl]|]; wps; [|done].
    wp_quiet new_request_spec; [done|]. by wps.
  - assert (Hi2 : Inv P_Idle s') by by apply Hi'.
    wps. split_match; [|by apply Hdone]. wps. wp_use handle_timeout_quiet as [Hq _].
    assert (Inv P_Idle s'0) by (by eapply Inv_quiet).
    destruct x; [by apply IH|by eapply Hdone, Inv_phase].
  - assert (Hi2 : Inv P_Idle s') by by apply Hi'.
    wps. destruct x as [[]|]; [apply IH; exact Hi2|apply Hdone; exact Hph|by wps].
  - by apply Hdone.
  - by apply Hdone.
Qed.

(** *** Sending a response *)

Lemma encode_spec ph item s : Inv ph s -> wp (Dispatcher.encode item) (fun _ => Inv ph) s.
Proof.
  intros (Hp & Hd & Hc). unfold wpg, Dispatcher.encode.
  pose proof (encode_ready item (di_codec (ds_inner s)) (ds_world s)) as Hr.
  destruct (io_encode _ _ _) as [[[r c'] w']| |]; [|done|done].
  split_and!; auto.
Qed.

Lemma Inv_emit ph ph' e s :
  Inv ph s -> spec_step ph e = Some ph' ->
  (ph = P_Closing <-> ph' = P_Closing) ->
  Inv ph' (mkDS (ds_inner s) (ds_world s) (ds_log s ++ [e])).
Proof.
  intros (Hp & Hd & Hc) He Hph. split_and!.
  - unfold phase in *. simpl. by rewrite spec_run_snoc, Hp.
  - unfold disc in *. simpl. rewrite Hd. by apply bool_decide_ext.
  - intros Hn. apply Hc. by rewrite Hph.
Qed.

Definition after_head (ph : Phase) (sz : BodySize) : Phase :=
  match ph with P_Closing => P_Closing | _ => if bodiless sz then P_Idle else P_Answering end.

Lemma Inv_head ph m sz s :
  Inv ph s -> ph = P_Asked \/ ph = P_Serving \/ ph = P_Closing ->
  Inv (after_head ph sz) (mkDS (ds_inner s) (ds_world s) (ds_log s ++ [Ev_Head m sz])).
Proof.
  intros Hi Hph. eapply Inv_emit; [exact Hi|by destruct Hph as [->|[->| ->]]|].
  destruct Hph as [->|[->| ->]]; simpl; by destruct (bodiless sz).
Qed.

Lemma response_done_spec ph s :
  Inv ph s -> ph = P_Idle \/ ph = P_Closing -> wp response_done Sim s.
Proof.
  intros Hi Hph. unfold response_done. wps. wp_use check_disconnect_spec as Ho; [exact Hi|].
  case_match; wps; [by apply Closed_Sim|]. destruct Ho as [Hi' Hn].
  destruct Hph as [->|]; [|done]. case_match; wps; by exists P_Idle.
Qed.

Lemma send_response_spec ph msg body s :
  Inv ph s -> ph = P_Asked \/ ph = P_Serving \/ ph = P_Closing ->
  wp (send_response msg body) Sim s.
Proof.
  intros Hi Hph. unfold send_response. wps.
  assert (Hrest : forall msg s, Inv ph s ->
    wp (closed ← asks io_is_closed;
        if closed : bool then ctl_peer_gone None
        else result ← Dispatcher.encode (Item (msg, size body));
             match result with
             | Ok _ => emit (Ev_Head msg (size body));;
                       match size body with
                       | BS_None | BS_Empty => response_done
                       | _ => dret (S_SendPayload body)
                       end
             | Err err => set_payload_error (PE_Incomplete None);; ctl_proto_err (PErr_Encode err)
             end) Sim s).
  { clear s Hi. intros m s Hi. wps. split_match.
    { wp_quiet ctl_disconnect_spec; [by eapply Inv_phase|]. by apply Closed_Sim. }
    wps. wp_use encode_spec as Hi'; [exact Hi|]. destruct x as [u|err]; wps.
    - pose proof (Inv_head ph m (size body) s' Hi' Hph) as Hh.
      destruct (bodiless (size body)) eqn:Eb.
      + assert (Hd : wp response_done Sim (mkDS (ds_inner s') (ds_world s')
                       (ds_log s' ++ [Ev_Head m (size body)]))).
        { eapply response_done_spec; [exact Hh|]. unfold after_head. rewrite Eb. destruct ph; auto. }
        by destruct (size body).
      + assert (Hd : Sim (S_SendPayload body) (mkDS (ds_inner s') (ds_world s')
                       (ds_log s' ++ [Ev_Head m (size body)]))).
        { eexists. split; [exact Hh|]. unfold after_head. rewrite Eb. by destruct ph. }
        by destruct (size body).
    - wp_use set_payload_error_quiet as [Hq _].
      wp_quiet ctl_disconnect_spec; [by eapply Inv_phase, Inv_quiet|]. by apply Closed_Sim. }
  destruct (di_payload (ds_inner s)) as [[pd snd]|]; wps; by apply Hrest.
Qed.

(** A disconnect message is on its way. *)
Ltac closing Hi :=
  wps; wp_quiet ctl_disconnect_spec;
  [exact (Inv_phase _ _ Hi)|try wps; by apply Closed_Sim].

Lemma send_loop_spec ph fuel : forall body s,
  Inv ph s -> ph = P_Answering \/ ph = P_Closing ->
  wp (send_loop fuel body)
    (fun r s' => match r.1 with Ready st => Sim st s' | Pending => Inv ph s' end) s.
Proof.
  induction fuel as [|fuel IH]; intros body s Hi Hph; [done|]. cbn [send_loop]. wps.
  destruct x as [_|]; wps; [|done]. unfold wpg at 1. pose proof (next_no_panic (S fuel) body) as Hnp.
  destruct (poll_next_chunk (S fuel) body) as [[r b']| |]; [|done|done]. simpl.
  destruct r as [[[item|err]|]|]; wps; [|by closing Hi| |done].
  - wp_use encode_spec as Hi'; [exact Hi|]. destruct x as [u|e]; [|by closing Hi']. wps.
    apply IH; [|done]. eapply Inv_emit; [exact Hi'| |done]. by destruct Hph as [-> | ->].
  - wp_use encode_spec as Hi'; [exact Hi|]. destruct x as [u|e]; [|by closing Hi']. wps.
    eapply wp_mono; [eapply (response_done_spec (if decide (ph = P_Closing) then P_Closing else P_Idle))|].
    + eapply Inv_emit; [exact Hi'| |]; by destruct Hph as [-> | ->].
    + destruct Hph as [-> | ->]; auto.
    + cbv beta. intros. by wps.
Qed.

Lemma poll_send_payload_spec ph fuel body s :
  Inv ph s -> ph = P_Answering \/ ph = P_Closing ->
  wp (poll_send_payload fuel body)
    (fun r s' => match r.1 with
                 | Ready st => Sim st s'
                 | Pending => Sim (S_SendPayload r.2) s'
                 end) s.
Proof.
  intros Hi Hph. unfold poll_send_payload. wps. split_match.
  { wps. wp_quiet ctl_disconnect_spec; [by eapply Inv_phase|]. wps. by apply Closed_Sim. }
  assert (Hloop : forall ph s, Inv ph s -> ph = P_Answering \/ ph = P_Closing ->
    wp (send_loop fuel body) (fun r s' => match r.1 with
                                          | Ready st => Sim st s'
                                          | Pending => Sim (S_SendPayload r.2) s'
                                          end) s).
  { clear ph s Hi Hph Heqb. intros ph s Hi Hph. wp_use send_loop_spec as Hr; [exact Hi|done|].
    destruct x.1; [done|]. exists ph. split; [done|]. by destruct Hph as [-> | ->]. }
  wps. destruct (di_disconnect (ds_inner s)); [by eapply Hloop|]. wps.
  wp_use poll_request_payload_spec as Hr; [exact Hi|].
  destruct x as [[st|]|]; wps; [|by eapply Hloop..].
  destruct Hr as [Hr _]. eapply Hloop; [|by right]. eapply Inv_quiet; [exact Hr|quiet_tac].
Qed.

(** *** One round of the loop *)

Definition FlowSim (f : Flow B M E) (s : St) : Prop :=
  match f with Goto st | Park st => Sim st s | Finish _ => True end.

Lemma goto_spec (m : D (DState B M E)) s : wp m Sim s -> wp (goto m) FlowSim s.
Proof. intros Hm. unfold goto. wps. by eapply wp_mono; [exact Hm|]. Qed.

Lemma publish_spec r s : Inv P_Asked s -> wp (publish r) Sim s.
Proof.
  intros Hi. unfold publish. wps. exists P_Serving. split; [|done].
  eapply (Inv_emit _ _ _ (mkDS (ds_inner s) w (ds_log s))); [exact Hi|done|done].
Qed.

Lemma control_ask_spec c s :
  Inv P_Asked s -> spec_step P_Asked (Ev_Control c) = Some P_Asked ->
  (forall fut, corresponds (S_CallControl c fut) P_Asked) ->
  wp (control c) Sim s.
Proof.
  intros Hi Hc Hst. unfold control. wps. exists P_Asked. split; [|apply Hst].
  eapply (Inv_emit _ _ _ (mkDS (ds_inner s) w (ds_log s))); [exact Hi|done|done].
Qed.

Lemma ctl_upgrade_spec r s : Inv P_Asked s -> wp (ctl_upgrade r) Sim s.
Proof.
  intros Hi. unfold ctl_upgrade. wps. pose proof Hi as (_ & _ & Hc).
  destruct Hc as [inner Hc]; [done|].
  unfold codec_clone, clone_decoder. cbn. rewrite Hc. cbn.
  apply control_ask_spec; [|done|done].
  destruct Hi as (Hp & Hd & _). split_and!; [done|done|]. intros _. by exists inner.
Qed.

Lemma control_result_spec c r s ph :
  Inv ph s -> corresponds (S_CallControl c 0%nat) ph -> answers c r ->
  wp (control_result r) FlowSim s.
Proof.
  intros Hi Hc Ha.
  assert (Hsend : forall res body s, Inv ph s -> wp (goto (send_response res (RB_Other body))) FlowSim s).
  { clear Hi s. intros res body s Hi. apply goto_spec. eapply send_response_spec; [exact Hi|].
    destruct c, ph; try done; auto. }
  assert (Hask : Inv P_Asked s \/ exists reason, c = Control_Disconnect reason /\ Inv P_Closing s).
  { destruct c, ph; try done; eauto. }
  destruct Ha; try done.
  all: try (destruct Hask as [Hask|(? & ? & ?)]; [|done]).
  - unfold new_request_ack.
    destruct (RequestHeadOps.expect _); [|destruct (request_upgrade req')]; simpl; apply goto_spec.
    + by apply control_ask_spec.
    + by apply ctl_upgrade_spec.
    + by apply publish_spec.
  - simpl. by apply Hsend.
  - simpl. wps. apply goto_spec, publish_spec. by eapply Inv_quiet.
  - simpl. apply goto_spec. wp_quiet ctl_svc_disconnect_spec; [exact Hask|]. by apply Closed_Sim.
  - simpl. wps. by apply Hsend.
  - simpl. wps. destruct x; [split_match|]; apply goto_spec.
    + by apply ctl_upgrade_spec.
    + by apply publish_spec.
    + wp_quiet ctl_disconnect_spec; [by eapply Inv_phase|]. by apply Closed_Sim.
  - simpl. wps. by apply Hsend.
  - destruct Hask as [Hask|(? & _ & Hask)].
    { exfalso. destruct ph; try done. destruct Hi as (Hp & _), Hask as (Hp' & _). congruence. }
    assert (Hstop : wp (goto stop) FlowSim s).
    { apply goto_spec. wp_quiet stop_spec; [done|]. by apply Closed_Sim. }
    destruct r as [| ? [res body]| | |]; simpl; try done; by apply Hsend.
  - simpl. by apply Hsend.
  - simpl. by apply Hsend.
Qed.

Lemma poll_step_spec fuel st s : Sim st s -> wp (poll_step fuel st) FlowSim s.
Proof.
  intros (ph & Hi & Hc). destruct st as [fut|c fut| | |body|]; simpl.
  - destruct ph; try done. wps. destruct x as [[[res body]|err]|]; wps.
    + apply goto_spec. eapply send_response_spec; [exact Hi|auto].
    + apply goto_spec. wp_quiet ctl_disconnect_spec; [by eapply Inv_phase|]. by apply Closed_Sim.
    + wp_use poll_request_spec as Hr; [exact Hi|]. destruct x as [st|]; wps; [|by exists P_Serving].
      destruct (di_payload (ds_inner s')); wps; by apply Closed_Sim.
  - apply wp_bind, wp_world. intros r w Hr. destruct r as [[r|err]|]; wps.
    + eapply (control_result_spec c r); [exact Hi|destruct c, ph; exact Hc|by eapply ctl_poll_answers].
    + done.
    + wp_use poll_payload_inner_quiet as Hq. wps. exists ph. split; [|done]. by eapply Inv_quiet.
  - destruct ph; try done. wps. wp_use check_disconnect_spec as Ho; [exact Hi|].
    destruct x as [st|]; wps; [by apply Closed_Sim|]. destruct Ho as [Ho _].
    wp_use poll_read_request_spec as Hr; [exact Ho|]. destruct x as [st|]; wps; [done|].
    by exists P_Idle.
  - destruct ph; try done. wps. wp_use poll_request_payload_spec as Hr; [exact Hi|]. wps.
    assert (Hi' : Inv P_Idle s' \/ (exists st, x = Ready (Some st)) /\ Inv P_Closing s').
    { destruct x as [[st|]|]; auto. right. split; [eauto|apply Hr]. }
    destruct Hi' as [Hi'|[[st ->] Hi']].
    + wp_use check_disconnect_spec as Ho; [exact Hi'|]. destruct x0 as [st|]; wps; [by apply Closed_Sim|].
      destruct Ho as [Ho _]. destruct x as [[st|]|]; wps; [|by exists P_Idle..].
      destruct Hr as [(Hr & _) _], Hi' as (Hp & _). congruence.
    + wp_use check_disconnect_spec as Ho; [exact Hi'|]. destruct x as [st'|]; wps; [by apply Closed_Sim|].
      by destruct Ho.
  - wps. wp_use poll_send_payload_spec as Hr; [exact Hi|destruct ph; try done; auto|].
    destruct x.1; by wps.
  - destruct ph; try done. wps. destruct x; wps; [done|]. by exists P_Closing.
Qed.

(** ** Reachable configurations *)

Lemma new_sim id cfg w :
  Sim (dispatcher_new id cfg w).1 (dispatcher_new (B := B) (M := M) (E := E) id cfg w).2.
Proof.
  unfold dispatcher_new. destruct (headers_read_rate cfg); exists P_Idle; (split; [|done]);
    split_and!; try done; intros _; by eexists.
Qed.

Lemma reach_sim st s : reach st s -> Sim st s.
Proof.
  induction 1 as [|fuel st s st' s' _ IH Hs|fuel st s st' s' _ IH Hs|st s w _ IH].
  - apply new_sim.
  - pose proof (poll_step_spec fuel st s IH) as Hw. unfold wpg in Hw. by rewrite Hs in Hw.
  - pose proof (poll_step_spec fuel st s IH) as Hw. unfold wpg in Hw. by rewrite Hs in Hw.
  - exact IH.
Qed.

Lemma reach_poll n fuel : forall (st : DState B M E) (s : St) (st' : DState B M E) (s' : St),
  reach st s ->
  dispatcher_poll n fuel st s = Val (Park st', s') -> reach st' s'.
Proof.
  induction n as [|n IH]; intros st s st' s' Hr Hp; [done|]. simpl in Hp. unfold dbind in Hp.
  destruct (poll_step fuel st s) as [[[st1|st1|r] s1]| |] eqn:Es; simplify_eq/=.
  - eapply IH; [|exact Hp]. by eapply reach_goto.
  - unfold dret in Hp. simplify_eq. by eapply reach_park.
Qed.

(** C2.  The dispatcher implements the contract of an HTTP/1 connection.  In every
    configuration it reaches, with services and a peer that behave in any way,
    its log is a run of [spec_step] and its state is the automaton's; and the
    next round does not panic: none of its [unwrap]s, its [unreachable!] and its
    uses of the decoder's box can fail. *)
Theorem dispatcher_refines_spec st s :
  reach st s ->
  (exists ph, spec_run P_Idle (ds_log s) = Some ph /\ corresponds st ph) /\
  forall fuel, poll_step fuel st s <> Panic.
Proof.
  intros Hr. pose proof (reach_sim st s Hr) as Hs. split.
  - destruct Hs as (ph & (Hp & _) & Hc). eauto.
  - intros fuel Hpanic. pose proof (poll_step_spec fuel st s Hs) as Hw. unfold wpg in Hw.
    by rewrite Hpanic in Hw.
Qed.

(** *** What the contract means for the log *)

Definition is_disconnect (e : Event M E) : bool :=
  match e with Ev_Control (Control_Disconnect _) => true | _ => false end.
(** Reading, asking about or publishing a request. *)
Definition is_request (e : Event M E) : bool :=
  match e with
  | Ev_Recv _ _ | Ev_Publish _ => true
  | Ev_Control (Control_Request _ | Control_Expect _ | Control_Upgrade _ _) => true
  | _ => false
  end.

Lemma closing_stays (e : Event M E) : is_request e = true -> spec_step P_Closing e = None.
Proof. destruct e as [| |[| | | |]| | | | | |]; done. Qed.
Lemma closing_step (e : Event M E) ph : spec_step P_Closing e = Some ph -> ph = P_Closing.
Proof. destruct e as [| |[| | | |]| | | | | |]; simpl; congruence. Qed.

Lemma closing_run (l : list (Event M E)) ph :
  spec_run P_Closing l = Some ph -> ph = P_Closing /\ Forall (fun e => is_request e = false) l.
Proof.
  induction l as [|e l IH]; simpl; [naive_solver|]. intros Hr.
  destruct (spec_step P_Closing e) as [ph'|] eqn:Es; [|done].
  apply closing_step in Es as Hph. subst ph'. apply IH in Hr as [-> Hl]. split; [done|].
  constructor; [|done]. destruct (is_request e) eqn:Er; [|done]. by rewrite closing_stays in Es.
Qed.

Lemma spec_run_app ph (l1 l2 : list (Event M E)) ph' :
  spec_run ph (l1 ++ l2) = Some ph' ->
  exists ph1, spec_run ph l1 = Some ph1 /\ spec_run ph1 l2 = Some ph'.
Proof.
  revert ph. induction l1 as [|e l1 IH]; intros ph; simpl; [eauto|].
  destruct (spec_step ph e); [|done]. apply IH.
Qed.

(** A step that stays open keeps the account of requests and responses. *)
Lemma spec_step_account ph (e : Event M E) ph' :
  spec_step ph e = Some ph' -> is_disconnect e = false -> ph <> P_Closing ->
  ph' <> P_Closing /\ (heads [e] + owed ph' = recvs [e] + owed ph)%nat.
Proof.
  intros Hs Hd Hph.
  destruct e as [| |[| | | |]|? []| | | | |], ph; simpl in *; simplify_eq; done.
Qed.

Lemma account_app (l1 l2 : list (Event M E)) :
  heads (l1 ++ l2) = (heads l1 + heads l2)%nat /\ recvs (l1 ++ l2) = (recvs l1 + recvs l2)%nat.
Proof. unfold heads, recvs. by rewrite !filter_app, !length_app. Qed.

Lemma spec_account (l : list (Event M E)) : forall ph ph',
  spec_run ph l = Some ph' -> forallb (fun e => negb (is_disconnect e)) l = true -> ph <> P_Closing ->
  ph' <> P_Closing /\ (heads l + owed ph' = recvs l + owed ph)%nat.
Proof.
  induction l as [|e l IH]; intros ph ph' Hr Hd Hph; simpl in Hr; [by simplify_eq|].
  destruct (spec_step ph e) as [ph1|] eqn:Es; [|done]. simpl in Hd. apply andb_true_iff in Hd as [Hd Hl].
  apply negb_true_iff in Hd. destruct (spec_step_account _ _ _ Es Hd Hph) as [Hn Ha].
  destruct (IH _ _ Hr Hl Hn) as [Hn' Ha']. split; [done|].
  destruct (account_app [e] l) as [Hh Hr']. simpl app in Hh, Hr'. rewrite Hh, Hr'. lia.
Qed.

(** C3.  Requests and responses stay in step.  As long as no [Disconnect] message
    was sent, every request that was read has got exactly one response head, but
    for the last one while a service is at work on it; and after a [Disconnect]
    message no request is read, asked about or published any more. *)
Theorem one_response_per_request st s :
  reach st s ->
  (forallb (fun e => negb (is_disconnect e)) (ds_log s) = true ->
   (heads (ds_log s) + match st with S_CallPublish _ | S_CallControl _ _ => 1 | _ => 0 end
    = recvs (ds_log s))%nat) /\
  forall l1 e l2, ds_log s = l1 ++ e :: l2 -> is_disconnect e = true ->
                  Forall (fun e => is_request e = false) l2.
Proof.
  intros Hr. destruct (reach_sim st s Hr) as (ph & (Hp & Hdisc & _) & Hc). unfold phase in Hp. split.
  - intros Hd. destruct (spec_account _ _ _ Hp Hd) as [Hn Ha]; [done|]. simpl in Ha.
    rewrite Nat.add_0_r in Ha. rewrite <- Ha. f_equal.
    by destruct st as [|[]| | | |], ph.
  - intros l1 e l2 Hl He. rewrite Hl in Hp. apply spec_run_app in Hp as (ph1 & _ & Hp).
    simpl in Hp. destruct (spec_step ph1 e) as [ph2|] eqn:Es; [|done].
    assert (ph2 = P_Closing) as ->.
    { destruct e as [| |[| | | |]| | | | | |]; try done. simpl in Es. congruence. }
    by apply closing_run in Hp as [_ Hp].
Qed.
End Refinement.
