(* ===== verification/DispatcherLive.v ===== *)
(** * The dispatcher's loops end

    A round of [Dispatcher::poll] has three loops whose length is up to the
    world: reading a request, reading its payload, sending a body.  When
    finitely many things are ready at any moment, [WorldProgress], a fuel known
    before the round is enough for it. *)
From S2P Require Import Prelude Headers Message Config Errors Payload Decoder Encoder H1Codec.
From S2P Require Import Body Control Dispatcher DispatcherThms.

#[local] Notation "x ← y ; z" := (dbind y (fun x => z)) : dispatcher_scope.
#[local] Notation "y ;; z" := (dbind y (fun _ => z)) : dispatcher_scope.
#[local] Open Scope dispatcher_scope.
#[local] Arguments size {B _} _ : simpl never.
#[local] Arguments poll_next_chunk {B _} _ _ : simpl never.

(** What is [ready] is used up by what makes a loop go round, and does not grow
    by the dispatcher's other calls on the way to a loop. *)
Class WorldProgress `{World B M E W} := {
  ready : W -> nat;
  recv_request_fuel c w : io_recv_request c w <> NoFuel;
  recv_request_uses c w e c' w' :
    io_recv_request c w = Val (Err e, c', w') -> e = RE_KeepAlive \/ e = RE_WriteBackpressure ->
    (ready w' < ready w)%nat;
  recv_payload_uses pd w r pd' w' :
    io_recv_payload pd w = (r, pd', w') ->
    match r with
    | Ok d => exists chunk, dc_item d = Some (Chunk chunk)
    | Err e => e = RE_KeepAlive \/ e = RE_WriteBackpressure
    end -> (ready w' < ready w)%nat;
  svc_poll_keeps fut w r w' : svc_poll fut w = (r, w') -> (ready w' <= ready w)%nat;
  ctl_poll_keeps c fut w r w' : ctl_poll c fut w = (r, w') -> (ready w' <= ready w)%nat;
  ctl_call_keeps c w r w' : ctl_call c w = (r, w') -> (ready w' <= ready w)%nat;
  snd_poll_ready_keeps ch w r w' : snd_poll_ready ch w = (r, w') -> (ready w' <= ready w)%nat;
  flush_keeps f w r w' : io_poll_flush f w = (r, w') -> (ready w' <= ready w)%nat;
  start_timer_keeps t w : (ready (io_start_timer t w) <= ready w)%nat;
  stop_timer_keeps w : (ready (io_stop_timer w) <= ready w)%nat;
  set_error_keeps ch e w : (ready (snd_set_error ch e w) <= ready w)%nat;
  feed_data_keeps ch b w : (ready (snd_feed_data ch b w) <= ready w)%nat
}.

(** Enough fuel; a panic is excluded elsewhere. *)
Abbreviation fw := (wpg True False).

Section Fuel.
Context `{Parsers} {B M E : Type} `{MessageBody B, MessageBody M} `{ResponseError M E}.
Context {W : Type} `{!World B M E W} `{!WorldLaws} `{!WorldProgress}.
Context `{!BodyProgress B, !BodyProgress M}.
Abbreviation St := (DS M E W).

Definition rdy (s : St) : nat := ready (ds_world s).

(** [m] ends without fuel, and leaves no more ready than before. *)
Definition steady {A} (m : D A) : Prop := forall s : St, fw m (fun _ s' => (rdy s' <= rdy s)%nat) s.
(** [m] ends without fuel. *)
Definition ends {A} (m : D A) : Prop := forall s : St, fw m (fun _ _ => True) s.

Lemma ends_bind {A C} (m : D A) (f : A -> D C) : ends m -> (forall x, ends (f x)) -> ends (dbind m f).
Proof. intros Hm Hf s. apply wp_bind. eapply wp_mono; [apply Hm|]. intros x s' _. apply Hf. Qed.
Lemma steady_bind {A C} (m : D A) (f : A -> D C) :
  steady m -> (forall x, steady (f x)) -> steady (dbind m f).
Proof.
  intros Hm Hf s. apply wp_bind. eapply wp_mono; [apply Hm|]. cbv beta. intros x s' Hs.
  eapply wp_mono; [apply Hf|]. cbv beta. lia.
Qed.
Lemma steady_ends {A} (m : D A) : steady m -> ends m.
Proof. intros Hm s. by eapply wp_mono; [apply Hm|]. Qed.

Lemma steady_ret {A} (x : A) : steady (dret x).
Proof. intros s. by apply wp_ret. Qed.
Lemma steady_get : steady get_inner.
Proof. intros s. exact (le_n _). Qed.
Lemma steady_put i : steady (put_inner i).
Proof. intros s. exact (le_n _). Qed.
Lemma steady_modify f : steady (modify f).
Proof. intros s. exact (le_n _). Qed.
Lemma steady_emit e : steady (emit e).
Proof. intros s. exact (le_n _). Qed.
Lemma steady_asks {A} (f : W -> A) : steady (asks f).
Proof. intros s. exact (le_n _). Qed.
Lemma steady_world {A} (f : W -> A * W) :
  (forall w x w', f w = (x, w') -> (ready w' <= ready w)%nat) -> steady (world f).
Proof. intros Hf s. apply wp_world. intros x w Hw. by apply Hf in Hw. Qed.
Lemma steady_effect (f : W -> W) : (forall w, (ready (f w) <= ready w)%nat) -> steady (effect f).
Proof. intros Hf. apply steady_world. intros w x w' Hw. by simplify_eq. Qed.
Lemma ends_world {A} (f : W -> A * W) : ends (world f).
Proof. intros s. by apply wp_world. Qed.
Lemma ends_effect (f : W -> W) : ends (effect f).
Proof. apply ends_world. Qed.

(** *** The straight-line code *)

(** Decompose a computation into its primitive operations. *)
Ltac steady_tac :=
  repeat match goal with
  | |- steady (dbind _ _) => apply steady_bind; [|intros ?]
  | |- steady (dret _) => apply steady_ret
  | |- steady get_inner => apply steady_get
  | |- steady (put_inner _) => apply steady_put
  | |- steady (modify _) => apply steady_modify
  | |- steady (emit _) => apply steady_emit
  | |- steady (asks _) => apply steady_asks
  | |- steady (effect _) => apply steady_effect; intros ?
  | |- steady (world _) => apply steady_world; intros ? ? ? ?
  | |- steady (flags_insert _) => apply steady_modify
  | |- steady (flags_remove _) => apply steady_modify
  | |- steady (set_disconnect _) => apply steady_modify
  | |- steady (flags_contains _) => unfold flags_contains
  | |- steady (start_timer _) => unfold start_timer
  | |- steady stop_timer => unfold stop_timer
  | |- steady (match ?x with _ => _ end) => destruct x
  end;
  eauto using start_timer_keeps, stop_timer_keeps, set_error_keeps, feed_data_keeps,
    svc_poll_keeps, ctl_poll_keeps, ctl_call_keeps, snd_poll_ready_keeps, flush_keeps.

Lemma set_payload_error_steady e : steady (set_payload_error e).
Proof. unfold set_payload_error. steady_tac. Qed.
Lemma handle_timeout_steady : steady handle_timeout.
Proof. unfold handle_timeout. steady_tac; apply set_payload_error_steady. Qed.
Lemma update_payload_timer_steady d : steady (update_payload_timer d).
Proof. unfold update_payload_timer. steady_tac. Qed.
Lemma control_steady c : steady (control c).
Proof. unfold control. steady_tac. Qed.
Lemma ctl_disconnect_steady c : steady (ctl_disconnect c).
Proof. unfold ctl_disconnect. steady_tac. apply control_steady. Qed.
Lemma stop_steady : steady stop.
Proof. unfold stop. steady_tac. Qed.
Lemma check_disconnect_steady : steady check_disconnect.
Proof. unfold check_disconnect. steady_tac; auto using stop_steady, ctl_disconnect_steady. Qed.

(** Code that ends the round need not keep [ready]. *)
Ltac ends_tac :=
  repeat match goal with
  | |- ends (dbind _ _) => apply ends_bind; [|intros ?]
  | |- ends (effect _) => apply ends_effect
  | |- ends (world _) => apply ends_world
  | |- ends (match ?x with _ => _ end) => destruct x
  | |- ends d_panic => done
  | |- ends (set_payload_error _) => apply steady_ends, set_payload_error_steady
  | |- ends (control _) => apply steady_ends, control_steady
  | |- ends (ctl_disconnect _) => apply steady_ends, ctl_disconnect_steady
  | |- ends (ctl_keepalive _) => apply steady_ends, ctl_disconnect_steady
  | |- ends (ctl_proto_err _) => apply steady_ends, ctl_disconnect_steady
  | |- ends (ctl_peer_gone _) => apply steady_ends, ctl_disconnect_steady
  | |- ends (ctl_error _) => apply steady_ends, ctl_disconnect_steady
  | |- ends stop => apply steady_ends, stop_steady
  | |- ends check_disconnect => apply steady_ends, check_disconnect_steady
  | |- ends _ => solve [apply steady_ends; steady_tac]
  end.

Lemma publish_ends r : ends (publish r).
Proof. unfold publish. ends_tac. Qed.
Lemma update_hdrs_timer_ends d : ends (update_hdrs_timer d).
Proof. unfold update_hdrs_timer. ends_tac. Qed.
Lemma new_request_ends h pl : ends (new_request h pl).
Proof. unfold new_request. ends_tac. Qed.
Lemma ctl_svc_disconnect_ends r : ends (ctl_svc_disconnect r).
Proof. unfold ctl_svc_disconnect. ends_tac. Qed.
Lemma response_done_ends : ends response_done.
Proof. unfold response_done. ends_tac. Qed.
Lemma encode_ends item : ends (Dispatcher.encode item).
Proof.
  intros s. unfold wpg, Dispatcher.encode.
  pose proof (encode_ready item (di_codec (ds_inner s)) (ds_world s)).
  by destruct (io_encode _ _ _) as [[[]]| |].
Qed.
Lemma send_response_ends msg body : ends (send_response msg body).
Proof. unfold send_response. ends_tac; auto using encode_ends, response_done_ends. Qed.

(** *** The loops *)

(** [recv_payload] made progress. *)
Definition uses (r : result (Decoded PayloadItem) RecvError) : Prop :=
  match r with
  | Ok d => exists chunk, dc_item d = Some (Chunk chunk)
  | Err e => e = RE_KeepAlive \/ e = RE_WriteBackpressure
  end.

Lemma recv_payload_fw pd snd s :
  fw (recv_payload pd snd) (fun r s' => uses r -> (rdy s' < rdy s)%nat) s.
Proof.
  unfold recv_payload. apply wp_bind, wp_world. intros [r pd'] w Hw. wps.
  destruct (io_recv_payload pd (ds_world s)) as [[r0 pd0] w0] eqn:Er. simplify_eq.
  by eapply recv_payload_uses.
Qed.

Ltac fw_use L H := eapply wp_mono; [apply L|cbv beta; intros ? ? H].

Lemma payload_loop_fw fuel : forall u s,
  (rdy s < fuel)%nat -> fw (payload_loop fuel u) (fun _ _ => True) s.
Proof.
  induction fuel as [|fuel IH]; intros u s Hf; [lia|]. simpl. wps.
  destruct (di_payload (ds_inner s)) as [[pd snd]|]; [|done]. wps.
  fw_use recv_payload_fw Hu. destruct x as [d|[| |e|e]].
  - wps. fw_use update_payload_timer_steady Ht.
    destruct (dc_item d) as [[chunk|]|] eqn:Ed; [| |by wps].
    + apply wp_bind. fw_use (steady_effect _ (feed_data_keeps snd chunk)) Hs. apply IH.
      assert (rdy s' < rdy s)%nat by (apply Hu; simpl; eauto). lia.
    + wps. done.
  - wps. fw_use handle_timeout_steady Ht. assert (rdy s' < rdy s)%nat by (apply Hu; simpl; auto).
    destruct x; [apply IH; lia|by wps].
  - assert (rdy s' < rdy s)%nat by (apply Hu; simpl; auto).
    apply wp_bind, wp_world. intros f w Hw. apply flush_keeps in Hw.
    destruct f as [[]|]; [|by wps..]. apply IH. unfold rdy in *. simpl. lia.
  - wps. fw_use set_payload_error_steady Ht. by wps.
  - wps. fw_use set_payload_error_steady Ht. by wps.
Qed.

Lemma poll_payload_inner_fw fuel s :
  (rdy s < fuel)%nat -> fw (poll_request_payload_inner fuel) (fun _ _ => True) s.
Proof.
  intros Hf. unfold poll_request_payload_inner. apply wp_bind, wp_get.
  destruct (di_payload (ds_inner s)) as [[pd snd]|]; [|by wps].
  apply wp_bind, wp_world. intros st w Hw. apply snd_poll_ready_keeps in Hw.
  destruct st as [[]|]; [|by wps..|wps; case_match; by wps].
  apply payload_loop_fw. unfold rdy in *. simpl. lia.
Qed.

Lemma poll_request_payload_fw fuel s :
  (rdy s < fuel)%nat -> fw (poll_request_payload fuel) (fun _ _ => True) s.
Proof.
  intros Hf. unfold poll_request_payload. apply wp_bind.
  eapply wp_mono; [by apply poll_payload_inner_fw|]. intros r s' _. revert s'.
  change (ends (match r with
                | Pending => dret Pending
                | Ready (Ok _) => dret (Ready None)
                | Ready (Err (inl e)) => st ← ctl_proto_err e; dret (Ready (Some st))
                | Ready (Err (inr e)) => st ← ctl_peer_gone e; dret (Ready (Some st))
                end : D (Poll (option (DState B M E))))). ends_tac.
Qed.

Lemma poll_request_fw fuel s : (rdy s < fuel)%nat -> fw (poll_request fuel) (fun _ _ => True) s.
Proof.
  intros Hf. unfold poll_request. apply wp_bind, wp_get.
  destruct (di_payload (ds_inner s)).
  - apply wp_bind. eapply wp_mono; [by apply poll_request_payload_fw|]. intros r s' _.
    destruct r as [[]|]; by wps.
  - revert s Hf. assert (Hend : ends (r ← world io_poll_status_update;
      match r with
      | Pending | Ready (IOU_KeepAlive | IOU_WriteBackpressure) => dret Pending
      | Ready (IOU_PeerGone e) => st ← ctl_peer_gone e; dret (Ready st)
      end : D (Poll (DState B M E)))) by ends_tac.
    intros s _. apply Hend.
Qed.

Lemma poll_read_request_fw fuel : forall s,
  (rdy s < fuel)%nat -> fw (poll_read_request fuel) (fun _ _ => True) s.
Proof.
  induction fuel as [|fuel IH]; intros s Hf; [lia|]. simpl. wps.
  assert (Hclose : forall r, ends (st ← ctl_disconnect r; dret (Ready st) : D (Poll (DState B M E))))
    by (intros; ends_tac).
  destruct (cfg_is_shutdown (ds_world s)).
  { wps. eapply wp_mono; [apply ctl_svc_disconnect_ends|]. intros. by wps. }
  apply wp_bind. unfold wpg at 1, recv_request.
  pose proof (recv_request_fuel (di_codec (ds_inner s)) (ds_world s)) as Hn.
  destruct (io_recv_request _ _) as [[[r c'] w']| |] eqn:Er; [|done|done].
  destruct r as [d|[| |e|e]]; cbn [dret].
  - apply wp_bind. eapply wp_mono; [apply update_hdrs_timer_ends|]. cbv beta. intros o s' _.
    destruct o; [by wps|]. destruct (dc_item d) as [[h pl]|]; [|by wps]. apply wp_bind.
    eapply wp_mono; [apply new_request_ends|]. intros. by wps.
  - apply recv_request_uses in Er; [|auto]. wps. split_match; [|apply Hclose].
    apply wp_bind. fw_use handle_timeout_steady Ht. unfold rdy in *. simpl in Ht.
    destruct x; [apply IH; unfold rdy; lia|apply Hclose].
  - apply recv_request_uses in Er; [|auto]. apply wp_bind, wp_world. intros f w Hw.
    apply flush_keeps in Hw. simpl in Hw.
    destruct f as [[]|]; [|apply Hclose|by wps]. apply IH. unfold rdy in *. simpl. lia.
  - apply Hclose.
  - apply Hclose.
Qed.

Lemma send_loop_fw fuel : forall (body : ResponseBody B M) s,
  (body_left body < fuel)%nat -> fw (send_loop fuel body) (fun _ _ => True) s.
Proof.
  induction fuel as [|fuel IH]; intros body s Hf; [lia|]. cbn [send_loop].
  assert (Hclose : forall r b, ends (st ← ctl_disconnect r; dret (Ready st, b)
            : D (Poll (DState B M E) * ResponseBody B M))) by (intros; ends_tac).
  wps. destruct x as [_|]; [|by wps]. wps. unfold wpg at 1.
  pose proof (next_enough (S fuel) body Hf) as Hn.
  destruct (poll_next_chunk (S fuel) body) as [[r b']| |] eqn:Eb; [|done|done]. simpl.
  destruct r as [[[item|err]|]|]; [|apply Hclose| |by wps].
  - apply next_left in Eb. apply wp_bind. eapply wp_mono; [apply encode_ends|]. cbv beta.
    intros r s' _. destruct r; [|apply Hclose]. wps. apply IH. lia.
  - apply wp_bind. eapply wp_mono; [apply encode_ends|]. cbv beta. intros r s' _.
    destruct r; [|apply Hclose]. wps. eapply wp_mono; [apply response_done_ends|]. intros. by wps.
Qed.

Lemma poll_send_payload_fw fuel (body : ResponseBody B M) s :
  (rdy s < fuel)%nat -> (body_left body < fuel)%nat ->
  fw (poll_send_payload fuel body) (fun _ _ => True) s.
Proof.
  intros Hf Hb. unfold poll_send_payload. wps. split_match.
  { wps. eapply wp_mono; [apply ctl_disconnect_steady|]. intros. by wps. }
  wps. destruct (di_disconnect (ds_inner s)); [by apply send_loop_fw|]. wps.
  eapply wp_mono; [by apply poll_request_payload_fw|]. intros r s' _.
  destruct r as [[]|]; wps; by apply send_loop_fw.
Qed.

Lemma ctl_upgrade_ends r : ends (ctl_upgrade r).
Proof.
  intros s. unfold ctl_upgrade. wps. unfold codec_clone, clone_decoder.
  destruct (md_inner _); [|done]. cbn. eapply wp_mono; [apply control_steady|]. done.
Qed.

Lemma control_result_ends r : ends (control_result r : D (Flow B M E)).
Proof.
  assert (Hg : forall m : D (DState B M E), ends m -> ends (goto m)).
  { intros m Hm. unfold goto. apply ends_bind; [done|]. intros. ends_tac. }
  destruct r; simpl; ends_tac; try done; apply Hg;
    auto using publish_ends, send_response_ends, ctl_upgrade_ends, ctl_svc_disconnect_ends,
      steady_ends, stop_steady, control_steady; ends_tac.
Qed.

(** The fuel a round needs. *)
Definition round_fuel (st : DState B M E) (s : St) : nat :=
  match st with
  | S_SendPayload body => S (rdy s + body_left body)
  | _ => S (rdy s)
  end.

Lemma poll_step_fw fuel st s :
  (round_fuel st s <= fuel)%nat -> fw (poll_step fuel st) (fun _ _ => True) s.
Proof.
  intros Hf. destruct st as [fut|c fut| | |body|]; cbn [poll_step]; cbn [round_fuel] in Hf.
  - apply wp_bind, wp_world. intros r w Hw. apply svc_poll_keeps in Hw.
    destruct r as [[[res body]|err]|].
    + unfold goto. apply wp_bind. eapply wp_mono; [apply send_response_ends|]. intros. by wps.
    + unfold goto. apply wp_bind. eapply wp_mono; [apply ctl_disconnect_steady|]. intros. by wps.
    + apply wp_bind. eapply wp_mono; [apply poll_request_fw; unfold rdy in *; simpl; lia|].
      intros r s' _. destruct r; [|by wps]. wps. case_match; by wps.
  - apply wp_bind, wp_world. intros r w Hw. apply ctl_poll_keeps in Hw.
    destruct r as [[r|err]|]; [apply control_result_ends|by wps|].
    apply wp_bind. eapply wp_mono; [apply poll_payload_inner_fw; unfold rdy in *; simpl; lia|].
    intros. by wps.
  - apply wp_bind. fw_use check_disconnect_steady Hs. destruct x; [by wps|]. apply wp_bind.
    eapply wp_mono; [apply poll_read_request_fw; lia|]. intros r s2 _. destruct r; by wps.
  - apply wp_bind. eapply wp_mono; [apply poll_request_payload_fw; lia|]. cbv beta. intros r s' _.
    apply wp_bind. eapply wp_mono; [apply check_disconnect_steady|]. intros o s2 _.
    destruct o; [by wps|]. destruct r as [[]|]; by wps.
  - apply wp_bind. eapply wp_mono; [apply poll_send_payload_fw; lia|]. intros r s' _.
    destruct r.1; by wps.
  - wps. destruct x; by wps.
Qed.

(** C6.  Every round of the dispatcher ends: from a configuration it can reach,
    with the fuel [round_fuel] gives, a round returns a value; neither a panic
    nor a loop that goes on for ever is possible as long as the io, the payload
    channel and the body have finitely much ready. *)
Theorem round_returns `{!BodyLaws B, !BodyLaws M} st s fuel :
  reach st s -> (round_fuel st s <= fuel)%nat ->
  exists f s', poll_step fuel st s = Val (f, s').
Proof.
  intros Hr Hf. pose proof (poll_step_fw fuel st s Hf) as Hend. unfold wpg in Hend.
  pose proof (poll_step_spec fuel st s (reach_sim st s Hr)) as Hsafe. unfold wpg in Hsafe.
  destruct (poll_step fuel st s) as [[f s']| |]; [eauto|done|done].
Qed.
End Fuel.
