(* ===== verification/DispatcherTimers.v ===== *)
(** * The dispatcher's timers, and what it leaves behind

    The decision of [handle_timeout] on every branch, the bound on how long a
    slow payload can keep a connection, the one way in which the dispatcher
    reads a request while the body of the last one is unread, and what a failing
    response body does to the connection. *)
From S2P Require Import Prelude Headers Message Config Errors Payload Decoder Encoder H1Codec.
From S2P Require Import Body Control Dispatcher DispatcherThms.

#[local] Notation "x ← y ; z" := (dbind y (fun x => z)) : dispatcher_scope.
#[local] Notation "y ;; z" := (dbind y (fun _ => z)) : dispatcher_scope.
#[local] Open Scope dispatcher_scope.
#[local] Arguments size {B _} _ : simpl never.
#[local] Arguments poll_next_chunk {B _} _ _ : simpl never.
#[local] Arguments Flag.contains _ _ : simpl never.
#[local] Arguments Flag.insert _ _ : simpl never.

Section Timers.
Context `{Parsers} {B M E : Type} `{MessageBody B, MessageBody M} `{ResponseError M E}.
Context {W : Type} `{!World B M E W}.
Abbreviation St := (DS M E W).

Definition hdrs_timer (s : St) : bool := Flag.contains (di_flags (ds_inner s)) DspFlags.READ_HDRS_TIMEOUT.
Definition pl_timer (s : St) : bool := Flag.contains (di_flags (ds_inner s)) DspFlags.READ_PL_TIMEOUT.
Definition hdrs_cfg (s : St) := headers_read_rate (c_cfg (di_codec (ds_inner s))).
Definition pl_cfg (s : St) := payload_read_rate (c_cfg (di_codec (ds_inner s))).
Definition remains (s : St) : Z := di_read_remains (ds_inner s).
Definition consumed (s : St) : Z := di_read_consumed (ds_inner s).
Definition budget (s : St) : Z := di_read_max_timeout (ds_inner s).

(** The payload timer is extended. *)
Definition extends (cfg : FrameReadRate) (s : St) : bool :=
  (fr_rate cfg <? remains s) &&
  ((fr_max_timeout cfg =? 0) || (fr_timeout cfg <? budget s)).

Definition extended_state (cfg : FrameReadRate) (s : St) : St :=
  mkDS (with_read (ds_inner s) (remains s) 0
          (if fr_max_timeout cfg =? 0 then budget s else budget s - fr_timeout cfg))
    (io_start_timer (fr_timeout cfg) (ds_world s))
    (ds_log s ++ [Ev_StartTimer (fr_timeout cfg)]).

(** Unfold the monad in a straight-line computation. *)
Ltac timeout_tac :=
  unfold handle_timeout, update_payload_timer, flags_insert, modify, dbind, get_inner, put_inner, dret,
    start_timer, effect, world, emit in *;
  cbv beta iota zeta in *; cbn [ds_inner ds_world ds_log] in *.

Lemma set_payload_error_returns e :
  exists g : St -> W, forall s : St,
    set_payload_error e s = Val (tt, mkDS (ds_inner s) (g s) (ds_log s)).
Proof.
  exists (fun s => match di_payload (ds_inner s) with
                   | Some (_, snd) => snd_set_error snd e (ds_world s)
                   | None => ds_world s
                   end).
  intros [i w l]. unfold set_payload_error, dbind, get_inner. simpl.
  by destruct (di_payload i) as [[? ?]|].
Qed.

Lemma handle_timeout_payload cfg (s : St) :
  hdrs_timer s = false -> pl_timer s = true -> pl_cfg s = Some cfg ->
  0 <= remains s < 2 ^ 32 ->
  if extends cfg s then handle_timeout s = Val (Ok tt, extended_state cfg s)
  else exists s', handle_timeout s = Val (Err PErr_SlowPayloadTimeout, s').
Proof.
  unfold hdrs_timer, pl_timer, pl_cfg, extends, extended_state, remains, budget.
  intros Hh Hp Hc Hr. timeout_tac. rewrite Hh, Hp. cbn [negb andb]. rewrite Hc. timeout_tac.
  replace (u32 (di_read_remains (ds_inner s) - 0)) with (di_read_remains (ds_inner s))
    by (unfold u32; rewrite Z.mod_small; lia).
  destruct (set_payload_error_returns (PE_Io TIMED_OUT)) as [g Hg].
  destruct (fr_rate cfg <? di_read_remains (ds_inner s)) eqn:Er; cbn [andb];
    [|rewrite Hg; timeout_tac; by eexists].
  destruct (fr_max_timeout cfg =? 0) eqn:Em; cbn [orb negb]; [by timeout_tac|].
  destruct (fr_timeout cfg <? di_read_max_timeout (ds_inner s)) eqn:Eb; zbool.
  - rewrite Z.max_r by lia.
    destruct (di_read_max_timeout (ds_inner s) - fr_timeout cfg =? 0) eqn:E0; zbool; [lia|].
    by timeout_tac.
  - rewrite Z.max_l by lia. change (0 =? 0) with true. cbn [negb]. rewrite Hg. by eexists.
Qed.

Lemma handle_timeout_headers cfg (s : St) :
  hdrs_timer s = true -> hdrs_cfg s = Some cfg -> consumed s = 0 -> 0 <= fr_rate cfg ->
  exists s' e, handle_timeout s = Val (Err e, s') /\ ds_log s' = ds_log s /\
    e = if pl_timer s then PErr_SlowPayloadTimeout else PErr_SlowRequestTimeout.
Proof.
  unfold hdrs_timer, pl_timer, hdrs_cfg, consumed.
  intros Hh Hc H0' Hr. timeout_tac. rewrite Hh. cbn [negb andb]. rewrite Hc, H0'. timeout_tac.
  change (u32 (0 - 0)) with 0. destruct (fr_rate cfg <? 0) eqn:Er; zbool; [lia|].
  destruct (Flag.contains (di_flags (ds_inner s)) DspFlags.READ_PL_TIMEOUT); [|by do 2 eexists].
  destruct (set_payload_error_returns (PE_Io TIMED_OUT)) as [g Hg]. rewrite Hg.
  do 2 eexists. by split.
Qed.

(** What a read timeout does.  While a payload is read, the timer goes on if
    and only if more bytes than the rate asks for are waiting and the total time
    is not used up, and the total shrinks by the timeout; otherwise the request
    fails with [SlowPayloadTimeout].  While a request head is read it always
    fails, however fast the head is arriving: the counter that is compared with
    the rate has just been set to zero. *)
Theorem timeout_decision (s : St) :
  (forall cfg, hdrs_timer s = false -> pl_timer s = true -> pl_cfg s = Some cfg ->
     0 <= remains s < 2 ^ 32 ->
     if extends cfg s then handle_timeout s = Val (Ok tt, extended_state cfg s)
     else exists s', handle_timeout s = Val (Err PErr_SlowPayloadTimeout, s')) /\
  (forall cfg r, hdrs_timer s = true -> pl_timer s = false -> hdrs_cfg s = Some cfg ->
     consumed s = 0 -> 0 <= fr_rate cfg ->
     let s1 := mkDS (with_read (ds_inner s) r 0 (budget s)) (ds_world s) (ds_log s) in
     exists s', handle_timeout s1 = Val (Err PErr_SlowRequestTimeout, s') /\ ds_log s' = ds_log s).
Proof.
  split; [intros cfg; apply handle_timeout_payload|].
  intros cfg r Hh Hp Hc H0' Hr s1.
  destruct (handle_timeout_headers cfg s1 Hh Hc eq_refl Hr) as (s' & e & He & Hl & Hpl).
  change (pl_timer s1) with (pl_timer s) in Hpl. rewrite Hp in Hpl. subst e. eauto.
Qed.

(** ** How long a slow payload can last *)

(** [extended cfg n s]: the payload timer was started and extended [n] times, with
    any data and any changes of the world in between. *)
Inductive extended (cfg : FrameReadRate) : nat -> St -> Prop :=
| ext_start d s s' :
    hdrs_timer s = false -> pl_timer s = false -> pl_cfg s = Some cfg ->
    update_payload_timer d s = Val (tt, s') -> extended cfg 0 s'
| ext_data n d s s' :
    extended cfg n s -> update_payload_timer d s = Val (tt, s') -> extended cfg n s'
| ext_env n s w : extended cfg n s -> extended cfg n (mkDS (ds_inner s) w (ds_log s))
| ext_timeout n s s' :
    extended cfg n s -> handle_timeout s = Val (Ok tt, s') -> extended cfg (S n) s'.

Definition ext_inv (cfg : FrameReadRate) (n : nat) (s : St) : Prop :=
  hdrs_timer s = false /\ pl_timer s = true /\ pl_cfg s = Some cfg /\
  0 <= remains s < 2 ^ 32 /\
  (fr_max_timeout cfg <> 0 ->
   Z.of_nat n * fr_timeout cfg + budget s = fr_max_timeout cfg /\ (0 < Z.of_nat n -> 0 < budget s)).

Lemma u32_bound x : 0 <= u32 x < 2 ^ 32.
Proof. unfold u32. apply Z.mod_pos_bound. lia. Qed.

Lemma extended_inv cfg n s : extended cfg n s -> ext_inv cfg n s.
Proof.
  induction 1 as [d s s' Hh Hp Hc Hu|n d s s' _ IH Hu|n s w _ IH|n s s' _ IH Ht].
  - unfold hdrs_timer, pl_timer, pl_cfg in *. timeout_tac. rewrite Hp, Hc in Hu. timeout_tac.
    simplify_eq. unfold ext_inv, hdrs_timer, pl_timer, pl_cfg, remains, budget. simpl. flags.
    split_and!; auto; try apply u32_bound; lia.
  - destruct IH as (Hh & Hp & Hc & Hr & Hb). unfold hdrs_timer, pl_timer, pl_cfg in *. timeout_tac.
    rewrite Hp in Hu. timeout_tac. simplify_eq.
    unfold ext_inv, hdrs_timer, pl_timer, pl_cfg, remains, budget. simpl. by pose proof (u32_bound (dc_remains d)).
  - exact IH.
  - destruct IH as (Hh & Hp & Hc & Hr & Hb).
    pose proof (handle_timeout_payload cfg s Hh Hp Hc Hr) as Hd. destruct (extends cfg s) eqn:Ee;
      [|destruct Hd as [? Hd]; rewrite Hd in Ht; simplify_eq].
    rewrite Hd in Ht. simplify_eq. split_and!; [exact Hh|exact Hp|exact Hc|apply Hr|apply Hr|].
    intros Hm. destruct (Hb Hm) as [Hsum Hpos]. unfold extends in Ee. zbool.
    unfold extended_state, budget in *. simpl.
    destruct (fr_max_timeout cfg =? 0) eqn:E0; zbool; [done|].
    match goal with Hx : _ || _ = true |- _ => apply orb_true_iff in Hx as [Hx|Hx] end; zbool; [done|].
    lia.
Qed.

(** A slow upload is cut off.  However its bytes arrive, the payload timer
    is extended fewer times than make up the configured maximum: after [n]
    extensions [n] timeouts are less than [max_timeout], and once the timeout
    covers what is left the next expiry fails. *)
Theorem slow_payload_bounded cfg n (s : St) :
  extended cfg n s -> 0 < fr_max_timeout cfg -> 0 <= fr_timeout cfg ->
  Z.of_nat n * fr_timeout cfg < fr_max_timeout cfg /\
  (budget s <= fr_timeout cfg -> exists s', handle_timeout s = Val (Err PErr_SlowPayloadTimeout, s')).
Proof.
  intros He Hm Ht. destruct (extended_inv cfg n s He) as (Hh & Hp & Hc & Hr & Hb).
  destruct Hb as [Hsum Hpos]; [lia|]. split.
  - destruct n as [|n]; lia.
  - intros Hl. pose proof (handle_timeout_payload cfg s Hh Hp Hc Hr) as Hd.
    unfold extends in Hd. destruct (fr_max_timeout cfg =? 0) eqn:E0; zbool; [lia|].
    destruct (fr_timeout cfg <? budget s) eqn:E1; zbool; [lia|].
    by rewrite andb_false_r in Hd.
Qed.

(** ** What is left unread *)

(** Only the result of a computation that ends. *)
Abbreviation pw := (wpg True True).

(** [m] does not go on to read a request. *)
Definition elsewhere (m : D (DState B M E)) : Prop :=
  forall s : St, pw m (fun st _ => st <> S_ReadRequest) s.

Lemma pw_any {A} (m : D A) (s : St) : pw m (fun _ _ => True) s.
Proof. unfold wpg. by destruct (m s) as [[]| |]. Qed.
Lemma elsewhere_bind {A} (m : D A) f : (forall x, elsewhere (f x)) -> elsewhere (dbind m f).
Proof. intros Hf s. apply wp_bind. eapply wp_mono; [apply pw_any|]. intros x s' _. apply Hf. Qed.
Lemma elsewhere_ret st : st <> S_ReadRequest -> elsewhere (dret st).
Proof. by intros ? s. Qed.

Ltac elsewhere_tac :=
  repeat match goal with
  | |- elsewhere (dbind _ _) => apply elsewhere_bind; intros ?
  | |- elsewhere (dret _) => by apply elsewhere_ret
  | |- elsewhere (match ?x with _ => _ end) => destruct x
  | |- elsewhere (control _) => unfold control
  | |- elsewhere (publish _) => unfold publish
  | |- elsewhere stop => unfold stop
  | |- elsewhere (ctl_proto_err _) => unfold ctl_proto_err, ctl_disconnect
  | |- elsewhere (ctl_peer_gone _) => unfold ctl_peer_gone, ctl_disconnect
  | |- elsewhere (ctl_error _) => unfold ctl_error, ctl_disconnect
  | |- elsewhere (ctl_keepalive _) => unfold ctl_keepalive, ctl_disconnect
  | |- elsewhere (ctl_disconnect _) => unfold ctl_disconnect
  | |- elsewhere (ctl_svc_disconnect _) => unfold ctl_svc_disconnect
  | |- elsewhere (ctl_upgrade _) => unfold ctl_upgrade
  | |- elsewhere (new_request _ _) => unfold new_request
  | |- elsewhere d_panic => done
  | |- elsewhere d_nofuel => done
  end.

(** A state, or a request to be read with no payload left over. *)
Definition clean (st : DState B M E) (s : St) : Prop :=
  st = S_ReadRequest -> di_payload (ds_inner s) = None.

Lemma elsewhere_clean (m : D (DState B M E)) s : elsewhere m -> pw m clean s.
Proof. intros Hm. eapply wp_mono; [apply Hm|]. by intros st s' Hst ->. Qed.

Lemma check_disconnect_elsewhere s :
  pw check_disconnect (fun o s' => match o with
                                   | Some st => st <> S_ReadRequest
                                   | None => True
                                   end) s.
Proof.
  assert (Hsome : forall m (s0 : St), elsewhere m ->
    pw (st ← m; dret (Some st)) (fun o s' => match o with
                                             | Some st => st <> S_ReadRequest
                                             | None => True
                                             end) s0).
  { intros m s0 Hm. apply wp_bind. eapply wp_mono; [apply Hm|]. intros. by apply wp_ret. }
  unfold check_disconnect. apply wp_bind, wp_get. split_match; [apply Hsome; elsewhere_tac|].
  destruct (di_disconnect (ds_inner s)); [|by wps].
  apply wp_bind, wp_modify. apply Hsome. elsewhere_tac.
Qed.

Lemma response_done_clean s : pw response_done clean s.
Proof.
  unfold response_done. apply wp_bind. eapply wp_mono; [apply check_disconnect_elsewhere|].
  cbv beta. intros [st|] s' Hst; [by apply wp_ret; intros ->|]. wps.
  destruct (di_payload (ds_inner s')) eqn:Ep; apply wp_ret; by intros ?.
Qed.

Lemma send_response_clean msg body s : pw (send_response msg body) clean s.
Proof.
  unfold send_response. apply wp_bind. eapply wp_mono; [apply pw_any|]. intros i s1 _.
  apply wp_bind. eapply wp_mono; [apply pw_any|]. intros dropped s2 _.
  apply wp_bind. eapply wp_mono; [apply pw_any|]. intros closed s3 _.
  destruct closed; [apply elsewhere_clean; elsewhere_tac|].
  apply wp_bind. eapply wp_mono; [apply pw_any|]. intros r s4 _. destruct r as [u|e].
  - apply wp_bind. eapply wp_mono; [apply pw_any|]. intros ? s5 _.
    destruct (size body); try apply response_done_clean; by apply wp_ret.
  - apply elsewhere_clean. elsewhere_tac.
Qed.

Lemma ctl_elsewhere_flow (m : D (DState B M E)) (s : St) :
  elsewhere m -> pw (goto m) (fun f s' => f = Goto S_ReadRequest -> di_payload (ds_inner s') = None) s.
Proof.
  intros Hm. unfold goto. apply wp_bind. eapply wp_mono; [apply Hm|]. cbv beta. intros st s' Hst.
  apply wp_ret. congruence.
Qed.
Lemma clean_flow (m : D (DState B M E)) (s : St) :
  pw m clean s -> pw (goto m) (fun f s' => f = Goto S_ReadRequest -> di_payload (ds_inner s') = None) s.
Proof.
  intros Hm. unfold goto. apply wp_bind. eapply wp_mono; [apply Hm|]. cbv beta. intros st s' Hst.
  apply wp_ret. intros Hx. apply Hst. congruence.
Qed.

Lemma control_result_clean r (s : St) :
  pw (control_result r) (fun f s' => f = Goto S_ReadRequest -> di_payload (ds_inner s') = None) s.
Proof.
  destruct r; simpl; try done;
    repeat match goal with
           | |- wpg _ _ (goto (send_response _ _)) _ _ => apply clean_flow, send_response_clean
           | |- wpg _ _ (goto _) _ _ => apply ctl_elsewhere_flow; elsewhere_tac
           | |- wpg _ _ (set_disconnect _;; _) _ _ => wps
           | |- wpg _ _ (if ?b then _ else _) _ _ => destruct b
           end.
  apply wp_bind. eapply wp_mono; [apply pw_any|]. cbv beta. intros [u|e] s' _.
  - destruct (request_upgrade req); apply ctl_elsewhere_flow; elsewhere_tac.
  - apply ctl_elsewhere_flow; elsewhere_tac.
Qed.

Lemma send_loop_clean fuel : forall (body : ResponseBody B M) (s : St),
  pw (send_loop fuel body) (fun r s' => match r.1 with Ready st => clean st s' | Pending => True end) s.
Proof.
  induction fuel as [|fuel IH]; intros body s; [done|]. cbn [send_loop].
  assert (Hclose : forall r b (s0 : St),
    pw (st ← ctl_disconnect r; dret (Ready st, b))
      (fun (r : Poll (DState B M E) * ResponseBody B M) s' =>
         match r.1 with Ready st => clean st s' | Pending => True end) s0).
  { intros r b s0. apply wp_bind. eapply wp_mono; [apply elsewhere_clean; elsewhere_tac|].
    intros. by apply wp_ret. }
  wps. destruct x as [f|]; [|by wps]. apply wp_bind. eapply wp_mono; [apply pw_any|].
  cbv beta. intros [r b'] s' _. cbn [fst snd]. destruct r as [[[item|err]|]|]; [|apply Hclose| |by wps].
  - apply wp_bind. eapply wp_mono; [apply pw_any|]. cbv beta. intros [u|e] s2 _; [|apply Hclose].
    wps. apply IH.
  - apply wp_bind. eapply wp_mono; [apply pw_any|]. cbv beta. intros [u|e] s2 _; [|apply Hclose].
    wps. eapply wp_mono; [apply response_done_clean|]. intros. by apply wp_ret.
Qed.

(** The same for a computation that may be pending. *)
Definition poll_elsewhere (m : D (Poll (DState B M E))) : Prop :=
  forall s : St, pw m (fun r _ => match r with Ready st => st <> S_ReadRequest | Pending => True end) s.

Lemma poll_ready (m : D (DState B M E)) :
  elsewhere m -> poll_elsewhere (st ← m; dret (Ready st)).
Proof. intros Hm s. apply wp_bind. eapply wp_mono; [apply Hm|]. intros. by apply wp_ret. Qed.
Lemma poll_bind {A} (m : D A) f : (forall x, poll_elsewhere (f x)) -> poll_elsewhere (dbind m f).
Proof. intros Hf s. apply wp_bind. eapply wp_mono; [apply pw_any|]. intros x s' _. apply Hf. Qed.
Lemma poll_pending : poll_elsewhere (dret Pending).
Proof. done. Qed.

Ltac poll_tac :=
  repeat match goal with
  | |- poll_elsewhere (dret Pending) => apply poll_pending
  | |- poll_elsewhere (st ← _; dret (Ready st)) => apply poll_ready; elsewhere_tac
  | |- poll_elsewhere (match ?x with _ => _ end) => destruct x
  | |- poll_elsewhere d_nofuel => done
  end.

Lemma poll_request_payload_elsewhere fuel (s : St) :
  pw (poll_request_payload fuel)
    (fun r _ => match r with Ready (Some st) => st <> S_ReadRequest | _ => True end) s.
Proof.
  unfold poll_request_payload. apply wp_bind. eapply wp_mono; [apply pw_any|]. cbv beta.
  assert (Hone : forall m (s0 : St), elsewhere m ->
    pw (st ← m; dret (Ready (Some st)))
      (fun r _ => match r with Ready (Some st) => st <> S_ReadRequest | _ => True end) s0).
  { intros m s0 Hm. apply wp_bind. eapply wp_mono; [apply Hm|]. intros. by apply wp_ret. }
  intros [[u|[e|e]]|] s' _; [by wps| | |by wps]; apply Hone; elsewhere_tac.
Qed.

Lemma poll_request_elsewhere fuel : poll_elsewhere (poll_request fuel).
Proof.
  intros s. unfold poll_request. wps. destruct (di_payload (ds_inner s)).
  - apply wp_bind. eapply wp_mono; [apply poll_request_payload_elsewhere|]. cbv beta.
    intros [[st|]|] s' Hst; by wps.
  - revert s. change (poll_elsewhere (r ← world io_poll_status_update;
      match r with
      | Pending | Ready (IOU_KeepAlive | IOU_WriteBackpressure) => dret Pending
      | Ready (IOU_PeerGone e) => st ← ctl_peer_gone e; dret (Ready st)
      end : D (Poll (DState B M E)))).
    apply poll_bind. intros r. poll_tac.
Qed.

Lemma update_hdrs_timer_elsewhere d (s : St) :
  pw (update_hdrs_timer d) (fun o _ => match o with Some st => st <> S_ReadRequest | None => True end) s.
Proof.
  unfold update_hdrs_timer.
  repeat first
    [ split_match | case_match | progress wps
    | match goal with |- wpg _ _ (ctl_keepalive _) _ _ =>
        unfold ctl_keepalive, ctl_disconnect, control end ]; done.
Qed.

Lemma poll_read_request_elsewhere fuel : poll_elsewhere (poll_read_request fuel).
Proof.
  induction fuel as [|fuel IH]; [done|]. cbn [poll_read_request].
  apply poll_bind. intros down. destruct down; [apply poll_ready; elsewhere_tac|].
  apply poll_bind. intros [d|[| |e|e]].
  - intros s. apply wp_bind. eapply wp_mono; [apply update_hdrs_timer_elsewhere|]. cbv beta.
    intros [st|] s' Hst; [by wps|]. destruct (dc_item d) as [[h pl]|]; [|by wps].
    revert s'. apply poll_ready. elsewhere_tac.
  - apply poll_bind. intros b. destruct b; [|apply poll_ready; elsewhere_tac].
    apply poll_bind. intros t. destruct t; [apply IH|apply poll_ready; elsewhere_tac].
  - apply poll_bind. intros f. destruct f as [[u|e]|]; [apply IH|apply poll_ready; elsewhere_tac|done].
  - apply poll_ready. elsewhere_tac.
  - apply poll_ready. elsewhere_tac.
Qed.

(** The result of a round, when it is to read a request. *)
Definition clean_round (f : Flow B M E) (s : St) : Prop :=
  f = Goto S_ReadRequest -> di_payload (ds_inner s) = None.

Lemma poll_step_clean fuel st (s : St) :
  st <> S_ReadPayload -> pw (poll_step fuel st) clean_round s.
Proof.
  intros Hst.
  assert (Hnext : forall (m : D (Poll (DState B M E))) f (s0 : St), poll_elsewhere m ->
    (forall st s1, st <> S_ReadRequest -> pw (f (Ready st)) clean_round s1) ->
    (forall s1, pw (f Pending) clean_round s1) -> pw (dbind m f) clean_round s0).
  { intros m f s0 Hm Hr Hp. apply wp_bind. eapply wp_mono; [apply Hm|]. cbv beta.
    intros [st'|] s1 Hs1; auto. }
  destruct st as [fut|c fut| | |body|]; cbn [poll_step]; try done.
  - apply wp_bind. eapply wp_mono; [apply pw_any|]. cbv beta. intros [[[res body]|err]|] s1 _.
    + apply clean_flow, send_response_clean.
    + apply ctl_elsewhere_flow. elsewhere_tac.
    + apply Hnext; [apply poll_request_elsewhere| |].
      * intros st' s2 Hst'. wps. destruct (di_payload (ds_inner s2)); wps; unfold clean_round; congruence.
      * intros s2. by apply wp_ret.
  - apply wp_bind. eapply wp_mono; [apply pw_any|]. cbv beta. intros [[r|err]|] s1 _.
    + apply control_result_clean.
    + by apply wp_ret.
    + apply wp_bind. eapply wp_mono; [apply pw_any|]. intros. by apply wp_ret.
  - apply wp_bind. eapply wp_mono; [apply check_disconnect_elsewhere|]. cbv beta.
    intros [st'|] s1 Hst'; [apply wp_ret; unfold clean_round; congruence|].
    apply Hnext; [apply poll_read_request_elsewhere| |].
    + intros st' s2 Hs2. apply wp_ret. unfold clean_round. congruence.
    + intros s2. by apply wp_ret.
  - apply wp_bind. unfold poll_send_payload. apply wp_bind, wp_asks.
    assert (Hend : forall fuel (s0 : St), pw (send_loop fuel body)
      (fun r s' => pw (match r.1 with Ready st => dret (Goto st)
                                    | Pending => dret (Park (S_SendPayload r.2)) end) clean_round s') s0).
    { intros fu s0. eapply wp_mono; [apply send_loop_clean|]. cbv beta. intros [[st|] b] s' Hr; [|done].
      apply wp_ret. unfold clean_round. intros ?. apply Hr. simpl in *. congruence. }
    destruct (io_is_closed (ds_world s)).
    + apply wp_bind. assert (He : elsewhere (ctl_peer_gone None : D (DState B M E))) by elsewhere_tac.
      eapply wp_mono; [apply He|]. cbv beta. intros st' s' Hs'. apply wp_ret. cbn [fst].
      apply wp_ret. unfold clean_round. congruence.
    + apply wp_bind, wp_get. destruct (di_disconnect (ds_inner s)); [apply Hend|].
      apply wp_bind. eapply wp_mono; [apply pw_any|]. cbv beta. intros [[st'|]|] s' _; [wps|..]; apply Hend.
  - apply wp_bind. eapply wp_mono; [apply pw_any|]. cbv beta. intros [r|] s' _; by apply wp_ret.
Qed.

(** Running a computation step by step. *)
Lemma dbind_val {A C} (m : D A) (g : A -> D C) (s : St) x s' :
  m s = Val (x, s') -> dbind m g s = g x s'.
Proof. intros Hm. unfold dbind. by rewrite Hm. Qed.
Lemma world_val {A} (g : W -> A * W) (s : St) x w' :
  g (ds_world s) = (x, w') -> world g s = Val (x, mkDS (ds_inner s) w' (ds_log s)).
Proof. intros Hg. unfold world. by rewrite Hg. Qed.
Lemma effect_val (g : W -> W) (s : St) :
  effect g s = Val (tt, mkDS (ds_inner s) (g (ds_world s)) (ds_log s)).
Proof. done. Qed.
Lemma recv_payload_val pd snd r pd' (s : St) w' :
  io_recv_payload pd (ds_world s) = (r, pd', w') ->
  recv_payload pd snd s
  = Val (r, mkDS (with_payload (ds_inner s) (Some (pd', snd))) w' (ds_log s)).
Proof. intros Hr. unfold recv_payload, dbind, world. by rewrite Hr. Qed.
Lemma no_payload_timer d (s : St) :
  pl_timer s = false -> pl_cfg s = None -> update_payload_timer d s = Val (tt, s).
Proof.
  unfold pl_timer, pl_cfg. intros Ht Hc. unfold update_payload_timer, dbind, get_inner.
  by rewrite Ht, Hc.
Qed.

(** C7.  The bytes of a body can be read as the next request.  A round that ends
    in reading a request leaves no payload behind, unless it is a round of
    [ReadPayload]; and there, when a part of the body arrives and no more is
    buffered, the dispatcher goes on to read a request although the payload is
    still to be finished. *)
Theorem unread_payload (s : St) :
  (forall fuel st s', poll_step fuel st s = Val (Goto S_ReadRequest, s') ->
     st <> S_ReadPayload -> di_payload (ds_inner s') = None) /\
  (forall fuel pd snd chunk r1 c1 r2 c2 pd1 pd2 w1 w2 w3,
     di_payload (ds_inner s) = Some (pd, snd) -> pl_cfg s = None -> pl_timer s = false ->
     disc s = false -> di_disconnect (ds_inner s) = None ->
     snd_poll_ready snd (ds_world s) = (Ready Snd_Ready, w1) ->
     io_recv_payload pd w1 = (Ok (mkDecoded (Some (Chunk chunk)) r1 c1), pd1, w2) ->
     io_recv_payload pd1 (snd_feed_data snd chunk w2) = (Ok (mkDecoded None r2 c2), pd2, w3) ->
     exists s', poll_step (S (S fuel)) S_ReadPayload s = Val (Goto S_ReadRequest, s') /\
       di_payload (ds_inner s') = Some (pd2, snd) /\ ds_world s' = w3 /\
       ds_log s' = ds_log s).
Proof.
  split.
  - intros fuel st s' Hs Hst. pose proof (poll_step_clean fuel st s Hst) as Hc.
    unfold wpg in Hc. rewrite Hs in Hc. by apply Hc.
  - intros fuel pd snd chunk r1 c1 r2 c2 pd1 pd2 w1 w2 w3 Hp Hc Ht Hd Hdc Hs Hr1 Hr2.
    destruct s as [i w l]. unfold pl_cfg, pl_timer, disc in *. simpl in *.
    assert (Hin : poll_request_payload_inner (S (S fuel)) (mkDS i w l)
      = Val (Ready (Ok tt), mkDS (with_payload (with_payload i (Some (pd1, snd))) (Some (pd2, snd))) w3 l)).
    { unfold poll_request_payload_inner. erewrite dbind_val by done. cbn [ds_inner]. rewrite Hp.
      erewrite dbind_val by (apply world_val; exact Hs). cbn [payload_loop ds_inner ds_log].
      erewrite dbind_val by done. cbn [ds_inner]. rewrite Hp.
      erewrite dbind_val by (apply recv_payload_val; exact Hr1). cbn [ds_inner ds_log].
      erewrite dbind_val by (by apply no_payload_timer). cbn [dc_item].
      erewrite dbind_val by (by apply effect_val). cbn [ds_inner ds_log ds_world].
      erewrite dbind_val by done. cbn [ds_inner with_payload di_payload].
      erewrite dbind_val by (apply recv_payload_val; exact Hr2). cbn [ds_inner ds_log].
      erewrite dbind_val by (by apply no_payload_timer). done. }
    cbn [poll_step]. unfold poll_request_payload.
    erewrite dbind_val by (erewrite dbind_val by exact Hin; done).
    unfold check_disconnect, dbind at 1. cbn. rewrite Hd, Hdc. cbn. by eexists.
Qed.

(** The message about a failing body, and the response it is answered with. *)
Definition body_failed : Control M E := control_proto_err PErr_ResponsePayload.
Definition body_failed_head : ResponseHead := ResponseHeadOps.new INTERNAL_SERVER_ERROR HTTP_11.

(** The fields after a [Disconnect] message. *)
Definition closing (i : DInner) : DInner := with_flags i (Flag.insert (di_flags i) DspFlags.DISCONNECT_SENT).

Lemma ctl_disconnect_val c (s : St) fut w :
  ctl_call c (ds_world s) = (fut, w) ->
  ctl_disconnect c s = Val (S_CallControl c fut, mkDS (closing (ds_inner s)) w (ds_log s ++ [Ev_Control c])).
Proof.
  intros Hc. unfold ctl_disconnect. erewrite dbind_val by done. unfold control.
  erewrite dbind_val by (apply world_val; exact Hc). done.
Qed.

Lemma stop_after_response (s : St) :
  disc s = true ->
  response_done s = Val (S_Stop, mkDS (ds_inner s) (io_stop_timer (ds_world s)) (ds_log s ++ [Ev_StopTimer])).
Proof.
  unfold disc. intros Hd. unfold response_done, check_disconnect.
  erewrite dbind_val; [|erewrite dbind_val by done; rewrite Hd; by erewrite dbind_val by done]. done.
Qed.

(** A response body that fails starts a second response.  When the body of a
    response gives an error, after its head and any of its chunks were written,
    the dispatcher reports it to the control service; and when that message is
    acknowledged, the head of a [500] response is written where the peer expects
    the rest of the body. *)
Theorem failing_body_restarts (s : St) fuel body e body' f w1 :
  io_is_closed (ds_world s) = false -> di_payload (ds_inner s) = None ->
  io_poll_flush false (ds_world s) = (Ready f, w1) ->
  poll_next_chunk (S fuel) body = Val (Ready (Some (Err e)), body') ->
  exists fut s1,
    poll_step (S fuel) (S_SendPayload body) s = Val (Goto (S_CallControl body_failed fut), s1) /\
    ds_log s1 = ds_log s ++ [Ev_Control body_failed] /\
    forall io w2 c w3,
      ctl_poll body_failed fut (ds_world s1) = (Ready (Ok (ack io body_failed)), w2) ->
      io_is_closed w2 = false ->
      io_encode (Item (body_failed_head, BS_Empty)) (di_codec (ds_inner s1)) w2 = Val (Ok tt, c, w3) ->
      exists s2,
        poll_step (S fuel) (S_CallControl body_failed fut) s1 = Val (Goto S_Stop, s2) /\
        ds_log s2 = ds_log s ++ [Ev_Control body_failed; Ev_Head body_failed_head BS_Empty; Ev_StopTimer].
Proof.
  intros Hcl Hp Hf Hb.
  destruct (ctl_call body_failed w1) as [fut w1'] eqn:Ec.
  exists fut, (mkDS (closing (ds_inner s)) w1' (ds_log s ++ [Ev_Control body_failed])).
  split_and!; [|done|].
  - assert (Hloop : send_loop (S fuel) body s
      = Val (Ready (S_CallControl body_failed fut), body',
             mkDS (closing (ds_inner s)) w1' (ds_log s ++ [Ev_Control body_failed]))).
    { cbn [send_loop]. erewrite dbind_val by (apply world_val; exact Hf).
      cbv beta iota. cbn [ds_world ds_inner ds_log]. erewrite dbind_val by (by rewrite Hb). cbn [fst snd].
      by erewrite dbind_val by (apply ctl_disconnect_val; exact Ec). }
    assert (Hsend : poll_send_payload (S fuel) body s = send_loop (S fuel) body s).
    { unfold poll_send_payload. erewrite dbind_val by done. rewrite Hcl. erewrite dbind_val by done.
      destruct (di_disconnect (ds_inner s)); [done|].
      assert (Hpl : poll_request_payload (S fuel) s = Val (Ready None, s)).
      { unfold poll_request_payload, poll_request_payload_inner, dbind, get_inner. by rewrite Hp. }
      by erewrite dbind_val by exact Hpl. }
    cbn [poll_step]. by erewrite dbind_val by (rewrite Hsend; exact Hloop).
  - cbn [ds_world ds_inner]. intros io w2 c w3 Hctl Hcl2 He. cbn [poll_step]. erewrite dbind_val by (apply world_val; exact Hctl).
    cbn [control_result ack body_failed control_proto_err reason_ack protocol_error_response].
    set (s2 := mkDS (with_codec (closing (ds_inner s)) c) w3
                 ((ds_log s ++ [Ev_Control body_failed]) ++ [Ev_Head body_failed_head BS_Empty])).
    assert (Hsend : send_response body_failed_head (RB_Other B_Empty)
                      (mkDS (closing (ds_inner s)) w2 (ds_log s ++ [Ev_Control body_failed]))
                    = response_done s2).
    { unfold send_response. erewrite dbind_val by done. cbn [ds_inner closing with_flags di_payload].
      rewrite Hp. erewrite dbind_val by done. erewrite dbind_val by done. cbn [ds_world]. rewrite Hcl2.
      erewrite dbind_val; [|unfold Dispatcher.encode; cbn [ds_world ds_inner ds_log];
                            change (size (RB_Other B_Empty)) with BS_Empty; by erewrite He].
      cbv beta iota. by erewrite dbind_val by done. }
    unfold goto. erewrite dbind_val.
    2:{ cbn [ds_inner ds_log]. etrans; [exact Hsend|]. apply stop_after_response.
        unfold disc. cbn. by flags. }
    eexists. split; [done|]. cbn. by rewrite <- !app_assoc.
Qed.
End Timers.
