(* ===== verification/DispatcherWorld.v ===== *)
(** * A world for the dispatcher

    An io over a byte buffer that is read and written through the modelled
    codec, the default control service, and a publish service that answers every
    request with a [200] and a scripted stream.  It is an instance of [World] and
    of the laws, so the theorems on the dispatcher are applied to it at concrete
    inputs; and it shows the whole server at work, from bytes to bytes. *)
From S2P Require Import Prelude Headers Message Config Errors Payload Decoder DecoderThms.
From S2P Require Import Encoder EncoderThms H1Codec Body Control Dispatcher DispatcherThms.
From S2P Require Import DispatcherLive DispatcherTimers.
Import RefParsers RefEnv RefChunkSize ScriptStream.

Module RefWorld.

Record W := mkW {
  rw_in : list Z;
  rw_eof : bool;
  rw_out : list Z;
  rw_date : DateService.t;
  rw_script : list ChunkPoll;
  rw_reads : nat;
  rw_timeout : bool;
  rw_fed : list (list Z)
}.
Definition set_in (w : W) (i : list Z) : W :=
  mkW i (rw_eof w) (rw_out w) (rw_date w) (rw_script w) (rw_reads w) (rw_timeout w) (rw_fed w).
Definition set_reads (w : W) (n : nat) : W :=
  mkW (rw_in w) (rw_eof w) (rw_out w) (rw_date w) (rw_script w) n (rw_timeout w) (rw_fed w).
Definition no_timeout (w : W) : W :=
  mkW (rw_in w) (rw_eof w) (rw_out w) (rw_date w) (rw_script w) (rw_reads w) false (rw_fed w).
Definition set_out (w : W) (o : list Z) (d : DateService.t) : W :=
  mkW (rw_in w) (rw_eof w) o d (rw_script w) (rw_reads w) (rw_timeout w) (rw_fed w).
Definition feed_one (w : W) (b : list Z) : W :=
  mkW (rw_in w) (rw_eof w) (rw_out w) (rw_date w) (rw_script w) (rw_reads w) (rw_timeout w)
    (rw_fed w ++ [b]).

#[export] Instance unit_error : ResponseError unit unit :=
  fun _ => (ResponseHeadOps.new INTERNAL_SERVER_ERROR HTTP_11, B_Empty).

Definition Script := BodyStream (list ChunkPoll).

(** A decoded item and what is left of the buffer. *)
Definition decoded {A} (w : W) (item : option A) (src' : list Z) : Decoded A :=
  mkDecoded item (zlen src') (zlen (rw_in w) - zlen src').

Definition recv_request (c : Codec) (w : W) :
  outcome (result (Decoded (RequestHead * PayloadType)) RecvError * Codec * W) :=
  if rw_timeout w then Val (Err RE_KeepAlive, c, no_timeout w)
  else
    match codec_decode c RequestHeadOps.default (rw_in w) with
    | Val (Ok (Some req), c', src') => Val (Ok (decoded w (Some req) src'), c', set_in w src')
    | Val (Ok None, c', src') =>
        Val (if rw_eof w then Err (RE_PeerGone None) else Ok (decoded w None src'), c', set_in w src')
    | Val (Err e, c', src') => Val (Err (RE_Decoder e), c', set_in w src')
    | Panic => Panic
    | NoFuel => NoFuel
    end.

Definition recv_payload (pd : PayloadDecoder) (w : W) :
  result (Decoded PayloadItem) RecvError * PayloadDecoder * W :=
  match rw_reads w with
  | O => (if rw_timeout w then Err RE_KeepAlive else Ok (decoded w None (rw_in w)), pd, no_timeout w)
  | S n =>
      let '(r, pd', src') := Payload.decode pd (rw_in w) in
      let w' := set_reads (set_in w src') n in
      (match r with
       | Ok item => Ok (decoded w item src')
       | Err e => Err (RE_Decoder e)
       end, pd', w')
  end.

Definition io_encode (item : CodecMessage (ResponseHead * BodySize)) (c : Codec) (w : W) :
  outcome (result unit EncodeError * Codec * W) :=
  match codec_encode c item (rw_out w) (rw_date w) with
  | Val (r, c', out, date) => Val (r, c', set_out w out date)
  | _ => Val (Err EE_Fmt, c, w)
  end.

#[export] Instance world : World Script unit unit W := {
  svc_call _ w := (0%nat, w);
  svc_poll _ w := (Ready (Ok (ResponseHeadOps.new OK_ HTTP_11, RB_Body (mkBodyStream (rw_script w)))), w);
  svc_spawn _ w := w;
  ctl_call _ w := (0%nat, w);
  ctl_poll c _ w := (Ready (Ok (ack 1 c)), w);
  io_recv_request := recv_request;
  io_recv_payload := recv_payload;
  Dispatcher.io_encode := io_encode;
  io_encode_slice b w := (Ok tt, set_out w (rw_out w ++ b) (rw_date w));
  io_poll_flush _ w := (Ready (Ok tt), w);
  io_poll_status_update w := (Pending, w);
  io_poll_shutdown w := (Ready (Ok tt), w);
  io_is_closed _ := false;
  io_start_timer _ w := w;
  io_stop_timer w := w;
  io_close w := w;
  io_id _ := 1%nat;
  cfg_is_shutdown _ := false;
  bstream_channel w := (0%nat, w);
  snd_poll_ready _ w := (Ready Snd_Ready, w);
  snd_is_closed _ _ := false;
  snd_feed_data _ b w := feed_one w b;
  snd_feed_eof _ w := w;
  snd_set_error _ _ w := w
}.

(** ** The laws *)

Lemma decode_ready c n src :
  codec_ready c ->
  exists r c' src', codec_decode c n src = Val (r, c', src') /\ (is_ok r = true -> codec_ready c').
Proof.
  intros Hc. destruct (decode_returns (c_decoder c) n src Hc) as (r & d' & src' & Hd & Hr).
  unfold codec_decode. rewrite Hd. cbn. destruct r as [[[h pl]|]|e]; do 3 eexists; (split; [done|]);
    intros ?; unfold codec_ready in *; simpl; try by apply Hr.
  destruct pl; simpl; by apply Hr.
Qed.

Lemma encode_decoder c item dst date r c' out date' :
  codec_encode c item dst date = Val (r, c', out, date') -> c_decoder c' = c_decoder c.
Proof.
  destruct item as [[h len]|[b|]]; simpl.
  - destruct (Encoder.encode _ _ _ _ _ _ _ _ _ _) as [[[[x e'] dst'] d']| |]; simpl; [|done|done].
    intros. simplify_eq. simpl. destruct (ResponseHeadOps.ctype _); [|done]. by case_bool_decide.
  - destruct (encode_chunk _ _ _) as [[[u|e] e'] dst']; intros; by simplify_eq.
  - destruct (encode_eof _ _) as [[x e'] dst']; intros; by simplify_eq.
Qed.

#[export] Instance world_laws : WorldLaws.
Proof.
  split; simpl.
  - intros c fut w r w' Hc. simplify_eq. apply default_control_answers.
  - intros c w Hc. unfold recv_request. destruct (rw_timeout w); [done|].
    destruct (decode_ready c RequestHeadOps.default (rw_in w) Hc) as (r & c' & src' & -> & Hr).
    destruct r as [[req|]|e]; [naive_solver..|]. intros Hn. by destruct (Hn e).
  - intros item c w. unfold io_encode.
    destruct (codec_encode c item _ _) as [[[[r c'] out] d]| |] eqn:E; [|done|done].
    apply encode_decoder in E. unfold codec_ready. by rewrite E.
Qed.

#[export] Instance script_laws : BodyLaws Script.
Proof.
  intros fuel [s]. simpl. revert s. induction fuel as [|fuel IH]; intros s; [done|]. simpl.
  destruct s as [|[[[b|e]|]|] s]; simpl; try done. destruct (zlen b =? 0); [apply IH|done].
Qed.
#[export] Instance unit_laws : BodyLaws unit.
Proof. done. Qed.

#[export] Instance script_progress : StreamProgress (list ChunkPoll).
Proof.
  refine {| stream_left s := length s |}. intros s c s' Hp. destruct s as [|r s]; [done|].
  cbn in Hp. simplify_eq. simpl. lia.
Defined.

#[export] Instance world_progress : WorldProgress.
Proof.
  refine {| ready w := (rw_reads w + if rw_timeout w then 1 else 0)%nat |}; simpl;
    try (intros; simplify_eq; simpl; lia).
  - intros c w. unfold recv_request. destruct (rw_timeout w); [done|].
    destruct (md_inner (c_decoder c)) eqn:Ei.
    + destruct (decode_ready c RequestHeadOps.default (rw_in w)) as (r & c' & src' & -> & Hr); [by eexists|].
      by destruct r as [[]|].
    + unfold codec_decode, decode_msg. by rewrite Ei.
  - intros c w e c' w' Hr He. unfold recv_request in Hr. destruct (rw_timeout w) eqn:Et.
    + injection Hr as _ _ <-. simpl. lia.
    + destruct (codec_decode c _ _) as [[[[[req|]|e0] c1] s1]| |]; [done| | |done|done].
      * destruct (rw_eof w); [|done]. injection Hr as <- _ _. by destruct He.
      * injection Hr as <- _ _. by destruct He.
  - intros pd w r pd' w' Hr He. unfold recv_payload in Hr. destruct (rw_reads w) as [|n] eqn:En.
    + injection Hr as <- _ <-. simpl. destruct (rw_timeout w) eqn:Et; simpl in *; [lia|]. by destruct He.
    + destruct (Payload.decode pd (rw_in w)) as [[r0 pd0] src']. injection Hr as _ _ <-. simpl. lia.
Defined.
End RefWorld.
Import RefWorld.

(** ** Runs *)

Definition start (cfg : HttpServiceConfig) (input : list Z) (script : list ChunkPoll) : DState Script unit unit * DS unit unit W :=
  dispatcher_new 7 cfg (mkW input false [] DateService.new script 5 false []).
Definition run (cfg : HttpServiceConfig) (input : list Z) (script : list ChunkPoll) :=
  let '(st, s) := start cfg input script in dispatcher_poll 20 10 st s.

(** What happened, in short. *)
Inductive Note := N_Recv (m : Method) | N_Publish | N_Ask | N_Disconnect | N_Head (status : Z) | N_Chunk (b : list Z) | N_End.
Definition note {M E} (e : Event M E) : list Note :=
  match e with
  | Ev_Recv h _ => [N_Recv (rq_method h)]
  | Ev_Publish _ => [N_Publish]
  | Ev_Control (Control_Disconnect _) => [N_Disconnect]
  | Ev_Control _ => [N_Ask]
  | Ev_Head h _ => [N_Head (rs_status h)]
  | Ev_Chunk b => [N_Chunk b]
  | Ev_Eof => [N_End]
  | _ => []
  end.
Definition notes (r : outcome (Flow Script unit unit * DS unit unit W)) : list Note :=
  match r with Val (_, s) => flat_map note (ds_log s) | _ => [] end.
Definition output (r : outcome (Flow Script unit unit * DS unit unit W)) : list Z :=
  match r with Val (_, s) => rw_out (ds_world s) | _ => [] end.

(** Two pipelined requests. *)
Definition two_gets : list Z := sample_get "GET" ++ sample_get "GET".
Definition hi : list ChunkPoll := [Ready (Some (Ok (bs "hi")))].

Example two_requests :
  notes (run ConfigOps.new two_gets hi)
  = [N_Recv GET; N_Ask; N_Publish; N_Head 200; N_Chunk (bs "hi"); N_End;
     N_Recv GET; N_Ask; N_Publish; N_Head 200; N_Chunk (bs "hi"); N_End].
Proof. vm_compute. reflexivity. Qed.

Lemma dispatcher_refines_spec_witness :
  exists st s,
    run ConfigOps.new two_gets hi = Val (Park st, s) /\
    (exists ph, spec_run P_Idle (ds_log s) = Some ph /\ corresponds st ph) /\
    forall fuel, poll_step fuel st s <> Panic.
Proof.
  eexists _, _. split; [vm_compute; reflexivity|].
  eapply (dispatcher_refines_spec (W := W)).
  eapply (reach_poll (W := W) 20 10 (start ConfigOps.new two_gets hi).1).
  - apply (reach_new 7 ConfigOps.new).
  - vm_compute. reflexivity.
Defined.

Lemma one_response_per_request_witness :
  exists st s,
    run ConfigOps.new two_gets hi = Val (Park st, s) /\
    (heads (ds_log s) + match st with S_CallPublish _ | S_CallControl _ _ => 1 | _ => 0 end
     = recvs (ds_log s))%nat.
Proof.
  eexists _, _. split; [vm_compute; reflexivity|].
  eapply (one_response_per_request (W := W)).
  - eapply (reach_poll (W := W) 20 10 (start ConfigOps.new two_gets hi).1).
    + apply (reach_new 7 ConfigOps.new).
    + vm_compute. reflexivity.
  - vm_compute. reflexivity.
Defined.

Lemma round_returns_witness :
  let '(st, s) := start ConfigOps.new two_gets hi in
  round_fuel st s = 6%nat /\ exists f s', poll_step 6 st s = Val (f, s').
Proof.
  split; [vm_compute; reflexivity|].
  eapply (round_returns (W := W) (start ConfigOps.new two_gets hi).1 (start ConfigOps.new two_gets hi).2 6).
  - apply (reach_new 7 ConfigOps.new).
  - vm_compute. reflexivity.
Defined.

(** A configuration with a payload rate: 100 bytes in 2 seconds, 5 seconds in all. *)
Definition slow_cfg : HttpServiceConfig := ConfigOps.set_payload_read_rate ConfigOps.new 2 5 100.
Definition slow_rate : FrameReadRate := mkRate 100 2 5.
Definition bare (cfg : HttpServiceConfig) : DS unit unit W :=
  mkDS (mkDInner 0 None (codec_new 7 cfg) None 0 0 0) (mkW [] false [] DateService.new [] 5 false []) [].

Definition after {A} (m : DS unit unit W -> outcome (A * DS unit unit W)) (s : DS unit unit W) : DS unit unit W :=
  match m s with Val (_, s') => s' | _ => s end.
Definition slow1 : DS unit unit W := after (update_payload_timer (mkDecoded None 150 0)) (bare slow_cfg).
Definition slow2 : DS unit unit W := after handle_timeout slow1.
Definition slow3 : DS unit unit W := after handle_timeout slow2.

Lemma slow_payload_bounded_witness :
  handle_timeout slow1 = Val (Ok tt, slow2) /\ handle_timeout slow2 = Val (Ok tt, slow3) /\
  2 * 2 < 5 /\ (exists s, handle_timeout slow3 = Val (Err PErr_SlowPayloadTimeout, s)).
Proof.
  split; [reflexivity|]. split; [reflexivity|].
  assert (He : extended slow_rate 2 slow3).
  { apply ext_timeout with slow2; [|reflexivity]. apply ext_timeout with slow1; [|reflexivity].
    apply ext_start with (mkDecoded None 150 0) (bare slow_cfg); reflexivity. }
  destruct (slow_payload_bounded slow_rate 2 slow3 He) as [Hn Hx]; [reflexivity|vm_compute; congruence|].
  split; [exact Hn|]. apply Hx. vm_compute. congruence.
Defined.

(** ** The next request taken from a body *)

(** A POST announces 60 bytes and sends 10; the service answers.  The next 10
    bytes of the body arrive and are passed on.  What arrives then is still the
    body, and it is read as a request. *)
Definition post60 (body : list Z) : list Z :=
  bs "POST /a HTTP/1.1" ++ CRLF ++ bs "Content-Length: 60" ++ CRLF ++ CRLF ++ body.
Definition smuggled : list Z := bs "GET /admin HTTP/1.1" ++ CRLF ++ bs "Host: a" ++ CRLF ++ CRLF.

(** More input arrives. *)
Definition arrive (s : DS unit unit W) (input : list Z) : DS unit unit W :=
  mkDS (ds_inner s) (set_in (ds_world s) input) (ds_log s).
Fixpoint run_parts (r : outcome (Flow Script unit unit * DS unit unit W)) (parts : list (list Z))
  : outcome (Flow Script unit unit * DS unit unit W) :=
  match parts, r with
  | input :: parts', Val (Park st, s) => run_parts (dispatcher_poll 20 10 st (arrive s input)) parts'
  | _, _ => r
  end.

Example body_read_as_request :
  notes (run_parts (run ConfigOps.new (post60 (bs "0123456789")) []) [bs "0123456789"; smuggled])
  = [N_Recv POST; N_Ask; N_Publish; N_Head 200; N_End;
     N_Recv GET; N_Ask; N_Publish; N_Head 200; N_End].
Proof. vm_compute. reflexivity. Qed.

Lemma unread_payload_witness :
  let s := match run ConfigOps.new (post60 (bs "0123456789")) [] with
           | Val (_, s) => arrive s (bs "0123456789")
           | _ => bare ConfigOps.new
           end in
  exists s', poll_step 10 S_ReadPayload s = Val (Goto S_ReadRequest, s') /\
    di_payload (ds_inner s') = Some (Length 40, 0%nat).
Proof.
  intros s.
  destruct (proj2 (unread_payload s) 8%nat (Length 50) 0%nat (bs "0123456789") 0 10 0 0 (Length 40) (Length 40)
              (ds_world s) (set_reads (set_in (ds_world s) []) 1)
              (set_reads (set_in (feed_one (ds_world s) (bs "0123456789")) []) 0))
    as (s' & Hs & Hp & _); try (vm_compute; reflexivity).
  exists s'. by split.
Defined.

(** A body that fails after its first chunk: the head of the 500 follows the chunk. *)
Definition broken : list ChunkPoll := [Ready (Some (Ok (bs "hi"))); Ready (Some (Err 5))].

Example second_head :
  notes (run ConfigOps.new (sample_get "GET") broken)
  = [N_Recv GET; N_Ask; N_Publish; N_Head 200; N_Chunk (bs "hi"); N_Disconnect; N_Head 500].
Proof. vm_compute. reflexivity. Qed.

Lemma failing_body_restarts_witness :
  exists fut s1,
    poll_step 1 (S_SendPayload (RB_Body (mkBodyStream [Ready (Some (Err 5))]) : ResponseBody Script unit))
      (bare ConfigOps.new) = Val (Goto (S_CallControl body_failed fut), s1) /\
    ds_log s1 = [Ev_Control body_failed] /\
    exists s2, poll_step 1 (S_CallControl body_failed fut : DState Script unit unit) s1 = Val (Goto S_Stop, s2).
Proof.
  destruct (failing_body_restarts (bare ConfigOps.new) 0 (RB_Body (mkBodyStream [Ready (Some (Err 5))])) 5
    (RB_Body (mkBodyStream [])) (Ok tt) (ds_world (bare ConfigOps.new)))
    as (fut & s1 & Hs & Hl & Hnext); [reflexivity..|].
  exists fut, s1. split; [exact Hs|]. split; [exact Hl|].
  assert (Hs1 : s1 = mkDS (closing (ds_inner (bare ConfigOps.new))) (ds_world (bare ConfigOps.new))
                       [Ev_Control body_failed]).
  { vm_compute in Hs. vm_compute. congruence. }
  subst s1. edestruct (Hnext 1%nat) as (s2 & Hs2 & _); [reflexivity|reflexivity|vm_compute; reflexivity|].
  by exists s2.
Defined.
