(* ===== verification/ClientPool.v ===== *)
(** * The client's connection pool

    [client/pool.rs]: connections by authority, the ones in use, the ones being
    opened, and the callers that wait.  An io handle, the sending half of a
    waiter's channel and an instant are numbers; whether an io is closed and what
    is in its read buffer is given by the moment [Now].  What the pool does to
    the outside, a reply to a waiter or the shutdown of an io, is a list of
    effects.  The asynchronous parts are separate steps: a connection attempt
    ends when the connector answers, the support task runs when it was woken. *)
From S2P Require Import Prelude.

(** [Authority], by its text. *)
Definition Key := string.

(** [AvailableConnection] *)
Record AvailableConnection := mkAvail { av_io : nat; av_used : Z; av_created : Z }.

(** A connection handed out: [Connection] with its [Acquired] guard. *)
Record Held := mkHeld { h_key : Key; h_io : nat; h_created : Z }.

Inductive Acquire :=
| Acq_Acquired (io : nat) (created : Z)
| Acq_Available
| Acq_NotAvailable.

(** The settings of [ClientConfig] the pool reads. *)
Record PoolConfig := mkPoolConfig { limit : Z; conn_keep_alive : Z; conn_lifetime : Z }.

(** The clock, the ios and the receivers as they are at one moment. *)
Record Now := mkNow {
  now : Z;
  io_closed : nat -> bool;
  io_read_buf : nat -> list Z;
  canceled : nat -> bool
}.

Inductive Effect :=
| Eff_Shutdown (io : nat)
| Eff_ClearBuf (io : nat)
| Eff_Reply (tx : nat) (c : option Held)
| Eff_Connect (k : Key).

(** [ConnectionPool] with [Inner] and [Waiters]; [waker] says that the support
    task is to run, [opening] are the tasks of [open_connection] with their
    guards, [held] the live [Acquired] guards. *)
Record Pool := mkPool {
  cfg : PoolConfig;
  stopped : bool;
  acquired : Z;
  available : gmap Key (list AvailableConnection);
  connecting : gset Key;
  waker : bool;
  waiters : gmap Key (list nat);
  opening : list (Key * nat);
  held : list Held
}.

(** [ConnectionPool::new]: the support task has been spawned, so it is to run. *)
Definition pool_new (c : PoolConfig) : Pool := mkPool c false 0 ∅ ∅ true ∅ [] [].

Definition set_available (p : Pool) (a : gmap Key (list AvailableConnection)) : Pool :=
  mkPool (cfg p) (stopped p) (acquired p) a (connecting p) (waker p) (waiters p) (opening p) (held p).
Definition set_waiters (p : Pool) (w : gmap Key (list nat)) : Pool :=
  mkPool (cfg p) (stopped p) (acquired p) (available p) (connecting p) (waker p) w (opening p) (held p).
Definition set_waker (p : Pool) (w : bool) : Pool :=
  mkPool (cfg p) (stopped p) (acquired p) (available p) (connecting p) w (waiters p) (opening p) (held p).
Definition set_stopped (p : Pool) : Pool :=
  mkPool (cfg p) true (acquired p) (available p) (connecting p) (waker p) (waiters p) (opening p) (held p).
Definition set_opening (p : Pool) (c : gset Key) (o : list (Key * nat)) : Pool :=
  mkPool (cfg p) (stopped p) (acquired p) (available p) c (waker p) (waiters p) o (held p).
Definition set_held (p : Pool) (n : Z) (h : list Held) : Pool :=
  mkPool (cfg p) (stopped p) n (available p) (connecting p) (waker p) (waiters p) (opening p) h.

(** ** [Inner::acquire] *)

Definition is_stale (c : PoolConfig) (n : Now) (conn : AvailableConnection) : bool :=
  (conn_keep_alive c <? now n - av_used conn) || (conn_lifetime c <? now n - av_created conn).

(** The read buffer of an idle connection holds nothing, or a stray CRLF. *)
Definition buf_is_valid (b : list Z) : bool := (zlen b =? 0) || bool_decide (b = CRLF).

(** The loop over the connections, last one first: the usable one it stops at,
    and what is left. *)
Fixpoint take_usable (c : PoolConfig) (n : Now) (conns : list AvailableConnection)
  : option AvailableConnection * list AvailableConnection * list Effect :=
  match conns with
  | [] => (None, [], [])
  | conn :: conns' =>
      if is_stale c n conn then
        let '(r, rest, e) := take_usable c n conns' in (r, rest, Eff_Shutdown (av_io conn) :: e)
      else if io_closed n (av_io conn) then take_usable c n conns'
      else if buf_is_valid (io_read_buf n (av_io conn))
      then (Some conn, conns', [Eff_ClearBuf (av_io conn)])
      else take_usable c n conns'
  end.

Definition acquire (p : Pool) (n : Now) (k : Key) : Acquire * Pool * list Effect :=
  if (0 <? limit (cfg p)) && (limit (cfg p) <=? acquired p) then (Acq_NotAvailable, p, [])
  else
    let '(found, p', e) :=
      match available p !! k with
      | Some conns =>
          let '(r, rest, e) := take_usable (cfg p) n (rev conns) in
          (r, set_available p (<[k := rev rest]> (available p)), e)
      | None => (None, p, [])
      end in
    match found with
    | Some conn => (Acq_Acquired (av_io conn) (av_created conn), p', e)
    | None => (if decide (k ∈ connecting p') then Acq_NotAvailable else Acq_Available, p', e)
    end.

(** ** [Waiters] *)

Definition wait_for (p : Pool) (k : Key) (tx : nat) : Pool :=
  set_waiters p (<[k := default [] (waiters p !! k) ++ [tx]]> (waiters p)).

(** Drop the canceled waiters at the front of a queue. *)
Fixpoint drop_canceled (n : Now) (q : list nat) : list nat :=
  match q with
  | tx :: q' => if canceled n tx then drop_canceled n q' else q
  | [] => []
  end.

(** Queues that are empty afterwards are removed. *)
Definition cleanup (n : Now) (w : gmap Key (list nat)) : gmap Key (list nat) :=
  omap (fun q => match drop_canceled n q with [] => None | q' => Some q' end) w.

Definition check_availibility (p : Pool) (n : Now) : Pool :=
  let w := cleanup n (waiters p) in
  let p := set_waiters p w in
  if negb (bool_decide (w = ∅)) && (acquired p <? limit (cfg p)) then set_waker p true else p.

(** ** Guards *)

(** [Acquired::new] with the connection it belongs to. *)
Definition acquired_new (p : Pool) (h : Held) : Pool := set_held p (acquired p + 1) (held p ++ [h]).

(** [OpenGuard::new], in [open_connection]. *)
Definition open_connection (p : Pool) (k : Key) (tx : nat) : Pool * list Effect :=
  (set_opening p ({[k]} ∪ connecting p) (opening p ++ [(k, tx)]), [Eff_Connect k]).

(** [Drop for OpenGuard] *)
Definition drop_open_guard (p : Pool) (n : Now) (k : Key) : Pool :=
  check_availibility (set_opening p (connecting p ∖ {[k]}) (opening p)) n.

(** The guard of [h] is gone: [acquired] goes down by one, which would be an
    underflow at zero. *)
Definition release_guard (p : Pool) (i : nat) : option (Held * Pool) :=
  h ← held p !! i;
  if acquired p =? 0 then None else Some (h, set_held p (acquired p - 1) (delete i (held p))).

(** [Acquired::release] *)
Definition release (p : Pool) (n : Now) (i : nat) (close : bool) : option (Pool * list Effect) :=
  '(h, p1) ← release_guard p i;
  if close then Some (check_availibility p1 n, [Eff_Shutdown (h_io h)])
  else
    let conns := default [] (available p1 !! h_key h) ++ [mkAvail (h_io h) (now n) (h_created h)] in
    Some (check_availibility (set_available p1 (<[h_key h := conns]> (available p1))) n, []).

(** [Drop for Acquired] *)
Definition drop_acquired (p : Pool) (n : Now) (i : nat) : option Pool :=
  '(_, p1) ← release_guard p i; Some (check_availibility p1 n).

(** ** The service, the tasks *)

(** [ConnectionPool::call] for a uri with this authority; the reply of a call is
    sent on [tx]. *)
Definition call (p : Pool) (n : Now) (authority : option Key) (tx : nat) : Pool * list Effect :=
  match authority with
  | None => (p, [Eff_Reply tx None])
  | Some k =>
      match acquire p n k with
      | (Acq_Acquired io created, p', e) =>
          let h := mkHeld k io created in (acquired_new p' h, e ++ [Eff_Reply tx (Some h)])
      | (Acq_Available, p', e) => let '(p2, e2) := open_connection p' k tx in (p2, e ++ e2)
      | (Acq_NotAvailable, p', e) => (wait_for p' k tx, e)
      end
  end.

(** The task of [open_connection], when the connector has answered. *)
Definition open_done (p : Pool) (n : Now) (i : nat) (res : option nat) : option (Pool * list Effect) :=
  '(k, tx) ← opening p !! i;
  let p0 := set_opening p (connecting p) (delete i (opening p)) in
  match res with
  | None => Some (drop_open_guard p0 n k, [Eff_Reply tx None])
  | Some io =>
      if stopped p then Some (drop_open_guard p0 n k, [])
      else
        let h := mkHeld k io (now n) in
        let p1 := acquired_new (set_opening p0 (connecting p0 ∖ {[k]}) (opening p0)) h in
        '(p2, e2) ← (if canceled n tx then release p1 n (length (held p0)) false
                     else Some (p1, [Eff_Reply tx (Some h)]));
        Some (check_availibility p2 n, e2)
  end.

(** The waiters of one key, front first: the pool, whether the queues are to be
    cleaned up, the effects, and the waiters that stay. *)
Fixpoint serve_key (p : Pool) (n : Now) (k : Key) (q : list nat)
  : Pool * bool * list Effect * list nat :=
  match q with
  | [] => (p, false, [], [])
  | tx :: q' =>
      if canceled n tx then
        let '(p', _, e, r) := serve_key p n k q' in (p', true, e, r)
      else
        match acquire p n k with
        | (Acq_NotAvailable, p1, e) => (p1, false, e, q)
        | (Acq_Acquired io created, p1, e) =>
            let h := mkHeld k io created in
            let '(p', _, e', r) := serve_key (acquired_new p1 h) n k q' in
            (p', true, e ++ Eff_Reply tx (Some h) :: e', r)
        | (Acq_Available, p1, e) =>
            let '(p2, e2) := open_connection p1 k tx in
            let '(p', _, e', r) := serve_key p2 n k q' in
            (p', true, e ++ e2 ++ e', r)
        end
  end.

(** One round of [run_connection_pool] over the keys in the order the hash map
    gives them. *)
Fixpoint serve_keys (p : Pool) (n : Now) (order : list Key) : Pool * bool * list Effect :=
  match order with
  | [] => (p, false, [])
  | k :: order' =>
      let '(p1, c1, e1, r) := serve_key p n k (default [] (waiters p !! k)) in
      let '(p2, c2, e2) := serve_keys (set_waiters p1 (<[k := r]> (waiters p1))) n order' in
      (p2, c1 || c2, e1 ++ e2)
  end.

Definition run_task (p : Pool) (n : Now) (order : list Key) : Pool * list Effect :=
  let '(p', c, e) := serve_keys (set_waker p false) n order in
  (if c then set_waiters p' (cleanup n (waiters p')) else p', e).

(** [Service::shutdown], and [Drop] of the last handle. *)
Definition pool_shutdown (p : Pool) : Pool := set_stopped p.
Definition pool_drop (p : Pool) : Pool := set_waker (set_stopped (set_waiters p ∅)) true.

(** The life of a pool somebody keeps a handle of: one step at one moment.  The
    support task is taken to have had its first turn before a shutdown. *)
Inductive pool_step (n : Now) : Pool -> Pool -> Prop :=
| ps_call p authority tx : pool_step n p (call p n authority tx).1
| ps_open p i res p' e : open_done p n i res = Some (p', e) -> pool_step n p p'
| ps_release p i close p' e : release p n i close = Some (p', e) -> pool_step n p p'
| ps_drop p i p' : drop_acquired p n i = Some p' -> pool_step n p p'
| ps_task p order :
    waker p = true -> stopped p = false -> order ≡ₚ (map_to_list (waiters p)).*1 ->
    pool_step n p (run_task p n order).1
| ps_shutdown p : pool_step n p (pool_shutdown p).

Definition pool_reach (c : PoolConfig) (p : Pool) : Prop :=
  rtc (fun p1 p2 => exists n, pool_step n p1 p2) (pool_new c) p.
