(* ===== verification/ClientPoolThms.v ===== *)
(** * What the client's pool guarantees

    The count of connections in use, the limit, the wake-up of waiters and the
    state of a connection that is handed out again, as invariants over every
    history of the pool; and the two places where the limit is not what its
    documentation says. *)
From S2P Require Import Prelude ClientPool.

(** ** Accounting *)

Definition held_of (p : Pool) (k : Key) : nat := length (filter (fun h => h_key h = k) (held p)).
Definition opening_of (p : Pool) (k : Key) : nat := length (filter (fun o => o.1 = k) (opening p)).
Definition avail_of (p : Pool) (k : Key) : nat := length (default [] (available p !! k)).

(** All connections to a host: in use, being opened, idle. *)
Definition conns (p : Pool) (k : Key) : nat := (held_of p k + opening_of p k + avail_of p k)%nat.

Record Acc (p : Pool) : Prop := {
  acc_acquired : acquired p = zlen (held p);
  acc_opening : NoDup (opening p).*1;
  acc_connecting : connecting p = list_to_set (opening p).*1;
  acc_limit : 0 < limit (cfg p) -> forall k, (Z.of_nat (conns p k) <= limit (cfg p))%Z
}.

(** The waiters and the waker do not matter for the account. *)
Lemma Acc_waiters p w : Acc p -> Acc (set_waiters p w).
Proof. by intros [? ? ? ?]. Qed.
Lemma Acc_waker p w : Acc p -> Acc (set_waker p w).
Proof. by intros [? ? ? ?]. Qed.
Lemma Acc_check p n : Acc p -> Acc (check_availibility p n).
Proof. intros. unfold check_availibility. case_match; auto using Acc_waiters, Acc_waker. Qed.

Lemma held_of_bound p k : (held_of p k <= length (held p))%nat.
Proof. unfold held_of. apply length_filter. Qed.

(** ** [take_usable] and [acquire] *)

Definition usable (c : PoolConfig) (n : Now) (conn : AvailableConnection) : Prop :=
  is_stale c n conn = false /\ io_closed n (av_io conn) = false /\
  (io_read_buf n (av_io conn) = [] \/ io_read_buf n (av_io conn) = CRLF).

Lemma buf_is_valid_spec b : buf_is_valid b = true <-> b = [] \/ b = CRLF.
Proof.
  unfold buf_is_valid. rewrite orb_true_iff, bool_decide_eq_true, Z.eqb_eq, zlen_0. done.
Qed.

Lemma take_usable_spec c n l r rest e :
  take_usable c n l = (r, rest, e) ->
  match r with
  | Some conn => exists skipped, l = skipped ++ conn :: rest /\ usable c n conn /\
                   Forall (fun x => ~ usable c n x) skipped
  | None => rest = [] /\ Forall (fun x => ~ usable c n x) l
  end.
Proof.
  revert r rest e. induction l as [|conn l IH]; intros r rest e Ht; simpl in Ht; [by simplify_eq|].
  assert (Hskip : ~ usable c n conn -> forall e0, take_usable c n l = (r, rest, e0) ->
    match r with
    | Some conn0 => exists skipped, conn :: l = skipped ++ conn0 :: rest /\ usable c n conn0 /\
                      Forall (fun x => ~ usable c n x) skipped
    | None => rest = [] /\ Forall (fun x => ~ usable c n x) (conn :: l)
    end).
  { intros Hn e0 He. apply IH in He. destruct r as [conn0|].
    - destruct He as (sk & -> & Hu & Hs). exists (conn :: sk). auto.
    - destruct He as [-> Hf]. auto. }
  destruct (is_stale c n conn) eqn:Es.
  { destruct (take_usable c n l) as [[r0 rest0] e0] eqn:El. simplify_eq.
    eapply Hskip; [|done]. intros (? & _). congruence. }
  destruct (io_closed n (av_io conn)) eqn:Ec.
  { eapply Hskip; [|done]. intros (_ & ? & _). congruence. }
  destruct (buf_is_valid (io_read_buf n (av_io conn))) eqn:Eb.
  - simplify_eq. exists []. apply buf_is_valid_spec in Eb. done.
  - eapply Hskip; [|done]. intros (_ & _ & Hb). apply buf_is_valid_spec in Hb. congruence.
Qed.

Definition at_limit (p : Pool) : Prop := 0 < limit (cfg p) /\ limit (cfg p) <= acquired p.

(** The idle connections of a key. *)
Definition idle (p : Pool) (k : Key) : list AvailableConnection := default [] (available p !! k).

Lemma acquire_spec p n k r p' e :
  acquire p n k = (r, p', e) ->
  (exists a, p' = set_available p a) /\ (forall k', k' <> k -> idle p' k' = idle p k') /\
  match r with
  | Acq_NotAvailable => (at_limit p \/ k ∈ connecting p) /\ (length (idle p' k) <= length (idle p k))%nat
  | Acq_Available => ~ at_limit p /\ (k ∉ connecting p) /\ idle p' k = [] /\
                     Forall (fun x => ~ usable (cfg p) n x) (idle p k)
  | Acq_Acquired io created =>
      ~ at_limit p /\
      exists conn skipped, idle p k = (idle p' k ++ conn :: skipped) /\ usable (cfg p) n conn /\
        io = av_io conn /\ created = av_created conn /\
        Forall (fun x => ~ usable (cfg p) n x) skipped
  end.
Proof.
  unfold acquire, at_limit. intros Ha.
  destruct ((0 <? limit (cfg p)) && (limit (cfg p) <=? acquired p)) eqn:El.
  { simplify_eq. zbool. split; [by exists (available p'); destruct p'|]. split; [done|]. by split; [left|]. }
  assert (Hlim : ~ (0 < limit (cfg p) /\ limit (cfg p) <= acquired p)).
  { intros [H1 H2]. apply andb_false_iff in El as [El|El]; zbool; lia. }
  destruct (available p !! k) as [l|] eqn:Ek.
  - destruct (take_usable (cfg p) n (rev l)) as [[r0 rest] e0] eqn:Et.
    apply take_usable_spec in Et.
    assert (Hidle : forall k', k' <> k -> idle (set_available p (<[k:=rev rest]> (available p))) k' = idle p k').
    { intros k' Hk. unfold idle. simpl. by rewrite lookup_insert_ne. }
    assert (Hk : idle (set_available p (<[k:=rev rest]> (available p))) k = rev rest).
    { unfold idle. simpl. by rewrite lookup_insert_eq. }
    assert (Hl : idle p k = l) by (unfold idle; by rewrite Ek).
    destruct r0 as [conn|]; simplify_eq; (split; [by eexists|split; [done|]]).
    + split; [done|]. destruct Et as (sk & Hrev & Hu & Hs).
      exists conn, (rev sk). rewrite Hk. split_and!; [|done..|by apply Forall_rev].
      apply (f_equal (@rev _)) in Hrev. rewrite rev_involutive in Hrev. subst.
      rewrite Hrev, rev_app_distr. simpl. by rewrite <- app_assoc.
    + destruct Et as [-> Hf]. simpl in *. case_decide; simplify_eq.
      * split; [by right|]. rewrite Hk. simpl. lia.
      * split; [done|]. split; [done|]. split; [done|].
        apply Forall_rev in Hf. by rewrite rev_involutive in Hf.
  - simpl in *. assert (Hl : idle p k = []) by (unfold idle; by rewrite Ek).
    case_decide; simplify_eq; (split; [by exists (available p'); destruct p'|split; [done|]]).
    + split; [by right|done].
    + rewrite Hl. auto.
Qed.

(** ** Every operation keeps the account *)

Definition one {A} `{EqDecision A} (x y : A) : nat := if decide (x = y) then 1 else 0.

Lemma count_app {A} (P : A -> Prop) `{!forall x, Decision (P x)} l x :
  length (filter P (l ++ [x])) = (length (filter P l) + if decide (P x) then 1 else 0)%nat.
Proof. rewrite filter_app, length_app. by rewrite filter_cons; case_decide. Qed.
Lemma count_delete {A} (P : A -> Prop) `{!forall x, Decision (P x)} l i x :
  l !! i = Some x ->
  length (filter P l) = (length (filter P (delete i l)) + if decide (P x) then 1 else 0)%nat.
Proof.
  intros Hl. apply delete_Permutation in Hl. rewrite Hl at 1. rewrite filter_cons.
  case_decide; simpl; lia.
Qed.

Lemma Acc_intro p p' :
  Acc p -> cfg p' = cfg p -> acquired p' = zlen (held p') ->
  NoDup (opening p').*1 -> connecting p' = list_to_set (opening p').*1 ->
  (0 < limit (cfg p) -> forall k, (Z.of_nat (conns p k) <= limit (cfg p))%Z -> (Z.of_nat (conns p' k) <= limit (cfg p))%Z) ->
  Acc p'.
Proof.
  intros [? ? ? Hl] Hc ? ? ? Hk. split; [done..|]. rewrite Hc. auto.
Qed.

(** What [acquire] alone does keeps the account. *)
Lemma acquire_conns p n k r p' e k' :
  acquire p n k = (r, p', e) -> (avail_of p' k' <= avail_of p k')%nat.
Proof.
  intros Ha. apply acquire_spec in Ha as (_ & Hi & Hr). unfold avail_of. fold (idle p' k') (idle p k').
  destruct (decide (k' = k)) as [->|Hk]; [|by rewrite Hi].
  destruct r as [io created| |].
  - destruct Hr as (_ & conn & sk & -> & _). rewrite length_app. simpl. lia.
  - destruct Hr as (_ & _ & -> & _). simpl. lia.
  - apply Hr.
Qed.

Lemma Acc_available p a :
  Acc p -> (forall k, length (default [] (a !! k)) <= avail_of p k)%nat -> Acc (set_available p a).
Proof.
  intros HA Ha. eapply Acc_intro; [exact HA|done|apply HA|apply HA|apply HA|].
  intros Hl k Hk. specialize (Ha k). unfold conns, held_of, opening_of, avail_of in *. simpl. lia.
Qed.

Lemma acquire_acc p n k r p' e : Acc p -> acquire p n k = (r, p', e) -> Acc p'.
Proof.
  intros HA Ha. destruct (acquire_spec _ _ _ _ _ _ Ha) as ([a ->] & _).
  apply Acc_available; [done|]. intros k'. by eapply (acquire_conns _ _ _ _ _ _ k') in Ha.
Qed.

Lemma acquired_acc p n k io created p' e :
  Acc p -> acquire p n k = (Acq_Acquired io created, p', e) -> Acc (acquired_new p' (mkHeld k io created)).
Proof.
  intros HA Ha. destruct (acquire_spec _ _ _ _ _ _ Ha) as ([a ->] & Hi & Hr).
  destruct Hr as (_ & conn & sk & Hk & _). pose proof HA as [Hac Hn Hc Hl].
  eapply Acc_intro; [exact HA|done| |done|done|]; simpl.
  { rewrite Hac. unfold zlen. rewrite length_app. simpl. lia. }
  intros Hp k' Hk'. specialize (Hi k'). unfold conns, held_of, opening_of, avail_of in *. simpl.
  rewrite (count_app (fun h => h_key h = k')). simpl. unfold idle in Hi, Hk. simpl in *.
  destruct (decide (k = k')) as [<-|Hne].
  - rewrite Hk, length_app in Hk'. simpl in Hk'. lia.
  - rewrite Hi by congruence. lia.
Qed.

Lemma opening_free (p : Pool) k : Acc p -> k ∉ connecting p -> opening_of p k = 0%nat.
Proof.
  intros [_ _ Hc _] Hk. rewrite Hc in Hk. unfold opening_of.
  destruct (filter (fun o => o.1 = k) (opening p)) as [|o l] eqn:Ef; [done|].
  assert (Ho : o ∈ filter (fun o => o.1 = k) (opening p)) by (rewrite Ef; left).
  apply list_elem_of_filter in Ho as [<- Ho]. exfalso. apply Hk.
  apply elem_of_list_to_set, list_elem_of_fmap. by exists o.
Qed.

Lemma open_acc p n k tx p' e :
  Acc p -> acquire p n k = (Acq_Available, p', e) -> Acc (open_connection p' k tx).1.
Proof.
  intros HA Ha. pose proof (acquire_acc _ _ _ _ _ _ HA Ha) as HA'.
  destruct (acquire_spec _ _ _ _ _ _ Ha) as ([a ->] & Hi & (Hlim & Hk & Hidle & _)).
  pose proof HA as [Hac Hn Hc Hl]. pose proof (opening_free p k HA Hk) as Hof.
  eapply Acc_intro; [exact HA'|done|done|..]; simpl.
  - rewrite fmap_app. apply NoDup_app. split_and!; [done| |apply NoDup_singleton].
    intros x Hx Hx'. apply list_elem_of_singleton in Hx' as ->. apply Hk. rewrite Hc. by apply elem_of_list_to_set.
  - rewrite Hc, fmap_app, list_to_set_app_L. simpl.
    by rewrite (right_id_L ∅ (∪)), (comm_L (∪)).
  - intros Hp k' Hk'. unfold conns, held_of, opening_of, avail_of in *. simpl in *.
    rewrite (count_app (fun o => o.1 = k')). simpl.
    destruct (decide (k = k')) as [<-|Hne]; [|lia].
    unfold idle in Hidle. simpl in Hidle. rewrite Hidle. simpl.
    pose proof (held_of_bound p k) as Hb. unfold held_of in Hb. unfold at_limit in Hlim.
    unfold zlen in Hac. rewrite Hof. lia.
Qed.

(** A live guard can always be given up: the count does not underflow. *)
Lemma release_guard_acc p i h :
  Acc p -> held p !! i = Some h ->
  exists p1, release_guard p i = Some (h, p1) /\ Acc p1 /\
    p1 = set_held p (acquired p - 1) (delete i (held p)) /\
    forall k, (conns p1 k + one (h_key h) k)%nat = conns p k.
Proof.
  intros HA Hh. pose proof HA as [Hac Hn Hc Hl]. unfold release_guard. rewrite Hh. simpl.
  assert (Hlen : length (held p) = S (length (delete i (held p)))).
  { apply delete_Permutation in Hh. by rewrite Hh at 1. }
  assert (Hconns : forall k, (conns (set_held p (acquired p - 1) (delete i (held p))) k
                              + one (h_key h) k)%nat = conns p k).
  { intros k. unfold conns, held_of, opening_of, avail_of, one. simpl.
    rewrite (count_delete (fun h => h_key h = k) (held p) i h Hh). lia. }
  rewrite Hac. unfold zlen. rewrite Hlen. destruct (_ =? 0) eqn:E0; zbool; [lia|].
  eexists. split; [done|]. rewrite Hac in Hconns. unfold zlen in Hconns. rewrite Hlen in Hconns.
  split; [|by split].
  eapply Acc_intro; [exact HA|done| |done|done|].
  - simpl. unfold zlen. lia.
  - intros Hp k Hk. specialize (Hconns k). lia.
Qed.

Lemma release_acc p n i close p' e : Acc p -> release p n i close = Some (p', e) -> Acc p'.
Proof.
  intros HA Hr. unfold release in Hr. destruct (held p !! i) as [h|] eqn:Eh.
  2:{ unfold release_guard in Hr. by rewrite Eh in Hr. }
  destruct (release_guard_acc p i h HA Eh) as (p1 & Hg & HA1 & Hp1 & Hcn). rewrite Hg in Hr.
  simpl in Hr. destruct close; simplify_eq; apply Acc_check; [done|].
  match goal with |- Acc ?q => set (p2 := q) end.
  eapply Acc_intro; [exact HA1|done|apply HA1|apply HA1|apply HA1|].
  intros Hp k Hk. specialize (Hcn k). unfold p2, conns, held_of, opening_of, avail_of in *. simpl in *.
  destruct HA as [_ _ _ Hl]. specialize (Hl Hp k). unfold conns, held_of, opening_of, avail_of, one in *.
  destruct (decide (h_key h = k)) as [<-|Hne].
  - rewrite lookup_insert_eq. simpl. rewrite length_app. simpl. lia.
  - rewrite lookup_insert_ne by done. lia.
Qed.

Lemma drop_acquired_acc p n i p' : Acc p -> drop_acquired p n i = Some p' -> Acc p'.
Proof.
  intros HA Hr. unfold drop_acquired in Hr. destruct (held p !! i) as [h|] eqn:Eh.
  2:{ unfold release_guard in Hr. by rewrite Eh in Hr. }
  destruct (release_guard_acc p i h HA Eh) as (p1 & Hg & HA1 & _). rewrite Hg in Hr. simpl in Hr.
  simplify_eq. by apply Acc_check.
Qed.

(** The end of a connection attempt: the task and its key leave together. *)
Definition opened (p : Pool) (i : nat) (k : Key) : Pool :=
  set_opening p (connecting p ∖ {[k]}) (delete i (opening p)).

Lemma opened_acc p i k tx :
  Acc p -> opening p !! i = Some (k, tx) ->
  Acc (opened p i k) /\ forall k', (conns (opened p i k) k' + one k k')%nat = conns p k'.
Proof.
  intros HA Ho. pose proof HA as [Hac Hn Hc Hl].
  assert (Hconns : forall k', (conns (opened p i k) k' + one k k')%nat = conns p k').
  { intros k'. unfold conns, held_of, opening_of, avail_of, one, opened. simpl.
    rewrite (count_delete (fun o => o.1 = k') (opening p) i (k, tx) Ho). simpl. lia. }
  split; [|done]. apply delete_Permutation in Ho as Hp.
  apply (fmap_Permutation fst) in Hp. simpl in Hp.
  assert (Hn2 : NoDup (k :: (delete i (opening p)).*1)) by (by rewrite <- Hp).
  apply NoDup_cons in Hn2 as [Hk Hn2].
  eapply Acc_intro; [exact HA|done|done|done| |].
  - unfold opened. simpl. rewrite Hc, (list_to_set_perm_L _ _ Hp). simpl.
    rewrite difference_union_distr_l_L, difference_diag_L, (left_id_L ∅ (∪)).
    apply difference_disjoint_L. apply disjoint_singleton_r. by rewrite elem_of_list_to_set.
  - intros Hpos k' Hk'. specialize (Hconns k'). lia.
Qed.

Lemma open_done_acc p n i res p' e : Acc p -> open_done p n i res = Some (p', e) -> Acc p'.
Proof.
  intros HA Hd. unfold open_done in Hd. destruct (opening p !! i) as [[k tx]|] eqn:Eo; [|done].
  simpl in Hd. destruct (opened_acc p i k tx HA Eo) as [HAo Hcn].
  destruct res as [io|]; [|simplify_eq; by apply Acc_check].
  destruct (stopped p); [simplify_eq; by apply Acc_check|].
  match type of Hd with context [acquired_new ?q ?h] =>
    change q with (opened p i k) in Hd; set (p1 := acquired_new (opened p i k) h) in * end.
  assert (HA1 : Acc p1).
  { pose proof HAo as [Hac Hn Hc Hl]. eapply Acc_intro; [exact HAo|done| |exact Hn|exact Hc|].
    - unfold p1. simpl. simpl in Hac. rewrite Hac. unfold zlen. rewrite length_app. simpl. lia.
    - intros Hp k' _. specialize (Hcn k'). destruct HA as [_ _ _ HL]. specialize (HL Hp k').
      unfold p1, conns, held_of, opening_of, avail_of, one in *. simpl in *.
      rewrite (count_app (fun h => h_key h = k')). simpl. lia. }
  destruct (canceled n tx).
  - destruct (release p1 n _ false) as [[p2 e2]|] eqn:Er; [|done]. simpl in Hd. simplify_eq.
    apply Acc_check. by eapply release_acc.
  - simpl in Hd. simplify_eq. by apply Acc_check.
Qed.

Lemma wait_acc p k tx : Acc p -> Acc (wait_for p k tx).
Proof. apply Acc_waiters. Qed.

Lemma call_acc p n a tx : Acc p -> Acc (call p n a tx).1.
Proof.
  intros HA. unfold call. destruct a as [k|]; [|done]. destruct (acquire p n k) as [[[io created| |] p'] e] eqn:Ea.
  - by eapply acquired_acc.
  - pose proof (open_acc p n k tx p' e HA Ea) as Ho.
    destruct (open_connection p' k tx) as [p2 e2]. done.
  - simpl. eapply wait_acc, acquire_acc; [exact HA|exact Ea].
Qed.

Lemma serve_key_acc n k q : forall p p' c e r, Acc p -> serve_key p n k q = (p', c, e, r) -> Acc p'.
Proof.
  induction q as [|tx q IH]; intros p p' c e r HA Hs; cbn [serve_key] in Hs; [by simplify_eq|].
  destruct (canceled n tx).
  { destruct (serve_key p n k q) as [[[p1 c1] e1] r1] eqn:E1. simplify_eq. by eapply IH. }
  destruct (acquire p n k) as [[[io created| |] p1] e1] eqn:Ea.
  - destruct (serve_key (acquired_new p1 _) n k q) as [[[p2 c2] e2] r2] eqn:E2. simplify_eq.
    eapply IH; [|exact E2]. by eapply acquired_acc.
  - pose proof (open_acc p n k tx p1 e1 HA Ea) as Ho.
    destruct (open_connection p1 k tx) as [p2 e2].
    destruct (serve_key p2 n k q) as [[[p3 c3] e3] r3] eqn:E3. simplify_eq.
    eapply (IH p2); [exact Ho|exact E3].
  - simplify_eq. by eapply acquire_acc.
Qed.

Lemma serve_keys_acc n order : forall p p' c e, Acc p -> serve_keys p n order = (p', c, e) -> Acc p'.
Proof.
  induction order as [|k order IH]; intros p p' c e HA Hs; simpl in Hs; [by simplify_eq|].
  destruct (serve_key p n k _) as [[[p1 c1] e1] r] eqn:E1.
  destruct (serve_keys (set_waiters p1 _) n order) as [[p2 c2] e2] eqn:E2. simplify_eq.
  eapply IH; [|exact E2]. apply Acc_waiters. by eapply serve_key_acc.
Qed.

Lemma step_acc n p p' : pool_step n p p' -> Acc p -> Acc p'.
Proof.
  intros [p0 a tx|p0 i res p1 e Hd|p0 i close p1 e Hr|p0 i p1 Hr|p0 order Hw Hst Ho|p0] HA.
  - by apply call_acc.
  - by eapply open_done_acc.
  - by eapply release_acc.
  - by eapply drop_acquired_acc.
  - unfold run_task. destruct (serve_keys (set_waker p0 false) n order) as [[p1 c] e] eqn:Es.
    apply serve_keys_acc in Es; [|by apply Acc_waker]. simpl. destruct c; [by apply Acc_waiters|done].
  - unfold pool_shutdown, set_stopped. by destruct HA.
Qed.

Lemma reach_acc c p : pool_reach c p -> Acc p.
Proof.
  intros Hr. assert (H0 : Acc (pool_new c)).
  { split; [done|constructor|done|]. simpl. intros Hl k. unfold conns, held_of, opening_of, avail_of. simpl.
    rewrite lookup_empty. simpl. lia. }
  revert H0. induction Hr as [|p1 p2 p3 [n Hs] _ IH]; [done|]. intros HA. apply IH. by eapply step_acc.
Qed.

(** ** Waiters *)

(** The parts of the pool a step only adds to, as far as a waiter can see. *)
Definition grows (p p' : Pool) : Prop :=
  cfg p' = cfg p /\ acquired p <= acquired p' /\ connecting p ⊆ connecting p' /\
  waker p' = waker p /\ stopped p' = stopped p.

#[export] Instance grows_preorder : PreOrder grows.
Proof.
  split; [by intros ?|]. intros p1 p2 p3 (? & ? & ? & ? & ?) (? & ? & ? & ? & ?).
  split_and!; try congruence; [lia|by etrans].
Qed.

(** No connection can be had for the key now. *)
Definition full (p : Pool) (k : Key) : Prop := at_limit p \/ k ∈ connecting p.

Lemma full_grows p p' k : grows p p' -> full p k -> full p' k.
Proof.
  intros (Hc & Ha & Hs & _) [[? ?]|?]; [left|by right; apply Hs]. unfold at_limit. rewrite Hc. lia.
Qed.

Lemma acquire_grows p n k r p' e : acquire p n k = (r, p', e) -> grows p p' /\ waiters p' = waiters p.
Proof. intros Ha. apply acquire_spec in Ha as ([a ->] & _). split; [|done]. by split_and!. Qed.
Lemma acquired_new_grows p h : grows p (acquired_new p h).
Proof. split_and!; simpl; [done|lia|done..]. Qed.
Lemma open_connection_grows p k tx : grows p (open_connection p k tx).1.
Proof. split_and!; simpl; [done|lia|apply union_subseteq_r|done..]. Qed.

Lemma serve_key_grows n k q : forall p p' c e r,
  serve_key p n k q = (p', c, e, r) ->
  grows p p' /\ waiters p' = waiters p /\ (r = [] \/ full p' k) /\ r `suffix_of` q.
Proof.
  induction q as [|tx q IH]; intros p p' c e r Hs; cbn [serve_key] in Hs.
  { simplify_eq. split_and!; auto. by split_and!. }
  assert (Hsuf : forall l, l `suffix_of` q -> l `suffix_of` tx :: q) by (intros; by apply suffix_cons_r).
  destruct (canceled n tx).
  { destruct (serve_key p n k q) as [[[p1 c1] e1] r1] eqn:E1. simplify_eq.
    apply IH in E1 as (? & ? & ? & ?). auto. }
  destruct (acquire p n k) as [[[io created| |] p1] e1] eqn:Ea;
    pose proof (acquire_grows _ _ _ _ _ _ Ea) as [Hg Hw].
  - destruct (serve_key (acquired_new p1 _) n k q) as [[[p2 c2] e2] r2] eqn:E2. simplify_eq.
    apply IH in E2 as (Hg2 & Hw2 & ? & ?). split_and!; auto.
    + etrans; [exact Hg|]. etrans; [|exact Hg2]. apply acquired_new_grows.
    + by rewrite Hw2.
  - destruct (open_connection p1 k tx) as [p2 e2] eqn:Eo.
    destruct (serve_key p2 n k q) as [[[p3 c3] e3] r3] eqn:E3. simplify_eq.
    pose proof (open_connection_grows p1 k tx) as Hgo. rewrite Eo in Hgo. simpl in Hgo.
    apply IH in E3 as (Hg2 & Hw2 & ? & ?). split_and!; auto; [by do 2 (etrans; [eassumption|])|].
    rewrite Hw2. unfold open_connection in Eo. by simplify_eq.
  - simplify_eq. split_and!; auto. right. apply acquire_spec in Ea as Hsp. destruct Hsp as ([a ->] & _ & Hf & _).
    done.
Qed.

(** A queue of the map. *)
Definition queue (p : Pool) (k : Key) : list nat := default [] (waiters p !! k).

Lemma serve_keys_grows n order : forall p p' c e,
  NoDup order -> serve_keys p n order = (p', c, e) ->
  grows p p' /\
  (forall k, k ∈ order -> queue p' k = [] \/ full p' k) /\
  (forall k, k ∉ order -> queue p' k = queue p k).
Proof.
  induction order as [|k order IH]; intros p p' c e Hn Hs; cbn [serve_keys] in Hs.
  { simplify_eq. split_and!; [done|by intros ? ?%not_elem_of_nil|done]. }
  apply NoDup_cons in Hn as [Hk Hn].
  destruct (serve_key p n k _) as [[[p1 c1] e1] r] eqn:E1.
  destruct (serve_keys (set_waiters p1 _) n order) as [[p2 c2] e2] eqn:E2. simplify_eq.
  apply serve_key_grows in E1 as (Hg1 & Hw1 & Hr & _). apply IH in E2 as (Hg2 & Hin & Hout); [|done].
  change (grows p1 p') in Hg2. split_and!; [by etrans|..].
  - intros k' [->|Hk']%elem_of_cons; [|by apply Hin]. rewrite Hout by done. unfold queue. simpl.
    rewrite lookup_insert_eq. simpl. destruct Hr as [->|Hf]; [by left|right]. by eapply full_grows.
  - intros k' [Hne Hk']%not_elem_of_cons. rewrite Hout by done. unfold queue. simpl.
    rewrite lookup_insert_ne by done. by rewrite Hw1.
Qed.

Lemma cleanup_lookup n (w : gmap Key (list nat)) k :
  default [] (cleanup n w !! k) `suffix_of` default [] (w !! k).
Proof.
  unfold cleanup. rewrite lookup_omap. destruct (w !! k) as [q|]; simpl; [|done].
  assert (Hd : drop_canceled n q `suffix_of` q).
  { induction q as [|tx q IH]; simpl; [done|]. case_match; [by apply suffix_cons_r|done]. }
  destruct (drop_canceled n q); simpl; [apply suffix_nil|done].
Qed.

(** Either the task is to run, or nobody waits who could be served. *)
Definition Woken (p : Pool) : Prop :=
  0 < limit (cfg p) -> stopped p = false -> waker p = false ->
  forall k, queue p k = [] \/ full p k.

Lemma check_woken p n : Woken (check_availibility p n).
Proof.
  intros Hl _ Hw k. unfold check_availibility in *. destruct (negb _ && _) eqn:Eb; [done|].
  apply andb_false_iff in Eb as [Eb|Eb].
  - apply negb_false_iff, bool_decide_eq_true in Eb. left. unfold queue. simpl. by rewrite Eb, lookup_empty.
  - zbool. right. left. split; [exact Hl|]. simpl in *. lia.
Qed.

Lemma woken_grows p p' : grows p p' -> waiters p' = waiters p -> Woken p -> Woken p'.
Proof.
  intros Hg Hw HW Hl Hs Hk k. pose proof Hg as (Hc & _ & _ & Hwk & Hst).
  unfold queue. rewrite Hw. rewrite Hc in Hl. rewrite Hst in Hs. rewrite Hwk in Hk.
  destruct (HW Hl Hs Hk k) as [?|?]; [by left|right]. by eapply full_grows.
Qed.

Lemma call_woken p n a tx : Woken p -> Woken (call p n a tx).1.
Proof.
  intros HW. unfold call. destruct a as [k|]; [|done]. destruct (acquire p n k) as [[[io created| |] p1] e1] eqn:Ea;
    pose proof (acquire_grows _ _ _ _ _ _ Ea) as [Hg Hw].
  - eapply woken_grows; [|done|exact HW]. etrans; [exact Hg|apply acquired_new_grows].
  - eapply woken_grows; [etrans; [exact Hg|apply (open_connection_grows p1 k tx)]|done|exact HW].
  - pose proof (woken_grows _ _ Hg Hw HW) as HW1. simpl. intros Hl Hs Hk k'.
    destruct (decide (k' = k)) as [->|Hne].
    + right. apply acquire_spec in Ea as ([a ->] & _ & Hf & _). exact Hf.
    + destruct (HW1 Hl Hs Hk k') as [Hq|?]; [left|by right].
      unfold queue in *. simpl. by rewrite lookup_insert_ne.
Qed.

Lemma run_task_woken p n order :
  order ≡ₚ (map_to_list (waiters p)).*1 -> Woken (run_task p n order).1.
Proof.
  intros Ho. unfold run_task. destruct (serve_keys (set_waker p false) n order) as [[p1 c] e] eqn:Es.
  apply serve_keys_grows in Es as (_ & Hin & Hout); [|rewrite Ho; apply NoDup_fst_map_to_list].
  assert (Hall : forall k, queue p1 k = [] \/ full p1 k).
  { intros k. destruct (decide (k ∈ order)) as [|Hk]; [auto|left]. rewrite Hout by done.
    unfold queue. simpl. destruct (waiters p !! k) as [q|] eqn:Eq; [|done]. exfalso. apply Hk. rewrite Ho.
    apply list_elem_of_fmap. exists (k, q). by rewrite elem_of_map_to_list. }
  simpl. intros Hl Hs Hw k. destruct c; [|apply Hall]. destruct (Hall k) as [Hq|Hf]; [left|by right].
  unfold queue in *. simpl. pose proof (cleanup_lookup n (waiters p1) k) as Hc. rewrite Hq in Hc.
  by apply suffix_nil_inv in Hc.
Qed.

Lemma open_done_woken p n i res p' e : open_done p n i res = Some (p', e) -> Woken p'.
Proof.
  unfold open_done. destruct (opening p !! i) as [[k tx]|]; [|done]. simpl.
  destruct res as [io|]; [|intros; simplify_eq; apply check_woken].
  destruct (stopped p); [intros; simplify_eq; apply check_woken|].
  destruct (canceled n tx); [destruct (release _ _ _ _) as [[? ?]|]; [|done]|]; simpl;
    intros; simplify_eq; apply check_woken.
Qed.

Lemma step_woken n p p' : pool_step n p p' -> Woken p -> Woken p'.
Proof.
  intros [p0 a tx|p0 i res p1 e Hd|p0 i close p1 e Hr|p0 i p1 Hr|p0 order Hw Hst Ho|p0] HA.
  - by apply call_woken.
  - by eapply open_done_woken.
  - unfold release in Hr. destruct (release_guard p0 i) as [[h p2]|]; [|done]. simpl in Hr.
    destruct close; simplify_eq; apply check_woken.
  - unfold drop_acquired in Hr. destruct (release_guard p0 i) as [[h p2]|]; [|done]. simpl in Hr.
    simplify_eq. apply check_woken.
  - by apply run_task_woken.
  - by intros ? [=].
Qed.

(** The configuration is never written. *)
Lemma check_cfg p n : cfg (check_availibility p n) = cfg p.
Proof. unfold check_availibility. by case_match. Qed.
Lemma release_guard_cfg p i h p1 : release_guard p i = Some (h, p1) -> cfg p1 = cfg p.
Proof. unfold release_guard. destruct (held p !! i); [|done]. simpl. case_match; intros; by simplify_eq. Qed.
Lemma release_cfg p n i close p' e : release p n i close = Some (p', e) -> cfg p' = cfg p.
Proof.
  unfold release. destruct (release_guard p i) as [[h p1]|] eqn:Eg; [|done]. simpl.
  apply release_guard_cfg in Eg as <-. destruct close; intros; simplify_eq; by rewrite check_cfg.
Qed.

Lemma step_cfg n p p' : pool_step n p p' -> cfg p' = cfg p.
Proof.
  intros [p0 a tx|p0 i res p1 e Hd|p0 i close p1 e Hr|p0 i p1 Hr|p0 order Hw Hst Ho|p0].
  - unfold call. destruct a as [k|]; [|done]. destruct (acquire p0 n k) as [[[io created| |] p1] e1] eqn:Ea;
      by apply acquire_grows in Ea as [(Hc & _) _].
  - unfold open_done in Hd. destruct (opening p0 !! i) as [[k tx]|]; [|done]. simpl in Hd.
    destruct res as [io|]; [|simplify_eq; unfold drop_open_guard; by rewrite check_cfg].
    destruct (stopped p0); [simplify_eq; unfold drop_open_guard; by rewrite check_cfg|].
    destruct (canceled n tx); simpl in Hd; [|simplify_eq; by rewrite check_cfg].
    destruct (release _ _ _ _) as [[? ?]|] eqn:Er; [|done]. simpl in Hd. simplify_eq.
    apply release_cfg in Er. by rewrite check_cfg, Er.
  - by eapply release_cfg.
  - unfold drop_acquired in Hr. destruct (release_guard p0 i) as [[h p2]|] eqn:Eg; [|done].
    simpl in Hr. simplify_eq. rewrite check_cfg. by eapply release_guard_cfg.
  - unfold run_task. destruct (serve_keys (set_waker p0 false) n order) as [[p1 c] e] eqn:Es.
    apply serve_keys_grows in Es as ((Hc & _) & _); [|rewrite Ho; apply NoDup_fst_map_to_list].
    simpl. by destruct c.
  - done.
Qed.

Lemma reach_woken c p : pool_reach c p -> Woken p.
Proof.
  intros Hr. assert (H0 : Woken (pool_new c)) by (by intros ? ?).
  revert H0. induction Hr as [|p1 p2 p3 [n Hs] _ IH]; [done|]. intros HW. apply IH. by eapply step_woken.
Qed.

(** ** A pool without a limit *)

(** The support task is not woken, and [tx] keeps waiting for [k]. *)
Definition ignored (k : Key) (tx : nat) (p : Pool) : Prop :=
  limit (cfg p) = 0 /\ waker p = false /\ tx ∈ queue p k.

Lemma cleanup_keeps n (w : gmap Key (list nat)) k tx :
  canceled n tx = false -> tx ∈ default [] (w !! k) -> tx ∈ default [] (cleanup n w !! k).
Proof.
  intros Hc. unfold cleanup. rewrite lookup_omap. destruct (w !! k) as [q|]; simpl; [|done].
  intros Hq. assert (Hd : tx ∈ drop_canceled n q).
  { induction q as [|tx' q IH]; simpl; [done|].
    destruct (canceled n tx') eqn:E; [|done]. apply elem_of_cons in Hq as [->|Hq]; [congruence|auto]. }
  by destruct (drop_canceled n q).
Qed.

Lemma check_ignored k tx p n :
  canceled n tx = false -> 0 <= acquired p -> ignored k tx p -> ignored k tx (check_availibility p n).
Proof.
  intros Hc Ha (Hl & Hw & Hq). unfold check_availibility.
  assert (E : (acquired (set_waiters p (cleanup n (waiters p))) <?
               limit (cfg (set_waiters p (cleanup n (waiters p))))) = false) by (simpl; lia).
  rewrite E, andb_false_r.
  split_and!; [done|done|]. by apply cleanup_keeps.
Qed.

Lemma ignored_same k tx p p' :
  ignored k tx p -> cfg p' = cfg p -> waker p' = waker p -> waiters p' = waiters p -> ignored k tx p'.
Proof. intros (? & ? & ?) Hc Hw Hq. unfold ignored, queue in *. by rewrite Hc, Hw, Hq. Qed.

Lemma release_guard_same p i h p1 :
  release_guard p i = Some (h, p1) ->
  cfg p1 = cfg p /\ waker p1 = waker p /\ waiters p1 = waiters p /\ acquired p1 = acquired p - 1 /\ acquired p <> 0.
Proof.
  unfold release_guard. destruct (held p !! i); [|done]. simpl.
  destruct (acquired p =? 0) eqn:E; zbool; intros; simplify_eq. done.
Qed.

Lemma release_ignored k tx p n i close p' e :
  canceled n tx = false -> 0 <= acquired p ->
  release p n i close = Some (p', e) -> ignored k tx p -> ignored k tx p' /\ 0 <= acquired p'.
Proof.
  intros Hc Ha Hr HI. unfold release in Hr. destruct (release_guard p i) as [[h p1]|] eqn:Eg; [|done].
  apply release_guard_same in Eg as (H1 & H2 & H3 & H4 & H5). simpl in Hr.
  assert (Hacq : forall q, acquired (check_availibility q n) = acquired q).
  { intros q. unfold check_availibility. by destruct (negb _ && _). }
  destruct close; simplify_eq; rewrite Hacq; (split; [|simpl; lia]);
    (apply check_ignored; [done|simpl; lia|]); eapply ignored_same; try exact HI; done.
Qed.

Lemma step_ignored k tx n p p' :
  canceled n tx = false -> Acc p -> pool_step n p p' -> ignored k tx p -> ignored k tx p'.
Proof.
  intros Hc HA Hs HI. assert (Ha : 0 <= acquired p) by (rewrite (acc_acquired p HA); apply zlen_nonneg).
  destruct Hs as [p a tx'|p i res p1 e Hd|p i close p1 e Hr|p i p1 Hr|p order Hw Hst Ho|p].
  - unfold call. destruct a as [k'|]; [|exact HI]. destruct (acquire p n k') as [[[io created| |] p1] e1] eqn:Ea;
      apply acquire_spec in Ea as ([a ->] & _); [exact HI..|].
    destruct HI as (Hl & Hw & Hq). split_and!; [done..|]. unfold queue in *. simpl.
    destruct (decide (k' = k)) as [->|Hne]; [rewrite lookup_insert_eq|by rewrite lookup_insert_ne].
    simpl. apply elem_of_app. by left.
  - unfold open_done in Hd. destruct (opening p !! i) as [[k' tx']|]; [|done]. simpl in Hd.
    destruct res as [io|];
      [|simplify_eq; apply check_ignored; [done|done|eapply ignored_same; try exact HI; done]].
    destruct (stopped p); [simplify_eq; apply check_ignored; [done|done|eapply ignored_same; try exact HI; done]|].
    destruct (canceled n tx'); simpl in Hd.
    + destruct (release _ _ _ _) as [[p2 e2]|] eqn:Er; [|done]. simpl in Hd. simplify_eq.
      eapply (release_ignored k tx) in Er as [? ?]; [by apply check_ignored|done|simpl; lia|].
      eapply ignored_same; try exact HI; done.
    + simplify_eq. apply check_ignored; [done|simpl; lia|eapply ignored_same; try exact HI; done].
  - by eapply (release_ignored k tx) in Hr as [? _].
  - unfold drop_acquired in Hr. destruct (release_guard p i) as [[h p2]|] eqn:Eg; [|done].
    simpl in Hr. simplify_eq. apply release_guard_same in Eg as (H1 & H2 & H3 & H4 & H5).
    apply check_ignored; [done|lia|eapply ignored_same; try exact HI; done].
  - destruct HI as (_ & Hf & _). congruence.
  - eapply ignored_same; try exact HI; done.
Qed.

Lemma reach_cfg c p : pool_reach c p -> cfg p = c.
Proof.
  intros Hr. change (cfg p = cfg (pool_new c)).
  induction Hr as [|p1 p2 p3 [n Hs] _ IH]; [done|]. rewrite IH. by eapply step_cfg.
Qed.

(** ** Claims *)

(** C12. The account of the pool is right in every state it can reach: [acquired]
    counts the live guards, so giving one up never takes it below zero; the set
    of keys being connected to is that of the running attempts, at most one a
    key; and with a limit no authority ever has more than [limit] connections,
    in use, being opened and idle together. *)
Theorem pool_accounting (c : PoolConfig) (p : Pool) :
  pool_reach c p ->
  acquired p = zlen (held p) /\
  (forall i h, held p !! i = Some h -> exists p', release_guard p i = Some (h, p')) /\
  NoDup (opening p).*1 /\ (forall k, k ∈ connecting p <-> k ∈ (opening p).*1) /\
  (0 < limit (cfg p) -> forall k, Z.of_nat (conns p k) <= limit (cfg p)).
Proof.
  intros Hr. apply reach_acc in Hr as HA. pose proof HA as [Hac Hn Hc Hl]. split_and!; [done| |done| |done].
  - intros i h Hh. destruct (release_guard_acc p i h HA Hh) as (p1 & ? & _). eauto.
  - intros k. rewrite Hc. apply elem_of_list_to_set.
Qed.

(** What [acquire] hands out is a connection the pool held idle for that very
    key, within its keep-alive and its lifetime, open, and with nothing in its
    read buffer but at most a CRLF; every younger one it passed over was not and
    is given up, the older ones stay.  It opens a new connection only when the
    key has no usable one and no attempt is under way, and never at the limit;
    the connections of other keys are not touched. *)
Theorem acquire_usable (p : Pool) (n : Now) (k : Key) r p' e :
  acquire p n k = (r, p', e) ->
  (forall k', k' <> k -> idle p' k' = idle p k') /\
  match r with
  | Acq_Acquired io created =>
      ~ at_limit p /\
      exists conn skipped, idle p k = idle p' k ++ conn :: skipped /\
        io = av_io conn /\ created = av_created conn /\
        (now n - av_used conn <= conn_keep_alive (cfg p) /\
         now n - av_created conn <= conn_lifetime (cfg p)) /\
        io_closed n io = false /\ (io_read_buf n io = [] \/ io_read_buf n io = CRLF) /\
        Forall (fun x => ~ usable (cfg p) n x) skipped
  | Acq_Available =>
      ~ at_limit p /\ (k ∉ connecting p) /\ Forall (fun x => ~ usable (cfg p) n x) (idle p k)
  | Acq_NotAvailable => at_limit p \/ k ∈ connecting p
  end.
Proof.
  intros Ha. apply acquire_spec in Ha as (_ & Hi & Hr). split; [done|]. destruct r.
  - destruct Hr as (Hl & conn & sk & Hk & (Hst & Hcl & Hb) & -> & -> & Hs). split; [done|].
    exists conn, sk. unfold is_stale in Hst. apply orb_false_iff in Hst as [H1 H2]. zbool.
    split_and!; try done; lia.
  - by destruct Hr as (? & ? & _ & ?).
  - by destruct Hr.
Qed.

(** C11. No wake-up is lost: in every state a pool with a limit can reach before it
    is stopped, a caller that waits for a key will be looked at, because the
    support task is to run, or as many guards as the limit are live (each runs
    the check when it goes), or an attempt to connect to that key is under way
    (which runs it when it ends). *)
Theorem no_lost_wakeup (c : PoolConfig) (p : Pool) (k : Key) (tx : nat) :
  pool_reach c p -> 0 < limit (cfg p) -> stopped p = false -> tx ∈ queue p k ->
  waker p = true \/ limit (cfg p) <= zlen (held p) \/ exists tx', (k, tx') ∈ opening p.
Proof.
  intros Hr Hl Hs Hq. destruct (waker p) eqn:Ew; [by left|right].
  pose proof (reach_acc _ _ Hr) as [Hac _ Hc _].
  destruct (reach_woken _ _ Hr Hl Hs Ew k) as [Hn|[[_ ?]|Hk]].
  - rewrite Hn in Hq. by apply not_elem_of_nil in Hq.
  - left. by rewrite <- Hac.
  - right. rewrite Hc, elem_of_list_to_set, list_elem_of_fmap in Hk.
    destruct Hk as ([k' tx'] & -> & ?). by exists tx'.
Qed.

(** With [limit] 0, documented as no limit, the support task never runs again
    once it has run: whoever has to wait, because another attempt to the same
    authority is under way, waits for as long as it likes, whatever is released
    in the meantime. *)
Theorem unlimited_pool_never_wakes (c : PoolConfig) (p p' : Pool) (k : Key) (tx : nat) :
  limit c = 0 -> pool_reach c p -> waker p = false -> tx ∈ queue p k ->
  rtc (fun p1 p2 => exists n, canceled n tx = false /\ pool_step n p1 p2) p p' ->
  waker p' = false /\ tx ∈ queue p' k.
Proof.
  intros Hl Hr Hw Hq Hs. assert (HI : ignored k tx p) by (by rewrite <- (reach_cfg c p Hr) in Hl).
  apply reach_acc in Hr. enough (ignored k tx p') as (_ & ? & ?) by done.
  clear Hw Hq. induction Hs as [|p1 p2 p3 (n & Hc & Hs) _ IH]; [done|].
  apply IH; [by eapply step_acc|by eapply step_ignored].
Qed.

(** ** Witnesses *)

(** Every io open, with an empty read buffer; every receiver there. *)
Definition calm (t : Z) : Now := mkNow t (fun _ => false) (fun _ => []) (fun _ => false).
Definition or_self (p : Pool) (r : option (Pool * list Effect)) : Pool :=
  match r with Some (p', _) => p' | None => p end.

(** Limit 1: two hosts at once, then a third call for the first host. *)
Module TwoHosts.
Definition conf : PoolConfig := mkPoolConfig 1 15 75.
Definition s1 := (call (pool_new conf) (calm 0) (Some "a") 0%nat).1.
Definition s2 := (call s1 (calm 0) (Some "b") 1%nat).1.
Definition s3 := or_self s2 (open_done s2 (calm 1) 0 (Some 7%nat)).
Definition s4 := or_self s3 (open_done s3 (calm 2) 0 (Some 8%nat)).
Definition s5 := (run_task s4 (calm 3) []).1.
Definition s6 := (call s5 (calm 4) (Some "a") 2%nat).1.

Lemma two_hosts_reach : pool_reach conf s6.
Proof.
  apply rtc_l with s1; [exists (calm 0); constructor|].
  apply rtc_l with s2; [exists (calm 0); constructor|].
  apply rtc_l with s3; [exists (calm 1); eapply (ps_open _ s2 0 (Some 7%nat)); reflexivity|].
  apply rtc_l with s4; [exists (calm 2); eapply (ps_open _ s3 0 (Some 8%nat)); reflexivity|].
  apply rtc_l with s5; [exists (calm 3); apply (ps_task _ s4 []); [reflexivity..|vm_compute; constructor]|].
  apply rtc_once. exists (calm 4). constructor.
Qed.
End TwoHosts.

(** Limit 0: the second caller for a host waits, the first gives its connection
    back. *)
Module NoLimit.
Definition conf : PoolConfig := mkPoolConfig 0 15 75.
Definition s1 := (run_task (pool_new conf) (calm 0) []).1.
Definition s2 := (call s1 (calm 0) (Some "a") 0%nat).1.
Definition s3 := (call s2 (calm 0) (Some "a") 1%nat).1.
Definition s4 := or_self s3 (open_done s3 (calm 1) 0 (Some 7%nat)).
Definition s5 := or_self s4 (release s4 (calm 2) 0 false).

Lemma no_limit_reach : pool_reach conf s4.
Proof.
  apply rtc_l with s1; [exists (calm 0); apply (ps_task _ (pool_new conf) []); [reflexivity..|vm_compute; constructor]|].
  apply rtc_l with s2; [exists (calm 0); constructor|].
  apply rtc_l with s3; [exists (calm 0); constructor|].
  apply rtc_once. exists (calm 1). eapply (ps_open _ s3 0 (Some 7%nat)). reflexivity.
Qed.
End NoLimit.

(** Two connections are in use although the limit is 1: the limit holds for each
    authority, not for the pool. *)
Lemma pool_accounting_witness :
  acquired TwoHosts.s6 = 2 /\ limit (cfg TwoHosts.s6) = 1 /\
  (forall k, Z.of_nat (conns TwoHosts.s6 k) <= 1).
Proof.
  split; [reflexivity|split; [reflexivity|]].
  apply (pool_accounting TwoHosts.conf TwoHosts.s6 TwoHosts.two_hosts_reach). reflexivity.
Defined.

Lemma acquire_usable_witness :
  (acquire NoLimit.s5 (calm 3) "a").1.1 = Acq_Acquired 7 1 /\
  (forall k', k' <> "a" -> idle (acquire NoLimit.s5 (calm 3) "a").1.2 k' = idle NoLimit.s5 k').
Proof.
  split; [reflexivity|].
  exact (proj1 (acquire_usable NoLimit.s5 (calm 3) "a" (Acq_Acquired 7 1)
    (acquire NoLimit.s5 (calm 3) "a").1.2 (acquire NoLimit.s5 (calm 3) "a").2 eq_refl)).
Defined.

Lemma no_lost_wakeup_witness :
  2%nat ∈ queue TwoHosts.s6 "a" /\
  (waker TwoHosts.s6 = true \/ limit (cfg TwoHosts.s6) <= zlen (held TwoHosts.s6) \/
   exists tx', ("a", tx') ∈ opening TwoHosts.s6).
Proof.
  assert (Hq : 2%nat ∈ queue TwoHosts.s6 "a") by (vm_compute; left).
  split; [exact Hq|].
  exact (no_lost_wakeup TwoHosts.conf TwoHosts.s6 "a" 2 TwoHosts.two_hosts_reach eq_refl eq_refl Hq).
Defined.

(** The connection the waiter could have is idle and usable. *)
Lemma unlimited_pool_never_wakes_witness :
  (acquire NoLimit.s5 (calm 3) "a").1.1 = Acq_Acquired 7 1 /\
  waker NoLimit.s5 = false /\ 1%nat ∈ queue NoLimit.s5 "a".
Proof.
  split; [reflexivity|].
  apply (unlimited_pool_never_wakes NoLimit.conf NoLimit.s4 NoLimit.s5 "a" 1 eq_refl NoLimit.no_limit_reach eq_refl).
  - vm_compute. left.
  - apply rtc_once. exists (calm 2). split; [reflexivity|]. eapply (ps_release _ NoLimit.s4 0 false). reflexivity.
Defined.
