(* ===== verification/ClientProxy.v ===== *)
(** * Proxy targets

    [client/proxy.rs]: where a proxy is, and which proxy URLs are refused; and the
    standard library's UTF-8 check, which the C interface makes of a URL before
    it is parsed.  The http crate's [Uri] is the record of what its accessors
    answer; its parser is a parameter. *)
From S2P Require Import Prelude.

(** [http::uri::Authority]: [as_str], [host], [port_u16]. *)
Record Authority := mkAuthority { au_text : list Z; au_host : list Z; au_port : option Z }.

(** [http::Uri]: [to_string], [scheme_str], [authority], [path_and_query]. *)
Record HttpUri := mkHttpUri {
  hu_text : list Z;
  hu_scheme : option (list Z);
  hu_authority : option Authority;
  hu_path_and_query : option (list Z)
}.

(** [Uri::host] and [Uri::port_u16] are those of the authority. *)
Definition hu_host (u : HttpUri) : option (list Z) := au_host <$> hu_authority u.
Definition hu_port_u16 (u : HttpUri) : option Z := a ← hu_authority u; au_port a.

(** [std::str::from_utf8]: the well-formed byte sequences of the Unicode standard. *)
Definition utf8_cont (b : Z) : bool := (128 <=? b) && (b <? 192).
Definition in_range (lo b hi : Z) : bool := (lo <=? b) && (b <=? hi).
Fixpoint utf8 (l : list Z) : bool :=
  match l with
  | [] => true
  | b0 :: l1 =>
      if b0 <? 128 then utf8 l1
      else if in_range 194 b0 223 then
        match l1 with b1 :: l2 => utf8_cont b1 && utf8 l2 | _ => false end
      else if in_range 224 b0 239 then
        match l1 with
        | b1 :: b2 :: l3 =>
            in_range (if b0 =? 224 then 160 else 128) b1 (if b0 =? 237 then 159 else 191) && utf8_cont b2 && utf8 l3
        | _ => false
        end
      else if in_range 240 b0 244 then
        match l1 with
        | b1 :: b2 :: b3 :: l4 =>
            in_range (if b0 =? 240 then 144 else 128) b1 (if b0 =? 244 then 143 else 191)
            && utf8_cont b2 && utf8_cont b3 && utf8 l4
        | _ => false
        end
      else false
  end.

Record ProxyTarget := mkProxyTarget { px_host : list Z; px_port : Z }.

Inductive ProxyError :=
| PE_Malformed
| PE_UnsupportedScheme
| PE_MissingHost
| PE_CredentialsNotSupported.

Definition AT : Z := 64.

Section Proxy.
Context (parse_uri : list Z -> option HttpUri).

(** [ProxyTarget::parse] *)
Definition proxy_parse (raw : list Z) : result ProxyTarget ProxyError :=
  match parse_uri raw with
  | None => Err PE_Malformed
  | Some uri =>
      if negb (bool_decide (hu_scheme uri = Some (bs "http"))) then Err PE_UnsupportedScheme
      else
        match hu_authority uri with
        | None => Err PE_MissingHost
        | Some authority =>
            if bool_decide (AT ∈ au_text authority) then Err PE_CredentialsNotSupported
            else if bool_decide (au_host authority = []) then Err PE_MissingHost
            else Ok (mkProxyTarget (au_host authority) (default 80 (au_port authority)))
        end
  end.
End Proxy.

(** [ProxyTarget::needs_tunnel] *)
Definition needs_tunnel (target : HttpUri) : bool :=
  bool_decide (hu_scheme target = Some (bs "https")) || bool_decide (hu_scheme target = Some (bs "wss")).
