(* ===== verification/ClientExchange.v ===== *)
(** * A request and its response on a client connection

    [client/h1proto.rs], [client/sender.rs], [client/connection.rs] and
    [client/connector.rs]: the request is written, the head of the response read,
    and the body given to the application as the stream [PlStream], at whose end
    the connection goes back to the pool.  geario's io is a class; an [await] is
    one operation of it that gives what the future gives.  What happens to the
    pool's guard is written to a list: [Acquired::release] or its drop. *)
From S2P Require Import Prelude Headers Message Config Errors Payload Decoder Encoder EncoderThms H1Codec Body.
From S2P Require Import Response ClientPool.

(** ** Errors *)

(** [ConnectError]; an [io::Error] is a number. *)
Inductive ConnectError :=
| CN_SslIsNotSupported
| CN_Resolver (e : Z)
| CN_NoRecords
| CN_Timeout
| CN_Disconnected (e : option Z)
| CN_Unresolved.

Inductive InvalidUrl := IU_MissingScheme | IU_UnknownScheme | IU_MissingHost | IU_Http (e : HttpError).

Inductive ClientError :=
| CE_Url (e : InvalidUrl)
| CE_Connect (e : ConnectError)
| CE_Send (e : Z)
| CE_Request (e : EncodeError)
| CE_Response (e : DecodeError)
| CE_Http (e : HttpError)
| CE_Timeout
| CE_ProxyTunnelNotSupported
| CE_TunnelNotSupported
| CE_Error (e : Z).

(** [From<Either<EncodeError, io::Error>>] and [From<Either<DecodeError, io::Error>>] *)
Definition of_send_error (e : EncodeError + Z) : ClientError :=
  match e with inl e => CE_Request e | inr e => CE_Send e end.
Definition of_recv_error (e : DecodeError + Z) : ClientError :=
  match e with inl e => CE_Response e | inr e => CE_Send e end.

(** ** The io *)

(** [geario::io::RecvError] of a payload. *)
Inductive RecvError :=
| RE_KeepAlive
| RE_WriteBackpressure
| RE_Decoder (e : PayloadError)
| RE_PeerGone (e : option Z).

(** [io_recv] is the response under its timeout: [None] when the time is over. *)
Class ClientIo `{Parsers} (W : Type) := {
  io_send : ClientRawRequest -> ClientCodec -> W -> outcome (result unit (EncodeError + Z) * ClientCodec * W);
  io_encode : CodecMessage ClientRawRequest -> ClientCodec -> W -> outcome (result unit EncodeError * ClientCodec * W);
  io_flush : bool -> W -> result unit Z * W;
  io_is_wr_backpressure : W -> bool;
  io_recv : Z -> ClientCodec -> W ->
    outcome (option (result (option ResponseHead) (DecodeError + Z)) * ClientCodec * W);
  io_poll_recv : ClientCodec -> W -> outcome (Poll (result (option (list Z)) RecvError) * ClientCodec * W);
  io_poll_flush : bool -> W -> Poll (result unit Z) * W;
  io_is_closed : W -> bool;
  io_read_buf : W -> list Z
}.

(** [http::Uri]'s accessors. *)
Class UriAccess := {
  uri_scheme_str : Uri -> option (list Z);
  uri_host : Uri -> option (list Z);
  uri_port_u16 : Uri -> option Z
}.

(** The error kind of a timed out payload. *)
Definition TIMED_OUT : Z := 1.

(** What is done with the pool's guard. *)
Inductive GuardUse := GU_Release (close : bool) | GU_Drop.
Definition drop_guard (g : bool) : list GuardUse := if g then [GU_Drop] else [].

Section Exchange.
Context `{Parsers} {W M : Type} `{!ClientIo W} `{MessageBody M} `{UriAccess}.

(** [release_connection]; [g]: there is a guard. *)
Definition release_connection (force_close g : bool) (w : W) : list GuardUse :=
  if force_close || io_is_closed w || negb (bool_decide (io_read_buf w = []))
  then if g then [GU_Release true] else []
  else if g then [GU_Release false] else [].

(** ** Writing the request *)

(** The Host header at the start of [send_request_inner]. *)
Definition host_text (uri : Uri) (host : list Z) : list Z :=
  match uri_port_u16 uri with
  | None => host
  | Some port => if (port =? 80) || (port =? 443) then host else host ++ bs ":" ++ to_dec port
  end.
Definition set_host (req : ClientRawRequest) : ClientRawRequest :=
  let head := raw_head req in
  if HeaderMapOps.contains_key (fun _ => None) (rq_headers head) (NameLeft HOST) then req
  else
    match uri_host (rq_uri head) with
    | None => req
    | Some host =>
        match from_shared (host_text (rq_uri head) host) with
        | Ok value =>
            mkRawRequest (set_headers head (HeaderMapOps.insert (rq_headers head) HOST value)) (raw_headers req)
              (raw_size req)
        | Err _ => req
        end
    end.

(** [poll_fn(|cx| body.poll_next_chunk(cx)).await] *)
Fixpoint next_chunk (fuel : nat) (b : Body M) : outcome (option (result (list Z) Z) * Body M) :=
  match fuel with
  | O => NoFuel
  | S fuel' =>
      '(r, b) ← poll_next_chunk fuel b;
      match r with Ready c => Val (c, b) | Pending => next_chunk fuel' b end
  end.

Fixpoint send_body (fuel : nat) (body : Body M) (codec : ClientCodec) (w : W)
    : outcome (result unit ClientError * ClientCodec * W) :=
  match fuel with
  | O => NoFuel
  | S fuel' =>
      '(c, body) ← next_chunk fuel body;
      match c with
      | Some (Err e) => Val (Err (CE_Error e), codec, w)
      | Some (Ok chunk) =>
          '(r, codec, w) ← io_encode (MChunk (Some chunk)) codec w;
          match r with
          | Err e => Val (Err (CE_Request e), codec, w)
          | Ok _ =>
              if io_is_wr_backpressure w
              then
                let '(r, w) := io_flush false w in
                match r with Err e => Val (Err (CE_Send e), codec, w) | Ok _ => send_body fuel' body codec w end
              else send_body fuel' body codec w
          end
      | None =>
          '(r, codec, w) ← io_encode (MChunk None) codec w;
          match r with
          | Err e => Val (Err (CE_Request e), codec, w)
          | Ok _ =>
              let '(r, w) := io_flush true w in
              Val (match r with Err e => Err (CE_Send e) | Ok _ => Ok tt end, codec, w)
          end
      end
  end.

(** ** Reading the response *)

(** [PlStream]; the io is taken at the end of the body. *)
Record PlStream := mkPlStream { pl_io : bool; pl_codec : ClientCodec; pl_pool : bool; pl_http_10 : bool }.

(** [Payload], without the server's channel. *)
Inductive ClientPayload := CP_None | CP_Stream (pl : PlStream).

(** The second half of [send_request_inner]: the head is read under the timeout; an
    error drops the guard. *)
Definition read_response (timeout : Z) (g : bool) (codec : ClientCodec) (w : W)
    : outcome (result (ResponseHead * ClientPayload) ClientError * list GuardUse * W) :=
  '(r, codec, w) ← io_recv timeout codec w;
  match r with
  | None => Val (Err CE_Timeout, drop_guard g, w)
  | Some (Err e) => Val (Err (of_recv_error e), drop_guard g, w)
  | Some (Ok None) => Val (Err (CE_Connect (CN_Disconnected None)), drop_guard g, w)
  | Some (Ok (Some head)) =>
      match client_message_type codec with
      | MT_None => Val (Ok (head, CP_None), release_connection (negb (client_keepalive codec)) g w, w)
      | _ => Val (Ok (head, CP_Stream (mkPlStream true codec g (bool_decide (rs_version head = HTTP_10)))), [], w)
      end
  end.

(** [send_request], and [send_request_inner], with the guard [g]. *)
Definition send_request (fuel : nat) (cfg : HttpServiceConfig) (req : ClientRawRequest) (body : Body M) (timeout : Z)
    (g : bool) (w : W) : outcome (result (ResponseHead * ClientPayload) ClientError * list GuardUse * W) :=
  let req := set_host req in
  let codec := client_new true cfg in
  '(r, codec, w) ← io_send req codec w;
  match r with
  | Err e => Val (Err (of_send_error e), drop_guard g, w)
  | Ok _ =>
      '(r, codec, w) ←
        match body_size body with
        | BS_None | BS_Empty | BS_Sized 0 => Val (Ok tt, codec, w)
        | _ => send_body fuel body codec w
        end;
      match r with
      | Err e => Val (Err e, drop_guard g, w)
      | Ok _ => read_response timeout g codec w
      end
  end.

(** [PlStream::poll_next] *)
Fixpoint pl_poll_next (fuel : nat) (pl : PlStream) (w : W)
    : outcome (Poll (option (result (list Z) PayloadError)) * PlStream * list GuardUse * W) :=
  match fuel with
  | O => NoFuel
  | S fuel =>
      if negb (pl_io pl) then Panic
      else
        '(item, codec, w) ← io_poll_recv (pl_codec pl) w;
        let pl := mkPlStream true codec (pl_pool pl) (pl_http_10 pl) in
        match item with
        | Pending => Val (Pending, pl, [], w)
        | Ready (Ok (Some chunk)) => Val (Ready (Some (Ok chunk)), pl, [], w)
        | Ready (Ok None) =>
            Val (Ready None, mkPlStream false codec false (pl_http_10 pl),
                 release_connection (negb (client_keepalive codec)) (pl_pool pl) w, w)
        | Ready (Err RE_KeepAlive) => Val (Ready (Some (Err (PE_Io TIMED_OUT))), pl, [], w)
        | Ready (Err RE_WriteBackpressure) =>
            let '(r, w) := io_poll_flush false w in
            match r with
            | Pending => Val (Pending, pl, [], w)
            | Ready (Err e) => Val (Ready (Some (Err (PE_Io e))), pl, [], w)
            | Ready (Ok _) => pl_poll_next fuel pl w
            end
        | Ready (Err (RE_Decoder e)) => Val (Ready (Some (Err e)), pl, [], w)
        | Ready (Err (RE_PeerGone (Some e))) => Val (Ready (Some (Err (PE_Incomplete (Some e)))), pl, [], w)
        | Ready (Err (RE_PeerGone None)) =>
            if pl_http_10 pl then Val (Ready None, pl, [], w)
            else Val (Ready (Some (Err (PE_Incomplete None))), pl, [], w)
        end
  end.

(** The stream is dropped. *)
Definition drop_payload (p : ClientPayload) : list GuardUse :=
  match p with CP_None => [] | CP_Stream pl => drop_guard (pl_pool pl) end.

(** [Payload::poll_recv] *)
Definition payload_poll_recv (fuel : nat) (p : ClientPayload) (w : W)
    : outcome (Poll (option (result (list Z) PayloadError)) * ClientPayload * list GuardUse * W) :=
  match p with
  | CP_None => Val (Ready None, CP_None, [], w)
  | CP_Stream pl => '(r, pl, u, w) ← pl_poll_next fuel pl w; Val (r, CP_Stream pl, u, w)
  end.

(** ** The connector and the sender *)

Inductive Route := Tcp_pool | Ssl_pool.

(** [Connector::call]: which of the pools is asked. *)
Definition connector_route (ssl_pool : bool) (uri : Uri) : result Route ClientError :=
  match uri_scheme_str uri with
  | Some s =>
      if bool_decide (s = bs "https") || bool_decide (s = bs "wss")
      then if ssl_pool then Ok Ssl_pool else Err (CE_Connect CN_SslIsNotSupported)
      else Ok Tcp_pool
  | None => Ok Tcp_pool
  end.

Record ServiceRequest := mkServiceRequest {
  sr_head : RequestHead;
  sr_headers : option HeaderMap;
  sr_body : Body M;
  sr_timeout : Z;
  sr_decompress : bool
}.

Definition sender_needs_tunnel (uri : Uri) : bool :=
  match uri_scheme_str uri with
  | Some s => bool_decide (s = bs "https") || bool_decide (s = bs "wss")
  | None => false
  end.

(** [Connection::send_request] *)
Definition connection_send_request (fuel : nat) (cfg : HttpServiceConfig) (req : ClientRawRequest) (body : Body M)
    (timeout : Z) (g : bool) (w : W) :=
  send_request fuel cfg
    (mkRawRequest (set_request_line (raw_head req) (rq_uri (raw_head req)) (rq_method (raw_head req)) HTTP_11)
       (raw_headers req) (raw_size req)) body timeout g w.

(** [Sender::call]: [connect] is what the connector gives for the uri, a connection
    with or without a guard, and the world then; without decompression. *)
Definition sender_call (fuel : nat) (cfg : HttpServiceConfig) (proxy : bool) (config_timeout : Z)
    (connect : Uri -> W -> result bool ClientError * W) (req : ServiceRequest) (w : W)
    : outcome (result (ResponseHead * ClientPayload) ClientError * list GuardUse * W) :=
  let uri := rq_uri (sr_head req) in
  if proxy && sender_needs_tunnel uri then Val (Err CE_ProxyTunnelNotSupported, [], w)
  else
    let head := if proxy then RequestHeadOps.set_absolute_uri (sr_head req) true else sr_head req in
    let '(con, w) := connect uri w in
    match con with
    | Err e => Val (Err e, [], w)
    | Ok g =>
        let timeout := if sr_timeout req =? 0 then config_timeout else sr_timeout req in
        connection_send_request fuel cfg (mkRawRequest head (sr_headers req) (body_size (sr_body req))) (sr_body req)
          timeout g w
    end.
End Exchange.
