(* ===== verification/ClientExchangeThms.v ===== *)
(** * What an exchange of the client guarantees

    The pool's guard is used once on every path, and a connection is given back
    for another request only in a quiet state ([guard_used_once]); the request
    that goes out is its head and its framed body ([request_written]); the body of
    a response arrives exactly in any segments ([response_body_exact]), and what
    happens when it is cut off ([response_cut_off]). *)
From S2P Require Import Prelude Headers Message Config Errors Payload Decoder Encoder EncoderThms H1Codec Body.
From S2P Require Import Response ClientPool ClientExchange.

(** ** The guard *)

Section Guard.
Context `{Parsers} {W M : Type} `{!ClientIo W} `{MessageBody M} `{UriAccess}.

(** What the application and the world do with a payload: a poll, or a change of
    the world. *)
Inductive Act := Act_poll (fuel : nat) | Act_world (f : W -> W).

(** Every use of the guard is kept with the payload and the world right after it. *)
Definition Uses : Type := list (GuardUse * ClientPayload * W).
Definition at_state (p : ClientPayload) (w : W) (us : list GuardUse) : Uses := (fun u => (u, p, w)) <$> us.

Fixpoint payload_run (acts : list Act) (p : ClientPayload) (w : W) : outcome (Uses * ClientPayload * W) :=
  match acts with
  | [] => Val ([], p, w)
  | Act_poll fuel :: acts =>
      '(_, p, u, w) ← payload_poll_recv fuel p w;
      let now := at_state p w u in
      '(us, p, w) ← payload_run acts p w;
      Val (now ++ us, p, w)
  | Act_world f :: acts => payload_run acts p (f w)
  end.

(** The connection is fit for another request. *)
Definition quiet (w : W) : Prop := io_is_closed w = false /\ io_read_buf w = [].

Lemma release_quiet fc g w : GU_Release false ∈ release_connection fc g w -> fc = false /\ quiet w.
Proof.
  unfold release_connection, quiet. destruct g; [|by destruct (_ || _); intros ?%elem_of_nil].
  destruct fc, (io_is_closed w); simpl; try (by intros [=]%list_elem_of_singleton).
  case_bool_decide; simpl; [done|]. by intros [=]%list_elem_of_singleton.
Qed.

Lemma release_length fc (g : bool) (w : W) : length (release_connection fc g w) = if g then 1%nat else 0%nat.
Proof. unfold release_connection. by destruct (_ || _), g. Qed.

Definition holds_guard (p : ClientPayload) : bool := match p with CP_None => false | CP_Stream pl => pl_pool pl end.

(** A poll gives the guard back at the end of the body, in the state the world is
    in then, or does nothing with it. *)
Lemma poll_uses fuel : forall pl (w : W) r pl' u w',
  pl_poll_next fuel pl w = Val (r, pl', u, w') ->
  (u = [] /\ pl_pool pl' = pl_pool pl) \/
  (r = Ready None /\ pl_pool pl' = false /\ pl_io pl' = false /\
   u = release_connection (negb (client_keepalive (pl_codec pl'))) (pl_pool pl) w').
Proof.
  induction fuel as [|fuel IH]; intros pl w r pl' u w'; [done|]. simpl.
  destruct (pl_io pl); simpl; [|done].
  destruct (io_poll_recv (pl_codec pl) w) as [[[item c] w1]| |]; simpl; [|done..].
  destruct item as [[[chunk|]|e]|].
  - intros [= <- <- <- <-]. by left.
  - intros [= <- <- <- <-]. by right.
  - destruct e as [| |e|[e|]].
    + intros [= <- <- <- <-]. by left.
    + destruct (io_poll_flush false w1) as [[[?|e]|] w2].
      * intros [[-> Hp]|(-> & Hp & Hio & ->)]%IH; [by left|by right].
      * intros [= <- <- <- <-]. by left.
      * intros [= <- <- <- <-]. by left.
    + intros [= <- <- <- <-]. by left.
    + intros [= <- <- <- <-]. by left.
    + destruct (pl_http_10 pl); intros [= <- <- <- <-]; by left.
  - intros [= <- <- <- <-]. by left.
Qed.

(** What is true where a poll of the body gives a connection back for another
    request: it is quiet, and the streamed body is at its end and was kept alive; a
    body that is not there gives nothing back. *)
Definition reusable (x : GuardUse * ClientPayload * W) : Prop :=
  x.1.1 = GU_Release false ->
  quiet x.2 /\
  match x.1.2 with CP_None => False | CP_Stream pl => pl_io pl = false /\ client_keepalive (pl_codec pl) = true end.

Lemma payload_run_uses acts : forall p (w : W) us p' w',
  payload_run acts p w = Val (us, p', w') ->
  length (us.*1.*1 ++ drop_payload p') = (if holds_guard p then 1%nat else 0%nat) /\ Forall reusable us.
Proof.
  assert (Hd : forall p, length (drop_payload p) = if holds_guard p then 1%nat else 0%nat).
  { intros [|pl]; [done|]. simpl. by destruct (pl_pool pl). }
  induction acts as [|a acts IH]; intros p w us p' w'; simpl.
  - intros [= <- <- <-]. split; [apply Hd|done].
  - destruct a as [fuel|f]; [|apply IH].
    destruct (payload_poll_recv fuel p w) as [[[[r p1] u] w1]| |] eqn:Hp; simpl; [|done..].
    destruct (payload_run acts p1 w1) as [[[us1 p2] w2]| |] eqn:Hr; simpl; [|done..]. intros [= <- <- <-].
    destruct (IH _ _ _ _ _ Hr) as [Hl Hq]. destruct p as [|pl]; simpl in Hp.
    + injection Hp as <- <- <- <-. by split.
    + destruct (pl_poll_next fuel pl w) as [[[[r1 pl1] u1] w3]| |] eqn:Hpoll; simpl in Hp; [|done..].
      injection Hp as <- <- <- <-. apply poll_uses in Hpoll as [[-> Hpool]|(-> & Hpool & Hio & ->)].
      * simpl in *. by rewrite <- Hpool.
      * simpl in *. rewrite Hpool in Hl. split.
        -- rewrite !fmap_app, <- app_assoc, length_app, Hl, !length_fmap. unfold at_state.
           by rewrite length_fmap, release_length, Nat.add_0_r.
        -- apply Forall_app. split; [|done]. apply Forall_fmap, Forall_forall. intros x Hx Heq. simpl in Heq. subst x. simpl.
           apply release_quiet in Hx as [Hk Hqt]. apply negb_false_iff in Hk. done.
Qed.

(** ** The guard and the pool *)

(** What a use of the guard [i] does to the pool. *)
Definition pool_use (n : Now) (i : nat) (p : option Pool) (u : GuardUse) : option Pool :=
  p ← p; match u with GU_Release close => fst <$> release p n i close | GU_Drop => drop_acquired p n i end.

Lemma pool_use_given_back n i p u h :
  held p !! i = Some h -> acquired p = zlen (held p) ->
  exists p', pool_use n i (Some p) u = Some p' /\ held p' = delete i (held p) /\ acquired p' = zlen (held p').
Proof.
  intros Hh Ha. assert (Hpos : acquired p <> 0).
  { rewrite Ha. apply lookup_lt_Some in Hh. unfold zlen. lia. }
  assert (Hlen : acquired p - 1 = zlen (delete i (held p))).
  { rewrite Ha. unfold zlen. rewrite length_delete by (by eexists). apply lookup_lt_Some in Hh. lia. }
  assert (Hg : release_guard p i = Some (h, set_held p (acquired p - 1) (delete i (held p)))).
  { unfold release_guard. rewrite Hh. simpl. by destruct (Z.eqb_spec (acquired p) 0). }
  assert (Hc : forall q m, held (check_availibility q m) = held q /\ acquired (check_availibility q m) = acquired q).
  { intros q m. unfold check_availibility. by repeat case_match. }
  destruct u as [close|]; simpl.
  - unfold release. rewrite Hg. simpl. destruct close; simpl; eexists; (split; [done|]);
      destruct (Hc (set_held p (acquired p - 1) (delete i (held p))) n) as [Hx1 Hx2];
      [by rewrite Hx1, Hx2|]. match goal with |- context [check_availibility ?q n] => destruct (Hc q n) as [-> ->] end. done.
  - unfold drop_acquired. rewrite Hg. simpl. eexists. split; [done|].
    destruct (Hc (set_held p (acquired p - 1) (delete i (held p))) n) as [-> ->]. done.
Qed.

(** A release for reuse happens exactly with a guard on a quiet connection that is kept alive. *)
Lemma release_iff fc g w : GU_Release false ∈ release_connection fc g w <-> g = true /\ fc = false /\ quiet w.
Proof.
  split.
  - intros Hr. destruct (release_quiet _ _ _ Hr) as [-> ?]. split_and!; [|done|done].
    destruct g; [done|]. unfold release_connection in Hr. by destruct (_ || _); apply elem_of_nil in Hr.
  - intros (-> & -> & Hc & Hb). unfold release_connection. rewrite Hc, Hb. by apply list_elem_of_singleton.
Qed.

(** The codec and the world once a request has been written. *)
Definition request_out fuel cfg req (body : Body M) (w : W) (codec : ClientCodec) (w' : W) : Prop :=
  exists c1 w1, io_send (set_host req) (client_new true cfg) w = Val (Ok tt, c1, w1) /\
    match body_size body with
    | BS_None | BS_Empty | BS_Sized 0 => codec = c1 /\ w' = w1
    | _ => send_body fuel body c1 w1 = Val (Ok tt, codec, w')
    end.

(** C13. The guard of the pool is used once.  However the request ends, and
    whatever the application then does with the body and the world with the
    connection, until the body is dropped: the guard is released or dropped
    exactly once, so that the pool has one connection less in use.  The
    connection is given back for another request only when the codec that read the
    response keeps it alive, and while it is open and nothing is left in its buffer:
    at once, and then always, when the response has no body, and else by a poll that
    finds the end of the body. *)
Theorem guard_used_once fuel cfg req (body : Body M) timeout g (w : W) r u w1 :
  send_request fuel cfg req body timeout g w = Val (r, u, w1) ->
  match r with
  | Err _ => u = drop_guard g
  | Ok (head, p) =>
      (exists codec0 w0 codec, request_out fuel cfg req body w codec0 w0 /\
         io_recv timeout codec0 w0 = Val (Some (Ok (Some head)), codec, w1) /\
         match p with
         | CP_None => client_message_type codec = MT_None /\
             (GU_Release false ∈ u <-> g = true /\ client_keepalive codec = true /\ quiet w1)
         | CP_Stream pl => client_message_type codec <> MT_None /\ pl_codec pl = codec /\ u = []
         end) /\
      forall acts us p' w', payload_run acts p w1 = Val (us, p', w') ->
        Forall reusable us /\
        let uses := u ++ us.*1.*1 ++ drop_payload p' in
        length uses = (if g then 1%nat else 0%nat) /\
        forall n i pool h, g = true -> held pool !! i = Some h -> acquired pool = zlen (held pool) ->
          exists pool', foldl (pool_use n i) (Some pool) uses = Some pool' /\
            held pool' = delete i (held pool) /\ acquired pool' = acquired pool - 1
  end.
Proof.
  intros Hs. unfold send_request in Hs.
  destruct (io_send _ _ _) as [[[rs c1] w2]| |] eqn:Hsend; simpl in Hs; [|done..].
  destruct rs as [[]|e]; [|by simplify_eq].
  destruct (match body_size body with BS_None | BS_Empty | BS_Sized 0 => _ | _ => _ end) as [[[rb c2] w3]| |] eqn:Hbody;
    simpl in Hs; [|done..]. destruct rb as [[]|e]; [|by simplify_eq].
  assert (Hout : request_out fuel cfg req body w c2 w3).
  { exists c1, w2. split; [exact Hsend|]. destruct (body_size body) as [| |[| |]|]; simplify_eq; done. }
  unfold read_response in Hs. destruct (io_recv timeout c2 w3) as [[[rr c3] w4]| |] eqn:Hrecv; simpl in Hs; [|done..].
  destruct rr as [[[head|]|e]|]; [|by simplify_eq..].
  assert (Hend : exists p, r = Ok (head, p) /\ w1 = w4 /\
     match p with
     | CP_None => client_message_type c3 = MT_None /\
         (GU_Release false ∈ u <-> g = true /\ client_keepalive c3 = true /\ quiet w1)
     | CP_Stream pl => client_message_type c3 <> MT_None /\ pl_codec pl = c3 /\ u = []
     end /\ (length u + (if holds_guard p then 1 else 0) = if g then 1 else 0)%nat).
  { destruct (client_message_type c3) eqn:Hmt; simplify_eq; eexists; (split; [done|]); (split; [done|]); simpl;
      [|by split_and!..].
    split; [|rewrite release_length; lia]. split; [done|]. by rewrite release_iff, negb_false_iff. }
  destruct Hend as (p & -> & -> & Hre & Hlen). split; [by exists c2, w3, c3|].
  intros acts us p' w' Hrun. destruct (payload_run_uses _ _ _ _ _ _ Hrun) as [Hl Hq]. split; [done|].
  assert (Huses : length (u ++ us.*1.*1 ++ drop_payload p') = if g then 1%nat else 0%nat).
  { rewrite length_app, Hl. done. }
  split; [done|]. intros n i pool h -> Hh Ha.
  destruct (u ++ us.*1.*1 ++ drop_payload p') as [|x [|??]]; try done. simpl foldl.
  destruct (pool_use_given_back n i pool x h Hh Ha) as (pool' & Hp & Hheld & Hacq). exists pool'.
  split; [exact Hp|]. split; [done|]. rewrite Hacq, Hheld, Ha. unfold zlen. rewrite length_delete by (by eexists).
  apply lookup_lt_Some in Hh. lia.
Qed.
End Guard.

(** ** The io's laws *)

(** What the io reports to a reader when the codec has no item. *)
Inductive IoStatus := IS_Idle | IS_Gone (e : option Z) | IS_KeepAlive | IS_Backpressure.

(** A connection's io: what is written through a codec is what the codec encodes,
    an item is decoded from the read buffer first, and without one the status
    counts.  The world brings more bytes or the end of the connection. *)
Class ClientIoLaws `{Parsers} `{ChunkSizeParser} `{EncoderEnv} (W : Type) `{!ClientIo W} := {
  io_out : W -> list Z;
  io_date : W -> DateService.t;
  io_status : W -> IoStatus;
  io_wrote : list Z -> DateService.t -> W -> W;
  io_consumed : list Z -> W -> W;
  io_arrive : list Z -> W -> W;
  io_gone : option Z -> W -> W;
  encode_law item c w :
    io_encode item c w =
      '(r, c', out, date) ← client_encode c item (io_out w) (io_date w); Val (r, c', io_wrote out date w);
  send_law req c w :
    io_send req c w =
      '(r, c', w') ← io_encode (Item req) c w;
      match r with
      | Err e => Val (Err (inl e), c', w')
      | Ok _ =>
          let '(r, w'') := io_flush true w' in
          Val (match r with Err e => Err (inr e) | Ok _ => Ok tt end, c', w'')
      end;
  poll_recv_law c w :
    io_poll_recv c w =
      '(r, c', buf) ← client_payload_decode c (io_read_buf w);
      Val (match r with
           | Ok (Some item) => Ready (Ok item)
           | Err e => Ready (Err (RE_Decoder e))
           | Ok None =>
               match io_status w with
               | IS_Idle => Pending
               | IS_Gone e => Ready (Err (RE_PeerGone e))
               | IS_KeepAlive => Ready (Err RE_KeepAlive)
               | IS_Backpressure => Ready (Err RE_WriteBackpressure)
               end
           end, c', io_consumed buf w);
  wrote_out out date w : io_out (io_wrote out date w) = out;
  wrote_date out date w : io_date (io_wrote out date w) = date;
  flush_out full w : io_out (io_flush full w).2 = io_out w;
  flush_date full w : io_date (io_flush full w).2 = io_date w;
  consumed_buf buf w : io_read_buf (io_consumed buf w) = buf;
  consumed_status buf w : io_status (io_consumed buf w) = io_status w;
  arrive_buf seg w : io_read_buf (io_arrive seg w) = io_read_buf w ++ seg;
  arrive_status seg w : io_status (io_arrive seg w) = io_status w;
  gone_buf e w : io_read_buf (io_gone e w) = io_read_buf w;
  gone_status e w : io_status (io_gone e w) = IS_Gone e
}.

(** ** Reading a body *)

Section Reading.
Context `{Parsers} `{ChunkSizeLaws} `{EncoderEnv} {W : Type} `{!ClientIo W} `{!ClientIoLaws W}.

(** What a reader has of the body when it stops: more is to come, the stream ended,
    or it failed. *)
Inductive PlEnd := PL_Waiting | PL_Ended | PL_Failed (e : PayloadError).

(** The stream is polled until it is pending or over. *)
Fixpoint pl_pump (fuel : nat) (pl : PlStream) (w : W) : outcome (list Z * PlEnd * PlStream * list GuardUse * W) :=
  match fuel with
  | O => Val ([], PL_Waiting, pl, [], w)
  | S f =>
      '(r, pl, u, w) ← pl_poll_next 1 pl w;
      match r with
      | Pending => Val ([], PL_Waiting, pl, u, w)
      | Ready None => Val ([], PL_Ended, pl, u, w)
      | Ready (Some (Err e)) => Val ([], PL_Failed e, pl, u, w)
      | Ready (Some (Ok c)) => '(d, e, pl, us, w) ← pl_pump f pl w; Val (c ++ d, e, pl, u ++ us, w)
      end
  end.

(** What the peer does: bytes arrive, or it is gone. *)
Inductive Net := Arrive (seg : list Z) | Gone (e : option Z).
Definition net (n : Net) (w : W) : W := match n with Arrive seg => io_arrive seg w | Gone e => io_gone e w end.

(** The stream is polled whenever the peer has done something; the last component
    is what of the peer is not waited for. *)
Fixpoint pl_feed (ns : list Net) (pl : PlStream) (w : W)
    : outcome (list Z * PlEnd * PlStream * list GuardUse * W * list Net) :=
  '(d, e, pl, u, w) ← pl_pump (S (length (io_read_buf w))) pl w;
  match e, ns with
  | PL_Waiting, n :: ns =>
      '(d', e, pl, u', w, rest) ← pl_feed ns pl (net n w);
      Val (d ++ d', e, pl, u ++ u', w, rest)
  | _, _ => Val (d, e, pl, u, w, ns)
  end.

Definition with_payload (c : ClientCodec) (p : option PayloadDecoder) : ClientCodec :=
  mkClientCodec (cc_decoder c) p (cc_version c) (cc_ctype c) (cc_flags c) (cc_encoder c).
Definition stream_of (c : ClientCodec) (k : PayloadDecoder) (g h10 : bool) : PlStream :=
  mkPlStream true (with_payload c (Some k)) g h10.
Definition ended_of (c : ClientCodec) (h10 : bool) : PlStream := mkPlStream false (with_payload c None) false h10.

(** How a pump of the decoder shows in the stream. *)
Definition pumped (c : ClientCodec) (g h10 : bool) (st : IoStatus) (e : pump_end) (k : PayloadDecoder) (w : W)
    : PlEnd * PlStream * list GuardUse :=
  match e with
  | Finished => (PL_Ended, ended_of c h10, release_connection (negb (client_keepalive c)) g w)
  | Failed x => (PL_Failed (PE_Decode x), stream_of c k g h10, [])
  | NeedMore =>
      (match st with
       | IS_Gone (Some x) => PL_Failed (PE_Incomplete (Some x))
       | IS_Gone None => if h10 then PL_Ended else PL_Failed (PE_Incomplete None)
       | _ => PL_Waiting
       end, stream_of c k g h10, [])
  end.

Lemma poll_of c k g h10 w :
  pl_poll_next 1 (stream_of c k g h10) w =
    let '(r, k', buf) := Payload.decode k (io_read_buf w) in
    let w' := io_consumed buf w in
    match r with
    | Err e => Val (Ready (Some (Err (PE_Decode e))), stream_of c k' g h10, [], w')
    | Ok (Some (Chunk b)) => Val (Ready (Some (Ok b)), stream_of c k' g h10, [], w')
    | Ok (Some Eof) => Val (Ready None, ended_of c h10, release_connection (negb (client_keepalive c)) g w', w')
    | Ok None =>
        match io_status w with
        | IS_Idle => Val (Pending, stream_of c k' g h10, [], w')
        | IS_Gone (Some e) => Val (Ready (Some (Err (PE_Incomplete (Some e)))), stream_of c k' g h10, [], w')
        | IS_Gone None =>
            Val ((if h10 then Ready None else Ready (Some (Err (PE_Incomplete None)))), stream_of c k' g h10, [], w')
        | IS_KeepAlive => Val (Ready (Some (Err (PE_Io TIMED_OUT))), stream_of c k' g h10, [], w')
        | IS_Backpressure =>
            let '(r, w) := io_poll_flush false w' in
            match r with
            | Pending => Val (Pending, stream_of c k' g h10, [], w)
            | Ready (Err e) => Val (Ready (Some (Err (PE_Io e))), stream_of c k' g h10, [], w)
            | Ready (Ok _) => NoFuel
            end
        end
    end.
Proof.
  cbn [pl_poll_next stream_of pl_io negb pl_codec pl_pool pl_http_10]. rewrite poll_recv_law.
  unfold client_payload_decode. cbn [cc_payload with_payload].
  destruct (Payload.decode k (io_read_buf w)) as [[r k'] buf]. destruct r as [[[b|]|]|e]; try reflexivity.
  cbn [mbind outcome_bind]. destruct (io_status w) as [|[x|]| |]; try reflexivity. by destruct h10.
Qed.

(** A decoder in a state it can be in: a chunk takes bytes from the buffer. *)
Definition wf_kind (k : PayloadDecoder) : Prop :=
  match k with Length n => 0 <= n | Chunked Payload.Body sz => 0 < sz | _ => True end.

Lemma chunked_loop_shrinks fuel : forall st sz src r st' sz' src',
  (st = Payload.Body -> 0 < sz) -> chunked_loop fuel st sz src = Some (r, st', sz', src') ->
  (length src' <= length src)%nat /\ (st' = Payload.Body -> 0 < sz') /\
  match r with Ok (Some (Chunk _)) => (length src' < length src)%nat | _ => True end.
Proof.
  induction fuel as [|fuel IH]; intros st sz src r st' sz' src' Hb; [done|]. cbn [chunked_loop].
  assert (Hbyte : forall (f : Z -> result ChunkedState DecodeError) s0,
    (forall b x, f b = Ok x -> x <> Payload.Body) -> s0 <> Payload.Body ->
    match read_byte src sz f with
    | (Pending, src', size', _) => Some (Ok None, s0, size', src')
    | (Ready (Err e), src', size', _) => Some (Err e, s0, size', src')
    | (Ready (Ok state'), src', size', buf) =>
        if decide (state' = End) then Some (Ok (Some Eof), state', size', src')
        else match buf with
             | Some b => Some (Ok (Some (Chunk b)), state', size', src')
             | None => match src' with [] => Some (Ok None, state', size', src') | _ => chunked_loop fuel state' size' src' end
             end
    end = Some (r, st', sz', src') ->
    (length src' <= length src)%nat /\ (st' = Payload.Body -> 0 < sz') /\
    match r with Ok (Some (Chunk _)) => (length src' < length src)%nat | _ => True end).
  { intros f s0 Hf Hs0. unfold read_byte. destruct src as [|b src]; [by intros [= <- <- <- <-]|].
    destruct (f b) as [x|e] eqn:Hx; [|intros [= <- <- <- <-]; simpl; split; [lia|done]].
    apply Hf in Hx. destruct (decide (x = End)); [intros [= <- <- <- <-]; simpl; split; [lia|done]|].
    destruct src as [|b2 src]; [intros [= <- <- <- <-]; simpl; split; [lia|done]|].
    intros (Hl & Hst & Hr)%IH; [|done]. simpl in *. split; [lia|]. split; [done|]. destruct r as [[[?|]|]|]; try done. lia. }
  destruct st; cbn [step].
  - destruct (parse_chunk_size src) as [[[pos sz1]|]|[]]; [|by intros [= <- <- <- <-]..].
    assert (Hlen : (length (zdrop pos src) <= length src)%nat) by (unfold zdrop; rewrite length_drop; lia).
    destruct (Z.ltb_spec 0 sz1) as [Hpos|Hpos]; cbn [decide]; case_decide; try done;
      (destruct (zdrop pos src) as [|x l] eqn:Hd; [intros [= <- <- <- <-]; simpl; split; [lia|done]|]);
      intros (Hl & Hst & Hr)%IH; try done; (split; [simpl in *; lia|]); (split; [done|]);
      destruct r as [[[?|]|]|]; try done; simpl in *; lia.
  - unfold read_body. specialize (Hb eq_refl). destruct (Z.eqb_spec (zlen src) 0) as [Hz|Hz].
    + case_decide; [done|]. apply zlen_0 in Hz. subst src. intros [= <- <- <- <-]. done.
    + pose proof (zlen_nonneg src). destruct (Z.ltb_spec (zlen src) sz) as [Hlt|Hge].
      * destruct (Z.ltb_spec 0 (sz - zlen src)); [|lia]. case_decide; [done|]. intros [= <- <- <- <-]. unfold zlen in *. simpl. split; [lia|].
        split; [lia|]. lia.
      * simpl. intros [= <- <- <- <-]. unfold zdrop, zlen in *. rewrite length_drop. split; [lia|]. split; [done|]. lia.
  - apply (Hbyte _ BodyCr); [|done]. intros b x. destruct (b =? CR); [|done]. by intros [= <-].
  - apply (Hbyte _ BodyLf); [|done]. intros b x. destruct (b =? LF); [|done]. by intros [= <-].
  - apply (Hbyte _ EndCr); [|done]. intros b x. destruct (b =? CR); [|done]. by intros [= <-].
  - apply (Hbyte _ EndLf); [|done]. intros b x. destruct (b =? LF); [|done]. by intros [= <-].
  - case_decide; [|done]. intros [= <- <- <- <-]. done.
Qed.

Lemma decode_shrinks k src r k' src' :
  wf_kind k -> Payload.decode k src = (r, k', src') ->
  wf_kind k' /\ match r with Ok (Some (Chunk _)) => (length src' < length src)%nat | _ => True end.
Proof.
  intros Hk. unfold decode. destruct k as [n|st sz|].
  - simpl in Hk. destruct (Z.eqb_spec n 0); [by intros [= <- <- <-]|]. destruct src as [|x src]; [by intros [= <- <- <-]|].
    destruct (Z.ltb_spec (zlen (x :: src)) n).
    + intros [= <- <- <-]. unfold wf_kind. simpl. split; lia.
    + intros [= <- <- <-]. split; [done|]. unfold zdrop. rewrite length_drop. simpl. lia.
  - destruct (chunked_loop (loop_fuel src) st sz src) as [[[[r1 st1] sz1] src1]|] eqn:Hl; [|by intros [= <- <- <-]].
    intros [= <- <- <-]. apply chunked_loop_shrinks in Hl as (_ & Hb & Hr); [|by intros ->]. split; [|done].
    unfold wf_kind. destruct st1; try done. by apply Hb.
  - destruct src as [|x src]; intros [= <- <- <-]; (split; [done|]); simpl; try done. lia.
Qed.

(** The stream pumps the way the decoder does. *)
Lemma pl_pump_sim n : forall c k g h10 w d e k' buf,
  wf_kind k -> (io_status w = IS_Idle \/ exists x, io_status w = IS_Gone x) -> (length (io_read_buf w) < n)%nat ->
  pump n k (io_read_buf w) = (d, e, k', buf) ->
  wf_kind k' /\ exists w', io_read_buf w' = buf /\ io_status w' = io_status w /\
    pl_pump n (stream_of c k g h10) w =
      let '(pe, pl, u) := pumped c g h10 (io_status w) e k' w' in Val (d, pe, pl, u, w').
Proof.
  induction n as [|n IH]; intros c k g h10 w d e k' buf Hk Hst Hn; [lia|].
  cbn [pump pl_pump]. rewrite poll_of. destruct (Payload.decode k (io_read_buf w)) as [[r k1] buf1] eqn:Hd.
  apply decode_shrinks in Hd as [Hk1 Hlt]; [|done].
  pose proof (consumed_buf buf1 w) as Hb1. pose proof (consumed_status buf1 w) as Hs1.
  destruct r as [[[b|]|]|x]; cbn [mbind outcome_bind].
  - destruct (pump n k1 buf1) as [[[d2 e2] k2] buf2] eqn:Hp. intros [= <- <- <- <-].
    destruct (IH c k1 g h10 (io_consumed buf1 w) d2 e2 k2 buf2) as (Hk2 & w' & Hb' & Hs' & Hpl);
      [done|by rewrite Hs1|rewrite Hb1; lia|by rewrite Hb1|].
    split; [done|]. exists w'. split; [done|]. split; [by rewrite Hs', Hs1|]. rewrite Hpl, Hs1.
    by destruct (pumped c g h10 (io_status w) e2 k2 w') as [[pe pl] u].
  - intros [= <- <- <- <-]. split; [done|]. exists (io_consumed buf1 w). done.
  - intros [= <- <- <- <-]. split; [done|]. exists (io_consumed buf1 w). split; [done|]. split; [done|].
    destruct Hst as [-> | [[x|] ->]]; [done..|]. by destruct h10.
  - intros [= <- <- <- <-]. split; [done|]. exists (io_consumed buf1 w). done.
Qed.

Lemma pl_feed_eq ns pl w :
  pl_feed ns pl w =
    '(d, e, pl, u, w) ← pl_pump (S (length (io_read_buf w))) pl w;
    match e, ns with
    | PL_Waiting, n :: ns =>
        '(d', e, pl, u', w, rest) ← pl_feed ns pl (net n w); Val (d ++ d', e, pl, u ++ u', w, rest)
    | _, _ => Val (d, e, pl, u, w, ns)
    end.
Proof. by destruct ns. Qed.

Lemma feed_cons k s segs :
  feed k [] (s :: segs) =
    match pump (S (length s)) k s with
    | (d, NeedMore, k', buf') => let '(d', e, k'', buf'') := feed k' buf' segs in (d ++ d', e, k'', buf'')
    | (d, e, k', buf') => (d, e, k', buf' ++ concat segs)
    end.
Proof. done. Qed.

(** Feeding the stream is feeding the decoder, segment by segment; [ns] is what
    happens after the segments. *)
Lemma pl_feed_sim segs : forall ns c k g h10 w d e k' unread,
  wf_kind k -> io_status w = IS_Idle ->
  feed k [] (io_read_buf w :: segs) = (d, e, k', unread) ->
  exists w' rest, io_status w' = IS_Idle /\ io_read_buf w' ++ concat rest = unread /\ wf_kind k' /\
    (e = NeedMore -> rest = []) /\
    pl_feed ((Arrive <$> segs) ++ ns) (stream_of c k g h10) w =
      match e, ns with
      | NeedMore, n :: ns =>
          '(d', e, pl, u, w, rest) ← pl_feed ns (stream_of c k' g h10) (net n w'); Val (d ++ d', e, pl, u, w, rest)
      | _, _ =>
          let '(pe, pl, u) := pumped c g h10 IS_Idle e k' w' in Val (d, pe, pl, u, w', (Arrive <$> rest) ++ ns)
      end.
Proof.
  induction segs as [|seg segs IH]; intros ns c k g h10 w d e k' unread Hk Hi Hf;
    rewrite feed_cons in Hf;
    destruct (pump (S (length (io_read_buf w))) k (io_read_buf w)) as [[[d1 e1] k1] b1] eqn:Hp;
    destruct (pl_pump_sim _ c k g h10 w _ _ _ _ Hk (or_introl Hi) (Nat.lt_succ_diag_r _) Hp) as (Hk1 & w1 & Hb1 & Hs1 & Hpl);
    rewrite Hi in Hs1, Hpl.
  - exists w1, []. destruct e1; cbn [feed] in Hf; injection Hf as <- <- <- <-; cbn [concat]; rewrite ?app_nil_r; (split; [done|]); (split; [done|]); (split; [done|]); (split; [done|]);
      rewrite pl_feed_eq; cbn [fmap list_fmap app]; rewrite Hpl; destruct ns as [|n ns]; try reflexivity.
  - destruct e1.
    + destruct (feed k1 b1 (seg :: segs)) as [[[d2 e2] k2] b2] eqn:Hf2. injection Hf as <- <- <- <-.
      destruct (IH ns c k1 g h10 (io_arrive seg w1) d2 e2 k2 b2) as (w' & rest & Hi' & Hb' & Hk' & Hnm & Hpl');
        [done|by rewrite arrive_status|by rewrite arrive_buf, Hb1|].
      exists w', rest. split; [done|]. split; [done|]. split; [done|]. split; [done|]. rewrite pl_feed_eq.
      cbn [fmap list_fmap app]. rewrite Hpl.
      unfold pumped. cbn [mbind outcome_bind net]. cbn [fmap] in Hpl'. rewrite Hpl'.
      destruct e2, ns as [|n ns]; try reflexivity.
      destruct (pl_feed ns (stream_of c k2 g h10) (net n w')) as [[[[[[??]?]?]?]?]| |]; cbn; [by rewrite app_assoc|done..].
    + injection Hf as <- <- <- <-. exists w1, (seg :: segs). split; [done|]. split; [by rewrite Hb1|]. split; [done|]. split; [done|].
      rewrite pl_feed_eq. cbn [fmap list_fmap app]. rewrite Hpl. by destruct ns.
    + injection Hf as <- <- <- <-. exists w1, (seg :: segs). split; [done|]. split; [by rewrite Hb1|]. split; [done|]. split; [done|].
      rewrite pl_feed_eq. cbn [fmap list_fmap app]. rewrite Hpl. by destruct ns.
Qed.

(** The framings of a body: what is sent for which data. *)
Inductive framed : PayloadDecoder -> list Z -> list Z -> Prop :=
| fr_length data : framed (Length (zlen data)) data data
| fr_chunked cs : Forall is_chunk cs -> framed chunked_decoder (concat cs) (chunked_wire cs).

Lemma framed_wf k data wire : framed k data wire -> wf_kind k.
Proof. intros [l|cs _]; simpl; [apply zlen_nonneg|done]. Qed.

Lemma framed_feed k data wire segs rest :
  framed k data wire -> segs <> [] -> concat segs = wire ++ rest ->
  exists k', feed k [] segs = (data, Finished, k', rest).
Proof.
  intros [l|cs Hcs] Hne He.
  - exists (Length 0). rewrite length_framing_ok by (apply zlen_nonneg || done). rewrite He, zlen_app.
    pose proof (zlen_nonneg rest). destruct (Z.leb_spec (zlen l) (zlen l + zlen rest)); [|lia].
    by rewrite ztake_app_exact, zdrop_app_exact.
  - exists (Chunked End 0). by apply chunked_framing_ok.
Qed.

(** A body whose framing is cut off: a prefix of the data, and more is asked for. *)
Lemma framed_cut k data wire segs missing :
  framed k data wire -> segs <> [] -> concat segs ++ missing = wire -> missing <> [] ->
  exists d1 d2 k' buf, feed k [] segs = (d1, NeedMore, k', buf) /\ data = d1 ++ d2 /\
    exists d3 d4 k2 buf2, pump (S (length buf)) k' buf = (d3, NeedMore, k2, buf2) /\ d2 = d3 ++ d4.
Proof.
  intros [l|cs Hcs] Hne He Hm.
  - assert (Hlt : zlen (concat segs) < zlen l).
    { rewrite <- He, zlen_app. destruct missing; [done|]. rewrite zlen_cons. pose proof (zlen_nonneg missing). lia. }
    rewrite length_framing_ok by (apply zlen_nonneg || done).
    destruct (Z.leb_spec (zlen l) (zlen (concat segs))); [lia|].
    exists (concat segs), missing, (Length (zlen l - zlen (concat segs))), []. split; [done|]. split; [done|].
    rewrite pump_length by lia. destruct (Z.leb_spec (zlen l - zlen (concat segs)) (zlen (@nil Z))) as [Hx|Hx]; [rewrite zlen_nil in Hx; lia|].
    by exists [], missing, (Length (zlen l - zlen (concat segs) - zlen (@nil Z))), [].
  - destruct (feed_wire segs Size 0 [] (chunked_wire cs) (concat cs) missing [])
      as [(b' & E & Hb)|(d1 & d2 & st' & sz' & b' & w' & E & Hd & Hw & Hb & Hl)].
    + by apply wire_chunked.
    + simpl. by rewrite app_nil_r.
    + simpl. eapply wire_nonempty, wire_chunked, Hcs.
    + destruct b'; simpl in Hb; by destruct missing.
    + exists d1, d2, (Chunked st' sz'), b'. split; [done|]. split; [done|].
      destruct (pump_wire (S (length b')) st' sz' b' w' d2 missing []) as [(b2 & E2 & Hb2)|(d3 & d4 & st2 & sz2 & b2 & w2 & E2 & -> & _)];
        [lia|done|done| |].
      * destruct b2; simpl in Hb2; by destruct missing.
      * by exists d3, d4, (Chunked st2 sz2), b2.
Qed.

(** C15. A response's body arrives exactly.  Framed by a length or chunked, in
    whatever segments its bytes come, the first of them possibly with the head:
    the stream gives exactly the data and ends there, without a panic and without
    waiting for more; the bytes after the body stay where they are; and the
    connection is given back then, to be used again if and only if the codec
    keeps it alive, it is open and nothing more was in its buffer. *)
Theorem response_body_exact c k g h10 w segs ns data wire rest :
  framed k data wire -> io_status w = IS_Idle -> io_read_buf w ++ concat segs = wire ++ rest ->
  exists w' later,
    pl_feed ((Arrive <$> segs) ++ ns) (stream_of c k g h10) w =
      Val (data, PL_Ended, ended_of c h10, release_connection (negb (client_keepalive c)) g w', w', (Arrive <$> later) ++ ns) /\
    io_read_buf w' ++ concat later = rest /\
    (release_connection (negb (client_keepalive c)) true w' = [GU_Release false] <->
     client_keepalive c = true /\ io_is_closed w' = false /\ io_read_buf w' = []).
Proof.
  intros Hf Hi He. destruct (framed_feed k data wire (io_read_buf w :: segs) rest Hf) as [k' Hfeed]; [done|done|].
  destruct (pl_feed_sim segs ns c k g h10 w _ _ _ _ (framed_wf _ _ _ Hf) Hi Hfeed) as (w' & later & _ & Hb & _ & _ & Hpl).
  exists w', later. split; [|split; [done|]].
  - rewrite Hpl. by destruct ns.
  - unfold release_connection. destruct (client_keepalive c), (io_is_closed w'); simpl; try (by split; [|intros (?&?&?)]).
    case_bool_decide; simpl; (split; [done|]); [done|]. by intros (_ & _ & ?).
Qed.

(** C16. A response that is cut off.  When the peer is gone before the end of the
    body that the framing promises, the application has got a prefix of the data
    and then, from an HTTP/1.1 peer or when the connection failed, an error; but
    the body of an HTTP/1.0 response simply ends, also where its length or its
    chunks say that bytes are missing.  The connection is not given back. *)
Theorem response_cut_off c k g h10 w segs x ns data wire missing :
  framed k data wire -> io_status w = IS_Idle ->
  io_read_buf w ++ concat segs ++ missing = wire -> missing <> [] ->
  exists d1 d2 k' w',
    data = d1 ++ d2 /\
    pl_feed ((Arrive <$> segs) ++ Gone x :: ns) (stream_of c k g h10) w =
      Val (d1,
           match x with
           | Some e => PL_Failed (PE_Incomplete (Some e))
           | None => if h10 then PL_Ended else PL_Failed (PE_Incomplete None)
           end, stream_of c k' g h10, [], w', ns).
Proof.
  intros Hf Hi He Hm.
  destruct (framed_cut k data wire (io_read_buf w :: segs) missing Hf) as (d1 & d2 & k1 & b1 & Hfeed & -> & d3 & d4 & k2 & b2 & Hp & ->);
    [done|simpl; by rewrite <- app_assoc|done|].
  destruct (pl_feed_sim segs (Gone x :: ns) c k g h10 w _ _ _ _ (framed_wf _ _ _ Hf) Hi Hfeed) as (w1 & later & _ & Hb & Hk1 & Hl & Hpl).
  rewrite Hl, app_nil_r in Hb by done. rewrite Hpl. subst b1.
  destruct (pl_pump_sim (S (length (io_read_buf w1))) c k1 g h10 (io_gone x w1) d3 NeedMore k2 b2) as (_ & w2 & _ & _ & Hpl2);
    [done|right; exists x; apply gone_status|rewrite gone_buf; lia|by rewrite gone_buf|].
  exists (d1 ++ d3), d4, k2, w2. split; [by rewrite <- app_assoc|]. cbn [net].
  rewrite pl_feed_eq, gone_buf, Hpl2, gone_status. unfold pumped. destruct x as [x|]; [|destruct h10]; by destruct ns.
Qed.
End Reading.

(** ** Writing a request *)

Section Writing.
Context `{Parsers} `{ChunkSizeLaws} `{EncoderEnv} {W M : Type} `{!ClientIo W} `{!ClientIoLaws W}.
Context `{MessageBody M} `{UriAccess}.

Lemma next_chunk_gives b l :
  body_gives b l ->
  exists n b', (forall fuel, (n <= fuel)%nat -> next_chunk fuel b = Val (Ok <$> head l, b')) /\ (l <> [] -> body_gives b' (tail l)).
Proof.
  induction 1 as [b b' n Hp|b b' n l Hp Hl (m & b2 & Hn & Hg)|b b' n c l Hp Hl _].
  - exists (S n), b'. split; [|done]. intros [|fuel] Hf; [lia|]. cbn [next_chunk]. by rewrite Hp by lia.
  - exists (S (n + m)), b2. split; [|done]. intros [|fuel] Hf; [lia|]. cbn [next_chunk]. rewrite Hp by lia. apply Hn. lia.
  - exists (S n), b'. split; [|done]. intros [|fuel] Hf; [lia|]. cbn [next_chunk]. by rewrite Hp by lia.
Qed.

Lemma te_encode_ok te msg buf : exists b te' buf', te_encode te msg buf = (Ok b, te', buf').
Proof.
  unfold te_encode. destruct te as [e|r|]; [destruct e, msg|..]; repeat case_match; eauto 10.
Qed.

(** Writing the body is the encoder's [send_body] over the chunks it gives. *)
Lemma send_body_gives l : forall b,
  (forall full w, (io_flush full w).1 = Ok tt) -> body_gives b l ->
  exists n, forall fuel, (n <= fuel)%nat -> forall c w, exists c' w',
    let '(r, _, out) := EncoderThms.send_body (me_te (cc_encoder c)) l (io_out w) in
    ClientExchange.send_body fuel b c w = Val (match r with Ok _ => Ok tt | Err e => Err (CE_Request e) end, c', w') /\
    io_out w' = out.
Proof.
  induction l as [|m l IH]; intros b Hfl Hg; destruct (next_chunk_gives _ _ Hg) as (n & b' & Hn & Hg').
  - exists (S n). intros [|fuel] Hf c w; [lia|]. cbn [ClientExchange.send_body]. rewrite Hn by lia. simpl.
    rewrite encode_law. cbn [client_encode]. unfold encode_eof.
    destruct (te_encode_eof (me_te (cc_encoder c)) (io_out w)) as [[r te'] out]. simpl. destruct r as [?|e].
    + set (w1 := io_wrote out (io_date w) w). pose proof (Hfl true w1) as Hr. pose proof (flush_out true w1) as Ho.
      destruct (io_flush true w1) as [rf w2]. simpl in *. subst rf. do 2 eexists. split; [done|]. rewrite Ho. apply wrote_out.
    + do 2 eexists. split; [done|]. by rewrite wrote_out.
  - destruct (IH b' Hfl (Hg' ltac:(done))) as (k & Hk). exists (S (n + k)). intros [|fuel] Hf c w; [lia|].
    cbn [ClientExchange.send_body]. rewrite Hn by lia. simpl. rewrite encode_law. cbn [client_encode]. unfold encode_chunk.
    destruct (te_encode_ok (me_te (cc_encoder c)) m (io_out w)) as (x & te' & out & ->). simpl.
    set (c1 := mkClientCodec _ _ _ _ _ _). set (w1 := io_wrote out (io_date w) w).
    assert (Hw : exists w2, io_out w2 = out /\
      (if io_is_wr_backpressure w1
       then let '(r, w0) := io_flush false w1 in
            match r with Err e => Val (Err (CE_Send e), c1, w0) | Ok _ => ClientExchange.send_body fuel b' c1 w0 end
       else ClientExchange.send_body fuel b' c1 w1) = ClientExchange.send_body fuel b' c1 w2).
    { destruct (io_is_wr_backpressure w1); [|exists w1; split; [apply wrote_out|done]].
      pose proof (Hfl false w1) as Hr. pose proof (flush_out false w1) as Ho. destruct (io_flush false w1) as [rf w2]. simpl in *. subst rf.
      exists w2. split; [by rewrite Ho; apply wrote_out|done]. }
    destruct Hw as (w2 & Ho & ->). destruct (Hk fuel ltac:(lia) c1 w2) as (c' & w' & Hs). exists c', w'. by rewrite Ho in Hs.
Qed.

(** The bytes of a body after its head, and whether it falls short of its length. *)
Definition body_wire (size : BodySize) (chunked : bool) (l : list (list Z)) : list Z :=
  match size with
  | BS_None | BS_Empty => []
  | BS_Sized n => ztake n (concat l)
  | BS_Stream => if chunked then chunked_wire (until_empty l) else concat l
  end.
Definition body_short (size : BodySize) (l : list (list Z)) : bool :=
  match size with BS_Sized n => zlen (concat l) <? n | _ => false end.

Lemma send_body_eof l : forall buf, EncoderThms.send_body te_eof l buf = (Ok tt, te_eof, buf ++ concat l).
Proof.
  unfold te_eof. induction l as [|[|x m] l IH]; intros buf; [by rewrite app_nil_r|apply IH|].
  cbn [EncoderThms.send_body te_encode]. rewrite IH. cbn [concat]. by rewrite <- app_assoc.
Qed.

Lemma send_body_wire size chunked l out :
  match size with BS_Sized n => 0 <= n | BS_Stream => True | _ => False end ->
  exists te', EncoderThms.send_body (te_for size chunked) l out =
    (if body_short size l then Err EE_UnexpectedEof else Ok tt, te', out ++ body_wire size chunked l).
Proof.
  intros Hs. destruct size as [| |n|]; try done; unfold te_for.
  - rewrite send_body_length by done. by eexists.
  - destruct chunked; [rewrite send_body_chunked|rewrite send_body_eof]; by eexists.
Qed.

(** The transfer encoding of the codec after the head. *)
Lemma client_encode_te c req dst date r c' out date' :
  client_encode c (Item req) dst date = Val (r, c', out, date') ->
  me_te (cc_encoder c') = te_for (raw_size req) (RequestHeadOps.chunked (raw_head req)).
Proof.
  cbn [client_encode]. unfold encode. destruct (em_encode_status _ _) as [dst1| |]; cbn [mbind outcome_bind]; [|done..].
  destruct (encode_headers _ _ _ _ _ _ _) as [[[res dst2] date2]| |]; cbn [mbind outcome_bind]; [|done..].
  intros [= <- <- <- <-]. simpl. unfold te_for. destruct (raw_size req); try done. simpl. by rewrite andb_true_r.
Qed.

(** A request goes out whole.  When its head can be encoded and the io takes
    what is flushed: what is on the wire is that head, with the Host header
    that was added, and then the body in the framing of its size, whatever chunks and pauses the
    body is given in, and only then is the response read; a body that is shorter
    than its length is an error, and the connection is not used again.  A server
    that reads the framing gets the body's bytes. *)
Theorem request_written cfg req (body : Body M) timeout g w c1 head date l :
  (forall full w, (io_flush full w).1 = Ok tt) ->
  client_encode (client_new true cfg) (Item (set_host req)) (io_out w) (io_date w) = Val (Ok tt, c1, head, date) ->
  raw_size req = body_size body -> (forall n, body_size body = BS_Sized n -> 0 <= n) -> body_gives body l ->
  Forall (fun c => zlen c < 2 ^ 64) l ->
  let size := body_size body in
  let chunked := RequestHeadOps.chunked (raw_head req) in
  let wire := body_wire size chunked l in
  (exists n, forall fuel, (n <= fuel)%nat -> exists c2 w2,
     io_out w2 = head ++ wire /\
     send_request fuel cfg req body timeout g w =
       if body_short size l then Val (Err (CE_Request EE_UnexpectedEof), drop_guard g, w2)
       else read_response timeout g c2 w2) /\
  (size = BS_Stream -> chunked = true -> framed chunked_decoder (concat (until_empty l)) wire) /\
  (forall n, size = BS_Sized n -> body_short size l = false -> framed (Length n) (ztake n (concat l)) wire).
Proof.
  intros Hfl He Hsize Hpos Hg Hl size chunked wire. split_and!.
  - destruct (send_body_gives l body Hfl Hg) as (n & Hn). exists n. intros fuel Hf.
    assert (Hsend : exists w1, io_out w1 = head /\ io_send (set_host req) (client_new true cfg) w = Val (Ok tt, c1, w1)).
    { rewrite send_law, encode_law, He. cbn [mbind outcome_bind]. pose proof (Hfl true (io_wrote head date w)) as Hr.
      pose proof (flush_out true (io_wrote head date w)) as Ho. destruct (io_flush true (io_wrote head date w)) as [rf w2].
      simpl in Hr, Ho. subst rf. exists w2. by rewrite Ho, wrote_out. }
    destruct Hsend as (w1 & Ho & Hs). unfold send_request. rewrite Hs. cbn [mbind outcome_bind].
    assert (Hhead : RequestHeadOps.chunked (raw_head (set_host req)) = chunked /\ raw_size (set_host req) = size).
    { unfold set_host. repeat case_match; done. }
    destruct Hhead as [Hc Hz]. pose proof (client_encode_te _ _ _ _ _ _ _ _ He) as Hte. rewrite Hc, Hz in Hte.
    destruct (Hn fuel Hf c1 w1) as (c2 & w2 & Hb). rewrite Ho, Hte in Hb.
    assert (Hnone : wire = [] -> body_short size l = false -> exists c2 w2, io_out w2 = head ++ wire /\
      (read_response timeout g c1 w1) = if body_short size l then Val (Err (CE_Request EE_UnexpectedEof), drop_guard g, w2)
       else read_response timeout g c2 w2).
    { intros -> ->. exists c1, w1. by rewrite app_nil_r. }
    assert (Hsome : match size with BS_Sized n => 0 <= n | BS_Stream => True | _ => False end -> exists c2 w2, io_out w2 = head ++ wire /\
      ('(r, codec, w) ← ClientExchange.send_body fuel body c1 w1;
       match r with Err e => Val (Err e, drop_guard g, w) | Ok _ => read_response timeout g codec w end) =
      if body_short size l then Val (Err (CE_Request EE_UnexpectedEof), drop_guard g, w2) else read_response timeout g c2 w2).
    { intros Hp. destruct (send_body_wire size chunked l head Hp) as [te' Hw]. rewrite Hw in Hb. destruct Hb as [-> Hout].
      exists c2, w2. split; [done|]. cbn [mbind outcome_bind]. by destruct (body_short size l). }
    subst size wire. destruct (body_size body) as [| |k|]; [by apply Hnone..| |by apply Hsome].
    specialize (Hpos k eq_refl). destruct k as [|p|p]; [apply Hnone|by apply Hsome|lia].
    + done.
    + simpl. pose proof (zlen_nonneg (concat l)). destruct (Z.ltb_spec (zlen (concat l)) 0); [lia|done].
  - intros Hs Hc. unfold wire. rewrite Hs, Hc. apply fr_chunked. by apply until_empty_chunks.
  - intros k Hs Hsh. unfold wire. rewrite Hs in *. simpl in *. specialize (Hpos k Hs).
    destruct (Z.ltb_spec (zlen (concat l)) k); [done|].
    assert (Hk : zlen (ztake k (concat l)) = k) by (apply zlen_ztake; lia). rewrite <- Hk at 1. apply fr_length.
Qed.
End Writing.
