(* ===== verification/ClientExchangeWorld.v ===== *)
(** * An exchange at work

    A concrete io - what was written, what can be read, the segments the peer
    sends - that has the laws of [ClientExchangeThms], and runs of the client on
    it: a request with a streamed body, a chunked response in pieces, and an
    HTTP/1.0 response that is cut off. *)
From S2P Require Import Prelude Headers Message Config Errors Payload Decoder DecoderThms Encoder EncoderThms H1Codec Body.
From S2P Require Import ClientPool ClientExchange ClientExchangeThms.
Import RefChunkSize RefParsers RefEnv ScriptStream.

Module RefIo.
Record Io := mkIo {
  i_out : list Z;
  i_date : DateService.t;
  i_status : IoStatus;
  i_buf : list Z;
  i_closed : bool;
  i_coming : list (list Z)
}.
Definition with_out (o : list Z) (d : DateService.t) (w : Io) : Io :=
  mkIo o d (i_status w) (i_buf w) (i_closed w) (i_coming w).
Definition with_buf (b : list Z) (w : Io) : Io := mkIo (i_out w) (i_date w) (i_status w) b (i_closed w) (i_coming w).
Definition with_status (s : IoStatus) (w : Io) : Io := mkIo (i_out w) (i_date w) s (i_buf w) (i_closed w) (i_coming w).

Definition encode_on (item : CodecMessage ClientRawRequest) (c : ClientCodec) (w : Io)
    : outcome (result unit EncodeError * ClientCodec * Io) :=
  '(r, c', out, date) ← client_encode c item (i_out w) (i_date w); Val (r, c', with_out out date w).

(** The head is decoded as the segments come; without more of them the time runs out. *)
Fixpoint recv_on (coming : list (list Z)) (c : ClientCodec) (w : Io)
    : outcome (option (result (option ResponseHead) (DecodeError + Z)) * ClientCodec * Io) :=
  '(r, c, buf) ← client_decode c (i_buf w);
  match r with
  | Err e => Val (Some (Err (inl e)), c, with_buf buf w)
  | Ok (Some head) =>
      Val (Some (Ok (Some head)), c, mkIo (i_out w) (i_date w) (i_status w) buf (i_closed w) coming)
  | Ok None =>
      match coming with
      | seg :: coming => recv_on coming c (with_buf (buf ++ seg) w)
      | [] => Val (None, c, with_buf buf w)
      end
  end.

Definition poll_on (c : ClientCodec) (w : Io) : outcome (Poll (result (option (list Z)) RecvError) * ClientCodec * Io) :=
  '(r, c', buf) ← client_payload_decode c (i_buf w);
  Val (match r with
       | Ok (Some item) => Ready (Ok item)
       | Err e => Ready (Err (RE_Decoder e))
       | Ok None =>
           match i_status w with
           | IS_Idle => Pending
           | IS_Gone e => Ready (Err (RE_PeerGone e))
           | IS_KeepAlive => Ready (Err RE_KeepAlive)
           | IS_Backpressure => Ready (Err RE_WriteBackpressure)
           end
       end, c', with_buf buf w).

#[export] Instance ref_io : ClientIo Io := {
  io_send req c w := '(r, c, w) ← encode_on (Item req) c w;
                     Val (match r with Ok _ => Ok tt | Err e => Err (inl e) end, c, w);
  io_encode := encode_on;
  io_flush _ w := (Ok tt, w);
  io_is_wr_backpressure w := 64 <? zlen (i_out w);
  io_recv _ c w := recv_on (i_coming w) c w;
  io_poll_recv := poll_on;
  io_poll_flush _ w := (Ready (Ok tt), w);
  io_is_closed := i_closed;
  io_read_buf := i_buf
}.

#[export] Instance ref_io_laws : ClientIoLaws Io.
Proof.
  refine {| io_out := i_out; io_date := i_date; io_status := i_status; io_wrote := with_out; io_consumed := with_buf;
            io_arrive seg w := with_buf (i_buf w ++ seg) w; io_gone e w := with_status (IS_Gone e) w |};
    try reflexivity.
  intros req c w. simpl. destruct (encode_on (Item req) c w) as [[[[?|?] c'] w']| |]; reflexivity.
Defined.

#[export] Instance ref_uri : UriAccess := {
  uri_scheme_str _ := Some (bs "http");
  uri_host u := Some (bs "h");
  uri_port_u16 _ := Some 8080
}.

Definition io0 (coming : list (list Z)) : Io := mkIo [] DateService.new IS_Idle [] false coming.

(** A request with the body [hello], in two chunks, an empty one and a pause. *)
Definition Script : Type := BodyStream (list ChunkPoll).
Definition body : Body Script :=
  B_Message (mkBodyStream [Ready (Some (Ok (bs "hel"))); Ready (Some (Ok [])); Pending; Ready (Some (Ok (bs "lo")))]).
Definition req : ClientRawRequest :=
  mkRawRequest (mkRequestHead 0 (mkUri (bs "/p") (Some (bs "/p"))) (bs "POST") HTTP_11 HeaderMapOps.new [] [] IoNone 0)
    None BS_Stream.

(** The response comes in pieces, the first with a part of the body. *)
Definition head_bytes : list Z := bs "HTTP/1.1 200 OK" ++ CRLF ++ bs "Transfer-Encoding: chunked" ++ CRLF ++ CRLF.
Definition pieces : list (list Z) := [bs "l" ++ CRLF ++ bs "3" ++ CRLF; bs "lo!" ++ CRLF ++ bs "0" ++ CRLF; CRLF].
Definition io1 : Io := io0 [ztake 20 head_bytes; zdrop 20 head_bytes ++ bs "3" ++ CRLF ++ bs "he"].
Notation answer := (send_request 9 ConfigOps.new req body 5000 true io1).
End RefIo.
Import RefIo.

(** The codec, the stream and the io when the head is there. *)
Definition answer_state : option (ResponseHead * PlStream * list GuardUse * Io) :=
  match answer with Val (Ok (h, CP_Stream pl), u, w) => Some (h, pl, u, w) | _ => None end.
Definition the_stream : PlStream :=
  match answer_state with Some (_, pl, _, _) => pl | None => mkPlStream true (client_new true ConfigOps.new) true false end.
Definition the_io : Io := match answer_state with Some (_, _, _, w) => w | None => io0 [] end.
Definition the_head : ResponseHead := match answer_state with Some (h, _, _, _) => h | None => ResponseHeadOps.default end.

Lemma answer_runs : answer = Val (Ok (the_head, CP_Stream the_stream), [], the_io).
Proof. vm_compute. reflexivity. Qed.

Definition polls : list Act :=
  flat_map (fun seg => [Act_poll 1; Act_poll 1; Act_world (io_arrive seg)]) pieces ++ [Act_poll 1].

(** The stream is polled to its end: the connection is given back, once. *)
Lemma polls_run : exists us p w,
  payload_run polls (CP_Stream the_stream) the_io = Val (us, p, w) /\
  us.*1.*1 = [GU_Release false] /\ drop_payload p = [].
Proof. eexists _, _, _. split; [vm_compute; reflexivity|]. split; vm_compute; reflexivity. Qed.

Definition some_pool : Pool := set_held (pool_new (mkPoolConfig 8 15 75)) 1 [mkHeld "h" 0 0].
Definition some_time : Now := mkNow 0 (fun _ => false) (fun _ => []) (fun _ => false).

Lemma guard_used_once_witness :
  exists us p w pool',
    payload_run polls (CP_Stream the_stream) the_io = Val (us, p, w) /\ Forall reusable us /\
    us.*1.*1 = [GU_Release false] /\
    foldl (pool_use some_time 0) (Some some_pool) [GU_Release false] = Some pool' /\ held pool' = [] /\ acquired pool' = 0.
Proof.
  pose proof (guard_used_once 9 ConfigOps.new req body 5000 true io1 _ _ _ answer_runs) as Hg. cbv beta match in Hg.
  destruct Hg as [_ Hg]. destruct polls_run as (us & p & w & Hrun & Huses & Hdrop).
  destruct (Hg _ _ _ _ Hrun) as (Hre & _ & Hpool).
  destruct (Hpool some_time 0%nat some_pool (mkHeld "h" 0 0)) as (pool' & Hp & Hh & Ha); [reflexivity..|].
  exists us, p, w, pool'. rewrite Huses, Hdrop in Hp.
  split; [exact Hrun|]. split; [exact Hre|]. split; [exact Huses|]. split; [exact Hp|]. split; [exact Hh|exact Ha].
Defined.

Lemma io_flushes : forall full (w : Io), (io_flush full w).1 = Ok tt.
Proof. reflexivity. Qed.

Lemma body_chunks : body_gives body [bs "hel"; bs "lo"].
Proof.
  assert (Hfuel : forall fuel, (5 <= fuel)%nat -> exists f, fuel = S (S (S (S (S f))))).
  { intros fuel Hf. exists (fuel - 5)%nat. lia. }
  eapply (bg_chunk _ _ 5); [intros fuel Hf; destruct (Hfuel fuel Hf) as [f ->]; reflexivity|].
  eapply (bg_pending _ _ 5); [intros fuel Hf; destruct (Hfuel fuel Hf) as [f ->]; reflexivity|].
  eapply (bg_chunk _ _ 5); [intros fuel Hf; destruct (Hfuel fuel Hf) as [f ->]; reflexivity|].
  eapply (bg_end _ _ 5); intros fuel Hf; destruct (Hfuel fuel Hf) as [f ->]; reflexivity.
Qed.

Definition first_line : list Z :=
  bs "POST /p HTTP/1.1" ++ CRLF ++ bs "transfer-encoding: chunked" ++ CRLF ++ bs "host: h:8080" ++ CRLF ++
  bs "date: Thu, 01 Jan 1970 00:00:00 GMT" ++ CRLF ++ CRLF.

Lemma head_encodes : exists c date,
  client_encode (client_new true ConfigOps.new) (Item (set_host req)) (io_out io1) (io_date io1) = Val (Ok tt, c, first_line, date).
Proof. eexists _, _. vm_compute. reflexivity. Qed.

Lemma request_written_witness :
  exists n, forall fuel, (n <= fuel)%nat -> exists c2 w2,
    io_out w2 = first_line ++ bs "3" ++ CRLF ++ bs "hel" ++ CRLF ++ bs "2" ++ CRLF ++ bs "lo" ++ CRLF ++ bs "0" ++ CRLF ++ CRLF /\
    send_request fuel ConfigOps.new req body 5000 true io1 = read_response 5000 true c2 w2.
Proof.
  destruct head_encodes as (c & date & He).
  destruct (request_written ConfigOps.new req body 5000 true io1 c first_line date [bs "hel"; bs "lo"] io_flushes He)
    as [Hw _]; [reflexivity|discriminate|exact body_chunks|repeat constructor|].
  exact Hw.
Defined.

(** The response of the exchange above, read from its first piece on. *)
Lemma the_stream_is : exists c, the_stream = stream_of c chunked_decoder true false /\ client_keepalive c = true.
Proof. eexists (pl_codec the_stream). split; vm_compute; reflexivity. Qed.

Lemma the_io_is : io_status the_io = IS_Idle /\ io_read_buf the_io = bs "3" ++ CRLF ++ bs "he".
Proof. split; vm_compute; reflexivity. Qed.

Lemma response_body_exact_witness :
  exists c w' later,
    pl_feed ((Arrive <$> pieces) ++ []) the_stream the_io =
      Val (bs "hello!", PL_Ended, ended_of c false, release_connection (negb (client_keepalive c)) true w', w',
           (Arrive <$> later) ++ []) /\
    io_read_buf w' ++ concat later = [].
Proof.
  destruct the_stream_is as (c & Hs & _). destruct the_io_is as [Hi Hb].
  destruct (response_body_exact c chunked_decoder true false the_io pieces [] (bs "hello!")
    (chunked_wire [bs "hel"; bs "lo!"]) []) as (w' & later & Hf & Hr & _).
  - apply (fr_chunked [bs "hel"; bs "lo!"]). repeat constructor.
  - exact Hi.
  - rewrite Hb. vm_compute. reflexivity.
  - exists c, w', later. split; [rewrite Hs; exact Hf|exact Hr].
Defined.

(** An HTTP/1.0 response of ten bytes ends after three. *)
Lemma response_cut_off_witness :
  exists k' w',
    pl_feed ((Arrive <$> [bs "hel"]) ++ [Gone None]) (stream_of (client_new true ConfigOps.new) (Length 10) true true) (io0 []) =
      Val (bs "hel", PL_Ended, stream_of (client_new true ConfigOps.new) k' true true, [], w', []).
Proof.
  destruct (response_cut_off (client_new true ConfigOps.new) (Length 10) true true (io0 []) [bs "hel"] None [] (bs "hello all!")
    (bs "hello all!") (bs "lo all!")) as (d1 & d2 & k' & w' & Hd & Hf).
  - exact (fr_length (bs "hello all!")).
  - reflexivity.
  - reflexivity.
  - discriminate.
  - exists k', w'. assert (Hd1 : d1 = bs "hel").
    { clear Hd. vm_compute in Hf. injection Hf as <- _ _. reflexivity. }
    rewrite Hd1 in Hf. exact Hf.
Defined.
