(* ===== verification/ClientRequest.v ===== *)
(** * Building a client's request

    [client/cfg.rs], [client/request.rs], [client/service.rs] and the part of
    [client/mod.rs] that starts a request: the settings of a client, the builder
    [ClientRequest], its checks and the request it hands to the sender.  The
    cookie feature, which is off by default, is left out.  A key, a value or a URI
    that is converted by [TryFrom] is given as the result of its conversion, a
    body that serde prints as the result of printing it. *)
From S2P Require Import Prelude Headers Message Config Errors Payload Decoder Encoder EncoderThms H1Codec Body.
From S2P Require Import Response ClientProxy ClientPool ClientExchange.

Definition ACCEPT_ENCODING : HeaderName := bs "accept-encoding".
Definition AUTHORIZATION : HeaderName := bs "authorization".

(** ** The settings *)

Record ClientConfig := mkClientConfig {
  cl_headers : HeaderMap;
  cl_timeout : Z;
  cl_pl_limit : Z;
  cl_pl_timeout : Z;
  cl_default_headers : bool;
  cl_allow_redirects : bool;
  cl_max_redirects : Z;
  cl_conn_lifetime : Z;
  cl_conn_keep_alive : Z;
  cl_limit : Z;
  cl_proxy : option ProxyTarget
}.

(** [ClientConfig::new]; timeouts in milliseconds, the times of a connection in
    seconds. *)
Definition config_new : ClientConfig :=
  mkClientConfig HeaderMapOps.new 5000 262144 10000 true true 2 75 15 8 None.

Definition set_limit (limit : Z) (c : ClientConfig) : ClientConfig :=
  mkClientConfig (cl_headers c) (cl_timeout c) (cl_pl_limit c) (cl_pl_timeout c) (cl_default_headers c)
    (cl_allow_redirects c) (cl_max_redirects c) (cl_conn_lifetime c) (cl_conn_keep_alive c) limit (cl_proxy c).
Definition set_keep_alive (dur : Z) (c : ClientConfig) : ClientConfig :=
  mkClientConfig (cl_headers c) (cl_timeout c) (cl_pl_limit c) (cl_pl_timeout c) (cl_default_headers c)
    (cl_allow_redirects c) (cl_max_redirects c) (cl_conn_lifetime c) dur (cl_limit c) (cl_proxy c).
Definition set_lifetime (dur : Z) (c : ClientConfig) : ClientConfig :=
  mkClientConfig (cl_headers c) (cl_timeout c) (cl_pl_limit c) (cl_pl_timeout c) (cl_default_headers c)
    (cl_allow_redirects c) (cl_max_redirects c) dur (cl_conn_keep_alive c) (cl_limit c) (cl_proxy c).
Definition set_response_timeout (timeout : Z) (c : ClientConfig) : ClientConfig :=
  mkClientConfig (cl_headers c) timeout (cl_pl_limit c) (cl_pl_timeout c) (cl_default_headers c)
    (cl_allow_redirects c) (cl_max_redirects c) (cl_conn_lifetime c) (cl_conn_keep_alive c) (cl_limit c) (cl_proxy c).
Definition disable_timeout (c : ClientConfig) : ClientConfig := set_response_timeout 0 c.
Definition set_redirects (allow : bool) (num : Z) (c : ClientConfig) : ClientConfig :=
  mkClientConfig (cl_headers c) (cl_timeout c) (cl_pl_limit c) (cl_pl_timeout c) (cl_default_headers c)
    allow num (cl_conn_lifetime c) (cl_conn_keep_alive c) (cl_limit c) (cl_proxy c).
Definition disable_redirects (c : ClientConfig) : ClientConfig := set_redirects false (cl_max_redirects c) c.
Definition set_max_redirects (num : Z) (c : ClientConfig) : ClientConfig := set_redirects (cl_allow_redirects c) num c.
Definition set_no_default_headers (c : ClientConfig) : ClientConfig :=
  mkClientConfig (cl_headers c) (cl_timeout c) (cl_pl_limit c) (cl_pl_timeout c) false
    (cl_allow_redirects c) (cl_max_redirects c) (cl_conn_lifetime c) (cl_conn_keep_alive c) (cl_limit c) (cl_proxy c).
Definition set_response_payload_limit (limit : Z) (c : ClientConfig) : ClientConfig :=
  mkClientConfig (cl_headers c) (cl_timeout c) limit (cl_pl_timeout c) (cl_default_headers c)
    (cl_allow_redirects c) (cl_max_redirects c) (cl_conn_lifetime c) (cl_conn_keep_alive c) (cl_limit c) (cl_proxy c).
Definition set_response_payload_timeout (timeout : Z) (c : ClientConfig) : ClientConfig :=
  mkClientConfig (cl_headers c) (cl_timeout c) (cl_pl_limit c) timeout (cl_default_headers c)
    (cl_allow_redirects c) (cl_max_redirects c) (cl_conn_lifetime c) (cl_conn_keep_alive c) (cl_limit c) (cl_proxy c).

Definition cfg_set_header (key : result HeaderName HttpError) (value : result HeaderValue HttpError) (c : ClientConfig)
    : result ClientConfig HttpError :=
  match key with
  | Err e => Err e
  | Ok key =>
      match value with
      | Err e => Err e
      | Ok value =>
          Ok (mkClientConfig (HeaderMapOps.append (cl_headers c) key value) (cl_timeout c) (cl_pl_limit c) (cl_pl_timeout c)
                (cl_default_headers c) (cl_allow_redirects c) (cl_max_redirects c) (cl_conn_lifetime c)
                (cl_conn_keep_alive c) (cl_limit c) (cl_proxy c))
      end
  end.

(** [format!("Basic {}", base64.encode(format!("{username}:{password}")))] *)
Definition basic_text (base64_encode : list Z -> list Z) (username : list Z) (password : option (list Z)) : list Z :=
  bs "Basic " ++ base64_encode (username ++ bs ":" ++ default [] password).
Definition bearer_text (token : list Z) : list Z := bs "Bearer " ++ token.

Definition set_basic_auth (base64_encode : list Z -> list Z) (username : list Z) (password : option (list Z))
    (c : ClientConfig) : result ClientConfig HttpError :=
  cfg_set_header (Ok AUTHORIZATION) (value_from_string (basic_text base64_encode username password)) c.
Definition set_bearer_auth (token : list Z) (c : ClientConfig) : result ClientConfig HttpError :=
  cfg_set_header (Ok AUTHORIZATION) (value_from_string (bearer_text token)) c.

(** ** The builder *)

Definition hcontains (m : HeaderMap) (k : HeaderName) : bool :=
  HeaderMapOps.contains_key (fun _ => None) m (NameLeft k).

Section Builder.
Context `{UriAccess} {M : Type}.

(** [ClientRequest], with its [ServiceRequest]; the socket address is a number. *)
Record ClientRequest := mkClientRequest {
  cr_request : ServiceRequest (M := M);
  cr_addr : option Z;
  cr_err : option HttpError
}.

(** [ServiceRequest::new], with a head of the pool. *)
Definition service_request_new (head : RequestHead) : ServiceRequest := mkServiceRequest head None (@B_None M) 0 true.

Definition cr_head (r : ClientRequest) : RequestHead := sr_head (cr_request r).
Definition with_head (r : ClientRequest) (h : RequestHead) : ClientRequest :=
  let q := cr_request r in
  mkClientRequest (mkServiceRequest h (sr_headers q) (sr_body q) (sr_timeout q) (sr_decompress q)) (cr_addr r) (cr_err r).
Definition with_err (r : ClientRequest) (e : HttpError) : ClientRequest :=
  mkClientRequest (cr_request r) (cr_addr r) (Some e).
Definition with_headers (r : ClientRequest) (f : HeaderMap -> HeaderMap) : ClientRequest :=
  with_head r (set_headers (cr_head r) (f (rq_headers (cr_head r)))).

Definition req_uri (uri : result Uri HttpError) (r : ClientRequest) : ClientRequest :=
  match uri with
  | Ok uri => with_head r (set_request_line (cr_head r) uri (rq_method (cr_head r)) (rq_version (cr_head r)))
  | Err e => with_err r e
  end.
Definition req_address (addr : Z) (r : ClientRequest) : ClientRequest :=
  mkClientRequest (cr_request r) (Some addr) (cr_err r).
Definition req_method (method : Method) (r : ClientRequest) : ClientRequest :=
  with_head r (set_request_line (cr_head r) (rq_uri (cr_head r)) method (rq_version (cr_head r))).
Definition req_version (version : Version) (r : ClientRequest) : ClientRequest :=
  with_head r (set_request_line (cr_head r) (rq_uri (cr_head r)) (rq_method (cr_head r)) version).

Definition req_header (key : result HeaderName HttpError) (value : result HeaderValue HttpError) (r : ClientRequest)
    : ClientRequest :=
  match key with
  | Ok key =>
      match value with
      | Ok value => with_headers r (fun m => HeaderMapOps.append m key value)
      | Err e => with_err r e
      end
  | Err e => with_err r e
  end.
Definition req_set_header (key : result HeaderName HttpError) (value : result HeaderValue HttpError) (r : ClientRequest)
    : ClientRequest :=
  match key with
  | Ok key =>
      match value with
      | Ok value => with_headers r (fun m => HeaderMapOps.insert m key value)
      | Err e => with_err r e
      end
  | Err e => with_err r e
  end.
Definition req_set_header_if_none (key : result HeaderName HttpError) (value : result HeaderValue HttpError)
    (r : ClientRequest) : ClientRequest :=
  match key with
  | Ok key =>
      if hcontains (rq_headers (cr_head r)) key then r
      else
        match value with
        | Ok value => with_headers r (fun m => HeaderMapOps.insert m key value)
        | Err e => with_err r e
        end
  | Err e => with_err r e
  end.

Definition req_set_connection_type (ctype : ConnectionType) (r : ClientRequest) : ClientRequest :=
  with_head r (RequestHeadOps.set_connection_type (cr_head r) ctype).
Definition req_force_close (r : ClientRequest) : ClientRequest := req_set_connection_type Close r.
Definition req_content_type (value : result HeaderValue HttpError) (r : ClientRequest) : ClientRequest :=
  match value with
  | Ok value => with_headers r (fun m => HeaderMapOps.insert m CONTENT_TYPE value)
  | Err e => with_err r e
  end.
Definition req_content_length (len : result HeaderValue HttpError) (r : ClientRequest) : ClientRequest :=
  req_header (Ok CONTENT_LENGTH) len r.
Definition req_basic_auth (base64_encode : list Z -> list Z) (username : list Z) (password : option (list Z))
    (r : ClientRequest) : ClientRequest :=
  req_header (Ok AUTHORIZATION) (value_from_string (basic_text base64_encode username password)) r.
Definition req_bearer_auth (token : list Z) (r : ClientRequest) : ClientRequest :=
  req_header (Ok AUTHORIZATION) (value_from_string (bearer_text token)) r.
Definition req_no_decompress (r : ClientRequest) : ClientRequest :=
  let q := cr_request r in
  mkClientRequest (mkServiceRequest (sr_head q) (sr_headers q) (sr_body q) (sr_timeout q) false) (cr_addr r) (cr_err r).
Definition req_timeout (timeout : Z) (r : ClientRequest) : ClientRequest :=
  let q := cr_request r in
  mkClientRequest (mkServiceRequest (sr_head q) (sr_headers q) (sr_body q) timeout (sr_decompress q)) (cr_addr r) (cr_err r).
Definition req_if_true (value : bool) (f : ClientRequest -> ClientRequest) (r : ClientRequest) : ClientRequest :=
  if value then f r else r.
Definition req_if_some {T} (value : option T) (f : T -> ClientRequest -> ClientRequest) (r : ClientRequest)
    : ClientRequest :=
  match value with Some val => f val r | None => r end.

(** [ClientRequest::new] *)
Definition request_new (method : Method) (uri : result Uri HttpError) (head : RequestHead) : ClientRequest :=
  req_uri uri (req_method method (mkClientRequest (service_request_new head) None None)).

(** The loops over a header map; [inner] is the order of the hash map. *)
Definition copy_if_none (inner : list (HeaderName * Value)) (r : ClientRequest) : ClientRequest :=
  fold_left (fun r kv => req_set_header_if_none (Ok kv.1) (Ok kv.2) r)
    (drain HeaderMapOps.iter_next (S (length (flat_map HeaderMapThms.entry_pairs inner))) (HeaderMapOps.iter inner)) r.

(** [Client::request], and with it [get], [head] and the others. *)
Definition client_request (cfg_headers : list (HeaderName * Value)) (method : Method) (uri : result Uri HttpError)
    (head : RequestHead) : ClientRequest :=
  copy_if_none cfg_headers (request_new method uri head).

(** [Client::request_from] *)
Definition client_request_from (cfg_headers : list (HeaderName * Value)) (uri : result Uri HttpError)
    (from_method : Method) (from_headers : list (HeaderName * Value)) (head : RequestHead) : ClientRequest :=
  copy_if_none from_headers (client_request cfg_headers from_method uri head).

(** ** Sending *)

(** [prep_for_sending_inner], with the [compress] feature or without. *)
Definition prep_for_sending (compress : bool) (r : ClientRequest) : outcome (result unit ClientError * ClientRequest) :=
  match cr_err r with
  | Some e => Val (Err (CE_Http e), mkClientRequest (cr_request r) (cr_addr r) None)
  | None =>
      let uri := rq_uri (cr_head r) in
      match
        match uri_host uri, uri_scheme_str uri with
        | None, _ => Err (CE_Url IU_MissingHost)
        | Some _, None => Err (CE_Url IU_MissingScheme)
        | Some _, Some scheme =>
            if bool_decide (scheme ∈ [bs "http"; bs "ws"; bs "https"; bs "wss"]) then Ok tt
            else Err (CE_Url IU_UnknownScheme)
        end
      with
      | Err e => Val (Err e, r)
      | Ok _ =>
          if compress && sr_decompress (cr_request r) && negb (hcontains (rq_headers (cr_head r)) ACCEPT_ENCODING)
          then
            v ← from_static (bs "gzip, deflate");
            Val (Ok tt, with_headers r (fun m => HeaderMapOps.insert m ACCEPT_ENCODING v))
          else Val (Ok tt, r)
      end
  end.

Definition with_body (r : ClientRequest) (body : Body M) : ClientRequest :=
  let q := cr_request r in
  mkClientRequest (mkServiceRequest (sr_head q) (sr_headers q) body (sr_timeout q) (sr_decompress q)) (cr_addr r) (cr_err r).

(** What is handed to the service: [send] and [send_body]. *)
Definition send_body_request (compress : bool) (body : Body M) (r : ClientRequest)
    : outcome (result ServiceRequest ClientError) :=
  '(res, r) ← prep_for_sending compress r;
  Val match res with Err e => Err e | Ok _ => Ok (cr_request (with_body r body)) end.
Definition send_empty_request (compress : bool) (r : ClientRequest) : outcome (result ServiceRequest ClientError) :=
  send_body_request compress (sr_body (cr_request r)) r.

(** [set_json] and [set_form] after their checks, and [send_json], [send_form]: the
    text serde prints, or its error. *)
Definition send_text_request (ctype : list Z) (compress : bool) (text : result (list Z) Z) (r : ClientRequest)
    : outcome (result ServiceRequest ClientError) :=
  '(res, r) ← prep_for_sending compress r;
  Val match res with
      | Err e => Err e
      | Ok _ =>
          match text with
          | Err e => Err (CE_Error e)
          | Ok text =>
              let r := with_body r (B_Bytes (mkBytes text)) in
              if hcontains (rq_headers (cr_head r)) CONTENT_TYPE then Ok (cr_request r)
              else
                match value_from ctype with
                | Err e => Err (CE_Http e)
                | Ok v => Ok (cr_request (with_headers r (fun m => HeaderMapOps.insert m CONTENT_TYPE v)))
                end
          end
      end.
Definition send_json_request := send_text_request (bs "application/json").
Definition send_form_request := send_text_request (bs "application/x-www-form-urlencoded").
End Builder.
