(* ===== verification/ClientRequestThms.v ===== *)
(** * What a request is built to

    The builder's setters make the request of an abstract multimap of headers, and
    its errors are kept until it is sent ([client_builder_result]); a request
    copied from another has one value of every header ([request_from_headers]). *)
From S2P Require Import Prelude Headers Message Config Errors Payload Decoder Encoder EncoderThms H1Codec Body.
From S2P Require Import Response ClientProxy ClientPool ClientExchange ClientRequest.
Import HeaderMapOps HeaderMapThms.

Section Thms.
Context `{UriAccess} {M : Type}.

Lemma request_has_values m k : HeaderMapOps.wf m -> hcontains m k = negb (bool_decide (values m k = [])).
Proof.
  intros Hwf. unfold hcontains, contains_key. pose proof (values_nil m k Hwf) as Hv.
  destruct (m !! k) as [v|] eqn:E.
  - rewrite bool_decide_eq_true_2 by (by eexists). rewrite bool_decide_eq_false_2; [done|]. intros Hn. by apply Hv in Hn.
  - rewrite bool_decide_eq_false_2 by (by intros [??]). rewrite bool_decide_eq_true_2; [done|]. by apply Hv.
Qed.

(** ** Copied headers *)

Notation headers_of r := (rq_headers (cr_head r)).

Lemma if_none_step (k0 : HeaderName) (v0 : HeaderValue) (r : ClientRequest (M := M)) :
  HeaderMapOps.wf (headers_of r) ->
  let r' := req_set_header_if_none (Ok k0) (Ok v0) r in
  HeaderMapOps.wf (headers_of r') /\
  forall k, values (headers_of r') k =
    if bool_decide (values (headers_of r) k = []) && bool_decide (k0 = k) then [v0] else values (headers_of r) k.
Proof.
  intros Hwf. unfold req_set_header_if_none. rewrite request_has_values by done.
  case_bool_decide as Hn; simpl; (split; [by try apply wf_insert|]); intros k.
  - rewrite values_insert. case_decide as Hk; [subst; by rewrite !bool_decide_eq_true_2|].
    rewrite (bool_decide_eq_false_2 (k0 = k)) by done. by rewrite andb_false_r.
  - case_bool_decide; simpl; [|done]. case_bool_decide; [|done]. by subst.
Qed.

(** Setting every pair where there is none yet: a name that is there keeps its
    values, another gets the first of its pairs. *)
Lemma if_none_fold (l : list (HeaderName * HeaderValue)) : forall r : ClientRequest (M := M),
  HeaderMapOps.wf (headers_of r) ->
  let r' := fold_left (fun r kv => req_set_header_if_none (Ok kv.1) (Ok kv.2) r) l r in
  HeaderMapOps.wf (headers_of r') /\
  forall k, values (headers_of r') k =
    match values (headers_of r) k with
    | [] => take 1 (snd <$> filter (fun kv => kv.1 = k) l)
    | vs => vs
    end.
Proof.
  induction l as [|[k0 v0] l IH]; intros r Hwf; simpl.
  - split; [done|]. intros k. by destruct (values (headers_of r) k).
  - destruct (if_none_step k0 v0 r Hwf) as [Hwf1 Hv]. destruct (IH _ Hwf1) as [Hwf2 Hv2]. split; [done|].
    intros k. rewrite Hv2, Hv. rewrite filter_cons. simpl. case_bool_decide as Hn; simpl.
    + rewrite Hn. case_bool_decide as Hk; [by rewrite decide_True|by rewrite decide_False].
    + by destruct (values (headers_of r) k).
Qed.

Lemma copy_if_none_values m inner (r : ClientRequest (M := M)) :
  inner ≡ₚ map_to_list m -> HeaderMapOps.wf (headers_of r) ->
  HeaderMapOps.wf (headers_of (copy_if_none inner r)) /\
  forall k, values (headers_of (copy_if_none inner r)) k =
    match values (headers_of r) k with [] => take 1 (values m k) | vs => vs end.
Proof.
  intros Hp Hwf. unfold copy_if_none. rewrite drain_iter_rest by (unfold iter, iter_rest; simpl; lia).
  destruct (if_none_fold (iter_rest (iter inner)) r Hwf) as [Hwf' Hv]. split; [done|]. intros k. rewrite Hv.
  unfold iter, iter_rest. simpl. by rewrite (entries_values m inner k Hp).
Qed.

(** The headers of a request made by [Client::request_from], which is to copy
    all headers of another head: for every name it has one value at most, the
    first of the client's own header of that name, or if the client has none the
    first of the head's; every further value is dropped. *)
Theorem request_from_headers (cfg_map from_map : HeaderMap) cfg_inner from_inner uri method fresh :
  cfg_inner ≡ₚ map_to_list cfg_map -> from_inner ≡ₚ map_to_list from_map -> rq_headers fresh = HeaderMapOps.new ->
  let r := client_request_from (M := M) cfg_inner uri method from_inner fresh in
  rq_method (cr_head r) = method /\
  forall k, values (headers_of r) k =
    match values cfg_map k with v :: _ => [v] | [] => take 1 (values from_map k) end.
Proof.
  intros Hc Hf Hfresh. unfold client_request_from, client_request.
  set (r0 := request_new method uri fresh : ClientRequest (M := M)).
  assert (H0 : headers_of r0 = HeaderMapOps.new) by (subst r0; unfold request_new; by destruct uri).
  assert (Hwf0 : HeaderMapOps.wf (headers_of r0)) by (rewrite H0; apply wf_empty).
  destruct (copy_if_none_values cfg_map cfg_inner r0 Hc Hwf0) as [Hwf1 Hv1].
  destruct (copy_if_none_values from_map from_inner _ Hf Hwf1) as [_ Hv2]. split.
  - assert (Hm : forall inner (r : ClientRequest (M := M)), rq_method (cr_head (copy_if_none inner r)) = rq_method (cr_head r)).
    { intros inner r. unfold copy_if_none. generalize (drain iter_next (S (length (flat_map entry_pairs inner))) (iter inner)).
      intros l. revert r. induction l as [|kv l IH]; intros r; [done|]. simpl. rewrite IH. by destruct (hcontains _ _). }
    rewrite !Hm. subst r0. unfold request_new. by destruct uri.
  - intros k. rewrite Hv2, Hv1, H0. change (values HeaderMapOps.new k) with (@nil HeaderValue). cbn match.
    by destruct (values cfg_map k).
Qed.

(** ** The builder *)

Inductive req_op :=
| RUri (u : result Uri HttpError)
| RMethod (m : Method)
| RVersion (v : Version)
| RHeader (k : result HeaderName HttpError) (v : result HeaderValue HttpError)
| RSetHeader (k : result HeaderName HttpError) (v : result HeaderValue HttpError)
| RSetHeaderIfNone (k : result HeaderName HttpError) (v : result HeaderValue HttpError)
| RContentType (v : result HeaderValue HttpError)
| RContentLength (v : result HeaderValue HttpError)
| RForceClose
| RNoDecompress
| RTimeout (t : Z).

Definition run_req (r : ClientRequest (M := M)) (op : req_op) : ClientRequest :=
  match op with
  | RUri u => req_uri u r
  | RMethod m => req_method m r
  | RVersion v => req_version v r
  | RHeader k v => req_header k v r
  | RSetHeader k v => req_set_header k v r
  | RSetHeaderIfNone k v => req_set_header_if_none k v r
  | RContentType v => req_content_type v r
  | RContentLength v => req_content_length v r
  | RForceClose => req_force_close r
  | RNoDecompress => req_no_decompress r
  | RTimeout t => req_timeout t r
  end.

(** The request that is wanted; the error is the one of the last setter that
    failed. *)
Record Wanted := mkWanted {
  wt_uri : Uri; wt_method : Method; wt_headers : Spec.t; wt_close : bool; wt_decompress : bool; wt_timeout : Z;
  wt_err : option HttpError
}.
Definition wt_fail (w : Wanted) (e : HttpError) : Wanted :=
  mkWanted (wt_uri w) (wt_method w) (wt_headers w) (wt_close w) (wt_decompress w) (wt_timeout w) (Some e).
Definition wt_set (w : Wanted) (f : Spec.t -> Spec.t) : Wanted :=
  mkWanted (wt_uri w) (wt_method w) (f (wt_headers w)) (wt_close w) (wt_decompress w) (wt_timeout w) (wt_err w).

Definition wanted_op (w : Wanted) (op : req_op) : Wanted :=
  match op with
  | RUri (Ok u) => mkWanted u (wt_method w) (wt_headers w) (wt_close w) (wt_decompress w) (wt_timeout w) (wt_err w)
  | RMethod m => mkWanted (wt_uri w) m (wt_headers w) (wt_close w) (wt_decompress w) (wt_timeout w) (wt_err w)
  | RVersion _ => w
  | RHeader (Ok k) (Ok v) => wt_set w (fun m => Spec.append m k v)
  | RSetHeader (Ok k) (Ok v) => wt_set w (fun m => Spec.insert m k v)
  | RSetHeaderIfNone (Ok k) v =>
      if bool_decide (wt_headers w k = [])
      then match v with Ok v => wt_set w (fun m => Spec.insert m k v) | Err e => wt_fail w e end
      else w
  | RContentType (Ok v) => wt_set w (fun m => Spec.insert m CONTENT_TYPE v)
  | RContentLength (Ok v) => wt_set w (fun m => Spec.append m CONTENT_LENGTH v)
  | RForceClose => mkWanted (wt_uri w) (wt_method w) (wt_headers w) true (wt_decompress w) (wt_timeout w) (wt_err w)
  | RNoDecompress => mkWanted (wt_uri w) (wt_method w) (wt_headers w) (wt_close w) false (wt_timeout w) (wt_err w)
  | RTimeout t => mkWanted (wt_uri w) (wt_method w) (wt_headers w) (wt_close w) (wt_decompress w) t (wt_err w)
  | RUri (Err e) | RHeader (Err e) _ | RHeader _ (Err e) | RSetHeader (Err e) _ | RSetHeader _ (Err e)
  | RSetHeaderIfNone (Err e) _ | RContentType (Err e) | RContentLength (Err e) => wt_fail w e
  end.

Definition is_wanted (r : ClientRequest (M := M)) (w : Wanted) : Prop :=
  HeaderMapOps.wf (headers_of r) /\ (forall k, values (headers_of r) k = wt_headers w k) /\
  rq_uri (cr_head r) = wt_uri w /\ rq_method (cr_head r) = wt_method w /\
  Flag.contains (rq_flags (cr_head r)) HeadFlags.CLOSE = wt_close w /\
  sr_decompress (cr_request r) = wt_decompress w /\ sr_timeout (cr_request r) = wt_timeout w /\ cr_err r = wt_err w.

Lemma wanted_insert r w k v : is_wanted r w -> is_wanted (with_headers r (fun m => insert m k v)) (wt_set w (fun m => Spec.insert m k v)).
Proof.
  intros (Hwf & Hv & Hr). split; [by apply wf_insert|]. split; [|exact Hr]. intros k'. simpl. rewrite values_insert, Hv. done.
Qed.
Lemma wanted_append r w k v : is_wanted r w -> is_wanted (with_headers r (fun m => append m k v)) (wt_set w (fun m => Spec.append m k v)).
Proof.
  intros (Hwf & Hv & Hr). split; [by apply wf_append|]. split; [|exact Hr]. intros k'. simpl. rewrite values_append, !Hv. done.
Qed.
Lemma wanted_fail r w e : is_wanted r w -> is_wanted (with_err r e) (wt_fail w e).
Proof. intros (Hwf & Hv & ? & ? & ? & ? & ? & ?). done. Qed.

Lemma run_req_wanted r w op : is_wanted r w -> is_wanted (run_req r op) (wanted_op w op).
Proof.
  intros Hw. pose proof Hw as (Hwf & Hv & Hu & Hm & Hc & Hd & Ht & He).
  destruct op as [[u|e]|m|v|[k|e] [v|e']|[k|e] [v|e']|[k|e] v|[v|e]|[v|e]| | |t]; simpl;
    try (by apply wanted_fail); try (by apply wanted_insert); try (by apply wanted_append); try (by repeat split).
  - rewrite request_has_values, Hv by done. case_bool_decide; simpl; [|done].
    destruct v as [v|e]; [by apply wanted_insert|by apply wanted_fail].
  - repeat split; try done. apply Flag.contains_insert_eq.
Qed.

Lemma run_reqs_wanted ops : forall r w, is_wanted r w -> is_wanted (fold_left run_req ops r) (fold_left wanted_op ops w).
Proof. induction ops as [|op ops IH]; intros r w Hw; simpl; [done|]. by apply IH, run_req_wanted. Qed.

(** What sending finds wrong with a request. *)
Definition url_error (u : Uri) : option ClientError :=
  match uri_host u, uri_scheme_str u with
  | None, _ => Some (CE_Url IU_MissingHost)
  | Some _, None => Some (CE_Url IU_MissingScheme)
  | Some _, Some s => if bool_decide (s ∈ [bs "http"; bs "ws"; bs "https"; bs "wss"]) then None else Some (CE_Url IU_UnknownScheme)
  end.
Definition request_error (w : Wanted) : option ClientError :=
  match wt_err w with Some e => Some (CE_Http e) | None => url_error (wt_uri w) end.

(** The headers it goes out with. *)
Definition sent_headers (compress : bool) (w : Wanted) : Spec.t :=
  if compress && wt_decompress w && bool_decide (wt_headers w ACCEPT_ENCODING = [])
  then Spec.insert (wt_headers w) ACCEPT_ENCODING (mkHeaderValue (bs "gzip, deflate") false)
  else wt_headers w.

(** What a sequence of setters makes of a new request: it is sent if and only
    if every conversion succeeded and the URI has a host and one of the four
    schemes, and otherwise the answer is the error of the last setter that
    failed, or the one of the URI; and what is handed to the service is the
    request the setters ask for, with their multimap of headers, the Accept-Encoding
    of a client that decompresses if there is none, and the body that is sent. *)
Theorem client_builder_result ops method uri fresh compress (body : Body M) :
  rq_headers fresh = HeaderMapOps.new -> rq_flags fresh = 0 ->
  let w := fold_left wanted_op (RMethod method :: RUri uri :: ops) (mkWanted (rq_uri fresh) (rq_method fresh) Spec.empty false true 0 None) in
  exists q,
    send_body_request compress body (fold_left run_req ops (request_new method uri fresh)) =
      Val match request_error w with Some e => Err e | None => Ok q end /\
    (request_error w = None ->
     rq_uri (sr_head q) = wt_uri w /\ rq_method (sr_head q) = wt_method w /\ sr_timeout q = wt_timeout w /\ sr_body q = body /\
     (wt_close w = true -> RequestHeadOps.connection_type (sr_head q) = Close) /\
     forall k, values (rq_headers (sr_head q)) k = sent_headers compress w k).
Proof.
  intros Hh Hf w.
  assert (Hw : is_wanted (fold_left run_req ops (request_new method uri fresh)) w).
  { change (request_new method uri fresh) with (run_req (run_req (mkClientRequest (service_request_new fresh) None None) (RMethod method)) (RUri uri)).
    unfold w. change (fold_left wanted_op (RMethod method :: RUri uri :: ops) ?x) with (fold_left wanted_op ops (wanted_op (wanted_op x (RMethod method)) (RUri uri))).
    apply run_reqs_wanted. do 2 apply run_req_wanted. unfold is_wanted, cr_head. simpl. rewrite Hh, Hf. split; [apply wf_empty|]. done. }
  clearbody w. set (r := fold_left run_req ops (request_new method uri fresh)) in *. clearbody r.
  destruct Hw as (Hwf & Hv & Hu & Hm & Hc & Hd & Ht & He).
  unfold send_body_request, prep_for_sending, request_error, url_error, sent_headers. rewrite He, Hu.
  destruct (wt_err w) as [e|]; [by eexists (cr_request r)|].
  destruct (uri_host (wt_uri w)) as [host|]; [|by eexists (cr_request r)].
  destruct (uri_scheme_str (wt_uri w)) as [scheme|]; [|by eexists (cr_request r)].
  case_bool_decide; [|by eexists (cr_request r)].
  assert (Hclose : wt_close w = true -> RequestHeadOps.connection_type (cr_head r) = Close).
  { intros Hx. unfold RequestHeadOps.connection_type. by rewrite Hc, Hx. }
  rewrite request_has_values, Hv, Hd by done. rewrite negb_involutive.
  destruct (compress && wt_decompress w && bool_decide (wt_headers w ACCEPT_ENCODING = [])).
  - change (from_static (bs "gzip, deflate")) with (Val (mkHeaderValue (bs "gzip, deflate") false)). cbn [mbind outcome_bind].
    eexists. split; [done|]. intros _. simpl. split_and!; try done. intros k. rewrite values_insert, Hv. done.
  - eexists. split; [done|]. intros _. simpl. split_and!; try done.
Qed.
End Thms.

(** ** Witnesses *)

Module RefUri.
#[export] Instance ref_uri : UriAccess := {
  uri_scheme_str _ := Some (bs "http");
  uri_host _ := Some (bs "h");
  uri_port_u16 _ := None
}.
End RefUri.
Import RefUri.

Definition ACCEPT : HeaderName := bs "accept".
Definition val (s : string) : HeaderValue := mkHeaderValue (bs s) false.
Definition two_accepts : HeaderMap := append (insert HeaderMapOps.new ACCEPT (val "a")) ACCEPT (val "b").

(** Two values of a header are copied to one. *)
Lemma request_from_headers_witness :
  values two_accepts ACCEPT = [val "a"; val "b"] /\
  values (rq_headers (cr_head (client_request_from (M := unit) [] (Ok (mkUri [] None)) GET
    [(ACCEPT, Multi [val "a"; val "b"])] RequestHeadOps.default))) ACCEPT = [val "a"].
Proof.
  split; [reflexivity|].
  destruct (request_from_headers (M := unit) HeaderMapOps.new two_accepts [] [(ACCEPT, Multi [val "a"; val "b"])]
    (Ok (mkUri [] None)) GET RequestHeadOps.default) as [_ Hk].
  - vm_compute. reflexivity.
  - vm_compute. reflexivity.
  - reflexivity.
  - apply (Hk ACCEPT).
Defined.

(** A failing setter does not stop the ones after it, and the last error wins. *)
Lemma client_builder_result_witness :
  send_body_request true (B_Bytes (mkBytes [1])) (fold_left (run_req (M := unit))
    [RHeader (Err HE_HeaderName) (Ok (val "a")); RMethod GET; RContentType (Err HE_HeaderValue); RHeader (Ok ACCEPT) (Ok (val "b"))]
    (request_new GET (Ok (mkUri [] None)) RequestHeadOps.default)) = Val (Err (CE_Http HE_HeaderValue)) /\
  exists q, send_body_request true (B_Bytes (mkBytes [1])) (fold_left (run_req (M := unit))
    [RHeader (Ok ACCEPT) (Ok (val "a")); RHeader (Ok ACCEPT) (Ok (val "b")); RForceClose]
    (request_new GET (Ok (mkUri [] None)) RequestHeadOps.default)) = Val (Ok q) /\
    values (rq_headers (sr_head q)) ACCEPT = [val "a"; val "b"] /\ RequestHeadOps.connection_type (sr_head q) = Close.
Proof.
  split.
  - destruct (client_builder_result (M := unit)
      [RHeader (Err HE_HeaderName) (Ok (val "a")); RMethod GET; RContentType (Err HE_HeaderValue); RHeader (Ok ACCEPT) (Ok (val "b"))]
      GET (Ok (mkUri [] None)) RequestHeadOps.default true (B_Bytes (mkBytes [1]))) as (q & Hq & _); [reflexivity|reflexivity|].
    exact Hq.
  - destruct (client_builder_result (M := unit)
      [RHeader (Ok ACCEPT) (Ok (val "a")); RHeader (Ok ACCEPT) (Ok (val "b")); RForceClose]
      GET (Ok (mkUri [] None)) RequestHeadOps.default true (B_Bytes (mkBytes [1]))) as (q & Hq & Hr); [reflexivity|reflexivity|].
    exists q. split; [exact Hq|]. destruct (Hr eq_refl) as (_ & _ & _ & _ & Hc & Hv).
    split; [exact (Hv ACCEPT)|exact (Hc eq_refl)].
Defined.
