(* ===== verification/ClientResponse.v ===== *)
(** * Reading a response's body

    [client/response.rs]: [ClientResponse] with its payload, and the futures that
    load the body: [ReadBody], [MessageBody] and [JsonBody].  The payload is a
    stream given by its poll; whether the deadline of a [ReadBody] has passed is
    given with each poll.  serde's parser and the [mime] crate's are arguments. *)
From S2P Require Import Prelude Headers Message Config Errors Payload Decoder Encoder H1Codec Body.
From S2P Require Import Response ClientPool ClientExchange.

(** [str::parse::<usize>] *)
Definition parse_usize : list Z -> option Z := parse_uint (2 ^ 64).

Section Reading.
Context {P : Type} (poll_next : P -> outcome (Poll (option (result (list Z) PayloadError)) * P)).

(** [Payload], of which [Payload::None] is one; [None] when it was taken out of the
    response for good. *)
Inductive Payload := Pl_None | Pl_Stream (p : P).
Definition payload_poll (p : Payload) : outcome (Poll (option (result (list Z) PayloadError)) * Payload) :=
  match p with
  | Pl_None => Val (Ready None, Pl_None)
  | Pl_Stream p => '(r, p) ← poll_next p; Val (r, Pl_Stream p)
  end.

Record ClientResponse := mkClientResponse { cs_head : ResponseHead; cs_payload : option Payload; cs_limit : Z }.

Definition set_payload (r : ClientResponse) (p : Payload) : ClientResponse := mkClientResponse (cs_head r) (Some p) (cs_limit r).
Definition take_payload (r : ClientResponse) : Payload * ClientResponse :=
  (default Pl_None (cs_payload r), mkClientResponse (cs_head r) None (cs_limit r)).

(** [Stream for ClientResponse] *)
Definition response_poll_next (r : ClientResponse)
    : outcome (Poll (option (result (list Z) PayloadError)) * ClientResponse) :=
  match cs_payload r with
  | Some pl => '(x, pl) ← payload_poll pl; Val (x, set_payload r pl)
  | None => Val (Ready None, r)
  end.

(** ** [ReadBody] *)

Record ReadBody := mkReadBody { rd_stream : Payload; rd_buf : list Z; rd_limit : Z }.
Definition read_body_new (stream : Payload) (limit : Z) : ReadBody := mkReadBody stream [] limit.

(** The error of a deadline that has passed. *)
Definition TIMED_OUT_ERROR : PayloadError := PE_Incomplete (Some TIMED_OUT).

Fixpoint read_body_poll (fuel : nat) (elapsed : bool) (rb : ReadBody)
    : outcome (Poll (result (list Z) PayloadError) * ReadBody) :=
  match fuel with
  | O => NoFuel
  | S fuel =>
      '(r, s) ← payload_poll (rd_stream rb);
      let rb := mkReadBody s (rd_buf rb) (rd_limit rb) in
      match r with
      | Ready (Some (Ok chunk)) =>
          if (0 <? rd_limit rb) && (rd_limit rb <? zlen (rd_buf rb) + zlen chunk) then Val (Ready (Err PE_Overflow), rb)
          else read_body_poll fuel elapsed (mkReadBody s (rd_buf rb ++ chunk) (rd_limit rb))
      | Ready None => Val (Ready (Ok (rd_buf rb)), mkReadBody s [] (rd_limit rb))
      | Ready (Some (Err err)) => Val (Ready (Err err), rb)
      | Pending => if elapsed then Val (Ready (Err TIMED_OUT_ERROR), rb) else Val (Pending, rb)
      end
  end.

(** ** [MessageBody] *)

Record MessageBody := mkMessageBody { mb_length : option Z; mb_err : option PayloadError; mb_fut : option ReadBody }.

Definition message_body_new (r : ClientResponse) : outcome (MessageBody * ClientResponse) :=
  l ← HeaderMapOps.get (fun _ => None) (rs_headers (cs_head r)) (NameLeft CONTENT_LENGTH);
  let bad := mkMessageBody None (Some PE_UnknownLength) None in
  let good len :=
    let '(p, r) := take_payload r in (mkMessageBody len None (Some (read_body_new p (cs_limit r))), r) in
  Val
    match l with
    | None => good None
    | Some l =>
        match to_str l with
        | Ok s => match parse_usize s with Some len => good (Some len) | None => (bad, r) end
        | Err _ => (bad, r)
        end
    end.

(** [limit] of [MessageBody] and of [JsonBody]. *)
Definition fut_limit (fut : option ReadBody) (limit : Z) : option ReadBody :=
  (fun f => mkReadBody (rd_stream f) (rd_buf f) limit) <$> fut.
Definition message_body_limit (b : MessageBody) (limit : Z) : MessageBody :=
  mkMessageBody (mb_length b) (mb_err b) (fut_limit (mb_fut b) limit).

Definition message_body_poll (fuel : nat) (elapsed : bool) (b : MessageBody)
    : outcome (Poll (result (list Z) PayloadError) * MessageBody) :=
  match mb_err b with
  | Some err => Val (Ready (Err err), mkMessageBody (mb_length b) None (mb_fut b))
  | None =>
      match mb_fut b with
      | None => Panic
      | Some fut =>
          if match mb_length b with Some len => (0 <? rd_limit fut) && (rd_limit fut <? len) | None => false end
          then Val (Ready (Err PE_Overflow), mkMessageBody None None (Some fut))
          else
            '(r, fut) ← read_body_poll fuel elapsed fut;
            Val (r, mkMessageBody None None (Some fut))
      end
  end.

(** ** [JsonBody] *)

Section Json.
(** [mime_type] has the subtype or the suffix json, of a content type that can be
    read; [serde_json::from_slice], with its error. *)
Context {U : Type} (is_json : list Z -> bool) (from_slice : list Z -> result U Z).

(** [JsonPayloadError] *)
Inductive JsonPayloadError := JE_ContentType | JE_Deserialize (e : Z) | JE_Payload (e : PayloadError).

Record JsonBody := mkJsonBody { jb_length : option Z; jb_err : option JsonPayloadError; jb_fut : option ReadBody }.

Definition json_body_new (r : ClientResponse) : outcome (JsonBody * ClientResponse) :=
  t ← HeaderMapOps.get (fun _ => None) (rs_headers (cs_head r)) (NameLeft CONTENT_TYPE);
  let json := match t with Some t => match to_str t with Ok s => is_json s | Err _ => false end | None => false end in
  if negb json then Val (mkJsonBody None (Some JE_ContentType) None, r)
  else
    l ← HeaderMapOps.get (fun _ => None) (rs_headers (cs_head r)) (NameLeft CONTENT_LENGTH);
    let len := l ← l; match to_str l with Ok s => parse_usize s | Err _ => None end in
    let '(p, r) := take_payload r in
    Val (mkJsonBody len None (Some (read_body_new p (cs_limit r))), r).

Definition json_body_limit (b : JsonBody) (limit : Z) : JsonBody :=
  mkJsonBody (jb_length b) (jb_err b) (fut_limit (jb_fut b) limit).

Definition json_body_poll (fuel : nat) (elapsed : bool) (b : JsonBody)
    : outcome (Poll (result U JsonPayloadError) * JsonBody) :=
  match jb_err b with
  | Some err => Val (Ready (Err err), mkJsonBody (jb_length b) None (jb_fut b))
  | None =>
      match jb_fut b with
      | None => Panic
      | Some fut =>
          if match jb_length b with Some len => (0 <? rd_limit fut) && (rd_limit fut <? len) | None => false end
          then Val (Ready (Err (JE_Payload PE_Overflow)), mkJsonBody None None (Some fut))
          else
            '(r, fut) ← read_body_poll fuel elapsed fut;
            let b := mkJsonBody None None (Some fut) in
            Val (match r with
                 | Ready (Err e) => Ready (Err (JE_Payload e))
                 | Ready (Ok body) =>
                     Ready match from_slice body with Ok u => Ok u | Err e => Err (JE_Deserialize e) end
                 | Pending => Pending
                 end, b)
      end
  end.
End Json.
End Reading.
