(* ===== verification/ClientResponseThms.v ===== *)
(** * What the body readers of the client give

    [message_body_result]: the body of a response is loaded as a whole, whatever
    chunks and pauses it comes in; [body_limit_held]: no more than the limit is
    kept in memory, whatever the stream does; [body_timed_out]: a pause past the
    deadline; [json_is_parsed_body]: [JsonBody] is the parse of [MessageBody]. *)
From S2P Require Import Prelude Headers Message Config Errors Payload Decoder Encoder EncoderThms H1Codec Body.
From S2P Require Import Response ClientPool ClientExchange ClientResponse.
Import HeaderMapOps HeaderMapThms.

Section Bodies.
Context {P : Type} (poll_next : P -> outcome (Poll (option (result (list Z) PayloadError)) * P)).
Notation body_poll := (message_body_poll poll_next).

(** The deadline's answers at the polls of a future; [None]: it is still pending
    after the last. *)
Fixpoint message_body_run (fuel : nat) (elapsed : list bool) (b : MessageBody (P := P))
    : outcome (option (result (list Z) PayloadError) * MessageBody (P := P)) :=
  match elapsed with
  | [] => Val (None, b)
  | e :: elapsed =>
      '(r, b) ← body_poll fuel e b;
      match r with Ready r => Val (Some r, b) | Pending => message_body_run fuel elapsed b end
  end.

(** [body()], with [limit(n)] where it is called, and the polls. *)
Definition set_limit (limit : option Z) (b : MessageBody (P := P)) : MessageBody :=
  match limit with Some l => message_body_limit b l | None => b end.
Definition load_body (fuel : nat) (limit : option Z) (elapsed : list bool) (r : ClientResponse (P := P)) :=
  '(b, r) ← message_body_new r;
  '(x, b) ← message_body_run fuel elapsed (set_limit limit b);
  Val (x, b, r).

(** ** The whole body *)

(** The stream gives these chunks and then its end or an error, and is pending
    this many times before. *)
Inductive stream_gives : P -> list (list Z) -> option PayloadError -> nat -> Prop :=
| sg_end p p' : poll_next p = Val (Ready None, p') -> stream_gives p [] None 0
| sg_err p p' e : poll_next p = Val (Ready (Some (Err e)), p') -> stream_gives p [] (Some e) 0
| sg_wait p p' l fin n : poll_next p = Val (Pending, p') -> stream_gives p' l fin n -> stream_gives p l fin (S n)
| sg_chunk p p' c l fin n :
    poll_next p = Val (Ready (Some (Ok c)), p') -> stream_gives p' l fin n -> stream_gives p (c :: l) fin n.

(** What the first Content-Length says. *)
Definition announced (m : HeaderMap) : result (option Z) unit :=
  match head (values m CONTENT_LENGTH) with
  | None => Ok None
  | Some v =>
      match to_str v with
      | Ok s => match parse_usize s with Some n => Ok (Some n) | None => Err tt end
      | Err _ => Err tt
      end
  end.

Definition over (limit n : Z) : bool := (0 <? limit) && (limit <? n).

(** The result for the data and the end of a stream. *)
Definition whole_body (limit : Z) (data : list Z) (fin : option PayloadError) : result (list Z) PayloadError :=
  if over limit (zlen data) then Err PE_Overflow else match fin with None => Ok data | Some e => Err e end.

Definition body_result (limit : Z) (m : HeaderMap) (data : list Z) (fin : option PayloadError)
    : result (list Z) PayloadError :=
  match announced m with
  | Err _ => Err PE_UnknownLength
  | Ok (Some n) => if over limit n then Err PE_Overflow else whole_body limit data fin
  | Ok None => whole_body limit data fin
  end.

Lemma over_more limit n m : n <= m -> over limit n = true -> over limit m = true.
Proof. unfold over. intros ?. destruct (0 <? limit); simpl; lia. Qed.

Definition reading (fut : ReadBody) : MessageBody (P := P) := mkMessageBody None None (Some fut).

(** The end of the stream, seen with a deadline that passes after [k] pauses. *)
Definition seen (k n : nat) (fin : option PayloadError) : option PayloadError :=
  if (n <=? k)%nat then fin else Some TIMED_OUT_ERROR.

(** The rest of a poll, and the polls after it. *)
Definition rest_run (f0 fuel : nat) (e : bool) (elapsed : list bool) (fut : ReadBody)
    : outcome (option (result (list Z) PayloadError) * MessageBody (P := P)) :=
  '(r, fut) ← read_body_poll poll_next f0 e fut;
  match r with Ready r => Val (Some r, reading fut) | Pending => message_body_run fuel elapsed (reading fut) end.

Lemma run_reading fuel e elapsed fut :
  message_body_run fuel (e :: elapsed) (reading fut) = rest_run fuel fuel e elapsed fut.
Proof.
  unfold rest_run. simpl. unfold message_body_poll. simpl.
  by destruct (read_body_poll poll_next fuel e fut) as [[[?|] ?]| |].
Qed.

(** The deadline passes at the poll after [k] others. *)
Definition deadline (k : nat) : list bool := replicate k false ++ [true].
Lemma deadline_cons k : deadline k = bool_decide (k = 0%nat) :: tail (deadline k).
Proof. by destruct k. Qed.

Lemma rest_run_gives limit p l fin n :
  stream_gives p l fin n -> forall k buf,
  over limit (zlen buf) = false -> (n <= k)%nat \/ over limit (zlen (buf ++ concat l)) = false ->
  exists m, forall f0 fuel, (m <= f0)%nat -> (m <= fuel)%nat -> exists b,
    rest_run f0 fuel (bool_decide (k = 0%nat)) (tail (deadline k)) (mkReadBody (Pl_Stream p) buf limit) =
      Val (Some (whole_body limit (buf ++ concat l) (seen k n fin)), b).
Proof.
  induction 1 as [p p' Hp|p p' e Hp|p p' l fin n Hp Hg IH|p p' c l fin n Hp Hg IH]; intros k buf Hb Hk.
  - exists 1%nat. intros [|f0] fuel Hf _; [lia|]. unfold rest_run. simpl. rewrite Hp. simpl.
    unfold whole_body. rewrite app_nil_r, Hb. by eexists.
  - exists 1%nat. intros [|f0] fuel Hf _; [lia|]. unfold rest_run. simpl. rewrite Hp. simpl.
    unfold whole_body. rewrite app_nil_r, Hb. by eexists.
  - destruct k as [|k].
    + exists 1%nat. intros [|f0] fuel Hf _; [lia|]. unfold rest_run. simpl. rewrite Hp. simpl.
      destruct Hk as [Hk|Hk]; [lia|]. unfold whole_body. rewrite Hk. by eexists.
    + destruct (IH k buf Hb) as (m & Hm); [destruct Hk; [left; lia|by right]|].
      exists (S m). intros [|f0] fuel Hf Hf'; [lia|]. unfold rest_run. simpl. rewrite Hp. simpl.
      change (replicate k false ++ [true]) with (deadline k). rewrite deadline_cons, run_reading. apply Hm; lia.
  - rewrite concat_cons, app_assoc in *. destruct (over limit (zlen (buf ++ c))) eqn:Ho.
    + exists 1%nat. intros [|f0] fuel Hf _; [lia|]. unfold rest_run. simpl. rewrite Hp. simpl.
      pose proof Ho as Ho'. rewrite zlen_app in Ho. unfold over in Ho. rewrite Ho. unfold whole_body.
      rewrite (over_more limit (zlen (buf ++ c))); [by eexists| |done].
      rewrite (zlen_app (buf ++ c)). pose proof (zlen_nonneg (concat l)). lia.
    + destruct (IH k (buf ++ c) Ho Hk) as (m & Hm). exists (S m). intros [|f0] fuel Hf Hf'; [lia|].
      unfold rest_run in *. simpl. rewrite Hp. simpl. unfold over in Ho. rewrite zlen_app in Ho. rewrite Ho.
      apply Hm; lia.
Qed.

Lemma get_head_value m k :
  HeaderMapOps.wf m -> HeaderMapOps.get (fun _ => None) m (NameLeft k) = Val (head (values m k)).
Proof. intros Hwf. by rewrite get_first. Qed.

(** The first poll looks at what is announced, and then the stream is read. *)
Lemma announced_run fuel limit len p lim0 k :
  let lim := default lim0 limit in
  message_body_run fuel (deadline k)
    (set_limit limit (mkMessageBody len None (Some (read_body_new (Pl_Stream p) lim0)))) =
  if match len with Some len => over lim len | None => false end
  then Val (Some (Err PE_Overflow), reading (mkReadBody (Pl_Stream p) [] lim))
  else rest_run fuel fuel (bool_decide (k = 0%nat)) (tail (deadline k)) (mkReadBody (Pl_Stream p) [] lim).
Proof.
  intros lim. rewrite deadline_cons, <- run_reading.
  assert (E : set_limit limit (mkMessageBody len None (Some (read_body_new (Pl_Stream p) lim0))) =
              mkMessageBody len None (Some (mkReadBody (Pl_Stream p) [] lim))) by (by destruct limit).
  rewrite E. cbn [message_body_run tail]. unfold message_body_poll, reading. cbn [mb_err mb_fut mb_length rd_limit].
  destruct len as [len|]; [|done]. unfold over. by destruct ((0 <? lim) && (lim <? len)).
Qed.

(** C17. [ClientResponse::body].  The stream of the payload gives the chunks [l] and
    then its end, or an error, and is pending [n] times in between; the deadline
    passes after [k] pauses.  With enough fuel the future gives: UnknownLength when the
    first Content-Length cannot be read; Overflow when it is over the limit, the
    configured one or the one that is set, or when the data is; else, when there are no
    more than [k] pauses, all of the data in order, or the error of the stream, and
    when there are more the timeout.  The payload is taken out of the response, except in
    the first case. *)
Theorem message_body_result (r : ClientResponse (P := P)) p l fin n limit k :
  HeaderMapOps.wf (rs_headers (cs_head r)) -> cs_payload r = Some (Pl_Stream p) -> stream_gives p l fin n ->
  let lim := default (cs_limit r) limit in
  let m := rs_headers (cs_head r) in
  (n <= k)%nat \/ over lim (zlen (concat l)) = false ->
  exists f, forall fuel, (f <= fuel)%nat -> exists b,
    load_body fuel limit (deadline k) r =
      Val (Some (body_result lim m (concat l) (seen k n fin)), b,
           match announced m with
           | Err _ => r
           | Ok _ => mkClientResponse (cs_head r) None (cs_limit r)
           end).
Proof.
  intros Hwf Hp Hg lim m Hk.
  destruct (rest_run_gives lim p l fin n Hg k [] ltac:(unfold over; destruct (Z.ltb_spec 0 lim); simpl; [rewrite zlen_nil; lia|done]) Hk)
    as (f & Hf).
  exists f. intros fuel Hfuel. destruct (Hf fuel fuel Hfuel Hfuel) as (b & Hrun).
  unfold load_body, message_body_new. rewrite get_head_value by done. cbn [mbind outcome_bind].
  unfold body_result, announced. fold m. unfold take_payload. rewrite Hp. cbn [default].
  unfold read_body_new in *.
  set (r2 := mkClientResponse (P := P) (cs_head r) None (cs_limit r)).
  assert (Hgood : forall len, exists b,
    ('(x, b) ← message_body_run fuel (deadline k)
        (set_limit limit (mkMessageBody len None (Some (read_body_new (Pl_Stream p) (cs_limit r)))));
     Val (x, b, r2)) =
    Val (Some match len with
              | Some len => if over lim len then Err PE_Overflow else whole_body lim (concat l) (seen k n fin)
              | None => whole_body lim (concat l) (seen k n fin)
              end, b, r2)).
  { intros len. rewrite announced_run. fold lim. destruct len as [len|]; [destruct (over lim len)|];
      [by eexists|rewrite Hrun; by eexists..]. }
  destruct (head (values m CONTENT_LENGTH)) as [v|]; [|apply Hgood].
  destruct (to_str v) as [s|]; [destruct (parse_usize s) as [len|]; [apply (Hgood (Some len))|]|].
  all: rewrite deadline_cons; destruct limit; by eexists.
Qed.

(** ** The limit *)

Lemma read_body_bound fuel e : forall rb x rb',
  read_body_poll poll_next fuel e rb = Val (x, rb') -> 0 < rd_limit rb -> zlen (rd_buf rb) <= rd_limit rb ->
  rd_limit rb' = rd_limit rb /\ zlen (rd_buf rb') <= rd_limit rb /\
  forall body, x = Ready (Ok body) -> zlen body <= rd_limit rb /\ rd_buf rb' = [].
Proof.
  induction fuel as [|fuel IH]; intros rb x rb'; [done|]. simpl.
  destruct (payload_poll poll_next (rd_stream rb)) as [[item s]| |]; simpl; [|done..].
  intros E Hl Hb. destruct item as [[[chunk|err]|]|].
  - destruct (Z.ltb_spec 0 (rd_limit rb)); [|lia]. simpl in E.
    destruct (Z.ltb_spec (rd_limit rb) (zlen (rd_buf rb) + zlen chunk)) as [Ho|Ho]; [by simplify_eq|].
    apply IH in E as (? & ? & ?); simpl in *; [done|done|]. rewrite zlen_app. lia.
  - by simplify_eq.
  - simplify_eq. simpl. rewrite zlen_nil. split; [done|]. split; [lia|]. by intros body [= <-].
  - destruct e; by simplify_eq.
Qed.

Definition within (lim : Z) (b : MessageBody (P := P)) : Prop :=
  forall fut, mb_fut b = Some fut -> rd_limit fut = lim /\ zlen (rd_buf fut) <= lim.

Lemma message_body_run_bound fuel lim elapsed : forall b x b',
  message_body_run fuel elapsed b = Val (x, b') -> 0 < lim -> within lim b ->
  within lim b' /\
  (forall body, x = Some (Ok body) -> zlen body <= lim /\ forall fut, mb_fut b' = Some fut -> rd_buf fut = []).
Proof.
  induction elapsed as [|e elapsed IH]; intros b x b'; simpl; [by intros [= <- <-]|].
  unfold message_body_poll. destruct (mb_err b) as [err|]; simpl; [by intros [= <- <-]|].
  destruct (mb_fut b) as [fut|] eqn:Ef; [|done]. case_match; [simpl; intros [= <- <-] Hl Hw|].
  { split; [|done]. intros f [= <-]. by apply Hw. }
  destruct (read_body_poll poll_next fuel e fut) as [[r fut']| |] eqn:E; simpl; [|done..].
  intros Hr Hl Hw. destruct (Hw fut Ef) as [<- Hb].
  destruct (read_body_bound _ _ _ _ _ E Hl Hb) as (El & Hb' & Hbody).
  assert (Hw' : within (rd_limit fut) (mkMessageBody None None (Some fut'))) by (intros f [= <-]; done).
  destruct r as [res|]; [|by apply IH in Hr]. simplify_eq. split; [done|].
  intros body [= ->]. destruct (Hbody body eq_refl) as [? He]. split; [done|]. by intros f [= <-].
Qed.

(** Whatever the stream of a response does, and however often the future is
    polled: with a limit that is not 0, the configured one or the one that is set,
    no more bytes than the limit are ever kept in the buffer, and no body that is
    longer is given; the buffer is handed over with the body. *)
Theorem body_limit_held fuel limit elapsed (r : ClientResponse (P := P)) x b r' :
  load_body fuel limit elapsed r = Val (x, b, r') ->
  let lim := default (cs_limit r) limit in
  0 < lim ->
  (forall fut, mb_fut b = Some fut -> rd_limit fut = lim /\ zlen (rd_buf fut) <= lim) /\
  (forall body, x = Some (Ok body) -> zlen body <= lim /\ (forall fut, mb_fut b = Some fut -> rd_buf fut = [])).
Proof.
  intros E lim Hl. unfold load_body in E. destruct (message_body_new r) as [[b0 r0]| |] eqn:En; [|done..].
  cbn [mbind outcome_bind] in E.
  destruct (message_body_run fuel elapsed (set_limit limit b0)) as [[x1 b1]| |] eqn:Er; [|done..].
  simplify_eq/=. apply (message_body_run_bound _ lim) in Er; [exact Er|done|].
  assert (Hnew : forall f, mb_fut b0 = Some f -> rd_limit f = cs_limit r /\ rd_buf f = []).
  { unfold message_body_new in En. destruct (HeaderMapOps.get _ _ _) as [l| |]; simplify_eq/=.
    repeat case_match; simplify_eq/=; intros f [= <-]; done. }
  intros f Hf. assert (Hlen : rd_limit f = lim /\ rd_buf f = []).
  { destruct limit as [n|]; simpl in Hf; [|by apply Hnew]. unfold fut_limit in Hf.
    destruct (mb_fut b0) as [f0|]; simplify_eq/=. by destruct (Hnew f0 eq_refl). }
  destruct Hlen as [-> ->]. rewrite zlen_nil. lia.
Qed.

(** ** JSON *)

Section Json.
Context {U : Type} (is_json : list Z -> bool) (from_slice : list Z -> result U Z).

Fixpoint json_body_run (fuel : nat) (elapsed : list bool) (b : JsonBody (P := P))
    : outcome (option (result U JsonPayloadError) * JsonBody (P := P)) :=
  match elapsed with
  | [] => Val (None, b)
  | e :: elapsed =>
      '(r, b) ← json_body_poll poll_next from_slice fuel e b;
      match r with Ready r => Val (Some r, b) | Pending => json_body_run fuel elapsed b end
  end.

Definition load_json (fuel : nat) (limit : option Z) (elapsed : list bool) (r : ClientResponse (P := P)) :=
  '(b, r) ← json_body_new is_json r;
  '(x, b) ← json_body_run fuel elapsed (match limit with Some l => json_body_limit b l | None => b end);
  Val (x, b, r).

(** serde's parse of the result of the body. *)
Definition parsed (x : result (list Z) PayloadError) : result U JsonPayloadError :=
  match x with
  | Err e => Err (JE_Payload e)
  | Ok body => match from_slice body with Ok u => Ok u | Err e => Err (JE_Deserialize e) end
  end.

(** The response without a Content-Length that cannot be read. *)
Definition readable (r : ClientResponse (P := P)) : ClientResponse (P := P) :=
  match announced (rs_headers (cs_head r)) with
  | Ok _ => r
  | Err _ =>
      mkClientResponse (rs_set_headers (cs_head r) (remove (fun _ => None) (rs_headers (cs_head r)) (NameLeft CONTENT_LENGTH)))
        (cs_payload r) (cs_limit r)
  end.

Definition json_of (b : MessageBody (P := P)) : JsonBody (P := P) :=
  mkJsonBody (mb_length b) (JE_Payload <$> mb_err b) (mb_fut b).

Lemma json_run_parsed fuel elapsed : forall b,
  json_body_run fuel elapsed (json_of b) =
  ('(x, b) ← message_body_run fuel elapsed b; Val (option_map parsed x, json_of b)).
Proof.
  induction elapsed as [|e elapsed IH]; intros b; [done|]. cbn [json_body_run message_body_run].
  unfold json_body_poll, message_body_poll. destruct b as [len [err|] [fut|]]; try done. cbn [json_of mb_length mb_err mb_fut jb_err jb_fut jb_length fmap option_fmap option_map].
  case_match; [done|]. destruct (read_body_poll poll_next fuel e fut) as [[[[body|err]|] fut']| |]; try done.
  cbn [mbind outcome_bind]. apply (IH (mkMessageBody None None (Some fut'))).
Qed.

(** [MessageBody::new] of such a response. *)
Definition length_of (m : HeaderMap) : option Z := match announced m with Ok len => len | Err _ => None end.

Lemma readable_new (r : ClientResponse (P := P)) :
  HeaderMapOps.wf (rs_headers (cs_head r)) ->
  message_body_new (readable r) =
    Val (let '(p, r') := take_payload (readable r) in
         (mkMessageBody (length_of (rs_headers (cs_head r))) None (Some (read_body_new p (cs_limit r))), r')).
Proof.
  intros Hwf. unfold message_body_new, readable, length_of.
  destruct (announced (rs_headers (cs_head r))) as [len|u] eqn:Ea.
  - rewrite get_head_value by done. cbn [mbind outcome_bind]. revert Ea. unfold announced, take_payload.
    destruct (head _) as [v|]; [destruct (to_str v) as [t|]; [destruct (parse_usize t)|]|]; by intros [= <-].
  - simpl. unfold HeaderMapOps.get. simpl. by rewrite lookup_delete_eq.
Qed.

Lemma json_new_json (r : ClientResponse (P := P)) v s :
  HeaderMapOps.wf (rs_headers (cs_head r)) -> head (values (rs_headers (cs_head r)) CONTENT_TYPE) = Some v ->
  to_str v = Ok s -> is_json s = true ->
  json_body_new is_json r =
    Val (let '(p, r') := take_payload r in
         (json_of (mkMessageBody (length_of (rs_headers (cs_head r))) None (Some (read_body_new p (cs_limit r)))), r')).
Proof.
  intros Hwf Ht Hs Hj. unfold json_body_new. rewrite (get_head_value _ CONTENT_TYPE) by done. cbn [mbind outcome_bind].
  rewrite Ht. simpl. rewrite Hs, Hj. cbn [negb]. rewrite get_head_value by done. cbn [mbind outcome_bind].
  unfold length_of, announced, json_of, take_payload. destruct (head (values _ CONTENT_LENGTH)) as [u|]; [simpl|done].
  destruct (to_str u) as [t|]; [simpl|done]. by destruct (parse_usize t).
Qed.

(** [ClientResponse::json] is [body], parsed.  When the Content-Type is JSON: at every
    poll, with every limit, stream and deadline, the result is serde's of the body, or
    the body's error, except that a Content-Length that cannot be read, which [body]
    refuses, is as none at all; the payload is taken all the same.  When
    it is not the error is ContentType, and the payload stays in the response. *)
Theorem json_is_parsed_body fuel limit elapsed (r : ClientResponse (P := P)) :
  HeaderMapOps.wf (rs_headers (cs_head r)) ->
  let type := head (values (rs_headers (cs_head r)) CONTENT_TYPE) in
  (forall v s, type = Some v -> to_str v = Ok s -> is_json s = true ->
     ('(x, _, r') ← load_json fuel limit elapsed r; Val (x, cs_payload r')) =
     ('(x, _, r') ← load_body fuel limit elapsed (readable r); Val (option_map parsed x, cs_payload r'))) /\
  (match type with Some v => match to_str v with Ok s => is_json s = false | Err _ => True end | None => True end ->
     elapsed <> [] ->
     ('(x, _, r') ← load_json fuel limit elapsed r; Val (x, r')) = Val (Some (Err JE_ContentType), r)).
Proof.
  intros Hwf type. split.
  - intros v s Ht Hs Hj. unfold load_json, load_body. rewrite readable_new by done.
    rewrite (json_new_json r v s) by done. cbn [mbind outcome_bind].
    assert (Ep : forall b, match limit with Some l => json_body_limit (json_of b) l | None => json_of b end = json_of (set_limit limit b))
      by (intros; by destruct limit).
    unfold take_payload. rewrite Ep, json_run_parsed.
    assert (Er : cs_payload (readable r) = cs_payload r) by (unfold readable; by destruct (announced _)).
    rewrite Er. by destruct (message_body_run fuel elapsed _) as [[x b]| |].
  - intros Ht He. unfold load_json, json_body_new. rewrite (get_head_value _ CONTENT_TYPE) by done. cbn [mbind outcome_bind]. fold type.
    assert (Hj : match type with Some t => match to_str t with Ok s => is_json s | Err _ => false end | None => false end = false).
    { destruct type as [v|]; [|done]. by destruct (to_str v). }
    rewrite Hj. cbn [negb]. destruct elapsed as [|e elapsed]; [done|]. by destruct limit.
Qed.
End Json.
End Bodies.

(** ** A stream *)

(** The answers of the polls, in order; after them the stream is at its end. *)
Module RefStream.
Definition Script : Type := list (Poll (option (result (list Z) PayloadError))).
Definition next (s : Script) : outcome (Poll (option (result (list Z) PayloadError)) * Script) :=
  match s with [] => Val (Ready None, []) | x :: s => Val (x, s) end.

Definition script : Script := [Ready (Some (Ok (bs "ab"))); Pending; Ready (Some (Ok (bs "cde")))].
Definition response (m : HeaderMap) : ClientResponse (P := Script) :=
  mkClientResponse (rs_set_headers ResponseHeadOps.default m) (Some (Pl_Stream script)) 4.
Definition text (s : list Z) : HeaderValue := mkHeaderValue s false.

Lemma gives : stream_gives next script [bs "ab"; bs "cde"] None 1.
Proof. eapply sg_chunk; [done|]. eapply sg_wait; [done|]. eapply sg_chunk; [done|]. by eapply sg_end. Qed.
End RefStream.
Import RefStream.

(** Within the limit, after one pause; and the next theorem's at the default limit, where the data is over. *)
Lemma message_body_result_witness :
  exists f, forall fuel, (f <= fuel)%nat -> exists b,
    load_body next fuel (Some 5) (deadline 1) (response HeaderMapOps.new) =
      Val (Some (Ok (bs "abcde")), b, mkClientResponse (rs_set_headers ResponseHeadOps.default HeaderMapOps.new) None 4).
Proof.
  apply (message_body_result next (response HeaderMapOps.new) script [bs "ab"; bs "cde"] None 1 (Some 5) 1);
    [apply wf_empty|done|apply gives|left; lia].
Defined.

Lemma body_limit_held_witness :
  load_body next 9 None [false; false] (response HeaderMapOps.new) =
    Val (Some (Err PE_Overflow),
         mkMessageBody None None (Some (mkReadBody (Pl_Stream []) (bs "ab") 4)),
         mkClientResponse (rs_set_headers ResponseHeadOps.default HeaderMapOps.new) None 4) /\
  zlen (bs "ab") <= 4.
Proof.
  split; [vm_compute; reflexivity|].
  refine (proj2 (proj1 (body_limit_held next 9 None [false; false] (response HeaderMapOps.new) _ _ _ _ _)
    (mkReadBody (Pl_Stream []) (bs "ab") 4) _)); [vm_compute; reflexivity|simpl; lia|reflexivity].
Defined.

Notation json_headers :=
  (HeaderMapOps.insert (HeaderMapOps.insert HeaderMapOps.new CONTENT_TYPE (text (bs "application/json")))
     CONTENT_LENGTH (text (bs "five"))).

Lemma json_is_parsed_body_witness :
  ('(x, _, r') ← load_json next (fun s => bool_decide (s = bs "application/json")) (fun b => Ok (zlen b)) 9 (Some 5)
     [false; false] (response json_headers); Val (x, cs_payload r')) = Val (Some (Ok 5), None) /\
  ('(x, _, r') ← load_json next (fun s => bool_decide (s = bs "application/json")) (fun b => Ok (zlen b)) 9 (Some 5)
     [false; false] (response json_headers); Val (x, cs_payload r')) =
  ('(x, _, r') ← load_body next 9 (Some 5) [false; false] (readable (response json_headers));
   Val (option_map (parsed (fun b => Ok (zlen b))) x, cs_payload r')).
Proof.
  split; [vm_compute; reflexivity|].
  apply (proj1 (json_is_parsed_body next (fun s => bool_decide (s = bs "application/json")) (fun b => Ok (zlen b)) 9
    (Some 5) [false; false] (response json_headers) ltac:(do 2 apply wf_insert; apply wf_empty))
    (text (bs "application/json")) (bs "application/json")); vm_compute; reflexivity.
Defined.
