(* ===== verification/Encoding.v ===== *)
(** * Content codings

    [encoding/encoder.rs], [encoding/decoder.rs] and the [ContentEncoding] of
    [types/header.rs]: the body of a response compressed chunk by chunk on its way
    out, and decompressed on its way in.  flate2's encoders and decoders over a
    [Writer] are classes; a job on the thread pool is its result and the number of
    polls it takes, which a schedule gives, or that it is cancelled. *)
From S2P Require Import Prelude Headers Message Errors Payload Decoder Encoder EncoderThms Body.

Definition CONTENT_ENCODING : HeaderName := bs "content-encoding".

Inductive ContentEncoding := CE_Auto | CE_Br | CE_Deflate | CE_Gzip | CE_Identity.
#[export] Instance ContentEncoding_eq_dec : EqDecision ContentEncoding.
Proof. solve_decision. Defined.

Definition encoding_str (e : ContentEncoding) : list Z :=
  match e with
  | CE_Br => bs "br"
  | CE_Gzip => bs "gzip"
  | CE_Deflate => bs "deflate"
  | CE_Identity | CE_Auto => bs "identity"
  end.
Definition is_compressed (e : ContentEncoding) : bool :=
  negb match e with CE_Identity | CE_Auto => true | _ => false end.

(** [From<&str>] *)
Definition encoding_from (s : list Z) : ContentEncoding :=
  let s := trim s in
  if eq_ignore_ascii_case s (bs "br") then CE_Br
  else if eq_ignore_ascii_case s (bs "gzip") then CE_Gzip
  else if eq_ignore_ascii_case s (bs "deflate") then CE_Deflate
  else CE_Identity.

(** ** The thread pool *)

(** An io error of the kind Interrupted. *)
Definition INTERRUPTED : Z := 2.

(** [BlockingResult]: pending so often, then its result, or cancelled. *)
Record BlockingJob (T : Type) := mkJob { jb_wait : nat; jb_result : option (result T Z) }.
Arguments mkJob {T} _ _.
Arguments jb_wait {T} _.
Arguments jb_result {T} _.
Definition job_poll {T} (j : BlockingJob T) : Poll (option (result T Z)) * BlockingJob T :=
  match jb_wait j with
  | S n => (Pending, mkJob n (jb_result j))
  | O => (Ready (jb_result j), j)
  end.

(** The polls each job in turn takes; [None]: it is cancelled. *)
Definition Schedule : Type := list (option nat).
Definition spawn_blocking {T} (r : result T Z) (s : Schedule) : BlockingJob T * Schedule :=
  match s with
  | [] => (mkJob 0 (Some r), [])
  | Some n :: s => (mkJob n (Some r), s)
  | None :: s => (mkJob 0 None, s)
  end.

(** ** flate2 *)

(** [GzEncoder<Writer>] and [ZlibEncoder<Writer>]: [write_all], the writer's [take]
    and [finish], with the rest of the writer's buffer. *)
Class ContentEncoder (E : Type) := {
  ce_new : ContentEncoding -> E;
  ce_write : list Z -> E -> result E Z;
  ce_take : E -> list Z * E;
  ce_finish : E -> result (list Z) Z
}.

(** [GzDecoder<Writer>] and [ZlibDecoder<Writer>]. *)
Class ContentDecoder (D : Type) := {
  cd_new : ContentEncoding -> D;
  cd_write : list Z -> D -> result D Z;
  cd_flush : D -> result D Z;
  cd_take : D -> list Z * D;
  cd_try_finish : D -> result D Z
}.

(** ** The encoder *)

Definition ENCODE_INPLACE : Z := 1024.

Section Encoder.
Context `{ContentEncoder E} {B M : Type} `{MessageBody B} `{MessageBody M}.

Inductive EncoderBody := EB_Bytes (b : Bytes) | EB_Stream (b : B) | EB_BoxedStream (b : M).
Record Encoder := mkContentEncoder {
  ec_eof : bool;
  ec_body : EncoderBody;
  ec_inner : option E;
  ec_fut : option (BlockingJob E);
  ec_sched : Schedule
}.

Definition encoder_body_size (b : EncoderBody) : BodySize :=
  match b with EB_Bytes b => size b | EB_Stream b => size b | EB_BoxedStream b => size b end.
Definition encoder_size (s : Encoder) : BodySize :=
  match ec_inner s with None => encoder_body_size (ec_body s) | Some _ => BS_Stream end.

Definition encoder_body_next (fuel : nat) (b : EncoderBody) : outcome (ChunkPoll * EncoderBody) :=
  match b with
  | EB_Bytes b => let '(r, b) := bytes_next b in Val (r, EB_Bytes b)
  | EB_Stream b => '(r, b) ← poll_next_chunk fuel b; Val (r, EB_Stream b)
  | EB_BoxedStream b => '(r, b) ← poll_next_chunk fuel b; Val (r, EB_BoxedStream b)
  end.

#[export] Instance encoder_body_body : MessageBody EncoderBody := {
  size := encoder_body_size; poll_next_chunk := encoder_body_next
}.

(** The future at the start of a round: what the poll returns, or the state to go on with. *)
Definition encoder_fut (s : Encoder) : (ChunkPoll * Encoder) + Encoder :=
  match ec_fut s with
  | None => inr s
  | Some fut =>
      let '(r, fut) := job_poll fut in
      let kept := mkContentEncoder (ec_eof s) (ec_body s) (ec_inner s) (Some fut) (ec_sched s) in
      match r with
      | Ready (Some (Ok encoder)) =>
          let '(chunk, encoder) := ce_take encoder in
          let s := mkContentEncoder (ec_eof s) (ec_body s) (Some encoder) None (ec_sched s) in
          if negb (bool_decide (chunk = [])) then inl (Ready (Some (Ok chunk)), s) else inr s
      | Ready (Some (Err e)) => inl (Ready (Some (Err e)), kept)
      | Ready None => inl (Ready (Some (Err INTERRUPTED)), kept)
      | Pending => inl (Pending, kept)
      end
  end.

(** [Encoder::poll_next_chunk] *)
Fixpoint encoder_next (fuel : nat) (s : Encoder) : outcome (ChunkPoll * Encoder) :=
  match fuel with
  | O => NoFuel
  | S fuel' =>
      if ec_eof s then Val (Ready None, s)
      else
        match encoder_fut s with
        | inl r => Val r
        | inr s =>
            '(result, body) ← encoder_body_next fuel (ec_body s);
            let next inner fut sched := mkContentEncoder (ec_eof s) body inner fut sched in
            match result with
            | Ready (Some (Ok chunk)) =>
                match ec_inner s with
                | Some encoder =>
                    if zlen chunk <? ENCODE_INPLACE then
                      match ce_write chunk encoder with
                      | Err e => Val (Ready (Some (Err e)), next None (ec_fut s) (ec_sched s))
                      | Ok encoder =>
                          let '(chunk, encoder) := ce_take encoder in
                          let s := next (Some encoder) (ec_fut s) (ec_sched s) in
                          if negb (bool_decide (chunk = [])) then Val (Ready (Some (Ok chunk)), s)
                          else encoder_next fuel' s
                      end
                    else
                      let '(job, sched) := spawn_blocking (ce_write chunk encoder) (ec_sched s) in
                      encoder_next fuel' (next None (Some job) sched)
                | None => Val (Ready (Some (Ok chunk)), next None (ec_fut s) (ec_sched s))
                end
            | Ready None =>
                match ec_inner s with
                | Some encoder =>
                    match ce_finish encoder with
                    | Err e => Val (Ready (Some (Err e)), next None (ec_fut s) (ec_sched s))
                    | Ok chunk =>
                        if bool_decide (chunk = []) then Val (Ready None, next None (ec_fut s) (ec_sched s))
                        else Val (Ready (Some (Ok chunk)), mkContentEncoder true body None (ec_fut s) (ec_sched s))
                    end
                | None => Val (Ready None, next None (ec_fut s) (ec_sched s))
                end
            | val => Val (val, next (ec_inner s) (ec_fut s) (ec_sched s))
            end
        end
  end.
#[export] Instance encoder_body : MessageBody Encoder := { size := encoder_size; poll_next_chunk := encoder_next }.

Definition can_encode (encoding : ContentEncoding) : bool :=
  match encoding with CE_Deflate | CE_Gzip => true | _ => false end.
Definition encoder_new (encoding : ContentEncoding) : option E := if can_encode encoding then Some (ce_new encoding) else None.

Definition update_head (encoding : ContentEncoding) (h : ResponseHead) : outcome ResponseHead :=
  v ← from_static (encoding_str encoding);
  Val (rs_set_headers h (HeaderMapOps.insert (rs_headers h) CONTENT_ENCODING v)).

(** [Encoder::response]; what is returned is the old body, or one with the encoder
    in its box. *)
Definition encoder_response (encoding : ContentEncoding) (sched : Schedule) (h : ResponseHead) (body : ResponseBody B M)
    : outcome ((ResponseBody B M + Encoder) * ResponseHead) :=
  let can :=
    can_encode encoding &&
    negb (HeaderMapOps.contains_key (fun _ => None) (rs_headers h) (NameLeft CONTENT_ENCODING)
          || (rs_status h =? SWITCHING_PROTOCOLS) || (rs_status h =? NO_CONTENT)
          || bool_decide (encoding = CE_Identity) || bool_decide (encoding = CE_Auto)) in
  if can then
    match
      match body with
      | RB_Other B_None => inl (inl (RB_Other B_None))
      | RB_Other B_Empty => inl (inl (RB_Other B_Empty))
      | RB_Other (B_Bytes buf) => inr (EB_Bytes buf)
      | RB_Other (B_Message stream) => inr (EB_BoxedStream stream)
      | RB_Body stream => inr (EB_Stream stream)
      end
    with
    | inl body => Val (body, h)
    | inr body =>
        match encoder_new encoding with
        | None => Panic
        | Some encoder =>
            h ← update_head encoding h;
            Val (inr (mkContentEncoder false body (Some encoder) None sched), ResponseHeadOps.no_chunking h false)
        end
    end
  else Val (inl body, h).
End Encoder.
Arguments EncoderBody B M : clear implicits.
Arguments Encoder E B M : clear implicits.

(** ** The decoder *)

Definition DECODE_INPLACE : Z := 2049.

Section Decoder.
Context `{ContentDecoder D} {S : Type} (poll_next : S -> outcome (Poll (option (result (list Z) PayloadError)) * S)).

(** [feed_data] and [feed_eof]: what came out, if anything did. *)
Definition taken (d : D) : option (list Z) * D :=
  let '(b, d) := cd_take d in (if bool_decide (b = []) then None else Some b, d).
Definition feed_data (data : list Z) (d : D) : result (option (list Z) * D) Z :=
  match cd_write data d with
  | Err e => Err e
  | Ok d => match cd_flush d with Err e => Err e | Ok d => Ok (taken d) end
  end.
Definition feed_eof (d : D) : result (option (list Z)) Z :=
  match cd_try_finish d with Err e => Err e | Ok d => Ok (taken d).1 end.

Record Decoder := mkContentDecoder {
  dc_inner : option D;
  dc_stream : S;
  dc_eof : bool;
  dc_fut : option (BlockingJob (option (list Z) * D));
  dc_sched : Schedule
}.

Definition decoder_new (stream : S) (encoding : ContentEncoding) (sched : Schedule) : Decoder :=
  mkContentDecoder (match encoding with CE_Deflate | CE_Gzip => Some (cd_new encoding) | _ => None end) stream false None sched.

Definition from_headers (stream : S) (headers : HeaderMap) (sched : Schedule) : outcome Decoder :=
  enc ← HeaderMapOps.get (fun _ => None) headers (NameLeft CONTENT_ENCODING);
  Val (decoder_new stream
         match enc with
         | Some enc => match to_str enc with Ok enc => encoding_from enc | Err _ => CE_Identity end
         | None => CE_Identity
         end sched).

Definition decoder_fut (s : Decoder) : (Poll (option (result (list Z) PayloadError)) * Decoder) + Decoder :=
  match dc_fut s with
  | None => inr s
  | Some fut =>
      let '(r, fut) := job_poll fut in
      let kept := mkContentDecoder (dc_inner s) (dc_stream s) (dc_eof s) (Some fut) (dc_sched s) in
      match r with
      | Ready (Some (Ok (chunk, decoder))) =>
          let s := mkContentDecoder (Some decoder) (dc_stream s) (dc_eof s) None (dc_sched s) in
          match chunk with Some chunk => inl (Ready (Some (Ok chunk)), s) | None => inr s end
      | Ready (Some (Err e)) => inl (Ready (Some (Err (PE_Io e))), kept)
      | Ready None => inl (Ready (Some (Err (PE_Io INTERRUPTED))), kept)
      | Pending => inl (Pending, kept)
      end
  end.

(** [Decoder::poll_next] *)
Fixpoint decoder_next (fuel : nat) (s : Decoder) : outcome (Poll (option (result (list Z) PayloadError)) * Decoder) :=
  match fuel with
  | O => NoFuel
  | Datatypes.S fuel =>
      match decoder_fut s with
      | inl r => Val r
      | inr s =>
          if dc_eof s then Val (Ready None, s)
          else
            '(item, stream) ← poll_next (dc_stream s);
            let next inner eof fut sched := mkContentDecoder inner stream eof fut sched in
            match item with
            | Ready (Some (Err err)) => Val (Ready (Some (Err err)), next (dc_inner s) false (dc_fut s) (dc_sched s))
            | Ready (Some (Ok chunk)) =>
                match dc_inner s with
                | Some decoder =>
                    if zlen chunk <? DECODE_INPLACE then
                      match feed_data chunk decoder with
                      | Err e => Val (Ready (Some (Err (PE_Io e))), next None false (dc_fut s) (dc_sched s))
                      | Ok (chunk, decoder) =>
                          let s := next (Some decoder) false (dc_fut s) (dc_sched s) in
                          match chunk with
                          | Some chunk => Val (Ready (Some (Ok chunk)), s)
                          | None => decoder_next fuel s
                          end
                      end
                    else
                      let '(job, sched) := spawn_blocking (feed_data chunk decoder) (dc_sched s) in
                      decoder_next fuel (next None false (Some job) sched)
                | None => Val (Ready (Some (Ok chunk)), next None false (dc_fut s) (dc_sched s))
                end
            | Ready None =>
                let s' := next None true (dc_fut s) (dc_sched s) in
                match dc_inner s with
                | Some decoder =>
                    match feed_eof decoder with
                    | Ok (Some res) => Val (Ready (Some (Ok res)), s')
                    | Ok None => Val (Ready None, s')
                    | Err err => Val (Ready (Some (Err (PE_Io err))), s')
                    end
                | None => Val (Ready None, s')
                end
            | Pending => Val (Pending, next (dc_inner s) false (dc_fut s) (dc_sched s))
            end
      end
  end.
End Decoder.
Arguments Decoder D S : clear implicits.
