(* ===== verification/EncodingThms.v ===== *)
(** * Content codings, out and in

    [content_coding_roundtrip]: a body that is compressed on its way out and
    decompressed on its way in arrives as it was, whatever its chunks, the pauses,
    the jobs of the thread pool and the segments in between. *)
From S2P Require Import Prelude Headers Message Config Errors Payload Decoder Encoder EncoderThms H1Codec Body.
From S2P Require Import Response ClientPool ClientExchange ClientResponse ClientResponseThms Encoding.
Import HeaderMapOps HeaderMapThms.

(** What flate2 documents, with [inflate], the meaning of a compressed text: a
    writer in memory never fails; what was taken of an encoder, with the rest at its
    end, is the compressed text of all that was written; a decoder that is fed
    a compressed text in parts gives its meaning. *)
Class ContentEncoderLaws E `{ContentEncoder E} (inflate : ContentEncoding -> list Z -> option (list Z)) := {
  ce_kind : E -> ContentEncoding;
  ce_in : E -> list Z;
  ce_out : E -> list Z;
  ce_new_law k : can_encode k = true -> ce_kind (ce_new k) = k /\ ce_in (ce_new k) = [] /\ ce_out (ce_new k) = [];
  ce_write_law s e :
    exists e', ce_write s e = Ok e' /\ ce_kind e' = ce_kind e /\ ce_in e' = ce_in e ++ s /\ ce_out e' = ce_out e;
  ce_take_law e :
    ce_kind (ce_take e).2 = ce_kind e /\ ce_in (ce_take e).2 = ce_in e /\ ce_out (ce_take e).2 = ce_out e ++ (ce_take e).1;
  ce_finish_law e : exists b, ce_finish e = Ok b /\ inflate (ce_kind e) (ce_out e ++ b) = Some (ce_in e)
}.

Class ContentDecoderLaws D `{ContentDecoder D} (inflate : ContentEncoding -> list Z -> option (list Z)) := {
  cd_kind : D -> ContentEncoding;
  cd_fed : D -> list Z;
  cd_got : D -> list Z;
  cd_new_law k : can_encode k = true -> cd_kind (cd_new k) = k /\ cd_fed (cd_new k) = [] /\ cd_got (cd_new k) = [];
  cd_write_law s d rest x :
    inflate (cd_kind d) (cd_fed d ++ s ++ rest) = Some x ->
    exists d', cd_write s d = Ok d' /\ cd_kind d' = cd_kind d /\ cd_fed d' = cd_fed d ++ s /\ cd_got d' = cd_got d;
  cd_flush_law d rest x :
    inflate (cd_kind d) (cd_fed d ++ rest) = Some x ->
    exists d', cd_flush d = Ok d' /\ cd_kind d' = cd_kind d /\ cd_fed d' = cd_fed d /\ cd_got d' = cd_got d;
  cd_take_law d :
    cd_kind (cd_take d).2 = cd_kind d /\ cd_fed (cd_take d).2 = cd_fed d /\ cd_got (cd_take d).2 = cd_got d ++ (cd_take d).1;
  cd_finish_law d x :
    inflate (cd_kind d) (cd_fed d) = Some x ->
    exists d', cd_try_finish d = Ok d' /\ cd_got d ++ (cd_take d').1 = x
}.

(** No job is cancelled. *)
Definition all_run (s : Schedule) : Prop := Forall (fun x => x <> None) s.

Lemma spawn_runs {T} (r : result T Z) s :
  all_run s -> exists n s', spawn_blocking r s = (mkJob n (Some r), s') /\ all_run s'.
Proof.
  intros Hs. destruct Hs as [|[n|] s Hx Hs]; simpl; [|by exists n, s|done].
  exists 0%nat, []. split; [done|constructor].
Qed.

(** ** Encoding *)

Section Encode.
Context `{ContentEncoderLaws E inflate} {B M : Type} `{Body.MessageBody B} `{Body.MessageBody M}.
Notation Enc := (Encoding.Encoder E B M).

(** A state that goes on as another does. *)
Lemma gives_same (s s1 : Enc) k m l :
  (forall fuel, (m <= fuel)%nat -> encoder_next (k + fuel) s = encoder_next fuel s1) ->
  body_gives s1 l -> body_gives s l.
Proof.
  intros He Hg.
  assert (Hstep : forall n r b', (forall fuel, (n <= fuel)%nat -> encoder_next fuel s1 = Val (r, b')) ->
    forall fuel, (k + (m + n) <= fuel)%nat -> encoder_next fuel s = Val (r, b')).
  { intros n r b' Hn fuel Hf. replace fuel with (k + (fuel - k))%nat by lia. rewrite He by lia. apply Hn. lia. }
  destruct Hg as [b b' n Hn|b b' n l Hn Hg|b b' n c l Hn Hg].
  - eapply bg_end. apply (Hstep n), Hn.
  - eapply bg_pending; [apply (Hstep n), Hn|done].
  - eapply bg_chunk; [apply (Hstep n), Hn|done].
Qed.

(** The end of the stream. *)
Lemma gives_eof (s : Enc) : ec_eof s = true -> body_gives s [].
Proof. intros Hs. apply (bg_end s s 1). intros [|fuel] Hf; [lia|]. simpl. by rewrite Hs. Qed.

(** What comes out of a state with the encoder [e], for the data [data] that the body
    will still give. *)
Definition comes_out (s : Enc) (e : E) (data : list Z) : Prop :=
  exists l, body_gives s l /\ Forall (fun c => c <> []) l /\ inflate (ce_kind e) (ce_out e ++ concat l) = Some (ce_in e ++ data).

Lemma comes_same s s1 e data k m :
  (forall fuel, (m <= fuel)%nat -> encoder_next (k + fuel) s = encoder_next fuel s1) -> comes_out s1 e data -> comes_out s e data.
Proof. intros He (l & Hg & Hne & Hi). exists l. split; [by eapply gives_same|done]. Qed.

Lemma comes_pending s s1 e data n :
  (forall fuel, (n <= fuel)%nat -> encoder_next fuel s = Val (Pending, s1)) -> comes_out s1 e data -> comes_out s e data.
Proof. intros He (l & Hg & Hne & Hi). exists l. split; [by eapply bg_pending|done]. Qed.

(** The writer's bytes are given, if there are any. *)
Lemma comes_taken s e data k m (s1 : Enc) :
  (forall fuel, (m <= fuel)%nat ->
     encoder_next (k + fuel) s =
       if negb (bool_decide ((ce_take e).1 = [])) then Val (Ready (Some (Ok (ce_take e).1)), s1) else encoder_next fuel s1) ->
  comes_out s1 (ce_take e).2 data -> comes_out s e data.
Proof.
  intros He (l & Hg & Hne & Hi). destruct (ce_take_law e) as (Hk & Hin & Hout). rewrite Hk, Hin, Hout, <- app_assoc in Hi.
  destruct (decide ((ce_take e).1 = [])) as [Hc|Hc].
  - rewrite Hc in *. exists l. split; [|done]. eapply gives_same, Hg. intros fuel Hf. by rewrite He by done.
  - exists ((ce_take e).1 :: l). split; [|split; [by constructor|done]]. eapply (bg_chunk _ _ (k + m)), Hg.
    intros fuel Hf. replace fuel with (k + (fuel - k))%nat by lia. cbn [poll_next_chunk encoder_body].
    rewrite He by lia. by rewrite bool_decide_eq_false_2.
Qed.

(** A job that is under way. *)
Lemma job_comes_out body e sched data n :
  comes_out (mkContentEncoder false body (Some (ce_take e).2) None sched) (ce_take e).2 data ->
  comes_out (mkContentEncoder false body None (Some (mkJob n (Some (Ok e)))) sched) e data.
Proof.
  intros Hc. induction n as [|n IH].
  - set (s1 := mkContentEncoder _ _ (Some _) _ _) in *. eapply (comes_taken _ _ _ 0 1 s1), Hc.
    intros [|fuel] Hf; [lia|]. simpl. unfold encoder_fut. simpl. destruct (ce_take e) as [c e'] eqn:Et. simpl in *.
    by case_bool_decide.
  - eapply (comes_pending _ _ _ _ 1), IH. intros [|fuel] Hf; [lia|]. done.
Qed.

Lemma encoder_gives body l :
  body_gives body l -> forall e sched, all_run sched ->
  comes_out (mkContentEncoder false body (Some e) None sched) e (concat l).
Proof.
  induction 1 as [b b' n Hp|b b' n l Hp Hg IH|b b' n c l Hp Hg IH]; intros e sched Hs.
  - destruct (ce_finish_law e) as (c & Hf & Hi). cbn [concat]. unfold comes_out. rewrite app_nil_r. destruct (decide (c = [])) as [->|Hc].
    + exists []. split; [|by split].
      apply (bg_end _ (mkContentEncoder false b' None None sched) (S n)). intros [|fuel] Hfu; [lia|].
      cbn [encoder_next poll_next_chunk encoder_body ec_eof encoder_fut ec_fut ec_body]. simpl in Hp. rewrite Hp by lia. simpl. by rewrite Hf.
    + exists [c]. split; [|split; [by repeat constructor|cbn [concat]; by rewrite (app_nil_r c)]].
      eapply (bg_chunk _ (mkContentEncoder true b' None None sched) (S n)); [|by apply gives_eof].
      intros [|fuel] Hfu; [lia|]. cbn [encoder_next poll_next_chunk encoder_body ec_eof encoder_fut ec_fut ec_body]. simpl in Hp.
      rewrite Hp by lia. simpl. rewrite Hf. by rewrite bool_decide_eq_false_2.
  - eapply (comes_pending _ (mkContentEncoder false b' (Some e) None sched) _ _ (S n)), IH, Hs.
    intros [|fuel] Hfu; [lia|]. cbn [encoder_next ec_eof encoder_fut ec_fut ec_body]. simpl in Hp. by rewrite Hp by lia.
  - destruct (ce_write_law c e) as (e1 & Hw & Hk & Hin & Hout).
    assert (Hback : forall s, comes_out s e1 (concat l) -> comes_out s e (concat (c :: l))).
    { intros s (l1 & Hg1 & Hne & Hi). exists l1. split; [done|]. split; [done|]. rewrite Hk, Hin, Hout, <- app_assoc in Hi. done. }
    destruct (zlen c <? ENCODE_INPLACE) eqn:Ez.
    + apply Hback. set (s1 := mkContentEncoder false b' (Some (ce_take e1).2) None sched).
      eapply (comes_taken _ _ _ 1 n s1), IH, Hs.
      intros fuel Hfu. cbn [Nat.add encoder_next ec_eof encoder_fut ec_fut ec_body]. simpl in Hp. rewrite Hp by lia. simpl.
      rewrite Ez, Hw. by destruct (ce_take e1) as [c' e2].
    + apply Hback. destruct (spawn_runs (ce_write c e) sched Hs) as (m & sched' & Hsp & Hs').
      eapply (comes_same _ (mkContentEncoder false b' None (Some (mkJob m (Some (Ok e1)))) sched') _ _ 1 n);
        [|by apply job_comes_out, IH].
      intros fuel Hfu. cbn [Nat.add encoder_next ec_eof encoder_fut ec_fut ec_body]. simpl in Hp. rewrite Hp by lia. simpl.
      by rewrite Ez, Hsp, Hw.
Qed.
End Encode.

(** ** Decoding *)

Section Decode.
Context `{ContentDecoderLaws D inflate} {P : Type} (poll_next : P -> outcome (Poll (option (result (list Z) PayloadError)) * P)).
Notation Dec := (Encoding.Decoder D P).
Notation next := (decoder_next poll_next).

(** The chunks of a stream that is polled once with the fuel [f0], and then with [f]. *)
Definition gives_first (f0 f : nat) (s : Dec) (l : list (list Z)) (k : nat) : Prop :=
  match next f0 s with
  | Val (Ready None, _) => l = [] /\ k = 0%nat
  | Val (Ready (Some (Ok c)), s') => exists l', l = c :: l' /\ stream_gives (next f) s' l' None k
  | Val (Pending, s') => exists k', k = S k' /\ stream_gives (next f) s' l None k'
  | _ => False
  end.

Lemma gives_first_stream f s l k : gives_first f f s l k -> stream_gives (next f) s l None k.
Proof.
  unfold gives_first. destruct (next f s) as [[[[[c|e]|]|] s']| |] eqn:E; try done.
  - intros (l' & -> & Hg). by eapply sg_chunk.
  - intros [-> ->]. by eapply sg_end.
  - intros (k' & -> & Hg). by eapply sg_wait.
Qed.

Definition comes_in (f0 f : nat) (s : Dec) (d : D) (data : list Z) : Prop :=
  exists l k, gives_first f0 f s l k /\ cd_got d ++ concat l = data.

Lemma comes_in_stream f s d data :
  comes_in f f s d data -> exists l k, stream_gives (next f) s l None k /\ cd_got d ++ concat l = data.
Proof. intros (l & k & Hg & Hd). exists l, k. split; [by apply gives_first_stream|done]. Qed.

Lemma comes_in_pending f0 f s s1 d data :
  next f0 s = Val (Pending, s1) -> comes_in f f s1 d data -> comes_in f0 f s d data.
Proof.
  intros He Hc. destruct (comes_in_stream _ _ _ _ Hc) as (l & k & Hg & Hd). exists l, (S k). split; [|done].
  unfold gives_first. rewrite He. by exists k.
Qed.

(** What was taken is given, if it is something. *)
Lemma comes_in_taken f0 f s s1 d data :
  next f0 s = (if bool_decide ((cd_take d).1 = []) then next (pred f0) s1 else Val (Ready (Some (Ok (cd_take d).1)), s1)) ->
  comes_in (pred f0) f s1 (cd_take d).2 data -> comes_in f f s1 (cd_take d).2 data -> comes_in f0 f s d data.
Proof.
  intros He (l & k & Hg & Hd) Hc. destruct (cd_take_law d) as (_ & _ & Hgot). rewrite Hgot, <- app_assoc in Hd.
  case_bool_decide as Hb.
  - exists l, k. rewrite Hb in Hd. split; [|done]. unfold gives_first. by rewrite He.
  - destruct (comes_in_stream _ _ _ _ Hc) as (l1 & k1 & Hg1 & Hd1). rewrite Hgot, <- app_assoc in Hd1.
    exists ((cd_take d).1 :: l1), k1. split; [|done]. unfold gives_first. rewrite He. by exists l1.
Qed.

Lemma job_comes_in p d sched data f n low : forall f0,
  (low < f0)%nat -> (low < f)%nat ->
  (forall f1, (low < f1)%nat -> comes_in f1 f (mkContentDecoder (Some (cd_take d).2) p false None sched) (cd_take d).2 data) ->
  comes_in f0 f (mkContentDecoder None p false (Some (mkJob n (Some (Ok (taken d))))) sched) d data.
Proof.
  induction n as [|n IH]; intros f0 Hf0 Hf Hc.
  - destruct f0 as [|f0]; [lia|].
    assert (E : next (S f0) (mkContentDecoder None p false (Some (mkJob 0 (Some (Ok (taken d))))) sched) =
      if bool_decide ((cd_take d).1 = []) then next (S f0) (mkContentDecoder (Some (cd_take d).2) p false None sched)
      else Val (Ready (Some (Ok (cd_take d).1)), mkContentDecoder (Some (cd_take d).2) p false None sched)).
    { cbn [decoder_next]. unfold decoder_fut, taken. simpl. destruct (cd_take d) as [b d']. simpl. by case_bool_decide. }
    destruct (Hc (S f0) Hf0) as (l & k & Hg & Hd), (comes_in_stream _ _ _ _ (Hc f Hf)) as (l1 & k1 & Hg1 & Hd1).
    destruct (cd_take_law d) as (_ & _ & Hgot). rewrite Hgot, <- app_assoc in Hd, Hd1. case_bool_decide as Hb.
    + exists l, k. rewrite Hb in Hd. split; [|done]. unfold gives_first. by rewrite E.
    + exists ((cd_take d).1 :: l1), k1. split; [|done]. unfold gives_first. rewrite E. by exists l1.
  - eapply comes_in_pending; [|by apply IH]. destruct f0; [lia|done].
Qed.

Lemma decoder_gives p l fin n :
  stream_gives poll_next p l fin n -> fin = None -> forall d sched x f f0,
  all_run sched -> (length l < f)%nat -> (length l < f0)%nat ->
  inflate (cd_kind d) (cd_fed d ++ concat l) = Some x ->
  comes_in f0 f (mkContentDecoder (Some d) p false None sched) d x.
Proof.
  induction 1 as [p p' Hp|p p' e Hp|p p' l fin n Hp Hg IH|p p' c l fin n Hp Hg IH]; intros Hfin d sched x f f0 Hs Hf Hf0 Hx.
  - cbn [concat] in Hx. rewrite app_nil_r in Hx. destruct (cd_finish_law d x Hx) as (d' & Ht & Hb).
    destruct f0 as [|f0]; [simpl in Hf0; lia|].
    assert (E : next (S f0) (mkContentDecoder (Some d) p false None sched) =
      Val (Ready (if bool_decide ((cd_take d').1 = []) then None else Some (Ok (cd_take d').1)), mkContentDecoder None p' true None sched)).
    { cbn [decoder_next]. unfold decoder_fut. simpl. rewrite Hp. simpl. unfold feed_eof, taken. rewrite Ht.
      destruct (cd_take d') as [b d2]. simpl. by case_bool_decide. }
    destruct (decide ((cd_take d').1 = [])) as [Hn|Hn].
    + exists [], 0%nat. split; [|simpl; by rewrite app_nil_r, <- Hb, Hn, app_nil_r]. unfold gives_first. rewrite E.
      by rewrite bool_decide_eq_true_2.
    + exists [(cd_take d').1], 0%nat. split; [|simpl; by rewrite app_nil_r]. unfold gives_first. rewrite E.
      rewrite bool_decide_eq_false_2 by done. exists []. split; [done|]. eapply sg_end. destruct f; [simpl in Hf; lia|done].
  - done.
  - eapply comes_in_pending; [|by apply IH]. destruct f0; [lia|]. cbn [decoder_next]. unfold decoder_fut. simpl. by rewrite Hp.
  - cbn [concat length] in *. destruct (cd_write_law c d (concat l) x Hx) as (d1 & Hw & Hk1 & Hfed1 & Hgot1).
    rewrite app_assoc, <- Hfed1, <- Hk1 in Hx. destruct (cd_flush_law d1 (concat l) x Hx) as (d2 & Hfl & Hk2 & Hfed2 & Hgot2).
    destruct (cd_take_law d2) as (Hk3 & Hfed3 & _). rewrite <- Hk2, <- Hfed2 in Hx. rewrite <- Hk3, <- Hfed3 in Hx.
    assert (Hback : forall s, comes_in f0 f s d2 x -> comes_in f0 f s d x).
    { intros s (l1 & k & Hg1 & Hd1). exists l1, k. split; [done|]. by rewrite Hgot2, Hgot1 in Hd1. }
    apply Hback. clear Hback. destruct f0 as [|f0]; [lia|].
    assert (Hfeed : feed_data c d = Ok (taken d2)) by (unfold feed_data; by rewrite Hw, Hfl).
    destruct (zlen c <? DECODE_INPLACE) eqn:Ez.
    + set (s1 := mkContentDecoder (Some (cd_take d2).2) p' false None sched).
      apply (comes_in_taken _ _ _ s1); [|apply IH; [done|done|lia|simpl; lia|done]|apply IH; [done|done|lia|lia|done]].
      cbn [decoder_next pred]. unfold decoder_fut. simpl. rewrite Hp. simpl. rewrite Ez, Hfeed. unfold taken, s1.
      destruct (cd_take d2) as [b d3]. simpl. by case_bool_decide.
    + destruct (spawn_runs (feed_data c d) sched Hs) as (m & sched' & Hsp & Hs').
      assert (E : next (S f0) (mkContentDecoder (Some d) p false None sched) =
                  next f0 (mkContentDecoder None p' false (Some (mkJob m (Some (Ok (taken d2))))) sched')).
      { cbn [decoder_next]. unfold decoder_fut. simpl. rewrite Hp. simpl. by rewrite Ez, Hsp, Hfeed. }
      assert (Hc : comes_in f0 f (mkContentDecoder None p' false (Some (mkJob m (Some (Ok (taken d2))))) sched') d2 x).
      { apply (job_comes_in _ _ _ _ _ _ (length l)); [lia|lia|]. intros f1 Hf1. apply IH; [done..|lia|lia|done]. }
      destruct Hc as (l1 & k1 & Hg1 & Hd1). exists l1, k1. split; [|done]. unfold gives_first. by rewrite E.
Qed.

(** A text that cannot be decompressed is an error, and the decoder is given up: if
    the stream is polled on, the chunks after it come as they are, compressed. *)
Theorem failed_decoder_passes_on f p p' p2 d c c2 e sched :
  poll_next p = Val (Ready (Some (Ok c)), p') -> zlen c < DECODE_INPLACE -> feed_data c d = Err e ->
  poll_next p' = Val (Ready (Some (Ok c2)), p2) ->
  exists s1 s2,
    next (S f) (mkContentDecoder (Some d) p false None sched) = Val (Ready (Some (Err (PE_Io e))), s1) /\
    next (S f) s1 = Val (Ready (Some (Ok c2)), s2).
Proof.
  intros Hp Hz He Hp'. do 2 eexists. split.
  - cbn [decoder_next]. unfold decoder_fut. simpl. rewrite Hp. simpl. destruct (Z.ltb_spec (zlen c) DECODE_INPLACE); [|lia].
    by rewrite He.
  - cbn [decoder_next]. unfold decoder_fut. simpl. by rewrite Hp'.
Qed.
End Decode.

(** ** The round trip *)

(** A wrapper of a body that is polled as the body is. *)
Section Wrap.
Context `{Body.MessageBody X} `{Body.MessageBody Y} (wrap : X -> Y).
Hypothesis wrap_poll : forall fuel x,
  poll_next_chunk fuel (wrap x) =
  match poll_next_chunk fuel x with Val (r, x) => Val (r, wrap x) | Panic => Panic | NoFuel => NoFuel end.

Lemma wrap_gives x l : body_gives x l -> body_gives (wrap x) l.
Proof.
  induction 1 as [x x' n Hp|x x' n l Hp Hg IH|x x' n c l Hp Hg IH].
  - apply (bg_end _ (wrap x') n). intros fuel Hf. by rewrite wrap_poll, Hp.
  - apply (bg_pending _ (wrap x') n); [|done]. intros fuel Hf. by rewrite wrap_poll, Hp.
  - apply (bg_chunk _ (wrap x') n); [|done]. intros fuel Hf. by rewrite wrap_poll, Hp.
Qed.

Lemma unwrap_poll n x r y :
  (forall fuel, (n <= fuel)%nat -> poll_next_chunk fuel (wrap x) = Val (r, y)) ->
  (forall x1 x2, wrap x1 = wrap x2 -> x1 = x2) ->
  exists x', y = wrap x' /\ forall fuel, (n <= fuel)%nat -> poll_next_chunk fuel x = Val (r, x').
Proof.
  intros Hp Hinj. pose proof (Hp n ltac:(lia)) as Hn. rewrite wrap_poll in Hn.
  destruct (poll_next_chunk n x) as [[r1 x1]| |] eqn:En; simplify_eq. exists x1. split; [done|].
  intros fuel Hf. specialize (Hp fuel Hf). rewrite wrap_poll in Hp.
  destruct (poll_next_chunk fuel x) as [[r2 x2]| |]; simplify_eq. by rewrite (Hinj x1 x2).
Qed.

Lemma unwrap_gives x l : (forall x1 x2, wrap x1 = wrap x2 -> x1 = x2) -> body_gives (wrap x) l -> body_gives x l.
Proof.
  intros Hinj Hg. remember (wrap x) as y eqn:Hy. revert x Hy.
  induction Hg as [y y' n Hp|y y' n l Hp Hg IH|y y' n c l Hp Hg IH]; intros x ->;
    destruct (unwrap_poll _ _ _ _ Hp Hinj) as (x' & -> & Hq).
  - by eapply bg_end.
  - eapply bg_pending; [done|by apply IH].
  - eapply bg_chunk; [done|by apply IH].
Qed.
End Wrap.

Section RoundTrip.
Context `{ContentEncoderLaws E inflate} `{!ContentDecoder D} `{!ContentDecoderLaws D inflate}.
Context {B M : Type} `{Body.MessageBody B} `{Body.MessageBody M} {P : Type}.
Context (poll_next : P -> outcome (Poll (option (result (list Z) PayloadError)) * P)).

Lemma body_taken_over (rb : ResponseBody B M) l :
  body_gives rb l ->
  match rb with
  | RB_Body b => body_gives (EB_Stream (M := M) b) l
  | RB_Other (B_Bytes b) => body_gives (EB_Bytes (B := B) (M := M) b) l
  | RB_Other (B_Message m) => body_gives (EB_BoxedStream (B := B) m) l
  | RB_Other _ => True
  end.
Proof.
  intros Hg. destruct rb as [b|[| |b|m]]; try done.
  - apply (unwrap_gives RB_Body) in Hg; [| |by intros ?? [=]].
    + apply (wrap_gives EB_Stream); [|done]. intros fuel x. simpl. by destruct (poll_next_chunk fuel x) as [[]| |].
    + intros fuel x. simpl. by destruct (poll_next_chunk fuel x) as [[]| |].
  - apply (unwrap_gives RB_Other) in Hg; [| |by intros ?? [=]].
    + apply (unwrap_gives B_Bytes) in Hg; [| |by intros ?? [=]].
      * apply (wrap_gives EB_Bytes); [|done]. intros fuel x. simpl. by destruct (bytes_next x).
      * intros fuel x. simpl. by destruct (bytes_next x).
    + intros fuel x. simpl. by destruct (body_next fuel x) as [[]| |].
  - apply (unwrap_gives RB_Other) in Hg; [| |by intros ?? [=]].
    + apply (unwrap_gives B_Message) in Hg; [| |by intros ?? [=]].
      * apply (wrap_gives EB_BoxedStream); [|done]. intros fuel x. simpl. by destruct (poll_next_chunk fuel x) as [[]| |].
      * intros fuel x. simpl. by destruct (poll_next_chunk fuel x) as [[]| |].
    + intros fuel x. simpl. by destruct (body_next fuel x) as [[]| |].
Qed.

(** [Encoder::response] leaves a response alone, or puts an encoder in front of its
    body and says so in its head. *)
Lemma encoder_response_encodes kind sched h (rb : ResponseBody B M) :
  (exists r, encoder_response (E := E) kind sched h rb = Val (r, h) /\ r = inl rb) \/
  can_encode kind = true /\ exists eb,
    (forall l, body_gives rb l -> body_gives eb l) /\
    encoder_response kind sched h rb =
      Val (inr (mkContentEncoder false eb (Some (ce_new kind)) None sched),
           ResponseHeadOps.no_chunking
             (rs_set_headers h (HeaderMapOps.insert (rs_headers h) CONTENT_ENCODING (mkHeaderValue (encoding_str kind) false))) false).
Proof.
  unfold encoder_response. destruct (can_encode kind && _) eqn:Ec; [|left; by eexists].
  apply andb_prop in Ec as [Hc _]. unfold encoder_new. rewrite Hc.
  assert (Hu : update_head kind h = Val (rs_set_headers h (HeaderMapOps.insert (rs_headers h) CONTENT_ENCODING (mkHeaderValue (encoding_str kind) false))))
    by (by destruct kind).
  rewrite Hu. pose proof (body_taken_over rb) as Ht.
  destruct rb as [b|[| |b|m]]; [right|left; by eexists|left; by eexists|right|right]; (split; [done|]); eexists; (split; [exact Ht|done]).
Qed.

(** C18. Compressed and decompressed.  When a response is encoded, its size is that of
    a stream, it is chunked, and its Content-Encoding is the coding.  Whatever chunks and pauses
    its body comes in, and however long the jobs of the thread pool take: the
    encoder gives chunks of which none is empty, so that none ends a chunked
    body early, and together they are the compressed text of the body.  And a client
    that gets these bytes in any segments, and goes by that header, gets from the
    decoder the body, to the byte, and then its end. *)
Theorem content_coding_roundtrip kind sched h (rb : ResponseBody B M) enc h' l :
  encoder_response kind sched h rb = Val (inr enc, h') -> all_run sched -> body_gives rb l ->
  size enc = BS_Stream /\ ResponseHeadOps.chunked h' = true /\
  values (rs_headers h') CONTENT_ENCODING = [mkHeaderValue (encoding_str kind) false] /\
  exists l', body_gives enc l' /\ Forall (fun c => c <> []) l' /\ inflate kind (concat l') = Some (concat l) /\
    forall p l2 n m sched2,
      stream_gives poll_next p l2 None n -> concat l2 = concat l' ->
      HeaderMapOps.wf m -> values m CONTENT_ENCODING = values (rs_headers h') CONTENT_ENCODING -> all_run sched2 ->
      exists dec f, from_headers (D := D) p m sched2 = Val dec /\
        forall fuel, (f <= fuel)%nat -> exists l3 k,
          stream_gives (decoder_next poll_next fuel) dec l3 None k /\ concat l3 = concat l.
Proof.
  intros He Hs Hg. destruct (encoder_response_encodes kind sched h rb) as [(r & Hr & ->)|(Hc & eb & Heb & Hr)];
    rewrite Hr in He; [done|]. injection He as <- <-.
  assert (Hv : values (rs_headers (ResponseHeadOps.no_chunking (rs_set_headers h (HeaderMapOps.insert (rs_headers h) CONTENT_ENCODING
      (mkHeaderValue (encoding_str kind) false))) false)) CONTENT_ENCODING = [mkHeaderValue (encoding_str kind) false]).
  { simpl. rewrite values_insert. by rewrite decide_True. }
  split; [done|]. split; [|split; [done|]].
  { unfold ResponseHeadOps.chunked, ResponseHeadOps.no_chunking. simpl. by flags. }
  destruct (ce_new_law kind Hc) as (Hk & Hin & Hout).
  destruct (encoder_gives eb l (Heb l Hg) (ce_new kind) sched Hs) as (l' & Hg' & Hne & Hi).
  rewrite Hk, Hin, Hout in Hi. simpl in Hi. exists l'. split; [done|]. split; [done|]. split; [done|].
  intros p l2 n m sched2 Hp Hl2 Hwf Hm Hs2. unfold from_headers. rewrite get_head_value by done. rewrite Hm, Hv.
  cbn [mbind outcome_bind head].
  assert (Hfrom : match to_str (mkHeaderValue (encoding_str kind) false) with Ok enc => encoding_from enc | Err _ => CE_Identity end = kind)
    by (by destruct kind).
  rewrite Hfrom. destruct (cd_new_law kind Hc) as (Hdk & Hfed & Hgot).
  assert (Hnew : decoder_new p kind sched2 = mkContentDecoder (Some (cd_new kind)) p false None sched2) by (by destruct kind).
  rewrite Hnew. eexists _, (S (length l2)). split; [done|]. intros fuel Hf.
  destruct (comes_in_stream poll_next fuel (mkContentDecoder (Some (cd_new kind)) p false None sched2) (cd_new kind) (concat l)) as (l3 & k & Hst & Hd).
  - apply (decoder_gives poll_next p l2 None n Hp); [done|done|lia|lia|]. rewrite Hdk, Hfed, Hl2. done.
  - exists l3, k. split; [done|]. by rewrite Hgot in Hd.
Qed.
End RoundTrip.

(** ** A coding *)

(** A compressed text is a first byte, the text and a last byte. *)
Module RefCoding.
Definition inflate (_ : ContentEncoding) (c : list Z) : option (list Z) :=
  match c with
  | b :: t => if b =? 31 then match reverse t with 0 :: d => Some (reverse d) | _ => None end else None
  | [] => None
  end.

Record enc := mkEnc {
  en_kind : ContentEncoding; en_in : list Z; en_out : list Z; en_buf : list Z; en_inv : en_out ++ en_buf = 31 :: en_in
}.
Lemma write_inv e s : en_out e ++ (en_buf e ++ s) = 31 :: (en_in e ++ s).
Proof. rewrite app_assoc, en_inv. done. Qed.
Lemma take_inv e : (en_out e ++ en_buf e) ++ [] = 31 :: en_in e.
Proof. by rewrite app_nil_r, en_inv. Qed.
#[export] Instance ref_encoder : ContentEncoder enc := {
  ce_new k := mkEnc k [] [] [31] eq_refl;
  ce_write s e := Ok (mkEnc (en_kind e) (en_in e ++ s) (en_out e) (en_buf e ++ s) (write_inv e s));
  ce_take e := (en_buf e, mkEnc (en_kind e) (en_in e) (en_out e ++ en_buf e) [] (take_inv e));
  ce_finish e := Ok (en_buf e ++ [0])
}.
#[export] Instance ref_encoder_laws : ContentEncoderLaws enc inflate.
Proof.
  refine {| ce_kind := en_kind; ce_in := en_in; ce_out := en_out |}.
  - done.
  - intros s e. by eexists.
  - done.
  - intros e. eexists. split; [done|]. rewrite app_assoc, en_inv. cbn [app inflate].
    rewrite reverse_app, reverse_singleton. simpl. by rewrite reverse_involutive.
Defined.

Record dec := mkDec { de_kind : ContentEncoding; de_fed : list Z; de_n : nat; de_inv : (de_n <= length de_fed - 2)%nat }.
Lemma fed_inv d s : (de_n d <= length (de_fed d ++ s) - 2)%nat.
Proof. pose proof (de_inv d). rewrite length_app. lia. Qed.
Definition available (d : dec) : list Z := take (length (de_fed d) - 2) (tail (de_fed d)).
#[export] Instance ref_decoder : ContentDecoder dec := {
  cd_new k := mkDec k [] 0 (le_n 0);
  cd_write s d := Ok (mkDec (de_kind d) (de_fed d ++ s) (de_n d) (fed_inv d s));
  cd_flush d := Ok d;
  cd_take d := (drop (de_n d) (available d), mkDec (de_kind d) (de_fed d) (length (de_fed d) - 2) (le_n _));
  cd_try_finish d := Ok d
}.
Lemma taken_all d : take (de_n d) (tail (de_fed d)) ++ drop (de_n d) (available d) = available d.
Proof.
  pose proof (de_inv d). transitivity (take (de_n d) (available d) ++ drop (de_n d) (available d)); [|apply take_drop].
  f_equal. unfold available. rewrite take_take. f_equal. lia.
Qed.
#[export] Instance ref_decoder_laws : ContentDecoderLaws dec inflate.
Proof.
  refine {| cd_kind := de_kind; cd_fed := de_fed; cd_got := fun d => take (de_n d) (tail (de_fed d)) |}.
  - done.
  - intros s d rest x _. eexists. split; [done|]. simpl. split_and!; [done|done|]. pose proof (de_inv d).
    destruct (de_fed d) as [|b t]; simpl in *; [by replace (de_n d) with 0%nat by lia|]. rewrite take_app_le by lia. done.
  - intros d rest x _. by eexists.
  - intros d. simpl. split_and!; [done|done|]. by rewrite taken_all.
  - intros d x Hx. eexists. split; [done|]. simpl. rewrite taken_all. unfold available. revert Hx. unfold inflate.
    destruct (de_fed d) as [|b t]; [done|]. destruct (b =? 31); [|done].
    destruct (reverse t) as [|[| |] r] eqn:Er; try done. intros [= <-].
    assert (Et : t = reverse r ++ [0]) by (by rewrite <- (reverse_involutive t), Er, reverse_cons). subst t.
    simpl. rewrite length_app. simpl. replace (length (reverse r) + 1 - 1)%nat with (length (reverse r)) by lia.
    by rewrite take_app_length.
Defined.
End RefCoding.
Import RefCoding ClientResponseThms.RefStream.

Notation plain_head := (ResponseHeadOps.new 200 HTTP_11).
Notation plain_body := (RB_Other (B_Bytes (mkBytes (bs "hello"))) : ResponseBody unit unit).
Notation gzip_head := (ResponseHeadOps.no_chunking (rs_set_headers plain_head
  (HeaderMapOps.insert HeaderMapOps.new CONTENT_ENCODING (mkHeaderValue (bs "gzip") false))) false).
Notation gzip_encoder := (mkContentEncoder false (EB_Bytes (mkBytes (bs "hello"))) (Some (ce_new CE_Gzip)) None [] : Encoding.Encoder enc unit unit).

Lemma content_coding_roundtrip_witness :
  encoder_response CE_Gzip [] plain_head plain_body = Val (inr gzip_encoder, gzip_head) /\
  size gzip_encoder = BS_Stream /\ ResponseHeadOps.chunked gzip_head = true /\
  values (rs_headers gzip_head) CONTENT_ENCODING = [mkHeaderValue (bs "gzip") false] /\
  exists l', body_gives gzip_encoder l' /\ Forall (fun c => c <> []) l' /\ inflate CE_Gzip (concat l') = Some (concat [bs "hello"]) /\
    forall p l2 n m sched2,
      stream_gives RefStream.next p l2 None n -> concat l2 = concat l' ->
      HeaderMapOps.wf m -> values m CONTENT_ENCODING = values (rs_headers gzip_head) CONTENT_ENCODING -> all_run sched2 ->
      exists d f, from_headers (D := dec) p m sched2 = Val d /\
        forall fuel, (f <= fuel)%nat -> exists l3 k,
          stream_gives (decoder_next RefStream.next fuel) d l3 None k /\ concat l3 = concat [bs "hello"].
Proof.
  split; [reflexivity|].
  apply (content_coding_roundtrip RefStream.next CE_Gzip [] plain_head plain_body gzip_encoder gzip_head [bs "hello"]).
  - reflexivity.
  - constructor.
  - eapply (bg_chunk _ _ 0); [intros fuel _; reflexivity|]. eapply (bg_end _ _ 0). intros fuel _. reflexivity.
Defined.
