(* ===== verification/FfiAbi.v ===== *)
(** * The C interface's values and structs

    [abi.rs] and the parts of [client/mod.rs] in [src/geario-http-ffi/src] that
    read and write the caller's structs: a struct is the list of the bytes the
    caller allocated, and a read or a write outside of them is no result.  Sizes
    and offsets are those of [repr(C)] on a 64-bit target, little endian.  What
    the other pointers of a struct point at is a parameter, a function from an
    address and a length to bytes. *)
From S2P Require Import Prelude WsMask ClientProxy.

(** [GearioHttpStatus] *)
Inductive Status :=
| STATUS_OK | STATUS_ABI_MISMATCH | STATUS_STRUCT_SIZE | STATUS_UNKNOWN_FLAGS | STATUS_INVALID_ARG | STATUS_UNSUPPORTED
| STATUS_CLOSED | STATUS_OOM | STATUS_THROTTLED | STATUS_WRONG_THREAD | STATUS_WRONG_STATE.

#[export] Instance Status_eq_dec : EqDecision Status.
Proof. solve_decision. Defined.

(** [GearioHttpErrorKind] *)
Inductive ErrorKind :=
| ERR_NONE | ERR_DNS | ERR_CONNECT | ERR_TLS_CA | ERR_TLS_HOSTNAME | ERR_TLS_EXPIRED | ERR_TLS_OTHER | ERR_ALPN_NO_H2
| ERR_PROTOCOL | ERR_TIMEOUT | ERR_IDLE_TIMEOUT | ERR_CANCELLED | ERR_TRUNCATED | ERR_OUTCOME_UNKNOWN
| ERR_INVALID_URL | ERR_UNSUPPORTED.

#[export] Instance ErrorKind_eq_dec : EqDecision ErrorKind.
Proof. solve_decision. Defined.

Definition ABI_VERSION : Z := Z.lor (Z.shiftl 1 16) 0.

Definition CLIENT_HTTP2_REQUIRED : Z := Z.shiftl 1 0.
Definition CLIENT_CA_REPLACE_SYSTEM : Z := Z.shiftl 1 1.

Definition DEFAULT_MAX_INFLIGHT : Z := 256.

(** ** Memory *)

(** A little-endian integer of [n] bytes at an offset of an allocation. *)
Definition read (n off : nat) (mem : list Z) : option Z :=
  if (off + n <=? length mem)%nat then Some (le_word (take n (drop off mem))) else None.

(** [write_prefix]: at most [struct_size] bytes of [value]. *)
Definition write_prefix (dst value : list Z) (struct_size : Z) : option (list Z) :=
  let n := Z.min struct_size (zlen value) in
  if n <=? zlen dst then Some (ztake n value ++ zdrop n dst) else None.

(** ** The structs *)

Record Options := mkOptions {
  op_abi_version : Z;
  op_struct_size : Z;
  op_flags : Z;
  op_connect_timeout_ms : Z;
  op_request_timeout_ms : Z;
  op_max_inflight_requests : Z;
  op_max_retries : Z;
  op_proxy_url : Z;
  op_proxy_url_len : Z;
  op_custom_ca_pem : Z;
  op_custom_ca_pem_len : Z
}.
Definition OPTIONS_SIZE : Z := 72.
Definition OPTIONS_MIN_SIZE : Z := 16.

Definition options_bytes (o : Options) : list Z :=
  le_bytes 4 (op_abi_version o) ++ le_bytes 4 (op_struct_size o) ++ le_bytes 8 (op_flags o) ++
  le_bytes 8 (op_connect_timeout_ms o) ++ le_bytes 8 (op_request_timeout_ms o) ++
  le_bytes 4 (op_max_inflight_requests o) ++ le_bytes 4 (op_max_retries o) ++
  le_bytes 8 (op_proxy_url o) ++ le_bytes 8 (op_proxy_url_len o) ++
  le_bytes 8 (op_custom_ca_pem o) ++ le_bytes 8 (op_custom_ca_pem_len o).

Definition options_read (mem : list Z) : option Options :=
  a ← read 4 0 mem; s ← read 4 4 mem; f ← read 8 8 mem; ct ← read 8 16 mem; rt ← read 8 24 mem;
  mi ← read 4 32 mem; mr ← read 4 36 mem; pu ← read 8 40 mem; pl ← read 8 48 mem; ca ← read 8 56 mem; cl ← read 8 64 mem;
  Some (mkOptions a s f ct rt mi mr pu pl ca cl).

(** [GearioHttpSlice] *)
Record Slice := mkSlice { sl_ptr : Z; sl_len : Z }.

Record Request := mkRequest {
  rq_abi_version : Z;
  rq_struct_size : Z;
  rq_method : Slice;
  rq_url : Slice;
  rq_headers : Z;
  rq_header_count : Z;
  rq_body_ptr : Z;
  rq_body_len : Z
}.
Definition REQUEST_SIZE : Z := 72.
Definition REQUEST_MIN_SIZE : Z := 8 + 2 * 16.

Definition slice_bytes (s : Slice) : list Z := le_bytes 8 (sl_ptr s) ++ le_bytes 8 (sl_len s).
Definition request_bytes (r : Request) : list Z :=
  le_bytes 4 (rq_abi_version r) ++ le_bytes 4 (rq_struct_size r) ++ slice_bytes (rq_method r) ++ slice_bytes (rq_url r) ++
  le_bytes 8 (rq_headers r) ++ le_bytes 8 (rq_header_count r) ++ le_bytes 8 (rq_body_ptr r) ++ le_bytes 8 (rq_body_len r).

Definition slice_read (off : nat) (mem : list Z) : option Slice :=
  p ← read 8 off mem; n ← read 8 (off + 8) mem; Some (mkSlice p n).
Definition request_read (mem : list Z) : option Request :=
  a ← read 4 0 mem; s ← read 4 4 mem; m ← slice_read 8 mem; u ← slice_read 24 mem;
  h ← read 8 40 mem; hc ← read 8 48 mem; b ← read 8 56 mem; bl ← read 8 64 mem;
  Some (mkRequest a s m u h hc b bl).

(** ** The functions over them *)

Definition validate_header (abi size min_size : Z) : Status :=
  if negb (abi =? ABI_VERSION) then STATUS_ABI_MISMATCH
  else if size <? min_size then STATUS_STRUCT_SIZE
  else STATUS_OK.

Definition default_options (struct_size : Z) : Options :=
  mkOptions ABI_VERSION struct_size 0 10000 60000 DEFAULT_MAX_INFLIGHT 2 0 0 0 0.

(** [geario_http_client_options_init]; a null pointer is [None]. *)
Definition options_init (opts : option (list Z)) (struct_size : Z) : option (Status * option (list Z)) :=
  match opts with
  | None => Some (STATUS_INVALID_ARG, None)
  | Some dst =>
      if struct_size <? OPTIONS_MIN_SIZE then Some (STATUS_STRUCT_SIZE, opts)
      else
        dst' ← write_prefix dst (options_bytes (default_options struct_size)) struct_size;
        Some (STATUS_OK, Some dst')
  end.

Definition default_request (struct_size : Z) : Request :=
  mkRequest ABI_VERSION struct_size (mkSlice 0 0) (mkSlice 0 0) 0 0 0 0.

(** [geario_http_client_request_init] *)
Definition request_init (request : option (list Z)) (struct_size : Z) : option (Status * option (list Z)) :=
  match request with
  | None => Some (STATUS_INVALID_ARG, None)
  | Some dst =>
      if struct_size <? REQUEST_MIN_SIZE then Some (STATUS_STRUCT_SIZE, request)
      else
        dst' ← write_prefix dst (request_bytes (default_request struct_size)) struct_size;
        Some (STATUS_OK, Some dst')
  end.

(** What [geario_http_client_new] makes of the options. *)
Record ClientCfg := mkClientCfg {
  cf_connect_timeout : Z;
  cf_request_timeout : Z;
  cf_max_inflight : Z;
  cf_max_retries : Z;
  cf_require_h2 : bool;
  cf_replace_system : bool;
  cf_proxy : option ProxyTarget;
  cf_custom_ca : option (list Z)
}.

(** [Millis(u32::try_from(ms).unwrap_or(u32::MAX))] *)
Definition millis (ms : Z) : Z := if ms <? 2 ^ 32 then ms else 2 ^ 32 - 1.

Section New.
Context (heap : Z -> Z -> list Z).
Context (parse_uri : list Z -> option HttpUri).
(** [Tls::new(..).is_ok()], and whether the worker's thread starts. *)
Context (tls_ok : list Z -> bool -> bool -> bool) (thread_ok : bool).

(** The fields the options are read into: the whole struct or its first part. *)
Definition options_fields (opts : list Z) (raw_size : Z)
    : option (result (Z * Z * Z * Z * Z * option ProxyTarget * option (list Z)) Status) :=
  if OPTIONS_SIZE <=? raw_size then
    o ← options_read opts;
    let custom_ca :=
      if (op_custom_ca_pem o =? 0) || (op_custom_ca_pem_len o =? 0) then None
      else Some (heap (op_custom_ca_pem o) (op_custom_ca_pem_len o)) in
    let proxy :=
      if (op_proxy_url o =? 0) || (op_proxy_url_len o =? 0) then Ok None
      else
        let raw := heap (op_proxy_url o) (op_proxy_url_len o) in
        if utf8 raw then
          match proxy_parse parse_uri raw with Ok p => Ok (Some p) | Err _ => Err STATUS_INVALID_ARG end
        else Err STATUS_INVALID_ARG in
    Some
      match proxy with
      | Err st => Err st
      | Ok p =>
          Ok (op_connect_timeout_ms o, op_request_timeout_ms o, op_max_inflight_requests o, op_max_retries o,
              op_flags o, p, custom_ca)
      end
  else
    flags ← read 8 8 opts;
    Some (Ok (10000, 60000, DEFAULT_MAX_INFLIGHT, 2, flags, None, None)).

(** [geario_http_client_new], up to the client it makes. *)
Definition client_new (opts : option (list Z)) (out_client : bool) : option (result ClientCfg Status) :=
  match opts with
  | Some opts =>
      if negb out_client then Some (Err STATUS_INVALID_ARG)
      else
        raw_abi ← read 4 0 opts;
        raw_size ← read 4 4 opts;
        let st := validate_header raw_abi raw_size OPTIONS_MIN_SIZE in
        if negb (bool_decide (st = STATUS_OK)) then Some (Err st)
        else
          fields ← options_fields opts raw_size;
          Some
            match fields with
            | Err st => Err st
            | Ok (connect_ms, request_ms, max_inflight, max_retries, flags, proxy, custom_ca) =>
                let known := Z.lor CLIENT_HTTP2_REQUIRED CLIENT_CA_REPLACE_SYSTEM in
                if negb (Z.ldiff flags known =? 0) then Err STATUS_UNKNOWN_FLAGS
                else
                  let require_h2 := negb (Z.land flags CLIENT_HTTP2_REQUIRED =? 0) in
                  let replace_system := negb (Z.land flags CLIENT_CA_REPLACE_SYSTEM =? 0) in
                  if match custom_ca with Some ca => negb (tls_ok ca replace_system require_h2) | None => false end
                  then Err STATUS_INVALID_ARG
                  else
                    let max_inflight := if max_inflight =? 0 then DEFAULT_MAX_INFLIGHT else max_inflight in
                    if negb thread_ok then Err STATUS_OOM
                    else Ok (mkClientCfg (millis connect_ms) (millis request_ms) max_inflight max_retries
                               require_h2 replace_system proxy custom_ca)
            end
  | None => Some (Err STATUS_INVALID_ARG)
  end.
End New.
