(* ===== verification/FfiResponder.v ===== *)
(** * Response tickets of the C interface

    [responder.rs] of the crate [geario-http-ffi], with the entry points of
    [server.rs] that use it.  A request is handed to the host with a number, its
    ticket; the host answers by that number, at once or as a stream of chunks, on
    the worker's own thread or on any other, in which case a command goes through
    the worker's mailbox.  The thread-local tables of a thread are found by its
    worker id.  A oneshot channel and an mpsc channel are numbered in the order
    they are made; what was sent into them is kept in the state.  The name and
    value conversions of the http crate are parameters. *)
From S2P Require Import Prelude FfiAbi.

(** A [HeaderName] and a [HeaderValue], by their bytes. *)
Definition Header : Type := list Z * list Z.

(** [Reply]; the receiver of the chunks is the number of its channel. *)
Inductive Reply :=
| Once (status : Z) (headers : list Header) (body : list Z)
| Stream (status : Z) (headers : list Header) (chunks : nat).

Inductive Command :=
| Cmd_Response (id status : Z) (headers : list Header) (body : list Z)
| Cmd_BeginStream (id status : Z) (headers : list Header)
| Cmd_WriteChunk (id : Z) (chunk : list Z)
| Cmd_FinishStream (id : Z).

(** The thread-local tables: [NEXT_LOCAL], [PENDING] and [STREAMING]. *)
Record Worker := mkWorker {
  next_local : Z;
  pending : gmap Z nat;
  streaming : gmap Z nat
}.
Definition worker_new : Worker := mkWorker 1 ∅ ∅.

(** A worker's mailbox; it is closed once the worker's runtime is gone. *)
Record Mailbox := mkMailbox { mb_open : bool; mb_queue : list Command }.

(** Everything the threads share, and every thread's tables: [next_worker] is
    [NEXT_WORKER], [mail] is [WORKER_COMMANDS]; [tickets] counts the oneshot
    channels made, [replies] is what was sent into them; [bodies] has, for each
    mpsc channel, what was sent and whether its sender is gone. *)
Record Sys := mkSys {
  next_worker : Z;
  workers : gmap Z Worker;
  mail : gmap Z Mailbox;
  tickets : nat;
  replies : list (nat * Reply);
  bodies : list (list (list Z) * bool)
}.
Definition sys_new : Sys := mkSys 1 ∅ ∅ 0 [] [].

Definition worker (s : Sys) (t : Z) : Worker := default worker_new (workers s !! t).
Definition set_worker (s : Sys) (t : Z) (w : Worker) : Sys :=
  mkSys (next_worker s) (<[t := w]> (workers s)) (mail s) (tickets s) (replies s) (bodies s).
Definition set_mail (s : Sys) (m : gmap Z Mailbox) : Sys :=
  mkSys (next_worker s) (workers s) m (tickets s) (replies s) (bodies s).
Definition set_pending (w : Worker) (p : gmap Z nat) : Worker := mkWorker (next_local w) p (streaming w).
Definition set_streaming (w : Worker) (m : gmap Z nat) : Worker := mkWorker (next_local w) (pending w) m.

(** The first use of a thread's tables: [NEXT_WORKER.fetch_add(1)]. *)
Definition thread_init (s : Sys) : Z * Sys :=
  let t := next_worker s in
  (t, mkSys (u32 (t + 1)) (<[t := worker_new]> (workers s)) (mail s) (tickets s) (replies s) (bodies s)).

(** ** Mailboxes *)

Definition ensure_worker_mailbox (t : Z) (s : Sys) : Sys :=
  match mail s !! t with
  | Some _ => s
  | None => set_mail s (<[t := mkMailbox true []]> (mail s))
  end.

Definition owner (id : Z) : Z := u32 (Z.shiftr id 32).

Definition enqueue (id : Z) (command : Command) (s : Sys) : bool * Sys :=
  match mail s !! owner id with
  | Some mb =>
      if mb_open mb
      then (true, set_mail s (<[owner id := mkMailbox true (mb_queue mb ++ [command])]> (mail s)))
      else (false, s)
  | None => (false, s)
  end.

(** ** Tickets *)

Definition register (t : Z) (s : Sys) : Z * nat * Sys :=
  let w := worker s t in
  let v := next_local w in
  let id := Z.lor (Z.shiftl t 32) v in
  let tk := tickets s in
  let w' := mkWorker (Z.max (u32 (v + 1)) 1) (<[id := tk]> (pending w)) (streaming w) in
  (id, tk,
   mkSys (next_worker s) (<[t := w']> (workers s)) (mail s) (S tk) (replies s) (bodies s)).

Inductive Delivery := Sent | Unknown.

#[export] Instance Delivery_eq_dec : EqDecision Delivery.
Proof. solve_decision. Defined.

Definition deliver_local (t id : Z) (reply : Reply) (s : Sys) : Delivery * Sys :=
  let w := worker s t in
  match pending w !! id with
  | Some tk =>
      (Sent, mkSys (next_worker s) (<[t := set_pending w (delete id (pending w))]> (workers s)) (mail s)
               (tickets s) (replies s ++ [(tk, reply)]) (bodies s))
  | None => (Unknown, s)
  end.

Definition sent (b : bool * Sys) : Delivery * Sys := (if b.1 then Sent else Unknown, b.2).

Definition deliver (t id : Z) (reply : Reply) (s : Sys) : Delivery * Sys :=
  if id =? 0 then (Unknown, s)
  else if negb (owner id =? t) then
    match reply with
    | Once status headers body => sent (enqueue id (Cmd_Response id status headers body) s)
    | Stream _ _ _ => (Unknown, s)
    end
  else deliver_local t id reply s.

Definition forget (t id : Z) (s : Sys) : Sys :=
  let w := worker s t in set_worker s t (set_pending w (delete id (pending w))).

Inductive Phase := Fresh | Streaming | Done.

Definition phase (t id : Z) (s : Sys) : Phase :=
  if id =? 0 then Done
  else if bool_decide (is_Some (streaming (worker s t) !! id)) then Streaming
  else if bool_decide (is_Some (pending (worker s t) !! id)) then Fresh
  else Done.

(** ** Streams *)

(** The sender of a channel, if there is one, is dropped. *)
Definition drop_sender (ch : option nat) (b : list (list (list Z) * bool)) : list (list (list Z) * bool) :=
  match ch with Some ch => alter (fun b => (b.1, true)) ch b | None => b end.

(** A stream that is still open under the same number, which has come round, loses
    its sender. *)
Definition begin_stream_local (t id status : Z) (headers : list Header) (s : Sys) : Delivery * Sys :=
  let w := worker s t in
  match pending w !! id with
  | Some tk =>
      let ch := length (bodies s) in
      let w' := mkWorker (next_local w) (delete id (pending w)) (<[id := ch]> (streaming w)) in
      (Sent, mkSys (next_worker s) (<[t := w']> (workers s)) (mail s) (tickets s)
               (replies s ++ [(tk, Stream status headers ch)])
               (drop_sender (streaming w !! id) (bodies s) ++ [([], false)]))
  | None => (Unknown, s)
  end.

Definition begin_stream (t id status : Z) (headers : list Header) (s : Sys) : Delivery * Sys :=
  if id =? 0 then (Unknown, s)
  else if negb (owner id =? t) then sent (enqueue id (Cmd_BeginStream id status headers) s)
  else begin_stream_local t id status headers s.

Definition set_bodies (s : Sys) (b : list (list (list Z) * bool)) : Sys :=
  mkSys (next_worker s) (workers s) (mail s) (tickets s) (replies s) b.

Definition write_chunk_local (t id : Z) (chunk : list Z) (s : Sys) : Delivery * Sys :=
  match streaming (worker s t) !! id with
  | Some ch => (Sent, set_bodies s (alter (fun b => (b.1 ++ [chunk], b.2)) ch (bodies s)))
  | None => (Unknown, s)
  end.

Definition write_chunk (t id : Z) (chunk : list Z) (s : Sys) : Delivery * Sys :=
  if id =? 0 then (Unknown, s)
  else if negb (owner id =? t) then sent (enqueue id (Cmd_WriteChunk id chunk) s)
  else write_chunk_local t id chunk s.

Definition finish_stream_local (t id : Z) (s : Sys) : Delivery * Sys :=
  let w := worker s t in
  match streaming w !! id with
  | Some ch =>
      (Sent, set_bodies (set_worker s t (set_streaming w (delete id (streaming w))))
               (alter (fun b => (b.1, true)) ch (bodies s)))
  | None => (Unknown, s)
  end.

Definition finish_stream (t id : Z) (s : Sys) : Delivery * Sys :=
  if id =? 0 then (Unknown, s)
  else if negb (owner id =? t) then sent (enqueue id (Cmd_FinishStream id) s)
  else finish_stream_local t id s.

(** The mailbox task of worker [t] performs one command; what the operation
    answers is dropped. *)
Definition local (t : Z) (c : Command) (s : Sys) : Delivery * Sys :=
  match c with
  | Cmd_Response id status headers body => deliver_local t id (Once status headers body) s
  | Cmd_BeginStream id status headers => begin_stream_local t id status headers s
  | Cmd_WriteChunk id chunk => write_chunk_local t id chunk s
  | Cmd_FinishStream id => finish_stream_local t id s
  end.
Definition perform (t : Z) (c : Command) (s : Sys) : Sys := (local t c s).2.

Definition mailbox_turn (t : Z) (s : Sys) : Sys :=
  match mail s !! t with
  | Some (mkMailbox o (c :: q)) => perform t c (set_mail s (<[t := mkMailbox o q]> (mail s)))
  | _ => s
  end.

(** ** The entry points *)

Definition status_of (d : Delivery) : Status :=
  match d with Sent => STATUS_OK | Unknown => STATUS_INVALID_ARG end.
Definition status (d : Delivery * Sys) : Status * Sys := (status_of d.1, d.2).

Definition NL : Z := 10.
Definition COLON : Z := 58.
Definition SPACE : Z := 32.

(** [slice::split] at line feeds. *)
Fixpoint split_lines (l : list Z) : list (list Z) :=
  match l with
  | [] => [[]]
  | b :: l' =>
      if b =? NL then [] :: split_lines l'
      else match split_lines l' with
           | line :: lines => (b :: line) :: lines
           | [] => [[b]]
           end
  end.

Fixpoint position (f : Z -> bool) (l : list Z) : option nat :=
  match l with
  | [] => None
  | b :: l' => if f b then Some 0%nat else S <$> position f l'
  end.

Section Headers.
Context (name_from value_from : list Z -> option (list Z)).

Definition parse_line (line : list Z) : option Header :=
  i ← position (fun b => b =? COLON) line;
  let name := take i line in
  if zlen name =? 0 then None
  else
    let rest := drop (i + 1) line in
    let value := match position (fun b => negb (b =? SPACE)) rest with
                 | Some s => drop s rest
                 | None => []
                 end in
    name ← name_from name;
    value ← value_from value;
    Some (name, value).

(** [parse_headers]; a null pointer is the empty list. *)
Definition parse_headers (raw : list Z) : list Header :=
  if zlen raw =? 0 then [] else omap parse_line (split_lines raw).

(** [render_head] *)
Definition render_head (headers : list Header) : list Z :=
  fold_left (fun out nv =>
    (if negb (zlen out =? 0) then out ++ [NL] else out) ++ nv.1 ++ [COLON; SPACE] ++ nv.2) headers [].

(** Each is called on the thread [t]. *)
Definition geario_http_respond (t responder status_code : Z) (headers body : list Z) (s : Sys) : Status * Sys :=
  match phase t responder s with
  | Streaming => (STATUS_WRONG_STATE, s)
  | _ => status (deliver t responder (Once status_code (parse_headers headers) body) s)
  end.

Definition geario_http_response_begin (t responder status_code : Z) (headers : list Z) (s : Sys) : Status * Sys :=
  match phase t responder s with
  | Streaming => (STATUS_WRONG_STATE, s)
  | _ => status (begin_stream t responder status_code (parse_headers headers) s)
  end.

Definition geario_http_response_write (t responder : Z) (chunk : list Z) (s : Sys) : Status * Sys :=
  status (write_chunk t responder chunk s).

Definition geario_http_response_finish (t responder : Z) (s : Sys) : Status * Sys :=
  status (finish_stream t responder s).

(** The first part of [dispatch]: the ticket of a request on worker [t]. *)
Definition open_ticket (t : Z) (s : Sys) : Z * nat * Sys := register t (ensure_worker_mailbox t s).

(** What [dispatch] answers with: the reply, or, when the oneshot's sender is
    gone without one, a 500; a status that is none becomes a 500 too. *)
Definition dispatch_answer (t responder : Z) (r : option Reply) (s : Sys) : (Z * option Reply) * Sys :=
  let code c := if (100 <=? c) && (c <=? 999) then c else 500 in
  match r with
  | Some (Once c h b) => ((code c, r), s)
  | Some (Stream c h ch) => ((code c, r), s)
  | None => ((500, None), forget t responder s)
  end.

(** ** Every interleaving *)

(** A call of one of the four entry points, and the command it would post. *)
Inductive Call :=
| C_respond (responder status_code : Z) (headers body : list Z)
| C_begin (responder status_code : Z) (headers : list Z)
| C_write (responder : Z) (chunk : list Z)
| C_finish (responder : Z).

Definition call (t : Z) (k : Call) (s : Sys) : Status * Sys :=
  match k with
  | C_respond id code h b => geario_http_respond t id code h b s
  | C_begin id code h => geario_http_response_begin t id code h s
  | C_write id c => geario_http_response_write t id c s
  | C_finish id => geario_http_response_finish t id s
  end.

Definition call_cmd (k : Call) : Command :=
  match k with
  | C_respond id code h b => Cmd_Response id code (parse_headers h) b
  | C_begin id code h => Cmd_BeginStream id code (parse_headers h)
  | C_write id c => Cmd_WriteChunk id c
  | C_finish id => Cmd_FinishStream id
  end.

(** One step of one thread, or of one worker's mailbox task, or the end of a
    worker's runtime. *)
Inductive Event :=
| Ev_Thread
| Ev_Ticket (t : Z)
| Ev_Call (t : Z) (k : Call)
| Ev_Forget (t id : Z)
| Ev_Turn (t : Z)
| Ev_Close (t : Z).

Definition known (t : Z) (s : Sys) : bool := bool_decide (is_Some (workers s !! t)).

(** The calls are made by threads that are there, and no worker number is given
    out twice. *)
Definition ev_ok (e : Event) (s : Sys) : bool :=
  match e with
  | Ev_Thread => negb (next_worker s =? 0) && negb (known (next_worker s) s)
  | Ev_Ticket t | Ev_Call t _ | Ev_Forget t _ => known t s
  | Ev_Turn _ | Ev_Close _ => true
  end.

Definition ev_apply (e : Event) (s : Sys) : Sys :=
  match e with
  | Ev_Thread => (thread_init s).2
  | Ev_Ticket t => (open_ticket t s).2
  | Ev_Call t k => (call t k s).2
  | Ev_Forget t id => forget t id s
  | Ev_Turn t => mailbox_turn t s
  | Ev_Close t => set_mail s (alter (fun _ => mkMailbox false []) t (mail s))
  end.

Fixpoint run (es : list Event) (s : Sys) : option Sys :=
  match es with
  | [] => Some s
  | e :: es' => if ev_ok e s then run es' (ev_apply e s) else None
  end.
End Headers.

(** ** What the host does to one ticket *)

Definition cmd_id (c : Command) : Z :=
  match c with Cmd_Response id _ _ _ | Cmd_BeginStream id _ _ | Cmd_WriteChunk id _ | Cmd_FinishStream id => id end.

Definition about (id : Z) (q : list Command) : list Command := filter (fun c => cmd_id c = id) q.

(** The commands in the mailbox of worker [w]. *)
Definition queue (s : Sys) (w : Z) : list Command :=
  match mail s !! w with Some mb => mb_queue mb | None => [] end.

(** A request's answer as a host on another thread makes it: the calls in order,
    where a call that does not fit has no effect. *)
Inductive Ticket :=
| T_Waiting
| T_Answered (status : Z) (headers : list Header) (body : list Z)
| T_Open (status : Z) (headers : list Header) (chunks : list (list Z))
| T_Closed (status : Z) (headers : list Header) (chunks : list (list Z)).

Definition ticket_step (k : Ticket) (c : Command) : Ticket :=
  match k, c with
  | T_Waiting, Cmd_Response _ code h b => T_Answered code h b
  | T_Waiting, Cmd_BeginStream _ code h => T_Open code h []
  | T_Open code h cs, Cmd_WriteChunk _ c => T_Open code h (cs ++ [c])
  | T_Open code h cs, Cmd_FinishStream _ => T_Closed code h cs
  | _, _ => k
  end.

Definition ticket_run (k : Ticket) (q : list Command) : Ticket := fold_left ticket_step q k.

Section Observe.
Context (name_from value_from : list Z -> option (list Z)).

(** Does the event leave the ticket [id] alone: it is no call, no [forget] and no
    new ticket of that number, and the worker it belongs to goes on. *)
Definition spares (id : Z) (e : Event) (s : Sys) : bool :=
  match e with
  | Ev_Thread | Ev_Turn _ => true
  | Ev_Ticket t => negb ((open_ticket t s).1.1 =? id)
  | Ev_Call _ k => negb (cmd_id (call_cmd name_from value_from k) =? id)
  | Ev_Forget _ i => negb (i =? id)
  | Ev_Close t => negb (t =? owner id)
  end.

(** A run in which [id] is answered from other threads than its worker's, and
    what the host has then made of it. *)
Fixpoint observe (id : Z) (k : Ticket) (es : list Event) (s : Sys) : option (Ticket * Sys) :=
  match es with
  | [] => Some (k, s)
  | e :: es' =>
      if negb (ev_ok e s) then None
      else
        let s' := ev_apply name_from value_from e s in
        if spares id e s then observe id k es' s'
        else
          match e with
          | Ev_Call t c =>
              if owner id =? t then None
              else observe id (ticket_step k (call_cmd name_from value_from c)) es' s'
          | _ => None
          end
  end.
End Observe.
