(* ===== verification/FfiResponderThms.v ===== *)
(** * What the response tickets guarantee

    One reply at most for every request, in every interleaving of the host's
    threads and the workers; what each entry point answers on every branch; that
    a stream written from another thread arrives whole and in order; and that a
    second answer from another thread is accepted and lost.  Also, that the
    header lines of the interface can be read back. *)
From S2P Require Import Prelude FfiAbi FfiResponder.

(** ** The tables of all threads *)

Definition pend (s : Sys) (t id : Z) : option nat := pending (worker s t) !! id.
Definition strm (s : Sys) (t id : Z) : option nat := streaming (worker s t) !! id.
Definition channel_of (r : nat * Reply) : option nat :=
  match r.2 with Stream _ _ ch => Some ch | Once _ _ _ => None end.

(** Every ticket that waits is new, every reply answers another ticket, every
    stream has its own open channel, and a thread's tables hold its own ids. *)
Record Inv (s : Sys) : Prop := {
  inv_pend t id tk : pend s t id = Some tk -> (tk < tickets s)%nat /\ tk ∉ (replies s).*1;
  inv_pend_inj t id t' id' tk : pend s t id = Some tk -> pend s t' id' = Some tk -> t = t' /\ id = id';
  inv_replies : NoDup (replies s).*1;
  inv_replied tk : tk ∈ (replies s).*1 -> (tk < tickets s)%nat;
  inv_strm t id ch : strm s t id = Some ch -> exists cs, bodies s !! ch = Some (cs, false);
  inv_strm_inj t id t' id' ch : strm s t id = Some ch -> strm s t' id' = Some ch -> t = t' /\ id = id';
  inv_channels : NoDup (omap channel_of (replies s));
  inv_channel ch : ch ∈ omap channel_of (replies s) -> (ch < length (bodies s))%nat;
  inv_owner t id : is_Some (pend s t id) \/ is_Some (strm s t id) -> owner id = t /\ id <> 0;
  inv_worker t : is_Some (workers s !! t) -> 0 < t < 2 ^ 32 /\ 0 < next_local (worker s t) < 2 ^ 32
}.

Lemma worker_insert n m tk r b ws t w t' :
  worker (mkSys n (<[t := w]> ws) m tk r b) t' = if decide (t = t') then w else worker (mkSys n ws m tk r b) t'.
Proof. unfold worker. simpl. destruct (decide (t = t')) as [->|Hne]; [by rewrite lookup_insert_eq|by rewrite lookup_insert_ne]. Qed.

(** [owner] undoes the packing of [register]. *)
Lemma owner_id t v : 0 < t < 2 ^ 32 -> 0 <= v < 2 ^ 32 -> owner (Z.lor (Z.shiftl t 32) v) = t.
Proof.
  intros Ht Hv. unfold owner, u32. rewrite Z.shiftr_lor, Z.shiftr_shiftl_l by lia.
  rewrite Z.shiftl_0_r, (Z.shiftr_div_pow2 v), Z.div_small by lia. rewrite Z.lor_0_r. apply Z.mod_small. lia.
Qed.

Lemma id_nonzero t v : 0 < t -> 0 <= v -> Z.lor (Z.shiftl t 32) v <> 0.
Proof.
  intros Ht Hv He. apply Z.lor_eq_0_iff in He as [He _]. apply Z.shiftl_eq_0_iff in He; lia.
Qed.

Lemma owner_neq_0 id : owner id <> 0 -> id <> 0.
Proof. intros Ho ->. by apply Ho. Qed.

(** ** Dropped senders *)

Lemma drop_sender_length o b : length (drop_sender o b) = length b.
Proof. destruct o; [apply length_alter|done]. Qed.

Lemma drop_sender_other o b ch : o <> Some ch -> drop_sender o b !! ch = b !! ch.
Proof. destruct o as [c|]; [|done]. intros Hne. apply list_lookup_alter_ne. congruence. Qed.

Lemma drop_sender_lookup o b ch x :
  b !! ch = Some x -> exists y, drop_sender o b !! ch = Some y /\ y.1 = x.1 /\ (x.2 = true -> y = x).
Proof.
  intros Hx. destruct (decide (o = Some ch)) as [->|Hne]; [|exists x; by rewrite drop_sender_other].
  exists (x.1, true). simpl. rewrite list_lookup_alter_eq, Hx. split_and!; [done|done|]. destruct x; simpl. by intros ->.
Qed.

(** ** Local deliveries *)

(** What taking the ticket [id] of worker [t] out of the table and answering it
    does to the tables. *)
Lemma take_ticket s t id tk r s' :
  Inv s -> pend s t id = Some tk ->
  tickets s' = tickets s -> replies s' = replies s ++ [(tk, r)] ->
  (forall t', is_Some (workers s' !! t') -> t' = t \/ is_Some (workers s !! t')) ->
  (forall t', next_local (worker s' t') = next_local (worker s t')) ->
  (forall t' id', pend s' t' id' = if decide ((t', id') = (t, id)) then None else pend s t' id') ->
  match r with
  | Once _ _ _ => bodies s' = bodies s /\ (forall t' id', strm s' t' id' = strm s t' id')
  | Stream _ _ ch =>
      ch = length (bodies s) /\ bodies s' = drop_sender (strm s t id) (bodies s) ++ [([], false)] /\
      forall t' id', strm s' t' id' = if decide ((t', id') = (t, id)) then Some ch else strm s t' id'
  end ->
  Inv s'.
Proof.
  intros HI Hp Htk Hr Hw Hn Hpe Hst.
  destruct (inv_pend s HI t id tk Hp) as [Hlt Hnin].
  destruct (inv_owner s HI t id (or_introl (mk_is_Some _ _ Hp))) as [How Hid].
  assert (Hdom : is_Some (workers s !! t)).
  { destruct (workers s !! t) eqn:E; [by eexists|]. unfold pend, worker in Hp. rewrite E in Hp. done. }
  assert (Hch : omap channel_of (replies s') = omap channel_of (replies s) ++ match r with Stream _ _ ch => [ch] | _ => [] end).
  { rewrite Hr, omap_app. simpl. by destruct r. }
  split.
  - intros t1 id1 tk1. rewrite Hpe, Htk, Hr. case_decide; [done|]. intros H1.
    destruct (inv_pend s HI _ _ _ H1) as [? ?]. split; [done|]. rewrite fmap_app, elem_of_app. simpl.
    intros [?|Heq%list_elem_of_singleton]; [done|]. subst tk1.
    destruct (inv_pend_inj s HI _ _ _ _ _ H1 Hp) as [-> ->]. done.
  - intros t1 id1 t2 id2 tk1. rewrite !Hpe. repeat case_decide; try done. apply (inv_pend_inj s HI).
  - rewrite Hr, fmap_app. apply NoDup_app. split_and!; [apply (inv_replies s HI)| |apply NoDup_singleton].
    intros x Hx Hx2%list_elem_of_singleton. simpl in Hx2. by subst x.
  - intros x. rewrite Hr, Htk, fmap_app, elem_of_app. intros [?|Hx%list_elem_of_singleton]; [by apply (inv_replied s HI)|].
    simpl in Hx. by subst x.
  - intros t1 id1 ch. destruct r as [c h b|c h ch'].
    + destruct Hst as [-> ->]. apply (inv_strm s HI).
    + destruct Hst as (-> & -> & ->). case_decide.
      * intros [= <-]. exists []. by rewrite lookup_app_r, drop_sender_length, Nat.sub_diag by (rewrite drop_sender_length; lia).
      * intros H1. destruct (inv_strm s HI _ _ _ H1) as [cs Hcs]. exists cs. apply lookup_app_l_Some.
        rewrite drop_sender_other; [done|]. intros H2. by destruct (inv_strm_inj s HI _ _ _ _ _ H1 H2) as [-> ->].
  - intros t1 id1 t2 id2 ch. destruct r as [c h b|c h ch'].
    + destruct Hst as [_ Hst]. rewrite !Hst. apply (inv_strm_inj s HI).
    + destruct Hst as (-> & _ & Hst). rewrite !Hst.
      assert (Hfresh : forall t id, strm s t id = Some (length (bodies s)) -> False).
      { intros t3 id3 H3. destruct (inv_strm s HI _ _ _ H3) as [cs Hcs]. apply lookup_lt_Some in Hcs. lia. }
      repeat case_decide; intros H1 H2; simplify_eq; try done; try (by edestruct Hfresh); by apply (inv_strm_inj s HI _ _ _ _ _ H1).
  - rewrite Hch. destruct r as [c h b|c h ch']; [rewrite app_nil_r; apply (inv_channels s HI)|].
    destruct Hst as (-> & _ & _). apply NoDup_app. split_and!; [apply (inv_channels s HI)| |apply NoDup_singleton].
    intros x Hx Hx2%list_elem_of_singleton. apply (inv_channel s HI) in Hx. lia.
  - intros ch. rewrite Hch. destruct r as [c h b|c h ch'].
    + destruct Hst as [-> _]. rewrite app_nil_r. apply (inv_channel s HI).
    + destruct Hst as (-> & -> & _). rewrite elem_of_app, length_app, drop_sender_length. simpl.
      intros [Hx|Hx%list_elem_of_singleton]; [apply (inv_channel s HI) in Hx|]; lia.
  - intros t1 id1. rewrite Hpe. destruct r as [c h b|c h ch'].
    + destruct Hst as [_ ->]. case_decide; [intros [[? [=]]|?]|]; apply (inv_owner s HI); auto.
    + destruct Hst as (_ & _ & ->). case_decide as Hd; [simplify_eq; done|]. apply (inv_owner s HI).
  - intros t1 H1. rewrite Hn. apply (inv_worker s HI). by destruct (Hw t1 H1) as [->|?].
Qed.

Lemma pair_neq {A B} (a a' : A) (b b' : B) : a <> a' \/ b <> b' -> (a, b) <> (a', b').
Proof. intros [?|?] [=]; congruence. Qed.

(** A table of worker [t] replaced: what the others show. *)
Ltac tables :=
  intros; unfold pend, strm, set_bodies, set_worker in *; simpl in *; rewrite ?worker_insert;
  repeat case_decide; simplify_eq/=; try done;
  rewrite ?lookup_delete_eq, ?lookup_insert_eq by done;
  rewrite ?lookup_delete_ne, ?lookup_insert_ne by congruence; try done.

Lemma dom_insert_worker (ws : gmap Z Worker) t w t' :
  is_Some (<[t := w]> ws !! t') -> t' = t \/ is_Some (ws !! t').
Proof. destruct (decide (t = t')) as [->|?]; [by left|]. rewrite lookup_insert_ne by done. by right. Qed.

Lemma deliver_local_inv t id c h b s : Inv s -> Inv (deliver_local t id (Once c h b) s).2.
Proof.
  intros HI. unfold deliver_local. destruct (pending (worker s t) !! id) as [tk|] eqn:Hp; [|done].
  simpl. eapply (take_ticket s t id tk (Once c h b) _ HI Hp); try done; simpl.
  - intros t' Ht. by apply dom_insert_worker in Ht.
  - tables.
  - tables.
  - split; [done|]. tables.
Qed.

Lemma begin_stream_local_inv t id c h s : Inv s -> Inv (begin_stream_local t id c h s).2.
Proof.
  intros HI. unfold begin_stream_local. destruct (pending (worker s t) !! id) as [tk|] eqn:Hp; [|done].
  simpl. eapply (take_ticket s t id tk (Stream c h (length (bodies s))) _ HI Hp); try done; simpl.
  - intros t' Ht. by apply dom_insert_worker in Ht.
  - tables.
  - tables.
  - split; [done|]. split; [done|]. tables.
Qed.

(** Steps that only touch the bodies, or drop entries of the tables. *)
Lemma inv_shrink s s' :
  Inv s -> tickets s' = tickets s -> replies s' = replies s -> length (bodies s') = length (bodies s) ->
  (forall t', is_Some (workers s' !! t') -> is_Some (workers s !! t') \/ (0 < t' < 2 ^ 32 /\ 0 < next_local (worker s' t') < 2 ^ 32)) ->
  (forall t', next_local (worker s' t') = next_local (worker s t')) ->
  (forall t id tk, pend s' t id = Some tk -> pend s t id = Some tk) ->
  (forall t id ch, strm s' t id = Some ch -> strm s t id = Some ch /\ exists cs, bodies s' !! ch = Some (cs, false)) ->
  Inv s'.
Proof.
  intros HI Htk Hr Hb Hw Hn Hp Hs. split.
  - intros t id tk H1. rewrite Htk, Hr. by apply (inv_pend s HI t id), Hp.
  - intros t id t' id' tk H1 H2. by apply (inv_pend_inj s HI _ _ _ _ tk); apply Hp.
  - rewrite Hr. apply HI.
  - rewrite Hr, Htk. apply HI.
  - intros t id ch H1. by apply Hs in H1 as [_ ?].
  - intros t id t' id' ch [H1 _]%Hs [H2 _]%Hs. by apply (inv_strm_inj s HI _ _ _ _ ch).
  - rewrite Hr. apply HI.
  - rewrite Hr, Hb. apply HI.
  - intros t id [[tk H1]|[ch H1]]; apply (inv_owner s HI); [left|right]; eexists; [by apply Hp|by apply Hs].
  - intros t H1. destruct (Hw t H1) as [Hs1|?]; [|done]. rewrite Hn. by apply (inv_worker s HI).
Qed.

Lemma inv_mail s m : Inv s -> Inv (set_mail s m).
Proof. intros HI. apply (inv_shrink s); try done; [by left|]. intros t id ch H1. split; [done|]. by apply (inv_strm s HI t id). Qed.

Lemma write_chunk_local_inv t id c s : Inv s -> Inv (write_chunk_local t id c s).2.
Proof.
  intros HI. unfold write_chunk_local. destruct (streaming (worker s t) !! id) as [ch|] eqn:Hc; [|done].
  simpl. apply (inv_shrink s); try done; [simpl; by rewrite length_alter|by left|].
  intros t' id' ch' H1. split; [done|]. destruct (inv_strm s HI t' id' ch' H1) as [cs Hcs]. simpl.
  destruct (decide (ch = ch')) as [->|?].
  - rewrite list_lookup_alter_eq, Hcs. simpl. by eexists.
  - rewrite list_lookup_alter_ne by done. by exists cs.
Qed.

Lemma finish_stream_local_inv t id s : Inv s -> Inv (finish_stream_local t id s).2.
Proof.
  intros HI. unfold finish_stream_local. destruct (streaming (worker s t) !! id) as [ch|] eqn:Hc; [|done].
  simpl. apply (inv_shrink s); try done; simpl.
  - by rewrite length_alter.
  - intros t' Ht. apply dom_insert_worker in Ht as [->|?]; [|by left]. left.
    destruct (workers s !! t) eqn:E; [by eexists|]. unfold worker in Hc. by rewrite E in Hc.
  - tables.
  - intros t' id' tk Hk. rewrite <- Hk. clear Hk. tables.
  - intros t' id' ch'. assert (Hst : strm (set_bodies (set_worker s t (set_streaming (worker s t) (delete id (streaming (worker s t)))))
        (alter (fun b => (b.1, true)) ch (bodies s))) t' id' = if decide ((t', id') = (t, id)) then None else strm s t' id').
    { tables. }
    rewrite Hst. case_decide as Hd; [done|]. intros H1. split; [done|]. simpl.
    assert (Hne : ch <> ch').
    { intros ->. destruct (inv_strm_inj s HI t id t' id' ch' Hc H1) as [-> ->]. done. }
    rewrite list_lookup_alter_ne by done. by apply (inv_strm s HI t' id').
Qed.

Lemma forget_inv t id s : is_Some (workers s !! t) -> Inv s -> Inv (forget t id s).
Proof.
  intros Ht HI. unfold forget. apply (inv_shrink s); try done; simpl.
  - intros t' Ht'. apply dom_insert_worker in Ht' as [->|?]; by left.
  - tables.
  - intros t' id' tk. unfold pend, set_worker. rewrite worker_insert. case_decide as Hd; [subst t'|done]. simpl.
    rewrite lookup_delete_Some. by intros [_ ?].
  - intros t' id' ch'. assert (Hst : strm (set_worker s t (set_pending (worker s t) (delete id (pending (worker s t))))) t' id'
      = strm s t' id') by tables. rewrite Hst. intros H1. split; [done|]. by apply (inv_strm s HI t' id').
Qed.

Lemma thread_init_inv s :
  next_worker s <> 0 -> 0 <= next_worker s < 2 ^ 32 -> workers s !! next_worker s = None -> Inv s -> Inv (thread_init s).2.
Proof.
  intros H0 Hlt Hw HI. unfold thread_init. simpl.
  assert (He : worker s (next_worker s) = worker_new) by (unfold worker; by rewrite Hw).
  assert (Hsame : forall t', worker (thread_init s).2 t' = worker s t').
  { intros t'. unfold thread_init. simpl. rewrite worker_insert. case_decide; [subst; by rewrite He|done]. }
  apply (inv_shrink s); try done; simpl.
  - intros t' Ht. apply dom_insert_worker in Ht as [->|?]; [right|by left].
    unfold thread_init in Hsame. simpl in Hsame. rewrite Hsame, He. simpl. lia.
  - intros t'. unfold thread_init in Hsame. simpl in Hsame. by rewrite Hsame.
  - intros t' id tk. unfold pend, thread_init in *. simpl in *. by rewrite Hsame.
  - intros t' id ch. unfold strm, thread_init in *. simpl in *. rewrite Hsame. intros H1. split; [done|].
    by apply (inv_strm s HI t' id).
Qed.

(** A new ticket.  An id that is still in the table, after 2^32 others, would be
    taken over: its sender is dropped. *)
Lemma register_inv t s : is_Some (workers s !! t) -> Inv s -> Inv (register t s).2.
Proof.
  intros Ht HI. destruct (inv_worker s HI t Ht) as [Hr Hn]. unfold register. simpl.
  set (id := Z.lor (Z.shiftl t 32) (next_local (worker s t))).
  assert (Hid : owner id = t /\ id <> 0) by (split; [apply owner_id|apply id_nonzero]; lia).
  match goal with |- Inv ?q => set (s' := q) end.
  assert (Hp : forall t' id', pend s' t' id' = if decide ((t', id') = (t, id)) then Some (tickets s) else pend s t' id').
  { subst s'. tables. }
  assert (Hs : forall t' id', strm s' t' id' = strm s t' id') by (subst s'; tables).
  split.
  - intros t1 id1 tk. rewrite Hp. simpl. case_decide.
    + intros [= <-]. split; [lia|]. intros Hin%(inv_replied s HI). lia.
    + intros H1. destruct (inv_pend s HI t1 id1 tk H1). split; [lia|done].
  - assert (Hf : forall t1 id1, pend s t1 id1 = Some (tickets s) -> False).
    { intros t1 id1 H1. destruct (inv_pend s HI t1 id1 _ H1). lia. }
    intros t1 id1 t2 id2 tk. rewrite !Hp. repeat case_decide; intros H1 H2; simplify_eq; try done;
      try (by edestruct Hf); by apply (inv_pend_inj s HI _ _ _ _ tk).
  - apply HI.
  - intros tk Hin. simpl. apply (inv_replied s HI) in Hin. lia.
  - intros t1 id1 ch. rewrite Hs. apply (inv_strm s HI).
  - intros t1 id1 t2 id2 ch. rewrite !Hs. apply (inv_strm_inj s HI).
  - apply HI.
  - apply HI.
  - intros t1 id1. rewrite Hp, Hs. case_decide as Hd; [by simplify_eq|apply (inv_owner s HI)].
  - intros t1 H1. subst s'. rewrite worker_insert. case_decide as Hd; simpl.
    + subst t1. split; [done|]. unfold u32. Z.div_mod_to_equations; lia.
    + apply (inv_worker s HI). apply dom_insert_worker in H1 as [->|?]; done.
Qed.

Lemma local_inv t c s : Inv s -> Inv (local t c s).2.
Proof.
  intros HI. destruct c; simpl; [by apply deliver_local_inv|by apply begin_stream_local_inv
    |by apply write_chunk_local_inv|by apply finish_stream_local_inv].
Qed.

Lemma ensure_worker_mailbox_mail t s : exists m, ensure_worker_mailbox t s = set_mail s m.
Proof. unfold ensure_worker_mailbox. destruct (mail s !! t); [exists (mail s); by destruct s|by eexists]. Qed.

Lemma sys_new_inv : Inv sys_new.
Proof.
  assert (He : forall t, worker sys_new t = worker_new) by (intros t; unfold worker, sys_new; cbn [workers]; rewrite lookup_empty; reflexivity).
  assert (Hp : forall t id, pend sys_new t id = None /\ strm sys_new t id = None).
  { intros t id. unfold pend, strm. rewrite He. split; apply lookup_empty. }
  split.
  - intros t id tk. rewrite (proj1 (Hp t id)). discriminate.
  - intros t id t' id' tk. rewrite (proj1 (Hp t id)). discriminate.
  - constructor.
  - intros tk Hx. by apply elem_of_nil in Hx.
  - intros t id ch. rewrite (proj2 (Hp t id)). discriminate.
  - intros t id t' id' ch. rewrite (proj2 (Hp t id)). discriminate.
  - constructor.
  - intros ch Hx. by apply elem_of_nil in Hx.
  - intros t id. destruct (Hp t id) as [-> ->]. by intros [[? ?]|[? ?]].
  - intros t [w Hw]. unfold sys_new in Hw. cbn [workers] in Hw. rewrite lookup_empty in Hw. discriminate.
Qed.

(** ** The calls, on every branch *)

#[local] Opaque owner.

(** What a call on another thread than the owner's comes to. *)
Definition posted (c : Command) (s : Sys) : Status * Sys :=
  match mail s !! owner (cmd_id c) with
  | Some (mkMailbox true q) => (STATUS_OK, set_mail s (<[owner (cmd_id c) := mkMailbox true (q ++ [c])]> (mail s)))
  | _ => (STATUS_INVALID_ARG, s)
  end.

(** And what every call comes to, of which [c] is the command: nothing for the
    number 0, on the owner's thread the operation on the tables, except that an
    answer cannot be started over an open stream, and elsewhere a post. *)
Definition call_spec (t : Z) (c : Command) (s : Sys) : Status * Sys :=
  if decide (cmd_id c = 0) then (STATUS_INVALID_ARG, s)
  else if decide (owner (cmd_id c) = t) then
    match c with
    | Cmd_Response _ _ _ _ | Cmd_BeginStream _ _ _ =>
        if bool_decide (is_Some (strm s t (cmd_id c))) then (STATUS_WRONG_STATE, s) else status (local t c s)
    | _ => status (local t c s)
    end
  else posted c s.

Lemma posted_enqueue c s : status (sent (enqueue (cmd_id c) c s)) = posted c s.
Proof. unfold posted, enqueue. by destruct (mail s !! owner (cmd_id c)) as [[[] q]|]. Qed.

(** ** Answers only grow *)

(** A reply stays sent, chunks stay in their channel, and nothing enters a
    channel after its end. *)
Definition body_le (x y : list (list Z) * bool) : Prop := x.1 `prefix_of` y.1 /\ (x.2 = true -> y = x).
Definition grows (s s' : Sys) : Prop :=
  replies s `prefix_of` replies s' /\
  forall ch x, bodies s !! ch = Some x -> exists y, bodies s' !! ch = Some y /\ body_le x y.

#[local] Instance body_le_preorder : PreOrder body_le.
Proof.
  split; [intros x; by split|]. intros x y z [H1 H2] [H3 H4]. split; [by etrans|]. intros Hx.
  specialize (H2 Hx) as ->. by apply H4.
Qed.

#[local] Instance grows_preorder : PreOrder grows.
Proof.
  split; [intros s; split; [done|]; intros ch x Hx; by exists x|].
  intros s1 s2 s3 [H1 H2] [H3 H4]. split; [by etrans|]. intros ch x Hx. destruct (H2 ch x Hx) as (y & Hy & ?).
  destruct (H4 ch y Hy) as (z & Hz & ?). exists z. split; [done|]. by etrans.
Qed.

Lemma grows_same s s' : replies s' = replies s -> bodies s' = bodies s -> grows s s'.
Proof. intros Hr Hb. split; [by rewrite Hr|]. rewrite Hb. intros ch x Hx. by exists x. Qed.

Lemma grows_alter s s' f ch x :
  bodies s !! ch = Some x -> body_le x (f x) -> replies s' = replies s -> bodies s' = alter f ch (bodies s) -> grows s s'.
Proof.
  intros Hx Hf Hr Hb. split; [by rewrite Hr|]. rewrite Hb. intros ch' x' Hx'. destruct (decide (ch = ch')) as [<-|?].
  - assert (x' = x) as -> by congruence. exists (f x). by rewrite list_lookup_alter_eq, Hx.
  - exists x'. by rewrite list_lookup_alter_ne.
Qed.

(** What an operation of worker [t] does beyond its own id. *)
Lemma local_grows t c s : Inv s -> grows s (local t c s).2.
Proof.
  intros HI. destruct c as [id code h b|id code h|id c|id]; simpl.
  - unfold deliver_local. destruct (_ !! id) as [tk|]; [|done]. split; [by eexists|]. intros ch x Hx. by exists x.
  - unfold begin_stream_local. destruct (_ !! id) as [tk|]; [|done]. split; [by eexists|]. intros ch x Hx.
    destruct (drop_sender_lookup (streaming (worker s t) !! id) (bodies s) ch x Hx) as (y & Hy & Hy1 & Hy2). exists y.
    split; [simpl; by apply lookup_app_l_Some|]. by split; [rewrite Hy1|].
  - unfold write_chunk_local. destruct (_ !! id) as [ch|] eqn:Hc; [|done].
    destruct (inv_strm s HI t id ch Hc) as [cs Hcs]. eapply grows_alter; [exact Hcs| |done|done].
    split; [by eexists|done].
  - unfold finish_stream_local. destruct (_ !! id) as [ch|] eqn:Hc; [|done].
    destruct (inv_strm s HI t id ch Hc) as [cs Hcs]. eapply grows_alter; [exact Hcs| |done|done].
    by split.
Qed.

Lemma local_next_worker t c s : next_worker (local t c s).2 = next_worker s.
Proof.
  destruct c as [id code h b|id code h|id c|id]; simpl;
    [unfold deliver_local|unfold begin_stream_local|unfold write_chunk_local|unfold finish_stream_local];
    by destruct (_ !! id).
Qed.

Lemma local_mail t c s : mail (local t c s).2 = mail s.
Proof.
  destruct c as [id code h b|id code h|id c|id]; simpl;
    [unfold deliver_local|unfold begin_stream_local|unfold write_chunk_local|unfold finish_stream_local];
    by destruct (_ !! id).
Qed.

(** ** One ticket in the midst of the others *)

(** The tables of its worker, the replies and the bodies have the ticket [tk],
    whose number is [id], in state [k]. *)
Definition shows (id : Z) (tk : nat) (k : Ticket) (s : Sys) : Prop :=
  let p := pend s (owner id) id in
  let o := strm s (owner id) id in
  match k with
  | T_Waiting => p = Some tk /\ o = None
  | T_Answered code h b => p = None /\ o = None /\ (tk, Once code h b) ∈ replies s
  | T_Open code h cs =>
      p = None /\ exists ch, o = Some ch /\ (tk, Stream code h ch) ∈ replies s /\ bodies s !! ch = Some (cs, false)
  | T_Closed code h cs =>
      p = None /\ o = None /\ exists ch, (tk, Stream code h ch) ∈ replies s /\ bodies s !! ch = Some (cs, true)
  end.

Definition keeps (id : Z) (s s' : Sys) : Prop :=
  pend s' (owner id) id = pend s (owner id) id /\ strm s' (owner id) id = strm s (owner id) id /\
  forall ch, strm s (owner id) id = Some ch -> bodies s' !! ch = bodies s !! ch.

Lemma shows_keeps id tk k s s' : grows s s' -> keeps id s s' -> shows id tk k s -> shows id tk k s'.
Proof.
  intros [Hr Hb] (Hp & Ho & Hs). unfold shows. rewrite Hp, Ho. destruct Hr as [r Hr]. rewrite Hr.
  destruct k as [|code h b|code h cs|code h cs]; [done| | |].
  - intros (? & ? & ?). split_and!; try done. apply elem_of_app. by left.
  - intros (? & ch & ? & ? & Hch). split; [done|]. exists ch. rewrite Hs by done. split_and!; try done. apply elem_of_app. by left.
  - intros (? & ? & ch & ? & Hch). split_and!; try done. exists ch.
    destruct (Hb ch _ Hch) as (y & -> & _ & Hy). rewrite Hy by done. split; [apply elem_of_app; by left|done].
Qed.

Lemma local_keeps id t c s : Inv s -> cmd_id c <> id -> keeps id s (local t c s).2.
Proof.
  intros HI Hid.
  destruct c as [i code h b|i code h|i c|i]; simpl in *;
    [unfold deliver_local|unfold begin_stream_local|unfold write_chunk_local|unfold finish_stream_local];
    destruct (_ !! i) as [x|] eqn:Hx; simpl; try done.
  - split; [tables|]. split; [tables|done].
  - split; [tables|]. split; [tables|]. intros ch Hch. destruct (inv_strm s HI _ _ _ Hch) as [cs Hcs].
    rewrite Hcs. apply lookup_app_l_Some. rewrite drop_sender_other; [done|].
    intros H2. by destruct (inv_strm_inj s HI t i (owner id) id ch H2 Hch).
  - split; [done|]. split; [done|]. intros ch Hch. apply list_lookup_alter_ne. intros ->.
    by destruct (inv_strm_inj s HI t i (owner id) id ch Hx Hch).
  - split; [tables|]. split; [tables|]. intros ch Hch. apply list_lookup_alter_ne. intros ->.
    by destruct (inv_strm_inj s HI t i (owner id) id ch Hx Hch).
Qed.

(** A command that finds neither a ticket nor a stream changes nothing. *)
Lemma local_nothing t c s :
  pend s t (cmd_id c) = None ->
  match c with Cmd_WriteChunk _ _ | Cmd_FinishStream _ => strm s t (cmd_id c) = None | _ => True end -> (local t c s).2 = s.
Proof.
  unfold pend, strm. intros Hp Ho. destruct c as [i code h b|i code h|i x|i]; simpl in *;
    [unfold deliver_local; by rewrite Hp|unfold begin_stream_local; by rewrite Hp
    |unfold write_chunk_local; by rewrite Ho|unfold finish_stream_local; by rewrite Ho].
Qed.

(** The worker performs a command about the ticket itself. *)
Lemma local_shows id tk k c s : cmd_id c = id -> shows id tk k s -> shows id tk (ticket_step k c) (local (owner id) c s).2.
Proof.
  intros <- Hk. destruct k as [|code h b|code h cs|code h cs]; unfold shows, pend, strm in Hk.
  - destruct Hk as [Hp Ho]. destruct c as [i code h b|i code h|i x|i]; simpl in *.
    + unfold deliver_local. rewrite Hp. simpl. split; [tables|]. split; [|apply elem_of_app; right; by left].
      rewrite <- Ho. tables.
    + unfold begin_stream_local. rewrite Hp, Ho. simpl. split; [tables|]. exists (length (bodies s)).
      split; [tables|]. split; [apply elem_of_app; right; by left|]. by rewrite lookup_app_r, Nat.sub_diag by done.
    + unfold write_chunk_local. by rewrite Ho.
    + unfold finish_stream_local. by rewrite Ho.
  - destruct Hk as (Hp & Ho & Hr). rewrite local_nothing by (done || by destruct c). by destruct c.
  - destruct Hk as (Hp & ch & Ho & Hr & Hc). destruct c as [i code' h' b|i code' h'|i x|i].
    + rewrite local_nothing by done. simpl. split; [done|by exists ch].
    + rewrite local_nothing by done. simpl. split; [done|by exists ch].
    + simpl in *. unfold write_chunk_local. rewrite Ho. split; [done|]. exists ch. split_and!; try done.
      simpl. by rewrite list_lookup_alter_eq, Hc.
    + simpl in *. unfold finish_stream_local. rewrite Ho. simpl. split; [rewrite <- Hp; tables|].
      split; [tables|]. exists ch. split; [done|]. by rewrite list_lookup_alter_eq, Hc.
  - destruct Hk as (Hp & Ho & ch & Hr). rewrite local_nothing by (done || by destruct c). destruct c; simpl; by eauto.
Qed.

(** The ticket is in state [k] once the commands in the mailbox that are about it
    have been performed. *)
Definition comes_to (id : Z) (tk : nat) (k : Ticket) (s : Sys) : Prop :=
  exists k0 q, mail s !! owner id = Some (mkMailbox true q) /\ shows id tk k0 s /\ ticket_run k0 (about id q) = k.

Lemma about_app id q q' : about id (q ++ q') = about id q ++ about id q'.
Proof. apply filter_app. Qed.
Lemma about_one id c : about id [c] = if decide (cmd_id c = id) then [c] else [].
Proof. unfold about. by destruct (decide (cmd_id c = id)); [rewrite filter_cons_True|rewrite filter_cons_False]. Qed.

Lemma comes_to_mail id tk k s s' :
  mail s' = mail s -> grows s s' -> keeps id s s' -> comes_to id tk k s -> comes_to id tk k s'.
Proof.
  intros Hm Hg Hk (k0 & q & Hq & Hs & Hr). exists k0, q. rewrite Hm. split_and!; try done. by eapply shows_keeps.
Qed.

Lemma shows_set_mail id tk k s m : shows id tk k (set_mail s m) <-> shows id tk k s.
Proof. done. Qed.

Lemma local_set_mail t c s m : (local t c (set_mail s m)).2 = set_mail (local t c s).2 m.
Proof.
  destruct c as [i code h b|i code h|i x|i]; simpl;
    [unfold deliver_local|unfold begin_stream_local|unfold write_chunk_local|unfold finish_stream_local];
    unfold worker; simpl; by destruct (_ !! i).
Qed.

Lemma others_tables s w id : Inv s -> owner id <> w -> pend s w id = None /\ strm s w id = None.
Proof.
  intros HI Hne. split; apply eq_None_not_Some; intros Hs; apply Hne; apply (inv_owner s HI w id); [by left|by right].
Qed.

(** A turn of a worker's mailbox. *)
Lemma turn_comes_to id tk k w s : Inv s -> comes_to id tk k s -> comes_to id tk k (mailbox_turn w s).
Proof.
  intros HI (k0 & q & Hq & Hs & Hr). unfold mailbox_turn. destruct (mail s !! w) as [[o [|c q']]|] eqn:Hw;
    [by exists k0, q| |by exists k0, q].
  unfold perform. rewrite local_set_mail. unfold comes_to. cbn [mail set_mail].
  destruct (decide (w = owner id)) as [->|Hne].
  - rewrite Hq in Hw. simplify_eq. rewrite lookup_insert_eq. destruct (decide (cmd_id c = id)) as [Hc|Hc].
    + exists (ticket_step k0 c), q'. split; [done|]. rewrite shows_set_mail. split; [by apply local_shows|].
      change (c :: q') with ([c] ++ q'). rewrite about_app, about_one, decide_True by done. done.
    + exists k0, q'. split; [done|]. rewrite shows_set_mail. split.
      * eapply shows_keeps; [by apply local_grows|by apply local_keeps|done].
      * change (c :: q') with ([c] ++ q'). by rewrite about_app, about_one, decide_False.
  - rewrite lookup_insert_ne by done. exists k0, q. split; [done|]. rewrite shows_set_mail. split; [|done].
    destruct (decide (cmd_id c = id)) as [Hc|Hc].
    + destruct (others_tables s w id HI) as [Hp Ho]; [congruence|]. subst id.
      rewrite local_nothing; [done|done|]. by destruct c.
    + eapply shows_keeps; [by apply local_grows|by apply local_keeps|done].
Qed.

(** A post takes its place behind the others. *)
Lemma posted_comes_to id tk k c s :
  comes_to id tk k s ->
  mail (posted c s).2 !! owner id <> None /\
  comes_to id tk (if decide (cmd_id c = id) then ticket_step k c else k) (posted c s).2.
Proof.
  intros (k0 & q & Hq & Hs & Hr).
  assert (Hc : comes_to id tk (if decide (cmd_id c = id) then ticket_step k c else k) (posted c s).2).
  { unfold posted. destruct (decide (owner (cmd_id c) = owner id)) as [He|He].
    - rewrite He, Hq. exists k0, (q ++ [c]). cbn [snd mail set_mail]. rewrite lookup_insert_eq. split_and!; [done|done|].
      unfold ticket_run in *. rewrite about_app, about_one, fold_left_app, Hr. by case_decide.
    - rewrite decide_False by congruence. destruct (mail s !! owner (cmd_id c)) as [[[] q']|]; [|by exists k0, q..].
      exists k0, q. cbn [snd mail set_mail]. by rewrite lookup_insert_ne. }
  split; [|done]. destruct Hc as (? & ? & Hm & _). by rewrite Hm.
Qed.

(** So does a ticket of another number. *)
Lemma ticket_comes_to id tk k t s :
  (open_ticket t s).1.1 <> id -> comes_to id tk k s -> comes_to id tk k (open_ticket t s).2.
Proof.
  intros Hne (k0 & q & Hq & Hs & Hr). unfold open_ticket in *. exists k0, q.
  assert (Hm : mail (register t (ensure_worker_mailbox t s)).2 !! owner id = Some (mkMailbox true q)).
  { unfold register, ensure_worker_mailbox. cbn [snd mail]. destruct (mail s !! t) eqn:Ht; [done|].
    cbn [mail set_mail]. rewrite lookup_insert_ne; [done|]. intros ->. congruence. }
  split_and!; [done| |done]. clear Hm. destruct (ensure_worker_mailbox_mail t s) as [m Hm]. rewrite Hm in *.
  apply (shows_set_mail id tk k0 s m) in Hs. apply (shows_keeps id tk k0 (set_mail s m)); [by apply grows_same| |exact Hs].
  unfold register in *. cbn [fst snd] in Hne. split; [tables|]. split; [tables|done].
Qed.

Section Calls.
Context (name_from value_from : list Z -> option (list Z)).
Notation call := (call name_from value_from).
Notation call_cmd := (call_cmd name_from value_from).
Notation apply_event := (ev_apply name_from value_from).
Notation run_events := (run name_from value_from).

Lemma foreign_not_streaming t id s : Inv s -> owner id <> t -> phase t id s <> Streaming.
Proof.
  intros HI Ho. unfold phase. case_match; [done|]. case_bool_decide as Hs.
  - intros _. apply Ho. by apply (inv_owner s HI t id); right.
  - by case_bool_decide.
Qed.

Lemma call_exact t k s : Inv s -> call t k s = call_spec t (call_cmd k) s.
Proof.
  intros HI. unfold call_spec. case_decide as H0.
  { destruct k; simpl in H0; by subst. }
  apply Z.eqb_neq in H0. case_decide as Ho.
  - subst t. destruct k as [id code h b|id code h|id c|id]; simpl in *;
      unfold geario_http_respond, geario_http_response_begin, geario_http_response_write, geario_http_response_finish,
        deliver, begin_stream, write_chunk, finish_stream, phase, strm;
      rewrite H0, Z.eqb_refl; cbn [negb]; repeat case_bool_decide; reflexivity.
  - rewrite <- posted_enqueue. pose proof (foreign_not_streaming t (cmd_id (call_cmd k)) s HI Ho) as Hns.
    apply Z.eqb_neq in Ho. destruct k as [id code h b|id code h|id c|id]; simpl in *;
      unfold geario_http_respond, geario_http_response_begin, geario_http_response_write, geario_http_response_finish,
        deliver, begin_stream, write_chunk, finish_stream; rewrite ?H0, ?Ho; simpl; try done; by destruct (phase t id s).
Qed.

(** ** Every reachable state *)

Lemma posted_mail c s : exists m, (posted c s).2 = set_mail s m.
Proof.
  unfold posted. destruct (mail s !! _) as [[[] q]|]; [by eexists|exists (mail s); by destruct s..].
Qed.

Lemma call_spec_cases t c s :
  (call_spec t c s).2 = s \/ (call_spec t c s).2 = (local t c s).2 \/ (call_spec t c s).2 = (posted c s).2.
Proof.
  unfold call_spec. case_decide; [by left|]. case_decide.
  - destruct c; simpl; try case_bool_decide; by (left + (right; left)).
  - by right; right.
Qed.

Record Good (s : Sys) : Prop := { good_inv : Inv s; good_next : 0 <= next_worker s < 2 ^ 32 }.

(** A property of states that a post, a new thread, a ticket and an operation of
    a worker keep is kept by every step. *)
Lemma event_ind (P : Sys -> Prop) e s :
  Inv s -> ev_ok e s = true -> P s ->
  (forall m, P s -> P (set_mail s m)) -> (forall m t c, P (set_mail s m) -> P (local t c (set_mail s m)).2) ->
  (e = Ev_Thread -> P (thread_init s).2) -> (forall t m, e = Ev_Ticket t -> P (set_mail s m) -> P (register t (set_mail s m)).2) ->
  (forall t id, e = Ev_Forget t id -> P (forget t id s)) -> P (apply_event e s).
Proof.
  intros HI Hok HP Hmail Hlocal Hthread Hticket Hforget.
  assert (Hloc : forall t c, P (local t c s).2).
  { intros t c. specialize (Hlocal (mail s) t c). destruct s. by apply Hlocal. }
  destruct e as [|t|t k|t id|t|t]; simpl; [by apply Hthread| | |by apply Hforget| |by apply Hmail].
  - unfold open_ticket. destruct (ensure_worker_mailbox_mail t s) as [m ->]. by apply Hticket; [|apply Hmail].
  - rewrite call_exact by done. destruct (call_spec_cases t (call_cmd k) s) as [->|[->| ->]]; auto.
    destruct (posted_mail (call_cmd k) s) as [m ->]; auto.
  - unfold mailbox_turn. destruct (mail s !! t) as [[o [|c q]]|]; [done| |done]. by apply Hlocal, Hmail.
Qed.

Lemma event_good e s : ev_ok e s = true -> Good s -> Good (apply_event e s).
Proof.
  intros Hok [HI Hn]. split.
  - apply (event_ind Inv); try done; intros *.
    + apply inv_mail.
    + apply local_inv.
    + intros ->. simpl in Hok. apply andb_true_iff in Hok as [H0 Hk]. apply negb_true_iff, Z.eqb_neq in H0.
      apply negb_true_iff, bool_decide_eq_false, eq_None_not_Some in Hk. by apply thread_init_inv.
    + intros ->. apply register_inv. simpl in *. by apply bool_decide_eq_true in Hok.
    + intros ->. apply forget_inv; [|done]. by apply bool_decide_eq_true in Hok.
  - apply (event_ind (fun s => 0 <= next_worker s < 2 ^ 32)); try done; intros *.
    + by rewrite local_next_worker.
    + intros _. simpl. unfold u32. apply Z.mod_pos_bound. lia.
Qed.

Lemma event_grows e s : ev_ok e s = true -> Inv s -> grows s (apply_event e s).
Proof.
  intros Hok HI. apply (event_ind (grows s)); try done; intros *.
  - intros Hg. etrans; [exact Hg|]. by apply local_grows, inv_mail.
  - intros _. by apply grows_same.
  - intros _. by apply grows_same.
Qed.

(** A step that spares the ticket. *)
Lemma spared_comes_to id tk k e s :
  Inv s -> ev_ok e s = true -> spares name_from value_from id e s = true -> comes_to id tk k s ->
  comes_to id tk k (apply_event e s).
Proof.
  intros HI Hok Hsp Hc. pose proof (event_grows e s Hok HI) as Hg.
  destruct e as [|t|t c|t i|t|t]; simpl in *.
  - apply (comes_to_mail id tk k s); [done|done| |done].
    apply andb_true_iff in Hok as [_ Hn]. apply negb_true_iff, bool_decide_eq_false, eq_None_not_Some in Hn.
    split; [|split; [|done]]; unfold pend, strm, worker; simpl;
      (destruct (decide (next_worker s = owner id)) as [<-|]; [by rewrite lookup_insert_eq, Hn|by rewrite lookup_insert_ne]).
  - apply negb_true_iff, Z.eqb_neq in Hsp. by apply ticket_comes_to.
  - apply negb_true_iff, Z.eqb_neq in Hsp. rewrite call_exact by done.
    destruct (call_spec_cases t (call_cmd c) s) as [->|[->| ->]]; [done| |].
    + apply (comes_to_mail id tk k s); [apply local_mail|by apply local_grows|by apply local_keeps|done].
    + apply (posted_comes_to id tk k (call_cmd c)) in Hc as [_ Hc]. by rewrite decide_False in Hc.
  - apply (comes_to_mail id tk k s); [done|done| |done]. apply negb_true_iff, Z.eqb_neq in Hsp.
    split; [unfold forget; tables|split; [unfold forget; tables|done]].
  - by apply turn_comes_to.
  - apply negb_true_iff, Z.eqb_neq in Hsp. destruct Hc as (k0 & q & Hq & Hs & Hr).
    exists k0, q. cbn [mail set_mail]. by rewrite lookup_alter_ne by done.
Qed.

(** The host's own calls, from another thread, are accepted and take their place. *)
Lemma host_comes_to id tk k t c s :
  Inv s -> id <> 0 -> owner id <> t -> cmd_id (call_cmd c) = id -> comes_to id tk k s ->
  (call t c s).1 = STATUS_OK /\ comes_to id tk (ticket_step k (call_cmd c)) (call t c s).2.
Proof.
  intros HI H0 Ho <- Hc. rewrite call_exact by done. unfold call_spec. rewrite !decide_False by done.
  apply (posted_comes_to _ tk k (call_cmd c)) in Hc as Hc'. rewrite decide_True in Hc' by done.
  split; [|apply Hc']. destruct Hc as (k0 & q & Hq & _). unfold posted. by rewrite Hq.
Qed.

Lemma observe_comes_to id tk k es s k' s' :
  Good s -> id <> 0 -> comes_to id tk k s -> observe name_from value_from id k es s = Some (k', s') ->
  Good s' /\ comes_to id tk k' s'.
Proof.
  intros Hg H0. revert k s Hg. induction es as [|e es IH]; intros k s Hg Hc; simpl; [by intros [= <- <-]|].
  destruct (ev_ok e s) eqn:Hok; simpl; [|done].
  pose proof (event_good e s Hok Hg) as Hg'. destruct (spares name_from value_from id e s) eqn:Hsp.
  - apply IH; [done|]. apply spared_comes_to; [apply Hg|done|done|done].
  - destruct e as [|t|t c|t i|t|t]; try done. destruct (Z.eqb_spec (owner id) t) as [|Hne]; [done|].
    simpl in Hsp. apply negb_false_iff, Z.eqb_eq in Hsp.
    apply IH; [done|]. by apply (host_comes_to id tk k t c s); [apply Hg|..].
Qed.

(** As many turns as there are commands empty a mailbox. *)
Lemma turns_drain w s q :
  mail s !! w = Some (mkMailbox true q) -> mail (Nat.iter (length q) (mailbox_turn w) s) !! w = Some (mkMailbox true []).
Proof.
  revert s. induction q as [|c q IH]; intros s Hq; [done|]. cbn [length]. rewrite Nat.iter_succ_r. apply IH.
  unfold mailbox_turn, perform. rewrite Hq, local_mail. cbn [mail set_mail]. apply lookup_insert_eq.
Qed.

Lemma turns_comes_to id tk k w n s :
  Good s -> comes_to id tk k s -> comes_to id tk k (Nat.iter n (mailbox_turn w) s).
Proof.
  intros Hg Hc. assert (Good (Nat.iter n (mailbox_turn w) s) /\ comes_to id tk k (Nat.iter n (mailbox_turn w) s)) as [_ ?]; [|done].
  induction n as [|n [IH1 IH2]]; [done|]. cbn [Nat.iter nat_rect].
  split; [by apply (event_good (Ev_Turn w))|by apply turn_comes_to; [apply IH1|]].
Qed.

Lemma run_good es s s' : run_events es s = Some s' -> Good s -> Good s' /\ grows s s'.
Proof.
  revert s. induction es as [|e es IH]; intros s; simpl; [by intros [= <-]|].
  destruct (ev_ok e s) eqn:Hok; [|done]. intros Hr Hg.
  destruct (IH _ Hr (event_good e s Hok Hg)) as [? Hg2]. split; [done|]. etrans; [|exact Hg2].
  by apply event_grows, Hg.
Qed.

Lemma sys_new_good : Good sys_new.
Proof. split; [apply sys_new_inv|simpl; lia]. Qed.

End Calls.

(** ** Header lines *)

Fixpoint trim_start (v : list Z) : list Z :=
  match v with b :: v' => if b =? SPACE then trim_start v' else v | [] => [] end.

Definition head_line (nv : Header) : list Z := nv.1 ++ [COLON; SPACE] ++ nv.2.

Lemma render_tail hs out :
  out <> [] ->
  fold_left (fun out nv => (if negb (zlen out =? 0) then out ++ [NL] else out) ++ nv.1 ++ [COLON; SPACE] ++ nv.2) hs out
  = out ++ concat (map (fun nv => NL :: head_line nv) hs).
Proof.
  revert out. induction hs as [|nv hs IH]; intros out Ho; simpl; [by rewrite app_nil_r|].
  destruct (Z.eqb_spec (zlen out) 0) as [Hz|_]; [by destruct out|]. rewrite IH by (by destruct out).
  unfold head_line. simpl. rewrite <- !app_assoc. done.
Qed.

Lemma split_line a r : NL ∉ a -> split_lines (a ++ NL :: r) = a :: split_lines r.
Proof.
  induction a as [|b a IH]; intros Ha; [done|]. apply not_elem_of_cons in Ha as [Hb Ha]. simpl.
  destruct (Z.eqb_spec b NL); [congruence|]. by rewrite IH.
Qed.

Lemma split_one a : NL ∉ a -> split_lines a = [a].
Proof.
  induction a as [|b a IH]; intros Ha; [done|]. apply not_elem_of_cons in Ha as [Hb Ha]. simpl.
  destruct (Z.eqb_spec b NL); [congruence|]. by rewrite IH.
Qed.

Lemma split_rendered hs a :
  NL ∉ a -> Forall (fun nv => NL ∉ head_line nv) hs ->
  split_lines (a ++ concat (map (fun nv => NL :: head_line nv) hs)) = a :: map head_line hs.
Proof.
  revert a. induction hs as [|nv hs IH]; intros a Ha Hf; simpl; [rewrite app_nil_r; by apply split_one|].
  inversion Hf; subst. by rewrite split_line, IH.
Qed.

Lemma position_head f a b r : Forall (fun x => f x = false) a -> f b = true -> position f (a ++ b :: r) = Some (length a).
Proof. intros Ha Hb. induction Ha as [|x a Hx _ IH]; simpl; [by rewrite Hb|]. by rewrite Hx, IH. Qed.

Lemma trim_start_spec v :
  match position (fun b => negb (b =? SPACE)) v with Some s => drop s v | None => [] end = trim_start v.
Proof.
  induction v as [|b v IH]; [done|]. simpl. destruct (Z.eqb_spec b SPACE); simpl; [|done].
  rewrite <- IH. by destruct (position _ v).
Qed.

Section Lines.
Context (name_from value_from : list Z -> option (list Z)).

(** A name and a value as the http crate has them. *)
Definition plain_header (nv : Header) : Prop :=
  nv.1 <> [] /\ COLON ∉ nv.1 /\ NL ∉ nv.1 /\ NL ∉ nv.2 /\
  name_from nv.1 = Some nv.1 /\ value_from (trim_start nv.2) = Some (trim_start nv.2).

Lemma parse_head_line nv :
  plain_header nv -> parse_line name_from value_from (head_line nv) = Some (nv.1, trim_start nv.2).
Proof.
  destruct nv as [n v]. intros (Hn & Hc & _ & _ & Hnf & Hvf). simpl in *. unfold parse_line, head_line. simpl.
  rewrite position_head; [|apply Forall_forall; intros x Hx; apply Z.eqb_neq; by intros ->|apply Z.eqb_refl].
  simpl. rewrite take_app_length. destruct (Z.eqb_spec (zlen n) 0) as [Hz|_]; [by destruct n|]. rewrite Hnf. simpl.
  rewrite drop_app_ge, Nat.add_comm, Nat.add_sub by lia. simpl.
  pose proof (trim_start_spec (SPACE :: v)) as Ht. simpl in Ht. rewrite Ht. by rewrite Hvf.
Qed.

Lemma line_no_nl nv : plain_header nv -> NL ∉ head_line nv.
Proof.
  intros (_ & _ & Hn & Hv & _). unfold head_line. rewrite !elem_of_app, !elem_of_cons, elem_of_nil.
  intros [?|[[H|[H|H]]|?]]; done.
Qed.

(** Header lines that [render_head] writes for the host are read back by
    [parse_headers] as the same headers in the same order, except that spaces at
    the start of a value are gone. *)
Theorem header_lines_roundtrip hs :
  Forall plain_header hs ->
  parse_headers name_from value_from (render_head hs) = map (fun nv => (nv.1, trim_start nv.2)) hs.
Proof.
  intros Hf. destruct hs as [|nv hs]; [done|]. inversion Hf as [|? ? Hnv Hhs]; subst.
  assert (Hne : head_line nv <> []) by (destruct nv as [[|b n] v]; destruct Hnv as [Hn _]; by simpl in Hn).
  assert (Hr : render_head (nv :: hs) = head_line nv ++ concat (map (fun nv => NL :: head_line nv) hs)).
  { apply (render_tail hs (head_line nv)). done. }
  unfold parse_headers. rewrite Hr.
  destruct (Z.eqb_spec (zlen (head_line nv ++ concat (map (fun nv => NL :: head_line nv) hs))) 0) as [Hz|_].
  { destruct (head_line nv); [done|]. unfold zlen in Hz. simpl in Hz. lia. }
  rewrite split_rendered; [|by apply line_no_nl|eapply Forall_impl; [exact Hhs|apply line_no_nl]].
  change (head_line nv :: map head_line hs) with (map head_line (nv :: hs)).
  revert Hf. generalize (nv :: hs). clear. intros l Hf. induction Hf as [|nv' hs' Hp _ IH]; [done|]. simpl. rewrite parse_head_line by done. simpl. f_equal. exact IH.
Qed.
End Lines.

(** ** The guarantees *)

Section Guarantees.
Context (name_from value_from : list Z -> option (list Z)).

(** In every interleaving of threads, calls, mailbox turns and ending workers:
    a request's oneshot gets one reply at most, a ticket that is still open has
    none yet and is open on one thread only, its owner, under its own number; an
    open stream has a channel of its own; and later a reply stays as it is, and
    nothing is added to a body that was finished. *)
Theorem answered_once es s :
  run name_from value_from es sys_new = Some s ->
  NoDup (replies s).*1 /\ NoDup (omap channel_of (replies s)) /\
  (forall t id tk, pend s t id = Some tk ->
     owner id = t /\ tk ∉ (replies s).*1 /\ forall t' id', pend s t' id' = Some tk -> t' = t /\ id' = id) /\
  (forall t id ch, strm s t id = Some ch ->
     owner id = t /\ (exists cs, bodies s !! ch = Some (cs, false)) /\
     forall t' id', strm s t' id' = Some ch -> t' = t /\ id' = id) /\
  (forall es' s', run name_from value_from es' s = Some s' ->
     replies s `prefix_of` replies s' /\ forall ch cs, bodies s !! ch = Some (cs, true) -> bodies s' !! ch = Some (cs, true)).
Proof.
  intros Hr. destruct (run_good _ _ es sys_new s Hr sys_new_good) as [Hg _]. pose proof (good_inv s Hg) as HI.
  split_and!; [apply HI|apply HI| | |].
  - intros t id tk Hp. destruct (inv_owner s HI t id) as [? _]; [by left|]. split_and!; [done|by apply (inv_pend s HI t id)|].
    intros t' id' Hp'. by destruct (inv_pend_inj s HI t id t' id' tk Hp Hp').
  - intros t id ch Hc. destruct (inv_owner s HI t id) as [? _]; [by right|]. split_and!; [done|by apply (inv_strm s HI t id)|].
    intros t' id' Hc'. by destruct (inv_strm_inj s HI t id t' id' ch Hc Hc').
  - intros es' s' Hr'. destruct (run_good _ _ es' s s' Hr' Hg) as [_ [Hp Hb]]. split; [done|].
    intros ch cs Hc. destruct (Hb ch _ Hc) as (y & -> & _ & Hy). by rewrite Hy.
Qed.

(** Every entry point on every branch, in every state that can come about:
    number 0 and a number that is neither waiting nor streaming are
    [INVALID_ARG] on the worker's thread, an answer over an open stream is
    [WRONG_STATE], everything else on the worker's thread is done at once; on
    another thread the call is posted and [OK] as long as the worker's mailbox
    is there, whatever became of the ticket. *)
Theorem call_statuses es s t k :
  run name_from value_from es sys_new = Some s ->
  call name_from value_from t k s = call_spec t (call_cmd name_from value_from k) s.
Proof. intros Hr. apply call_exact. by destruct (run_good _ _ es sys_new s Hr sys_new_good) as [[? _] _]. Qed.

(** A ticket that is answered from other threads only, in any interleaving
    with the calls for other tickets and the mailboxes' turns: every call for it
    is [OK]; what the tables show, followed by the commands that wait in the
    mailbox, is what the host's calls amount to ([ticket_step]: the first answer
    counts, chunks stay in order, later calls have no effect); and once the
    mailbox has had as many turns as it has commands, it is what has been
    answered. *)
Theorem foreign_answer_refines es0 es s0 s id tk q k :
  run name_from value_from es0 sys_new = Some s0 ->
  pend s0 (owner id) id = Some tk -> strm s0 (owner id) id = None ->
  mail s0 !! owner id = Some (mkMailbox true q) -> about id q = [] ->
  observe name_from value_from id T_Waiting es s0 = Some (k, s) ->
  (forall t c, owner id <> t -> cmd_id (call_cmd name_from value_from c) = id ->
     (call name_from value_from t c s).1 = STATUS_OK) /\
  (exists k0, shows id tk k0 s /\ ticket_run k0 (about id (queue s (owner id))) = k) /\
  shows id tk k (Nat.iter (length (queue s (owner id))) (mailbox_turn (owner id)) s).
Proof.
  intros Hr Hp Ho Hm Hq Hobs. destruct (run_good _ _ es0 sys_new s0 Hr sys_new_good) as [Hg0 _].
  assert (H0 : id <> 0) by (eapply (inv_owner s0 (good_inv s0 Hg0) (owner id)); by left).
  destruct (observe_comes_to name_from value_from id tk T_Waiting es s0 k s Hg0 H0) as [Hg Hc];
    [exists T_Waiting, q; by rewrite Hq|done|].
  pose proof Hc as (k0 & q' & Hm' & Hs & Hrun).
  assert (Hqueue : queue s (owner id) = q') by (unfold queue; by rewrite Hm').
  split_and!.
  - intros t c Hne Hid. by apply (host_comes_to name_from value_from id tk k t c s (good_inv s Hg) H0).
  - exists k0. by rewrite Hqueue.
  - rewrite Hqueue. pose proof (turns_drain (owner id) s q' Hm') as Hd.
    destruct (turns_comes_to name_from value_from id tk k (owner id) (length q') s Hg Hc) as (k1 & q1 & Hm1 & Hs1 & Hr1).
    rewrite Hm1 in Hd. injection Hd as ->. simpl in Hr1. by rewrite <- Hr1.
Qed.
End Guarantees.

(** ** A run *)

(** Two threads, a worker and a thread of the host; a request on the worker. *)
Module Sample.
Definition conv (l : list Z) : option (list Z) := Some l.
Definition req : Z := 2 ^ 32 + 1.
Definition start : list Event := [Ev_Thread; Ev_Thread; Ev_Ticket 1].
Definition s0 : Sys := default sys_new (run conv conv start sys_new).

(** A stream is written from thread 2, in between a second request comes in and
    the mailbox has a turn, and a late second answer is made. *)
Definition calls : list Event :=
  [Ev_Call 2 (C_begin req 200 [97; 58; 32; 98]); Ev_Turn 1; Ev_Call 2 (C_write req [1]); Ev_Ticket 1;
   Ev_Call 2 (C_write req [2; 3]); Ev_Call 2 (C_respond req 204 [] []); Ev_Turn 1; Ev_Call 2 (C_finish req)].
Definition outcome : Ticket := T_Closed 200 [([97], [98])] [[1]; [2; 3]].
Definition s1 : Sys := match observe conv conv req T_Waiting calls s0 with Some (_, s) => s | None => sys_new end.

Lemma start_run : run conv conv start sys_new = Some s0.
Proof. vm_compute. reflexivity. Qed.
Lemma calls_run : observe conv conv req T_Waiting calls s0 = Some (outcome, s1).
Proof. vm_compute. reflexivity. Qed.
Lemma start_state :
  pend s0 (owner req) req = Some 0%nat /\ strm s0 (owner req) req = None /\
  mail s0 !! owner req = Some (mkMailbox true []).
Proof. vm_compute. done. Qed.
Lemma three_left : length (queue s1 (owner req)) = 3%nat.
Proof. vm_compute. reflexivity. Qed.

Definition s2 : Sys := default sys_new (run conv conv calls s0).
Lemma all_run : run conv conv (start ++ calls) sys_new = Some s2.
Proof. vm_compute. reflexivity. Qed.
Lemma one_reply : replies s2 = [(0%nat, Stream 200 [([97], [98])] 0)].
Proof. vm_compute. reflexivity. Qed.
End Sample.

Lemma answered_once_witness :
  run Sample.conv Sample.conv (Sample.start ++ Sample.calls) sys_new = Some Sample.s2 /\
  NoDup (replies Sample.s2).*1 /\ length (replies Sample.s2) = 1%nat.
Proof.
  split; [exact Sample.all_run|]. split; [|by rewrite Sample.one_reply].
  exact (proj1 (answered_once _ _ _ _ Sample.all_run)).
Defined.

(** The late answer, from the host's thread and from the worker's. *)
Lemma call_statuses_witness :
  run Sample.conv Sample.conv (Sample.start ++ Sample.calls) sys_new = Some Sample.s2 /\
  (call Sample.conv Sample.conv 2 (C_respond Sample.req 204 [] []) Sample.s2).1 = STATUS_OK /\
  (call Sample.conv Sample.conv 1 (C_respond Sample.req 204 [] []) Sample.s2).1 = STATUS_WRONG_STATE.
Proof.
  split; [exact Sample.all_run|].
  rewrite !(call_statuses _ _ _ _ _ _ Sample.all_run). vm_compute. done.
Defined.

Lemma foreign_answer_refines_witness :
  observe Sample.conv Sample.conv Sample.req T_Waiting Sample.calls Sample.s0 = Some (Sample.outcome, Sample.s1) /\
  shows Sample.req 0 Sample.outcome (Nat.iter 3 (mailbox_turn (owner Sample.req)) Sample.s1).
Proof.
  split; [exact Sample.calls_run|]. rewrite <- Sample.three_left. destruct Sample.start_state as (Hp & Ho & Hm).
  exact (proj2 (proj2 (foreign_answer_refines _ _ _ _ _ _ _ _ _ _ Sample.start_run Hp Ho Hm eq_refl Sample.calls_run))).
Defined.

Lemma header_lines_roundtrip_witness :
  parse_headers Sample.conv Sample.conv (render_head [([97], [98]); ([99; 100], []); ([101], [32; 102])])
  = [([97], [98]); ([99; 100], []); ([101], [102])].
Proof.
  rewrite (header_lines_roundtrip Sample.conv Sample.conv); [reflexivity|].
  repeat constructor; try done; vm_compute; set_solver.
Defined.
