(* ===== verification/FfiClient.v ===== *)
(** * The client of the C interface

    [client/mod.rs] and [client/pool.rs] of [src/geario-http-ffi/src], with
    [Origin] of [client/connect.rs].  The host's thread sends, resumes, cancels
    and closes; the worker's thread takes commands one by one and runs a task for
    each request.  One event is what runs between two awaits; what comes from
    outside - a connection, a response, a frame, a callback's verdict, which
    senders are ready - comes with the event.  Tasks, connections and log entries
    are numbered in the order they are made. *)
From S2P Require Import Prelude ClientProxy FfiAbi.

(** ** Origins *)

(** [Origin]: tls, host, port. *)
Definition Origin : Type := bool * list Z * Z.

Record Fail := mkFail { f_kind : ErrorKind; f_message : list Z }.

Section Origin.
Context (parse_uri : list Z -> option HttpUri) (uri_error : list Z).

Fixpoint trim_brackets_start (l : list Z) : list Z :=
  match l with b :: l' => if (b =? 91) || (b =? 93) then trim_brackets_start l' else l | [] => [] end.
(** [trim_matches(['[', ']'])] *)
Definition trim_brackets (l : list Z) : list Z := reverse (trim_brackets_start (reverse (trim_brackets_start l))).

(** [Origin::parse] *)
Definition origin_parse (url : list Z) : result (Origin * HttpUri) Fail :=
  match parse_uri url with
  | None => Err (mkFail ERR_INVALID_URL (bs "bad url: " ++ uri_error))
  | Some uri =>
      match
        match hu_scheme uri with
        | Some s =>
            if bool_decide (s = bs "http") then Ok false
            else if bool_decide (s = bs "https") then Ok true
            else Err (mkFail ERR_INVALID_URL (bs "unsupported scheme " ++ s))
        | None => Err (mkFail ERR_INVALID_URL (bs "url has no scheme"))
        end
      with
      | Err f => Err f
      | Ok tls =>
          match hu_host uri with
          | None => Err (mkFail ERR_INVALID_URL (bs "url has no host"))
          | Some host => Ok ((tls, trim_brackets host, default (if tls : bool then 443 else 80) (hu_port_u16 uri)), uri)
          end
      end
  end.
End Origin.

(** ** The pool *)

(** [Sender].  [Gone] is missing: [connect] never gives it, and [checkin] leaves it
    in a lease that it consumes, so that no lease in use has it. *)
Inductive Sender := S_H1 (conn : nat) | S_H2 (conn : nat).

(** [Inner]: the shared HTTP/2 connection and the idle HTTP/1 connections, newest
    last, of an origin. *)
Record Pool := mkPool { h2 : gmap Origin nat; h1_idle : gmap Origin (list nat) }.
Definition pool_new : Pool := mkPool ∅ ∅.

Record Lease := mkLease { le_sender : Sender; le_origin : Origin }.

Section Pool.
(** [is_ready] of a connection's sender. *)
Context (ready : nat -> bool).

(** The last idle connection that is ready, and what is left under it; those that
    are not ready are dropped. *)
Fixpoint pop_ready (newest_first : list nat) : option nat * list nat :=
  match newest_first with
  | s :: rest => if ready s then (Some s, rest) else pop_ready rest
  | [] => (None, [])
  end.

(** [Pool::checkout] up to [connect(..).await]: a lease, or a connection has to be
    opened. *)
Definition checkout (origin : Origin) (p : Pool) : option Lease * Pool :=
  match
    match h2 p !! origin with
    | Some sender => if ready sender then Some sender else None
    | None => None
    end
  with
  | Some sender => (Some (mkLease (S_H2 sender) origin), p)
  | None =>
      let p := mkPool (delete origin (h2 p)) (h1_idle p) in
      match h1_idle p !! origin with
      | Some idle =>
          let '(s, rest) := pop_ready (reverse idle) in
          ((fun s => mkLease (S_H1 s) origin) <$> s, mkPool (h2 p) (<[origin := reverse rest]> (h1_idle p)))
      | None => (None, p)
      end
  end.

(** The rest of [checkout], when the connection is open. *)
Definition checkout_opened (origin : Origin) (sender : Sender) (p : Pool) : Lease * Pool :=
  (mkLease sender origin,
   match sender with S_H2 s => mkPool (<[origin := s]> (h2 p)) (h1_idle p) | _ => p end).

(** [Lease::checkin] *)
Definition checkin (l : Lease) (p : Pool) : Pool :=
  match le_sender l with
  | S_H1 s =>
      if ready s
      then mkPool (h2 p) (<[le_origin l := default [] (h1_idle p !! le_origin l) ++ [s]]> (h1_idle p))
      else p
  | _ => p
  end.
End Pool.

(** ** The client *)

(** Which callbacks the host gave. *)
Record Callbacks := mkCallbacks { cb_headers : bool; cb_chunk : bool; cb_done : bool }.

Record Job := mkJob {
  j_id : Z;
  j_max_retries : Z;
  j_method : list Z;
  j_url : list Z;
  j_headers : list (list Z * list Z);
  j_body : list Z;
  j_cbs : Callbacks
}.

Inductive Command := Cmd_Send (job : Job) | Cmd_Cancel (id : Z) | Cmd_Resume (id : Z) | Cmd_Shutdown.

(** Where a task waits: to be run for the first time, for a connection or for a
    response with so many attempts to go, this one included, for a frame of the
    body, or to be resumed. *)
Record Run := mkRun { ru_origin : Origin; ru_uri : HttpUri; ru_method : list Z; ru_attempts : Z }.
Inductive State :=
| A_Start
| A_Connect (r : Run) (togo : Z)
| A_Send (r : Run) (lease : Lease) (togo : Z)
| A_Frame (lease : Lease)
| A_Paused (lease : Lease) (fired : bool)
| A_Done.
Record Task := mkTask { t_job : Job; t_state : State }.

(** What the host and the peers see: an answer of [geario_http_client_send], the
    request that task sent on a connection, a response head and whether
    [on_headers] was called with it, a chunk given to [on_chunk], the end and
    whether [on_done] was called with it. *)
Inductive Log :=
| L_send (st : Status)
| L_request (task : nat) (conn : Sender) (target : list Z) (headers : list (list Z * list Z))
| L_head (task : nat) (status : Z) (version : Z) (headers : list (list Z * list Z)) (called : bool)
| L_chunk (task : nat) (chunk : list Z)
| L_done (task : nat) (kind : ErrorKind) (msg : list Z) (called : bool).

(** [GearioHttpClient] on the host's thread; the worker's tables [PAUSED] and
    [CANCELLED], its pool and tasks; the channel between them. *)
Record Client := mkClient {
  max_inflight : Z;
  max_retries : Z;
  proxied : bool;
  next_id : Z;
  closed : bool;
  chan : list Command;
  chan_open : bool;
  running : bool;
  inflight : Z;
  paused : Z;
  paused_tab : gmap Z nat;
  cancelled : gset Z;
  pool : Pool;
  tasks : list Task;
  log : list Log
}.

Definition client_start (cfg : ClientCfg) : Client :=
  mkClient (cf_max_inflight cfg) (cf_max_retries cfg) (bool_decide (is_Some (cf_proxy cfg))) 1 false [] true true
    0 0 ∅ ∅ pool_new [] [].

Definition set_chan (c : Client) (q : list Command) (o r : bool) : Client :=
  mkClient (max_inflight c) (max_retries c) (proxied c) (next_id c) (closed c) q o r (inflight c) (paused c)
    (paused_tab c) (cancelled c) (pool c) (tasks c) (log c).
Definition set_inflight (c : Client) (n : Z) : Client :=
  mkClient (max_inflight c) (max_retries c) (proxied c) (next_id c) (closed c) (chan c) (chan_open c) (running c) n
    (paused c) (paused_tab c) (cancelled c) (pool c) (tasks c) (log c).
Definition set_next_id (c : Client) (id : Z) : Client :=
  mkClient (max_inflight c) (max_retries c) (proxied c) id (closed c) (chan c) (chan_open c) (running c) (inflight c)
    (paused c) (paused_tab c) (cancelled c) (pool c) (tasks c) (log c).
Definition set_closed (c : Client) : Client :=
  mkClient (max_inflight c) (max_retries c) (proxied c) (next_id c) true (chan c) (chan_open c) (running c) (inflight c)
    (paused c) (paused_tab c) (cancelled c) (pool c) (tasks c) (log c).
Definition set_pause (c : Client) (n : Z) (tab : gmap Z nat) (cc : gset Z) : Client :=
  mkClient (max_inflight c) (max_retries c) (proxied c) (next_id c) (closed c) (chan c) (chan_open c) (running c)
    (inflight c) n tab cc (pool c) (tasks c) (log c).
Definition set_pool (c : Client) (p : Pool) : Client :=
  mkClient (max_inflight c) (max_retries c) (proxied c) (next_id c) (closed c) (chan c) (chan_open c) (running c)
    (inflight c) (paused c) (paused_tab c) (cancelled c) p (tasks c) (log c).
Definition set_tasks (c : Client) (l : list Task) : Client :=
  mkClient (max_inflight c) (max_retries c) (proxied c) (next_id c) (closed c) (chan c) (chan_open c) (running c)
    (inflight c) (paused c) (paused_tab c) (cancelled c) (pool c) l (log c).
Definition logs (e : Log) (c : Client) : Client :=
  mkClient (max_inflight c) (max_retries c) (proxied c) (next_id c) (closed c) (chan c) (chan_open c) (running c)
    (inflight c) (paused c) (paused_tab c) (cancelled c) (pool c) (tasks c) (log c ++ [e]).
Definition goto (t : nat) (st : State) (c : Client) : Client :=
  set_tasks c (alter (fun k => mkTask (t_job k) st) t (tasks c)).

(** [is_idempotent] *)
Definition is_idempotent (method : list Z) : bool :=
  bool_decide (method ∈ [bs "GET"; bs "HEAD"; bs "PUT"; bs "DELETE"; bs "OPTIONS"; bs "TRACE"]).

(** [u32::saturating_add] *)
Definition saturating_add32 (a b : Z) : Z := Z.min (a + b) (2 ^ 32 - 1).

Section Client.
Context (heap : Z -> Z -> list Z).
Context (parse_uri : list Z -> option HttpUri) (uri_error http_error : list Z).
(** [Method::from_bytes]; the header that [Builder::header] adds to those that it
    has, when name and value convert and the map has room. *)
Context (method_from : list Z -> option (list Z)).
Context (header_from : list (list Z * list Z) -> list Z * list Z -> option (list Z * list Z)).

(** ** The host's calls *)

Definition take_slice (s : Slice) : list Z :=
  if (sl_ptr s =? 0) || (sl_len s =? 0) then [] else heap (sl_ptr s) (sl_len s).

(** The array of [GearioHttpHeader]s, 32 bytes each. *)
Definition read_header (ptr : Z) : option (list Z * list Z) :=
  let h := heap ptr 32 in
  name ← slice_read 0 h; value ← slice_read 16 h; Some (take_slice name, take_slice value).
Definition read_headers (headers count : Z) : option (list (list Z * list Z)) :=
  if headers =? 0 then Some []
  else mapM (fun i => read_header (headers + 32 * Z.of_nat i)) (seq 0 (Z.to_nat count)).

(** [geario_http_client_send]; [None]: a read outside of the caller's struct. *)
Definition send (request : option (list Z)) (out_request_id : bool) (cbs : Callbacks) (c : Client)
    : option (Status * Client) :=
  match request with
  | Some request =>
      if negb out_request_id then Some (STATUS_INVALID_ARG, c)
      else if closed c then Some (STATUS_CLOSED, c)
      else if negb (inflight c <? max_inflight c) then Some (STATUS_THROTTLED, c)
      else
        let c := set_inflight c (inflight c + 1) in
        raw_abi ← read 4 0 request;
        raw_size ← read 4 4 request;
        let st := validate_header raw_abi raw_size REQUEST_MIN_SIZE in
        if negb (bool_decide (st = STATUS_OK)) then Some (st, c)
        else
          r ← request_read request;
          let url := take_slice (rq_url r) in
          if bool_decide (url = []) then Some (STATUS_INVALID_ARG, c)
          else
            let method := if (sl_ptr (rq_method r) =? 0) || (sl_len (rq_method r) =? 0)
                          then bs "GET" else take_slice (rq_method r) in
            headers ← read_headers (rq_headers r) (rq_header_count r);
            let body := take_slice (mkSlice (rq_body_ptr r) (rq_body_len r)) in
            let id := next_id c in
            let c := set_next_id c (Z.max (u64 (id + 1)) 1) in
            let job := mkJob id (max_retries c) method url headers body cbs in
            if chan_open c
            then Some (STATUS_OK, set_chan c (chan c ++ [Cmd_Send job]) true (running c))
            else Some (STATUS_CLOSED, set_inflight c (u32 (inflight c - 1)))
  | None => Some (STATUS_INVALID_ARG, c)
  end.

Definition try_send (cmd : Command) (c : Client) : Status * Client :=
  if chan_open c then (STATUS_OK, set_chan c (chan c ++ [cmd]) true (running c)) else (STATUS_CLOSED, c).

Definition client_resume (request_id : Z) (c : Client) : Status * Client := try_send (Cmd_Resume request_id) c.
Definition client_cancel (request_id : Z) (c : Client) : Status * Client := try_send (Cmd_Cancel request_id) c.

Definition client_close (c : Client) : Client :=
  if closed c then c
  else
    let c := set_closed c in
    let c := (try_send Cmd_Shutdown c).2 in
    set_chan c (chan c) false (running c).

(** [geario_http_client_inflight_count], [geario_http_client_paused_stream_count],
    [geario_http_client_free] up to the join; a null client is [None]. *)
Definition inflight_count (c : option Client) : Z := match c with Some c => inflight c | None => 0 end.
Definition paused_stream_count (c : option Client) : Z := match c with Some c => paused c | None => 0 end.
Definition client_free (c : option Client) : option Client := client_close <$> c.

(** ** The worker *)

(** The receiver of a paused task's channel resolves. *)
Definition fire (t : nat) (c : Client) : Client :=
  match tasks c !! t with
  | Some (mkTask _ (A_Paused l _)) => goto t (A_Paused l true) c
  | _ => c
  end.

(** Removing an entry of [PAUSED] and sending on it. *)
Definition wake (id : Z) (c : Client) : Client :=
  match paused_tab c !! id with
  | Some t => fire t (set_pause c (paused c) (delete id (paused_tab c)) (cancelled c))
  | None => c
  end.

(** One command of the worker's loop. *)
Definition command (c : Client) : option Client :=
  match chan c with
  | [] => None
  | cmd :: q =>
      let c := set_chan c q (chan_open c) (running c) in
      Some
        match cmd with
        | Cmd_Shutdown => set_chan c [] false false
        | Cmd_Cancel id => wake id (set_pause c (paused c) (paused_tab c) ({[id]} ∪ cancelled c))
        | Cmd_Resume id => wake id c
        | Cmd_Send job => set_tasks c (tasks c ++ [mkTask job A_Start])
        end
  end.

(** [report], and the end of the task: its [InflightGuard] gives the slot back. *)
Definition finish (t : nat) (job : Job) (kind : ErrorKind) (msg : list Z) (c : Client) : Client :=
  let c := goto t A_Done (logs (L_done t kind msg (cb_done (j_cbs job))) c) in
  set_inflight c (u32 (inflight c - 1)).

(** The loop of [builder.header]. *)
Fixpoint add_headers (hs added : list (list Z * list Z)) : option (list (list Z * list Z)) :=
  match hs with
  | [] => Some added
  | h :: hs => h' ← header_from added h; add_headers hs (added ++ [h'])
  end.

(** The request line and the headers of a request on this lease; [None] when the
    builder fails. *)
Definition build_request (r : Run) (l : Lease) (px : bool) (hs : list (list Z * list Z))
    : option (HttpUri * list (list Z * list Z)) :=
  let is_h2 := match le_sender l with S_H2 _ => true | _ => false end in
  let target :=
    if is_h2 || (negb (le_origin l).1.1 && px) then ru_uri r
    else default (ru_uri r) (parse_uri (default (bs "/") (hu_path_and_query (ru_uri r)))) in
  hs ← add_headers hs [];
  let host := bool_decide (bs "host" ∈ hs.*1) in
  if negb host && negb is_h2 then
    match hu_authority (ru_uri r) with
    | Some auth => h ← header_from hs (bs "host", au_text auth); Some (target, hs ++ [h])
    | None => Some (target, hs)
    end
  else Some (target, hs).

(** The rest of an attempt, once it has a lease. *)
Definition request_on (t : nat) (job : Job) (r : Run) (togo : Z) (l : Lease) (c : Client) : Client :=
  match build_request r l (proxied c) (j_headers job) with
  | None => finish t job ERR_INVALID_URL http_error c
  | Some (target, hs) => goto t (A_Send r l togo) (logs (L_request t (le_sender l) (hu_text target) hs) c)
  end.

(** The loop over the attempts, with so many to go: up to the next await. *)
Definition attempt (ready : nat -> bool) (t : nat) (job : Job) (r : Run) (togo : Z) (last : option Fail) (c : Client)
    : outcome Client :=
  if togo =? 0 then
    match last with
    | Some f => Val (finish t job (f_kind f) (f_message f) c)
    | None => Panic
    end
  else
    let '(l, p) := checkout ready (ru_origin r) (pool c) in
    let c := set_pool c p in
    Val match l with
        | Some l => request_on t job r togo l c
        | None => goto t (A_Connect r togo) c
        end.

(** [run_job], from its start to the first await. *)
Definition run_job (ready : nat -> bool) (t : nat) (job : Job) (c : Client) : outcome Client :=
  if negb (utf8 (j_url job)) then Val (finish t job ERR_INVALID_URL (bs "url is not utf-8") c)
  else
    match origin_parse parse_uri uri_error (j_url job) with
    | Err f => Val (finish t job (f_kind f) (f_message f) c)
    | Ok (origin, uri) =>
        match method_from (j_method job) with
        | None => Val (finish t job ERR_INVALID_URL (bs "bad method") c)
        | Some method =>
            let attempts := if is_idempotent method then saturating_add32 (j_max_retries job) 1 else 1 in
            attempt ready t job (mkRun origin uri method attempts) attempts None c
        end
    end.

(** [connect(..).await] returns. *)
Definition connected (ready : nat -> bool) (t : nat) (job : Job) (r : Run) (togo : Z) (res : result Sender Fail)
    (c : Client) : outcome Client :=
  match res with
  | Ok sender =>
      let '(l, p) := checkout_opened (ru_origin r) sender (pool c) in
      Val (request_on t job r togo l (set_pool c p))
  | Err f => attempt ready t job r (togo - 1) (Some f) c
  end.

(** [hyper::Version], and the number that the host is told. *)
Inductive HyperVersion := HyperV09 | HyperV10 | HyperV11 | HyperV2 | HyperV3.
Definition http_version (v : HyperVersion) : Z := match v with HyperV2 => 2 | _ => 1 end.

(** What [with_timeout(.., send_request(req)).await] gives: a response, the
    connection's error, or the timeout. *)
Inductive Sent :=
| R_Response (status : Z) (version : HyperVersion) (headers : list (list Z * list Z))
| R_Error
| R_Timeout.

Inductive HeadersAction := HEADERS_CONTINUE | HEADERS_CANCEL.
Inductive ChunkAction := CHUNK_CONTINUE | CHUNK_PAUSE | CHUNK_CANCEL.

Definition sent (ready : nat -> bool) (t : nat) (job : Job) (r : Run) (l : Lease) (togo : Z) (res : Sent)
    (act : HeadersAction) (c : Client) : outcome Client :=
  match res with
  | R_Response status version headers =>
      let called := cb_headers (j_cbs job) in
      let c := logs (L_head t status (http_version version) headers called) c in
      Val match called, act with
          | true, HEADERS_CANCEL => finish t job ERR_CANCELLED (bs "cancelled at headers") c
          | _, _ => goto t (A_Frame l) c
          end
  | R_Error =>
      let c := set_pool c (checkin ready l (pool c)) in
      if is_idempotent (ru_method r)
      then attempt ready t job r (togo - 1) (Some (mkFail ERR_CONNECT (bs "connection failed before response"))) c
      else Val (finish t job ERR_OUTCOME_UNKNOWN (bs "connection failed before response") c)
  | R_Timeout =>
      Val (finish t job ERR_TIMEOUT (bs "request timed out") (set_pool c (checkin ready l (pool c))))
  end.

(** [body.frame().await] *)
Inductive Frame := F_End | F_Data (chunk : list Z) | F_Trailers | F_Error (e : list Z).

Definition frame (ready : nat -> bool) (t : nat) (job : Job) (l : Lease) (f : Frame) (act : ChunkAction) (c : Client)
    : Client :=
  match f with
  | F_End => finish t job ERR_NONE [] (set_pool c (checkin ready l (pool c)))
  | F_Error e => finish t job ERR_TRUNCATED e c
  | F_Trailers => c
  | F_Data chunk =>
      if zlen chunk =? 0 then c
      else if negb (cb_chunk (j_cbs job)) then c
      else
        let c := logs (L_chunk t chunk) c in
        match act with
        | CHUNK_CANCEL => finish t job ERR_CANCELLED (bs "cancelled at chunk") c
        | CHUNK_PAUSE =>
            let old := paused_tab c !! j_id job in
            let c := set_pause c (u32 (paused c + 1)) (<[j_id job := t]> (paused_tab c)) (cancelled c) in
            goto t (A_Paused l false) match old with Some t' => fire t' c | None => c end
        | CHUNK_CONTINUE => c
        end
  end.

(** [rx.await] returns. *)
Definition resumed (t : nat) (job : Job) (l : Lease) (c : Client) : Client :=
  let c := set_pause c (u32 (paused c - 1)) (paused_tab c) (cancelled c) in
  if bool_decide (j_id job ∈ cancelled c)
  then finish t job ERR_CANCELLED (bs "cancelled") (set_pause c (paused c) (paused_tab c) (cancelled c ∖ {[j_id job]}))
  else goto t (A_Frame l) c.

(** ** Events *)

Inductive Event :=
| E_send (request : option (list Z)) (out_request_id : bool) (cbs : Callbacks)
| E_resume (id : Z)
| E_cancel (id : Z)
| E_close
| E_command
| E_run (t : nat) (ready : nat -> bool)
| E_connected (t : nat) (ready : nat -> bool) (res : result Sender Fail)
| E_sent (t : nat) (ready : nat -> bool) (res : Sent) (act : HeadersAction)
| E_frame (t : nat) (ready : nat -> bool) (f : Frame) (act : ChunkAction)
| E_resumed (t : nat).

(** No failure of [connect] is of the kind that says success
    ([FfiConnectThms.connect_fails_as_error]). *)
Definition told_apart (res : result Sender Fail) : bool :=
  match res with Ok _ => true | Err f => negb (bool_decide (f_kind f = ERR_NONE)) end.

(** [Val None]: the event cannot happen in this state. *)
Definition step (e : Event) (c : Client) : outcome (option Client) :=
  match e with
  | E_send request out cbs =>
      Val ('(st, c) ← send request out cbs c; Some (logs (L_send st) c))
  | E_resume id => Val (Some (client_resume id c).2)
  | E_cancel id => Val (Some (client_cancel id c).2)
  | E_close => Val (Some (client_close c))
  | E_command => Val (if running c then command c else None)
  | E_run t ready =>
      match running c, tasks c !! t with
      | true, Some (mkTask job A_Start) => (c' ← run_job ready t job c; Val (Some c'))
      | _, _ => Val None
      end
  | E_connected t ready res =>
      match running c && told_apart res, tasks c !! t with
      | true, Some (mkTask job (A_Connect r togo)) => (c' ← connected ready t job r togo res c; Val (Some c'))
      | _, _ => Val None
      end
  | E_sent t ready res act =>
      match running c, tasks c !! t with
      | true, Some (mkTask job (A_Send r l togo)) => (c' ← sent ready t job r l togo res act c; Val (Some c'))
      | _, _ => Val None
      end
  | E_frame t ready f act =>
      match running c, tasks c !! t with
      | true, Some (mkTask job (A_Frame l)) => Val (Some (frame ready t job l f act c))
      | _, _ => Val None
      end
  | E_resumed t =>
      match running c, tasks c !! t with
      | true, Some (mkTask job (A_Paused l true)) => Val (Some (resumed t job l c))
      | _, _ => Val None
      end
  end.

Fixpoint run (es : list Event) (c : Client) : outcome (option Client) :=
  match es with
  | [] => Val (Some c)
  | e :: es' => c' ← step e c; match c' with Some c' => run es' c' | None => Val None end
  end.
End Client.
