(* ===== verification/FfiAbiThms.v ===== *)
(** * The structs of the C interface

    Integers and structs are read back as they were written; what
    [geario_http_client_options_init] writes and where it stops; what
    [geario_http_client_new] makes of a struct of any size, and that it stays
    inside of it; what [geario_http_client_send] reads, which is more than it
    asks for. *)
From S2P Require Import Prelude WsMask ClientProxy FfiAbi FfiClient.

(** ** Little-endian integers *)

Lemma length_le_bytes n z : length (le_bytes n z) = n.
Proof. unfold le_bytes. by rewrite length_fmap, length_seq. Qed.

Lemma byte_at_succ z j : 0 <= j -> byte_at z (j + 1) = byte_at (Z.shiftr z 8) j.
Proof. intros Hj. unfold byte_at. rewrite Z.shiftr_shiftr by lia. do 2 f_equal. lia. Qed.

Lemma le_bytes_succ n z : le_bytes (S n) z = Z.land z 255 :: le_bytes n (Z.shiftr z 8).
Proof.
  unfold le_bytes. cbn [seq]. rewrite fmap_cons. f_equal.
  rewrite <- fmap_S_seq, <- list_fmap_compose. apply list_fmap_ext. intros i x Hx. simpl. rewrite <- byte_at_succ by lia. f_equal. lia.
Qed.

Lemma low_high z : Z.lor (Z.land z 255) (Z.shiftl (Z.shiftr z 8) 8) = z.
Proof.
  apply Z.bits_inj'. intros i Hi. rewrite Z.lor_spec, Z.land_spec, Z.shiftl_spec by lia.
  change 255 with (Z.ones 8). rewrite Z.testbit_ones_nonneg by lia. destruct (Z.ltb_spec i 8).
  - rewrite andb_true_r. rewrite (Z.testbit_neg_r (Z.shiftr z 8)) by lia. apply orb_false_r.
  - rewrite andb_false_r, Z.shiftr_spec by lia. simpl. f_equal. lia.
Qed.

Lemma le_word_bytes n : forall z, 0 <= z < 2 ^ (8 * Z.of_nat n) -> le_word (le_bytes n z) = z.
Proof.
  induction n as [|n IH]; intros z Hz; [simpl in *; lia|]. rewrite le_bytes_succ. cbn [le_word]. rewrite IH; [apply low_high|].
  rewrite Z.shiftr_div_pow2 by lia. split; [apply Z.div_pos; lia|]. apply Z.div_lt_upper_bound; [lia|].
  rewrite <- Z.pow_add_r by lia. replace (8 + 8 * Z.of_nat n) with (8 * Z.of_nat (S n)) by lia. lia.
Qed.

Lemma read_here n z l : 0 <= z < 2 ^ (8 * Z.of_nat n) -> read n 0 (le_bytes n z ++ l) = Some z.
Proof.
  intros Hz. unfold read. rewrite drop_0, length_app, length_le_bytes. destruct (Nat.leb_spec (0 + n) (n + length l)); [|lia].
  rewrite take_app_le, take_ge by (rewrite length_le_bytes; lia). by rewrite le_word_bytes.
Qed.

Lemma read_skip n off k z l : (k <= off)%nat -> read n off (le_bytes k z ++ l) = read n (off - k) l.
Proof.
  intros Hk. unfold read. rewrite length_app, length_le_bytes, drop_app_ge by (rewrite length_le_bytes; lia).
  rewrite length_le_bytes. replace (off + n <=? k + length l)%nat with (off - k + n <=? length l)%nat; [done|].
  destruct (Nat.leb_spec (off - k + n) (length l)), (Nat.leb_spec (off + n) (k + length l)); lia.
Qed.

(** A read that stays in the first [k] bytes does not see the rest, and one that
    does not has no result. *)
Lemma read_take n off k l : (off + n <= k)%nat -> read n off (take k l) = read n off l.
Proof.
  intros Hk. unfold read. rewrite length_take. destruct (Nat.leb_spec (off + n) (k `min` length l)), (Nat.leb_spec (off + n) (length l)); try lia; [|done].
  f_equal. f_equal. rewrite <- (take_drop k l) at 2. rewrite drop_app_le by (rewrite length_take; lia).
  rewrite take_app_le; [done|]. rewrite length_drop, length_take. lia.
Qed.

Lemma read_past n off l : (length l < off + n)%nat -> read n off l = None.
Proof. intros Hl. unfold read. by destruct (Nat.leb_spec (off + n) (length l)); [lia|]. Qed.

(** Reads a struct that is written out field by field. *)
Ltac read_fields :=
  repeat first
    [ rewrite read_here by (simpl; lia)
    | match goal with |- context [read ?n ?off (le_bytes ?k ?z ++ ?l)] =>
        rewrite (read_skip n off k z l) by lia; let m := eval vm_compute in (off - k)%nat in change (off - k)%nat with m
      end ].

Definition is_u32 (z : Z) : Prop := 0 <= z < 2 ^ 32.
Definition is_u64 (z : Z) : Prop := 0 <= z < 2 ^ 64.

Definition options_ok (o : Options) : Prop :=
  is_u32 (op_abi_version o) /\ is_u32 (op_struct_size o) /\ is_u64 (op_flags o) /\ is_u64 (op_connect_timeout_ms o) /\
  is_u64 (op_request_timeout_ms o) /\ is_u32 (op_max_inflight_requests o) /\ is_u32 (op_max_retries o) /\
  is_u64 (op_proxy_url o) /\ is_u64 (op_proxy_url_len o) /\ is_u64 (op_custom_ca_pem o) /\ is_u64 (op_custom_ca_pem_len o).

Definition slice_ok (s : Slice) : Prop := is_u64 (sl_ptr s) /\ is_u64 (sl_len s).
Definition request_ok (r : Request) : Prop :=
  is_u32 (rq_abi_version r) /\ is_u32 (rq_struct_size r) /\ slice_ok (rq_method r) /\ slice_ok (rq_url r) /\
  is_u64 (rq_headers r) /\ is_u64 (rq_header_count r) /\ is_u64 (rq_body_ptr r) /\ is_u64 (rq_body_len r).

Lemma options_read_bytes o l : options_ok o -> options_read (options_bytes o ++ l) = Some o.
Proof.
  destruct o as [a s f ct rt mi mr pu pl ca cl]. intros Ho. unfold options_ok, is_u32, is_u64 in Ho. simpl in Ho.
  destruct Ho as (? & ? & ? & ? & ? & ? & ? & ? & ? & ? & ?). unfold options_read, options_bytes. cbn [op_abi_version op_struct_size op_flags
    op_connect_timeout_ms op_request_timeout_ms op_max_inflight_requests op_max_retries op_proxy_url op_proxy_url_len op_custom_ca_pem op_custom_ca_pem_len].
  rewrite <- !app_assoc. read_fields. done.
Qed.

Lemma request_read_bytes r l : request_ok r -> request_read (request_bytes r ++ l) = Some r.
Proof.
  destruct r as [a s [mp ml] [up ul] h hc b bl]. intros Hr. unfold request_ok, slice_ok, is_u32, is_u64 in Hr. simpl in Hr.
  destruct Hr as (? & ? & [? ?] & [? ?] & ? & ? & ? & ?). unfold request_read, request_bytes, slice_read, slice_bytes.
  cbn [rq_abi_version rq_struct_size rq_method rq_url rq_headers rq_header_count rq_body_ptr rq_body_len sl_ptr sl_len].
  rewrite <- !app_assoc. cbn [Nat.add]. read_fields. done.
Qed.

Lemma length_options_bytes o : length (options_bytes o) = 72%nat.
Proof. unfold options_bytes. by rewrite !length_app, !length_le_bytes. Qed.
Lemma length_request_bytes r : length (request_bytes r) = 72%nat.
Proof. unfold request_bytes, slice_bytes. by rewrite !length_app, !length_le_bytes. Qed.

(** The two words every struct starts with. *)
Lemma options_header o k : options_ok o -> (8 <= k)%nat ->
  read 4 0 (take k (options_bytes o)) = Some (op_abi_version o) /\ read 4 4 (take k (options_bytes o)) = Some (op_struct_size o).
Proof.
  intros (? & ? & _) Hk. rewrite !read_take by lia. unfold options_bytes. unfold is_u32 in *. split; by read_fields.
Qed.
Lemma request_header r k : request_ok r -> (8 <= k)%nat ->
  read 4 0 (take k (request_bytes r)) = Some (rq_abi_version r) /\ read 4 4 (take k (request_bytes r)) = Some (rq_struct_size r).
Proof.
  intros (? & ? & _) Hk. rewrite !read_take by lia. unfold request_bytes. unfold is_u32 in *. split; by read_fields.
Qed.

Lemma options_flags o k : options_ok o -> (16 <= k)%nat -> read 8 8 (take k (options_bytes o)) = Some (op_flags o).
Proof. intros (? & ? & ? & _) Hk. rewrite read_take by lia. unfold options_bytes. unfold is_u64 in *. by read_fields. Qed.

Lemma read_some n off l : (off + n <= length l)%nat -> exists v, read n off l = Some v.
Proof. intros Hl. unfold read. destruct (Nat.leb_spec (off + n) (length l)); [by eexists|lia]. Qed.

Lemma default_options_ok n : is_u32 n -> options_ok (default_options n).
Proof.
  intros Hn. unfold options_ok, is_u32, is_u64 in *. cbn. change ABI_VERSION with 65536. unfold DEFAULT_MAX_INFLIGHT.
  split_and!; lia.
Qed.

(** [options_init] writes the defaults into as much of the struct as the caller
    says there is and nothing behind it; a size below the frozen prefix is
    refused and nothing written; and a whole struct is read back as the
    defaults. *)
Theorem options_init_bounded dst n :
  0 <= n < 2 ^ 32 ->
  (n < OPTIONS_MIN_SIZE -> options_init (Some dst) n = Some (STATUS_STRUCT_SIZE, Some dst)) /\
  (OPTIONS_MIN_SIZE <= n <= zlen dst ->
   exists dst', options_init (Some dst) n = Some (STATUS_OK, Some dst') /\ zlen dst' = zlen dst /\
     zdrop n dst' = zdrop n dst /\
     ztake (Z.min n OPTIONS_SIZE) dst' = ztake n (options_bytes (default_options n)) /\
     (OPTIONS_SIZE <= n -> options_read dst' = Some (default_options n))).
Proof.
  intros Hn. unfold options_init, OPTIONS_MIN_SIZE, OPTIONS_SIZE. destruct (Z.ltb_spec n 16) as [Hlt|Hge]; (split; [|]); try (intros; lia); [done|].
  intros [_ Hle]. set (b := options_bytes (default_options n)).
  assert (Hb : zlen b = 72) by (unfold zlen, b; by rewrite length_options_bytes).
  unfold write_prefix. rewrite Hb. destruct (Z.leb_spec (Z.min n 72) (zlen dst)); [|lia]. simpl.
  set (m := Z.min n 72) in *. assert (Hm : 0 <= m <= 72) by lia.
  assert (Hlen : length (ztake m b) = Z.to_nat m) by (unfold ztake; rewrite length_take; unfold zlen in Hb; lia).
  eexists. split; [done|]. split_and!.
  - rewrite zlen_app, zlen_ztake, zlen_zdrop by lia. lia.
  - unfold zdrop. rewrite drop_app_ge by (unfold ztake; rewrite length_take; lia). rewrite Hlen, drop_drop. f_equal. lia.
  - unfold ztake at 1. rewrite take_app_le, take_ge by lia. unfold ztake. destruct (Z.le_ge_cases n 72).
    + f_equal. lia.
    + rewrite !take_ge; [done|unfold zlen in Hb; lia..].
  - intros H72. unfold ztake. rewrite take_ge by (unfold zlen in Hb; lia). apply options_read_bytes. by apply default_options_ok.
Qed.

Section New.
Context (heap : Z -> Z -> list Z).
Context (parse_uri : list Z -> option HttpUri).
Context (tls_ok : list Z -> bool -> bool -> bool).

(** What [geario_http_client_new] takes from an options struct of [n] bytes that
    asks for no proxy and no CA: a whole struct is taken as it is, with 0
    requests in flight for the default; of a shorter one the flags only, and
    whatever else the caller has set in it is replaced by the defaults; flags
    that are not known are refused in both. *)
Theorem client_new_options o n :
  options_ok o -> op_abi_version o = ABI_VERSION -> op_struct_size o = n -> OPTIONS_MIN_SIZE <= n ->
  op_proxy_url o = 0 -> op_custom_ca_pem o = 0 ->
  client_new heap parse_uri tls_ok true (Some (ztake n (options_bytes o))) true =
    Some
      (if negb (Z.ldiff (op_flags o) 3 =? 0) then Err STATUS_UNKNOWN_FLAGS
       else
         let whole := OPTIONS_SIZE <=? n in
         Ok (mkClientCfg
           (millis (if whole then op_connect_timeout_ms o else 10000))
           (millis (if whole then op_request_timeout_ms o else 60000))
           (if whole then (if op_max_inflight_requests o =? 0 then DEFAULT_MAX_INFLIGHT else op_max_inflight_requests o) else DEFAULT_MAX_INFLIGHT)
           (if whole then op_max_retries o else 2)
           (negb (Z.land (op_flags o) 1 =? 0)) (negb (Z.land (op_flags o) 2 =? 0)) None None)).
Proof.
  intros Ho Habi Hn Hmin Hp Hca. unfold client_new, ztake. cbn [negb]. unfold OPTIONS_MIN_SIZE in Hmin.
  destruct (options_header o (Z.to_nat n) Ho) as [Ha Hs]; [lia|]. rewrite Ha, Hs. cbn [mbind option_bind].
  unfold validate_header. rewrite Habi, Hn, Z.eqb_refl. cbn [negb]. destruct (Z.ltb_spec n OPTIONS_MIN_SIZE) as [Hlt|_];
    [unfold OPTIONS_MIN_SIZE in Hlt; lia|]. rewrite bool_decide_eq_true_2 by done. cbn [negb].
  unfold options_fields. destruct (Z.leb_spec OPTIONS_SIZE n) as [Hw|Hw]; unfold OPTIONS_SIZE in Hw.
  - rewrite take_ge by (rewrite length_options_bytes; lia). rewrite <- (app_nil_r (options_bytes o)), options_read_bytes by done.
    simpl. rewrite Hp, Hca. reflexivity.
  - rewrite options_flags by (done || lia). reflexivity.
Qed.

(** [geario_http_client_new] does not read past the caller's struct: whatever
    is in it, if it is as large as its [struct_size] says there is an answer. *)
Theorem client_new_in_bounds thread_ok opts out size :
  read 4 4 opts = Some size -> size <= zlen opts ->
  exists r, client_new heap parse_uri tls_ok thread_ok (Some opts) out = Some r.
Proof.
  intros Hs Hle. unfold client_new. destruct out; [|by eexists]. cbn [negb]. rewrite Hs.
  assert (Hlen : (8 <= length opts)%nat).
  { unfold read in Hs. destruct (Nat.leb_spec (4 + 4) (length opts)); [lia|done]. }
  destruct (read_some 4 0 opts) as [abi ->]; [lia|]. cbn [mbind option_bind]. unfold validate_header.
  destruct (negb (abi =? ABI_VERSION)); [by eexists|]. destruct (Z.ltb_spec size OPTIONS_MIN_SIZE) as [Hlt|Hge]; [by eexists|].
  unfold OPTIONS_MIN_SIZE in Hge. rewrite bool_decide_eq_true_2 by done. cbn [negb].
  assert (Hf : exists f, options_fields heap parse_uri opts size = Some f).
  { unfold options_fields, OPTIONS_SIZE. unfold zlen in Hle. destruct (Z.leb_spec 72 size) as [Hw|Hw].
    - unfold options_read. repeat match goal with |- context [read ?n ?off opts] =>
        let v := fresh "v" in destruct (read_some n off opts) as [v ->]; [lia|]; cbn [mbind option_bind] end. by eexists.
    - destruct (read_some 8 8 opts) as [v ->]; [lia|]. by eexists. }
  destruct Hf as [f ->]. cbn [mbind option_bind]. by eexists.
Qed.

(** C28. [geario_http_client_send] with a request struct of [n] bytes, when there is
    a slot: too short a struct is refused and keeps the slot; one that has the
    fields that are asked for, but not the whole of this build's struct, is read
    past its end; a whole one without headers becomes the job with the next id,
    [GET] by default. *)
Theorem send_reads_request r n cbs c :
  request_ok r -> rq_abi_version r = ABI_VERSION -> rq_struct_size r = n -> 8 <= n ->
  closed c = false -> inflight c < max_inflight c -> chan_open c = true -> rq_headers r = 0 ->
  let c1 := set_inflight c (inflight c + 1) in
  send heap (Some (ztake n (request_bytes r))) true cbs c =
    if n <? REQUEST_MIN_SIZE then Some (STATUS_STRUCT_SIZE, c1)
    else if n <? REQUEST_SIZE then None
    else
      let url := take_slice heap (rq_url r) in
      if bool_decide (url = []) then Some (STATUS_INVALID_ARG, c1)
      else
        let method := if (sl_ptr (rq_method r) =? 0) || (sl_len (rq_method r) =? 0) then bs "GET" else take_slice heap (rq_method r) in
        let job := mkJob (next_id c) (max_retries c) method url [] (take_slice heap (mkSlice (rq_body_ptr r) (rq_body_len r))) cbs in
        Some (STATUS_OK, set_chan (set_next_id c1 (Z.max (u64 (next_id c + 1)) 1)) (chan c ++ [Cmd_Send job]) true (running c)).
Proof.
  intros Hr Habi Hn Hmin Hcl Hslot Hopen Hh c1. unfold send. cbn [negb]. rewrite Hcl.
  destruct (Z.ltb_spec (inflight c) (max_inflight c)); [|lia]. cbn [negb]. unfold ztake.
  destruct (request_header r (Z.to_nat n) Hr) as [Ha Hs]; [lia|]. rewrite Ha, Hs. cbn [mbind option_bind].
  unfold validate_header. rewrite Habi, Hn, Z.eqb_refl. cbn [negb].
  destruct (Z.ltb_spec n REQUEST_MIN_SIZE) as [Hlt|Hge]; [by rewrite bool_decide_eq_false_2|].
  rewrite bool_decide_eq_true_2 by done. cbn [negb]. unfold REQUEST_MIN_SIZE in Hge. unfold REQUEST_SIZE.
  destruct (Z.ltb_spec n 72) as [Hlt|Hw].
  - assert (Hnone : request_read (take (Z.to_nat n) (request_bytes r)) = None); [|by rewrite Hnone].
    unfold request_read. assert (Hb : read 8 64 (take (Z.to_nat n) (request_bytes r)) = None).
    { apply read_past. rewrite length_take. lia. }
    repeat (let x := fresh "x" in match goal with |- context [read ?a ?b ?m ≫= _] => destruct (read a b m) as [x|] eqn:?; cbn [mbind option_bind]; [|done] end
      || match goal with |- context [slice_read ?a ?m ≫= _] => destruct (slice_read a m) as [x|]; cbn [mbind option_bind]; [|done] end).
    congruence.
  - rewrite take_ge by (rewrite length_request_bytes; lia). rewrite <- (app_nil_r (request_bytes r)), request_read_bytes by done.
    simpl. case_bool_decide; [done|]. unfold read_headers. rewrite Hh. simpl. by rewrite Hopen.
Qed.
End New.
