(* ===== verification/FfiClientInv.v ===== *)
(** * The invariant of the client of the C interface

    What a task has shown so far ([Phase]), what it does between two awaits
    ([Move]), the invariant over all tasks, the pool, the slots and the channel
    ([Core], [Pauses]), and that every event keeps it. *)
From S2P Require Import Prelude ClientProxy FfiAbi FfiClient.

(** ** What a task is in, and what it has shown *)

(** [n] requests sent; the response's head seen; ended. *)
Inductive Phase := Ph_Trying (n : Z) | Ph_Body (n : Z) | Ph_End (n : Z).

Definition phase_step (p : Phase) (e : Log) : option Phase :=
  match p, e with
  | Ph_Trying n, L_request _ _ _ _ => Some (Ph_Trying (n + 1))
  | Ph_Trying n, L_head _ _ _ _ _ => if 1 <=? n then Some (Ph_Body n) else None
  | Ph_Body n, L_chunk _ _ => Some (Ph_Body n)
  | Ph_Trying n, L_done _ k _ _ => if bool_decide (k = ERR_NONE) then None else Some (Ph_End n)
  | Ph_Body n, L_done _ k _ _ => if bool_decide (k ∈ [ERR_NONE; ERR_CANCELLED; ERR_TRUNCATED]) then Some (Ph_End n) else None
  | _, _ => None
  end.
Fixpoint phase_run (p : Phase) (es : list Log) : option Phase :=
  match es with [] => Some p | e :: es' => p' ← phase_step p e; phase_run p' es' end.

Definition log_task (e : Log) : option nat :=
  match e with
  | L_send _ => None
  | L_request t _ _ _ | L_head t _ _ _ _ | L_chunk t _ | L_done t _ _ _ => Some t
  end.
Definition trace (t : nat) (l : list Log) : list Log := filter (fun e => log_task e = Some t) l.

Lemma phase_run_app p l k : phase_run p (l ++ k) = (p' ← phase_run p l; phase_run p' k).
Proof. revert p. induction l as [|e l IH]; intros p; simpl; [done|]. destruct (phase_step p e); simpl; [apply IH|done]. Qed.

Lemma trace_app t l k : trace t (l ++ k) = trace t l ++ trace t k.
Proof. apply filter_app. Qed.

(** How often a request may be sent. *)
Definition limit (method_from : list Z -> option (list Z)) (job : Job) : Z :=
  match method_from (j_method job) with
  | Some m => if is_idempotent m then saturating_add32 (j_max_retries job) 1 else 1
  | None => 0
  end.

(** What the state of a task says about the phase it is in. *)
Definition matches (lim : Z) (st : State) (p : Phase) : Prop :=
  match st with
  | A_Start => p = Ph_Trying 0
  | A_Connect r togo => exists n, p = Ph_Trying n /\ 0 <= n /\ 1 <= togo /\ n + togo <= lim
  | A_Send r l togo => exists n, p = Ph_Trying n /\ 1 <= n /\ 1 <= togo /\ n + togo <= lim + 1
  | A_Frame _ | A_Paused _ _ => exists n, p = Ph_Body n /\ 1 <= n <= lim
  | A_Done => exists n, p = Ph_End n /\ 0 <= n <= Z.max 0 lim
  end.

(** ** Moves *)

(** What a task does between two awaits, unless it is paused or resumed: it ends
    up in a state, has logged something, has used the pool, and gives back its
    slot at the end. *)
Definition moved (t : nat) (st : State) (p : Pool) (es : list Log) (c : Client) : Client :=
  mkClient (max_inflight c) (max_retries c) (proxied c) (next_id c) (closed c) (chan c) (chan_open c) (running c)
    (match st with A_Done => u32 (inflight c - 1) | _ => inflight c end) (paused c) (paused_tab c) (cancelled c) p
    (alter (fun k => mkTask (t_job k) st) t (tasks c)) (log c ++ es).

Definition run_of (st : State) : option Run :=
  match st with A_Connect r _ | A_Send r _ _ => Some r | _ => None end.
Definition lease_of (st : State) : option Lease :=
  match st with A_Send _ l _ | A_Frame l | A_Paused l _ => Some l | _ => None end.

(** The HTTP/1 connection of a lease, with its origin. *)
Definition h1_of (l : Lease) : list (Origin * nat) :=
  match le_sender l with S_H1 s => [(le_origin l, s)] | _ => [] end.
Definition h1_lease (st : State) : list (Origin * nat) := from_option h1_of [] (lease_of st).

(** ** Counting *)

Section Count.
Context {A : Type}.
Implicit Types (f : A -> bool) (l : list A).

Fixpoint countb f l : nat := match l with [] => 0 | x :: l' => Nat.b2n (f x) + countb f l' end.

Lemma countb_app f l k : countb f (l ++ k) = (countb f l + countb f k)%nat.
Proof. induction l as [|x l IH]; simpl; [done|]. lia. Qed.

Lemma countb_alter f g l t x :
  l !! t = Some x -> (countb f (alter g t l) + Nat.b2n (f x) = countb f l + Nat.b2n (f (g x)))%nat.
Proof.
  revert t. induction l as [|y l IH]; intros [|t] Hx; simplify_eq/=; [lia|]. specialize (IH t Hx). unfold alter in *. lia.
Qed.

Lemma countb_lookup f l t x : l !! t = Some x -> f x = true -> (1 <= countb f l)%nat.
Proof. revert t. induction l as [|y l IH]; intros [|t] Hx Hf; simplify_eq/=; [rewrite Hf; simpl; lia|]. specialize (IH t Hx Hf). lia. Qed.

Lemma countb_reverse f l : countb f (reverse l) = countb f l.
Proof. induction l as [|x l IH]; [done|]. rewrite reverse_cons, countb_app, IH. simpl. lia. Qed.

Lemma countb_elem f l : (1 <= countb f l)%nat -> exists x, x ∈ l /\ f x = true.
Proof.
  induction l as [|y l IH]; simpl; [lia|]. destruct (f y) eqn:Hy; intros Hc.
  - exists y. split; [by left|done].
  - destruct IH as (x & ? & ?); [simpl in Hc; lia|]. exists x. split; [by right|done].
Qed.

Lemma countb_le f g l : (forall x, x ∈ l -> f x = true -> g x = true) -> (countb f l <= countb g l)%nat.
Proof.
  induction l as [|y l IH]; intros Hfg; [done|]. simpl. assert (Nat.b2n (f y) <= Nat.b2n (g y))%nat.
  { destruct (f y) eqn:Hy; simpl; [|lia]. by rewrite (Hfg y (list_elem_of_here _ _) Hy). }
  assert (countb f l <= countb g l)%nat by (apply IH; intros x Hx; apply Hfg; by right). lia.
Qed.
End Count.

(** ** The pool's connections *)

Definition is_conn (o : Origin) (s : nat) (x : Origin * nat) : bool := bool_decide (x = (o, s)).
(** How often an HTTP/1 connection is idle under an origin, held in a lease, or opened. *)
Definition idle_count (p : Pool) (o : Origin) (s : nat) : nat :=
  countb (fun x => bool_decide (x = s)) (default [] (h1_idle p !! o)).
Definition lease_count (st : State) (o : Origin) (s : nat) : nat := countb (is_conn o s) (h1_lease st).
Definition h1_opened (op : list (Origin * Sender)) : list (Origin * nat) :=
  omap (fun x => match x.2 with S_H1 s => Some (x.1, s) | _ => None end) op.
Definition opened_count (op : list (Origin * Sender)) (o : Origin) (s : nat) : nat := countb (is_conn o s) (h1_opened op).

(** ** Moves *)

(** A move of task [t] that has sent what [ph] says, held [before], and opened
    the connections [op]. *)
Record Move (lim : Z) (t : nat) (ph : Phase) (before : State) (p : Pool) (op : list (Origin * Sender))
    (st' : State) (p' : Pool) (es : list Log) : Prop := {
  mv_new : match st' with A_Paused _ _ | A_Start => False | _ => True end;
  mv_task : Forall (fun e => log_task e = Some t) es;
  mv_phase : exists ph', phase_run ph es = Some ph' /\ matches lim st' ph';
  mv_h1 o s : (idle_count p' o s + lease_count st' o s <= idle_count p o s + lease_count before o s + opened_count op o s)%nat;
  mv_h2 o s : h2 p' !! o = Some s -> h2 p !! o = Some s \/ (o, S_H2 s) ∈ op;
  mv_lease l : lease_of st' = Some l ->
    lease_of before = Some l \/ (exists s, le_sender l = S_H1 s) \/
    (exists s, le_sender l = S_H2 s /\ h2 p !! le_origin l = Some s) \/ (le_origin l, le_sender l) ∈ op;
  mv_origin r l : run_of st' = Some r -> lease_of st' = Some l -> le_origin l = ru_origin r
}.

Definition Moves (lim : Z) (t : nat) (ph : Phase) (before : State) (op : list (Origin * Sender)) (c c' : Client) : Prop :=
  exists st' p' es, c' = moved t st' p' es c /\ Move lim t ph before (pool c) op st' p' es.

Lemma h1_lease_lease st l : lease_of st = Some l -> h1_lease st = h1_of l.
Proof. unfold h1_lease. by intros ->. Qed.

(** [checkin] of the lease that is held. *)
Lemma checkin_counts ready l p o s :
  (idle_count (checkin ready l p) o s <= idle_count p o s + countb (is_conn o s) (h1_of l))%nat.
Proof.
  unfold checkin, idle_count, h1_of. destruct (le_sender l) as [s'|s']; simpl; [|lia].
  destruct (ready s'); [|lia]. simpl. destruct (decide (le_origin l = o)) as [<-|Hne].
  - rewrite lookup_insert_eq. simpl. rewrite countb_app. simpl. unfold is_conn.
    assert (bool_decide (s' = s) = bool_decide ((le_origin l, s') = (le_origin l, s))) as -> by (apply bool_decide_ext; naive_solver).
    lia.
  - rewrite lookup_insert_ne by done. lia.
Qed.

Lemma checkin_h2 ready l p : h2 (checkin ready l p) = h2 p.
Proof. unfold checkin. destruct (le_sender l); [|done..]. by destruct (ready _). Qed.

Lemma pop_ready_counts ready l x :
  (countb (fun y => bool_decide (y = x)) (pop_ready ready l).2 +
   match (pop_ready ready l).1 with Some s => Nat.b2n (bool_decide (s = x)) | None => 0 end
   <= countb (fun y => bool_decide (y = x)) l)%nat.
Proof. induction l as [|y l IH]; simpl; [lia|]. destruct (ready y); simpl; lia. Qed.

Lemma checkout_counts ready o p l p' o' s :
  checkout ready o p = (l, p') ->
  (idle_count p' o' s + countb (is_conn o' s) (from_option h1_of [] l) <= idle_count p o' s)%nat.
Proof.
  unfold checkout. destruct (match h2 p !! o with Some _ => _ | None => _ end) as [x|];
    [intros [= <- <-]; simpl; unfold h1_of; simpl; lia|]. simpl.
  destruct (h1_idle p !! o) as [idle|] eqn:Hi; [|intros [= <- <-]; unfold idle_count; simpl; lia].
  pose proof (pop_ready_counts ready (reverse idle) s) as Hp. rewrite countb_reverse in Hp.
  destruct (pop_ready ready (reverse idle)) as [x rest]. simpl in Hp. intros [= <- <-]. unfold idle_count. simpl.
  destruct (decide (o = o')) as [<-|Hne].
  - rewrite lookup_insert_eq, Hi. simpl. rewrite countb_reverse. destruct x as [x|]; simpl; [|lia].
    unfold is_conn. assert (bool_decide ((o, x) = (o, s)) = bool_decide (x = s)) as -> by (apply bool_decide_ext; naive_solver).
    lia.
  - rewrite lookup_insert_ne by done. destruct x as [x|]; simpl; [|lia].
    unfold is_conn. rewrite bool_decide_eq_false_2 by naive_solver. simpl. lia.
Qed.

(** What a lease without a new connection comes from. *)
Lemma checkout_lease ready o p l p' :
  checkout ready o p = (l, p') ->
  (forall o' s, h2 p' !! o' = Some s -> h2 p !! o' = Some s) /\
  forall l', l = Some l' -> le_origin l' = o /\
    ((exists s, le_sender l' = S_H1 s /\ ready s = true) \/ exists s, le_sender l' = S_H2 s /\ ready s = true /\ h2 p !! o = Some s).
Proof.
  unfold checkout. destruct (match h2 p !! o with Some _ => _ | None => _ end) as [x|] eqn:Hx.
  - intros [= <- <-]. split; [done|]. intros l' [= <-]. simpl. split; [done|]. right. exists x.
    destruct (h2 p !! o) as [y|]; [|done]. by destruct (ready y) eqn:Hr; simplify_eq.
  - clear Hx. simpl. assert (Hd : forall o' s, delete o (h2 p) !! o' = Some s -> h2 p !! o' = Some s).
    { intros o' s Hs. by apply lookup_delete_Some in Hs as [_ ?]. }
    destruct (h1_idle p !! o) as [idle|]; [|by intros [= <- <-]].
    destruct (pop_ready ready (reverse idle)) as [x rest] eqn:Hp. intros [= <- <-]. split; [done|].
    intros l' Hl. destruct x as [x|]; [|done]. injection Hl as <-. simpl. split; [done|]. left. exists x. split; [done|].
    clear -Hp. induction (reverse idle) as [|y l IH]; simpl in Hp; [done|].
    destruct (ready y) eqn:Hr; [by simplify_eq|by apply IH].
Qed.

(** ** What the worker's functions do *)

Section Moves.
Context (heap : Z -> Z -> list Z).
Context (parse_uri : list Z -> option HttpUri) (uri_error http_error : list Z).
Context (method_from : list Z -> option (list Z)).
Context (header_from : list (list Z * list Z) -> list Z * list Z -> option (list Z * list Z)).
Notation request_on := (request_on parse_uri http_error header_from).
Notation attempt := (attempt parse_uri http_error header_from).

Lemma set_pool_moved t st p p' es c : moved t st p es (set_pool c p') = moved t st p es c.
Proof. done. Qed.

Lemma set_pool_id c : set_pool c (pool c) = c.
Proof. by destruct c. Qed.

Lemma finish_moved t job k m c : finish t job k m c = moved t A_Done (pool c) [L_done t k m (cb_done (j_cbs job))] c.
Proof. done. Qed.

Lemma trying_ends n t k m called : k <> ERR_NONE -> phase_step (Ph_Trying n) (L_done t k m called) = Some (Ph_End n).
Proof. intros Hk. simpl. by rewrite bool_decide_eq_false_2. Qed.

(** The end of a task, with whatever pool. *)
Lemma finish_moves lim t ph ph' before op job k m c p :
  phase_step ph (L_done t k m (cb_done (j_cbs job))) = Some ph' -> matches lim A_Done ph' ->
  (forall o s, (idle_count p o s <= idle_count (pool c) o s + lease_count before o s)%nat) -> h2 p = h2 (pool c) ->
  Moves lim t ph before op c (finish t job k m (set_pool c p)).
Proof.
  intros Hp Hm Hi Hh. rewrite finish_moved, set_pool_moved. exists A_Done, p, [L_done t k m (cb_done (j_cbs job))].
  split; [done|]. split; [done|by repeat constructor|exists ph'; simpl; by rewrite Hp| | |done|done].
  - intros o s. specialize (Hi o s). unfold lease_count at 1, h1_lease. simpl. lia.
  - rewrite Hh. auto.
Qed.

Lemma finish_here lim t ph ph' before op job k m c :
  phase_step ph (L_done t k m (cb_done (j_cbs job))) = Some ph' -> matches lim A_Done ph' ->
  Moves lim t ph before op c (finish t job k m c).
Proof. intros Hp Hm. rewrite <- (set_pool_id c) at 2. eapply finish_moves; [done|done| |done]. intros o s. lia. Qed.

(** A request goes out on a lease taken from the pool [p], or the builder fails. *)
Lemma request_on_moves lim t job r togo l n before op c p :
  0 <= n -> 1 <= togo -> n + togo <= lim -> le_origin l = ru_origin r ->
  (forall o s, (idle_count p o s + countb (is_conn o s) (h1_of l) <= idle_count (pool c) o s + lease_count before o s + opened_count op o s)%nat) ->
  (forall o s, h2 p !! o = Some s -> h2 (pool c) !! o = Some s \/ (o, S_H2 s) ∈ op) ->
  ((exists s, le_sender l = S_H1 s) \/ (exists s, le_sender l = S_H2 s /\ h2 (pool c) !! le_origin l = Some s) \/
   (le_origin l, le_sender l) ∈ op) ->
  Moves lim t (Ph_Trying n) before op c (request_on t job r togo l (set_pool c p)).
Proof.
  intros Hn Ht Hlim Ho Hi Hh Hl. unfold FfiClient.request_on.
  destruct (build_request _ _ _ _ _ _) as [[target hs]|].
  - exists (A_Send r l togo), p, [L_request t (le_sender l) (hu_text target) hs]. split; [done|].
    split; [done|by repeat constructor| |done|done| |].
    + exists (Ph_Trying (n + 1)). split; [done|]. exists (n + 1). split_and!; [done|lia..].
    + intros l' [= <-]. by right.
    + intros r' l' [= <-] [= <-]. done.
  - rewrite finish_moved, set_pool_moved. eexists A_Done, p, _. split; [done|].
    split; [done|by repeat constructor| | |done|done|done].
    + exists (Ph_End n). split; [done|]. exists n. split_and!; [done|lia..].
    + intros o s. specialize (Hi o s). unfold lease_count at 1, h1_lease. simpl. lia.
Qed.

(** The loop over the attempts, when the pool has become [p]. *)
Lemma attempt_moves lim ready t job r togo last n before op c p :
  0 <= n -> 0 <= togo -> n + togo <= lim -> (togo = 0 -> exists f, last = Some f /\ f_kind f <> ERR_NONE) ->
  (forall o s, (idle_count p o s <= idle_count (pool c) o s + lease_count before o s)%nat) -> h2 p = h2 (pool c) ->
  exists c', attempt ready t job r togo last (set_pool c p) = Val c' /\ Moves lim t (Ph_Trying n) before op c c'.
Proof.
  intros Hn Ht Hlim Hlast Hi Hh. unfold FfiClient.attempt. destruct (Z.eqb_spec togo 0) as [Hz|Hz].
  - destruct (Hlast Hz) as (f & -> & Hk). eexists. split; [done|]. eapply finish_moves; [by apply trying_ends| |done|done]. exists n. split_and!; [done|lia..].
  - cbn [pool set_pool]. destruct (checkout ready (ru_origin r) p) as [l p'] eqn:Hc.
    pose proof (fun o s => checkout_counts ready (ru_origin r) p l p' o s Hc) as Hcounts.
    destruct (checkout_lease ready (ru_origin r) p l p' Hc) as [Hp' Hl].
    eexists. split; [done|]. change (set_pool (set_pool c p) p') with (set_pool c p'). destruct l as [l|].
    + destruct (Hl l eq_refl) as [Hor Hs]. apply request_on_moves; try done; [lia| | |].
      * intros o s. specialize (Hcounts o s). specialize (Hi o s). simpl in Hcounts. lia.
      * intros o s Hs'. left. rewrite <- Hh. by apply Hp'.
      * rewrite Hor, <- Hh. destruct Hs as [(s & ? & _)|(s & ? & _ & ?)]; [left; by exists s|right; left; by exists s].
    + exists (A_Connect r togo), p', []. split; [unfold moved, goto, set_tasks, set_pool; simpl; by rewrite app_nil_r|].
      split; [done|done| | | |done|done].
      * exists (Ph_Trying n). split; [done|]. exists n. split_and!; [done|lia..].
      * intros o s. specialize (Hcounts o s). specialize (Hi o s). simpl in Hcounts. unfold lease_count at 1, h1_lease. simpl. lia.
      * intros o s Hs'. left. rewrite <- Hh. by apply Hp'.
Qed.

Lemma attempt_here lim ready t job r togo last n before op c :
  0 <= n -> 0 <= togo -> n + togo <= lim -> (togo = 0 -> exists f, last = Some f /\ f_kind f <> ERR_NONE) ->
  exists c', attempt ready t job r togo last c = Val c' /\ Moves lim t (Ph_Trying n) before op c c'.
Proof.
  intros. destruct (attempt_moves lim ready t job r togo last n before op c (pool c)) as (c' & Ha & Hm); try done; [intros; lia|].
  rewrite set_pool_id in Ha. by exists c'.
Qed.

Lemma origin_parse_fails url f : origin_parse parse_uri uri_error url = Err f -> f_kind f = ERR_INVALID_URL.
Proof. unfold origin_parse. repeat case_match; intros; by simplify_eq. Qed.

Lemma saturating_pos a : 0 <= a -> 1 <= saturating_add32 a 1.
Proof. unfold saturating_add32. lia. Qed.

Lemma run_job_moves ready t job c :
  0 <= j_max_retries job ->
  exists c', run_job parse_uri uri_error http_error method_from header_from ready t job c = Val c' /\
    Moves (limit method_from job) t (Ph_Trying 0) A_Start [] c c'.
Proof.
  intros Hr. assert (Hf : forall k m, k <> ERR_NONE -> Moves (limit method_from job) t (Ph_Trying 0) A_Start [] c (finish t job k m c)).
  { intros k m Hk. eapply finish_here; [by apply trying_ends|]. exists 0. split_and!; [done|lia..]. }
  unfold run_job. destruct (negb _); [eexists; split; [done|by apply Hf]|].
  destruct (origin_parse _ _ _) as [[origin uri]|f] eqn:Ho;
    [|eexists; split; [done|]; apply Hf; by rewrite (origin_parse_fails _ _ Ho)].
  unfold limit in *. destruct (method_from (j_method job)) as [m|]; [|eexists; split; [done|by apply Hf]].
  pose proof (saturating_pos _ Hr) as Hs. 
  apply attempt_here; try (destruct (is_idempotent m); lia).
Qed.

Lemma connected_moves ready t job r togo res n c lim :
  0 <= n -> 1 <= togo -> n + togo <= lim -> told_apart res = true ->
  exists c', connected parse_uri http_error header_from ready t job r togo res c = Val c' /\
    Moves lim t (Ph_Trying n) (A_Connect r togo) (match res with Ok s => [(ru_origin r, s)] | Err _ => [] end) c c'.
Proof.
  intros Hn Ht Hlim Htold. unfold connected. destruct res as [s|f].
  - eexists. split; [done|]. simpl. apply request_on_moves; try done.
    + intros o s'. unfold opened_count, h1_of. destruct s; simpl; unfold idle_count; simpl; lia.
    + intros o s'. destruct s as [x|x]; simpl; [by left|]. destruct (decide (ru_origin r = o)) as [<-|?].
      * rewrite lookup_insert_eq. intros [= <-]. right. by left.
      * rewrite lookup_insert_ne by done. by left.
    + right. right. by left.
  - simpl in Htold. apply negb_true_iff, bool_decide_eq_false in Htold. apply attempt_here; try lia. intros _. by eexists.
Qed.

Lemma sent_moves ready t job r l togo res act n c lim :
  1 <= n -> 1 <= togo -> n + togo <= lim + 1 -> le_origin l = ru_origin r ->
  exists c', sent parse_uri http_error header_from ready t job r l togo res act c = Val c' /\
    Moves lim t (Ph_Trying n) (A_Send r l togo) [] c c'.
Proof.
  intros Hn Ht Hlim Ho. unfold sent.
  assert (Hin : forall o s, (idle_count (checkin ready l (pool c)) o s <= idle_count (pool c) o s + lease_count (A_Send r l togo) o s)%nat).
  { intros o s. apply checkin_counts. }
  destruct res as [st v hs| |].
  - eexists. split; [done|]. destruct (cb_headers (j_cbs job)); [destruct act|].
    + exists (A_Frame l), (pool c), [L_head t st (http_version v) hs true]. split; [done|].
      split; [done|by repeat constructor| |unfold lease_count, h1_lease; simpl; lia|by left|by left|done].
      exists (Ph_Body n). simpl. destruct (Z.leb_spec 1 n); [|lia]. split; [done|]. exists n. split_and!; [done|lia..].
    + eexists A_Done, (pool c), [L_head t st (http_version v) hs true; _]. split.
      { unfold finish, moved, logs, goto, set_tasks, set_inflight. simpl. by rewrite <- app_assoc. }
      split; [done|by repeat constructor| |unfold lease_count, h1_lease; simpl; lia|by left|done|done].
      exists (Ph_End n). simpl. destruct (Z.leb_spec 1 n); [|lia]. split; [done|]. exists n. split_and!; [done|lia..].
    + exists (A_Frame l), (pool c), [L_head t st (http_version v) hs false]. split; [done|].
      split; [done|by repeat constructor| |unfold lease_count, h1_lease; simpl; lia|by left|by left|done].
      exists (Ph_Body n). simpl. destruct (Z.leb_spec 1 n); [|lia]. split; [done|]. exists n. split_and!; [done|lia..].
  - destruct (is_idempotent (ru_method r)).
    + apply attempt_moves; try lia; [intros _; by eexists|done|apply checkin_h2].
    + eexists. split; [done|]. eapply finish_moves; [done| |done|apply checkin_h2]. exists n. split_and!; [done|lia..].
  - eexists. split; [done|]. eapply finish_moves; [done| |done|apply checkin_h2]. exists n. split_and!; [done|lia..].
Qed.

(** A task that stays where it is, with something logged. *)
Lemma moved_same t job st es c :
  tasks c !! t = Some (mkTask job st) -> st <> A_Done ->
  moved t st (pool c) es c =
    mkClient (max_inflight c) (max_retries c) (proxied c) (next_id c) (closed c) (chan c) (chan_open c) (running c)
      (inflight c) (paused c) (paused_tab c) (cancelled c) (pool c) (tasks c) (log c ++ es).
Proof.
  intros Ht Hst. unfold moved. f_equal; [by destruct st|]. apply list_eq. intros i.
  destruct (decide (t = i)) as [<-|Hne]; [by rewrite list_lookup_alter_eq, Ht|by rewrite list_lookup_alter_ne].
Qed.

Lemma frame_moves ready t job l f act n c lim :
  1 <= n <= lim -> tasks c !! t = Some (mkTask job (A_Frame l)) -> 
  (match f, act with F_Data (_ :: _), CHUNK_PAUSE => cb_chunk (j_cbs job) = false | _, _ => True end) ->
  Moves lim t (Ph_Body n) (A_Frame l) [] c (frame ready t job l f act c).
Proof.
  intros Hn Ht Hf.
  assert (Hsame : forall es, Forall (fun e => exists ch, e = L_chunk t ch) es ->
     Moves lim t (Ph_Body n) (A_Frame l) [] c (moved t (A_Frame l) (pool c) es c)).
  { intros es He. exists (A_Frame l), (pool c), es. split; [done|].
    split; [done| | |unfold lease_count, h1_lease; simpl; lia|by left|by left|done].
    - eapply Forall_impl; [exact He|]. by intros e [ch ->].
    - exists (Ph_Body n). split; [|exists n; by split]. induction He as [|e es [ch ->] _ IH]; [done|]. exact IH. }
  assert (Hstay : Moves lim t (Ph_Body n) (A_Frame l) [] c c).
  { specialize (Hsame [] (Forall_nil_2 _)). rewrite (moved_same _ job) in Hsame by done. rewrite app_nil_r in Hsame. by destruct c. }
  unfold frame. destruct f as [|chunk| |e].
  - eapply finish_moves; [reflexivity|exists n; split_and!; [done|lia..]| |apply checkin_h2].
    intros o s. apply checkin_counts.
  - destruct chunk as [|b chunk]; [done|]. destruct (Z.eqb_spec (zlen (b :: chunk)) 0) as [Hz|_]; [rewrite zlen_cons in Hz; pose proof (zlen_nonneg chunk); lia|].
    destruct (cb_chunk (j_cbs job)); simpl; [|done]. destruct act; [|done|].
    + specialize (Hsame [L_chunk t (b :: chunk)]). rewrite (moved_same _ job) in Hsame by done. apply Hsame. repeat constructor. by eexists.
    + eexists A_Done, (pool c), [L_chunk t (b :: chunk); _]. split.
      { unfold finish, moved, logs, goto, set_tasks, set_inflight. simpl. by rewrite <- app_assoc. }
      split; [done|by repeat constructor| |unfold lease_count, h1_lease; simpl; lia|by left|done|done].
      exists (Ph_End n). split; [done|]. exists n. split_and!; [done|lia..].
  - done.
  - eapply finish_here; [done|]. exists n. split_and!; [done|lia..].
Qed.
End Moves.

(** ** The invariant *)

Definition is_live (k : Task) : bool := match t_state k with A_Done => false | _ => true end.
Definition is_paused (k : Task) : bool := match t_state k with A_Paused _ _ => true | _ => false end.
Definition is_send (cmd : Command) : bool := match cmd with Cmd_Send _ => true | _ => false end.
Definition holds (o : Origin) (s : nat) (k : Task) : bool := (1 <=? lease_count (t_state k) o s)%nat.

Lemma holds_count o s k : Nat.b2n (holds o s k) = lease_count (t_state k) o s.
Proof.
  unfold holds, lease_count, h1_lease, h1_of. destruct (lease_of (t_state k)) as [l|]; [|done]. simpl.
  destruct (le_sender l); [|done..]. simpl. by destruct (is_conn _ _ _).
Qed.

Section Inv.
Context (method_from : list Z -> option (list Z)).
Notation limit := (limit method_from).

(** Everything but the pauses; [op] are the connections opened so far, [lost] the
    slots that refused requests have kept. *)
Record Core (op : list (Origin * Sender)) (lost : Z) (c : Client) : Prop := {
  co_max : 0 < max_inflight c < 2 ^ 32 /\ 0 <= max_retries c;
  co_tasks t k : tasks c !! t = Some k -> 0 <= j_max_retries (t_job k);
  co_queue job : Cmd_Send job ∈ chan c -> 0 <= j_max_retries job;
  co_phase t k : tasks c !! t = Some k ->
    exists ph, phase_run (Ph_Trying 0) (trace t (log c)) = Some ph /\ matches (limit (t_job k)) (t_state k) ph;
  co_trace t : tasks c !! t = None -> trace t (log c) = [];
  co_slots : running c = true -> inflight c = Z.of_nat (countb is_live (tasks c)) + Z.of_nat (countb is_send (chan c)) + lost;
  co_inflight : 0 <= lost /\ 0 <= inflight c <= max_inflight c;
  co_closed : Cmd_Shutdown ∈ chan c \/ running c = false \/ chan_open c = false -> closed c = true;
  co_h1 o s : (idle_count (pool c) o s + countb (holds o s) (tasks c) <= opened_count op o s)%nat;
  co_h2 o s : h2 (pool c) !! o = Some s -> (o, S_H2 s) ∈ op;
  co_lease t k l : tasks c !! t = Some k -> lease_of (t_state k) = Some l -> (le_origin l, le_sender l) ∈ op;
  co_origin t k r l : tasks c !! t = Some k -> run_of (t_state k) = Some r -> lease_of (t_state k) = Some l -> le_origin l = ru_origin r
}.

(** The pauses: the counter, and [PAUSED] has exactly the tasks that wait. *)
Record Pauses (c : Client) : Prop := {
  pa_count : paused c = Z.of_nat (countb is_paused (tasks c));
  pa_tab id t : paused_tab c !! id = Some t <-> exists job l, tasks c !! t = Some (mkTask job (A_Paused l false)) /\ j_id job = id
}.

Lemma h1_opened_elem op o s : (o, s) ∈ h1_opened op -> (o, S_H1 s) ∈ op.
Proof.
  unfold h1_opened. rewrite list_elem_of_omap. intros ([o' x] & Hin & Hx). simpl in Hx. destruct x as [s'|s']; [|done..].
  by simplify_eq.
Qed.

Lemma opened_count_elem op o s : (1 <= opened_count op o s)%nat -> (o, S_H1 s) ∈ op.
Proof.
  intros Hc. apply countb_elem in Hc as (x & Hx & He). apply bool_decide_eq_true in He as ->. by apply h1_opened_elem.
Qed.

Lemma opened_count_app op op' o s : opened_count (op ++ op') o s = (opened_count op o s + opened_count op' o s)%nat.
Proof. unfold opened_count, h1_opened. by rewrite omap_app, countb_app. Qed.

Lemma alter_lookup_cases (l : list Task) t f t' k :
  alter f t l !! t' = Some k -> (t' = t /\ exists k0, l !! t = Some k0 /\ k = f k0) \/ (t' <> t /\ l !! t' = Some k).
Proof.
  destruct (decide (t = t')) as [<-|Hne].
  - rewrite list_lookup_alter_eq. intros (k0 & Hk & ->)%fmap_Some. left. split; [done|]. by exists k0.
  - rewrite list_lookup_alter_ne by done. right. by split.
Qed.

Lemma alter_lookup_none (l : list Task) t f t' : alter f t l !! t' = None <-> l !! t' = None.
Proof. rewrite !lookup_ge_None, length_alter. done. Qed.

Lemma trace_other t t' es : Forall (fun e => log_task e = Some t) es -> t' <> t -> trace t' es = [].
Proof.
  intros Hf Hne. induction Hf as [|e es He _ IH]; [done|]. unfold trace in *. rewrite filter_cons_False; [done|].
  rewrite He. congruence.
Qed.

Lemma trace_own t es : Forall (fun e => log_task e = Some t) es -> trace t es = es.
Proof. intros Hf. induction Hf as [|e es He _ IH]; [done|]. unfold trace in *. rewrite filter_cons_True by done. by f_equal. Qed.

(** A move keeps the core. *)
Lemma moved_core op opn lost t job st ph c c' :
  Core op lost c -> tasks c !! t = Some (mkTask job st) -> st <> A_Done -> running c = true ->
  phase_run (Ph_Trying 0) (trace t (log c)) = Some ph ->
  Moves (limit job) t ph st opn c c' -> Core (op ++ opn) lost c'.
Proof.
  intros HC Ht Hst Hrun Hph (st' & p' & es & -> & HM).
  pose proof (co_slots _ _ _ HC Hrun) as Hslots. pose proof (co_inflight _ _ _ HC) as [Hlost Hin].
  pose proof (co_max _ _ _ HC) as [Hmax Hret].
  pose proof (countb_alter is_live (fun k => mkTask (t_job k) st') _ _ _ Ht) as Hlive. simpl in Hlive.
  assert (Hl1 : is_live (mkTask job st) = true) by (by destruct st).
  rewrite Hl1 in Hlive. simpl in Hlive.
  split; unfold moved; simpl.
  - done.
  - intros t' k Hk. apply alter_lookup_cases in Hk as [(-> & k0 & Hk & ->)|[_ Hk]]; exact (co_tasks _ _ _ HC _ _ Hk).
  - apply (co_queue _ _ _ HC).
  - intros t' k Hk. rewrite trace_app. apply alter_lookup_cases in Hk as [(-> & k0 & Hk & ->)|[Hne Hk]].
    + rewrite Ht in Hk. injection Hk as <-. simpl. rewrite (trace_own t es) by apply HM. rewrite phase_run_app, Hph. simpl.
      by destruct (mv_phase _ _ _ _ _ _ _ _ _ HM) as (ph' & ? & ?); exists ph'.
    + rewrite (trace_other t t' es) by (done || apply HM). rewrite app_nil_r. by apply (co_phase _ _ _ HC).
  - intros t' Hn. apply alter_lookup_none in Hn. rewrite trace_app, (co_trace _ _ _ HC) by done. apply (trace_other t); [apply HM|].
    intros ->. congruence.
  - intros _. destruct st'; simpl in *; rewrite ?Hslots; try lia. unfold u32. rewrite Z.mod_small; lia.
  - split; [done|]. destruct st'; simpl in *; try lia. unfold u32. rewrite Z.mod_small; lia.
  - apply (co_closed _ _ _ HC).
  - intros o s. rewrite opened_count_app.
    pose proof (countb_alter (holds o s) (fun k => mkTask (t_job k) st') _ _ _ Ht) as Hh. rewrite !holds_count in Hh. simpl in Hh.
    pose proof (mv_h1 _ _ _ _ _ _ _ _ _ HM o s). pose proof (co_h1 _ _ _ HC o s). lia.
  - intros o s Hs. apply elem_of_app. destruct (mv_h2 _ _ _ _ _ _ _ _ _ HM o s Hs); [left; by apply (co_h2 _ _ _ HC)|by right].
  - intros t' k l Hk Hl. apply elem_of_app. apply alter_lookup_cases in Hk as [(-> & k0 & Hk & ->)|[Hne Hk]];
      [|left; by eapply (co_lease _ _ _ HC)].
    simpl in Hl. destruct (mv_lease _ _ _ _ _ _ _ _ _ HM l Hl) as [Hb|[[s Hs]|[(s & Hs & Hp)|Ho]]].
    + left. by apply (co_lease _ _ _ HC t _ l Ht).
    + assert (Hc : (1 <= opened_count (op ++ opn) (le_origin l) s)%nat).
      { rewrite opened_count_app.
        pose proof (countb_lookup (holds (le_origin l) s) _ _ _ Ht). pose proof (holds_count (le_origin l) s (mkTask job st)) as Hh. simpl in Hh.
        pose proof (mv_h1 _ _ _ _ _ _ _ _ _ HM (le_origin l) s) as H1. pose proof (co_h1 _ _ _ HC (le_origin l) s) as H2.
        assert (lease_count st' (le_origin l) s = 1)%nat.
        { unfold lease_count, h1_lease. rewrite Hl. simpl. unfold h1_of. rewrite Hs. simpl. unfold is_conn.
          by rewrite bool_decide_eq_true_2. }
        destruct (holds (le_origin l) s (mkTask job st)); simpl in *; lia. }
      apply opened_count_elem in Hc. rewrite Hs. by apply elem_of_app in Hc.
    + left. rewrite Hs. by apply (co_h2 _ _ _ HC).
    + by right.
  - intros t' k r l Hk Hr Hl. apply alter_lookup_cases in Hk as [(-> & k0 & Hk & ->)|[Hne Hk]];
      [|by eapply (co_origin _ _ _ HC)].
    by apply (mv_origin _ _ _ _ _ _ _ _ _ HM).
Qed.

(** A change of what a task waits for, with its lease, keeps the core. *)
Lemma core_restate op lost t job st st' c :
  Core op lost c -> tasks c !! t = Some (mkTask job st) -> lease_of st' = lease_of st -> run_of st' = None ->
  is_live (mkTask job st) = is_live (mkTask job st') -> (forall ph, matches (limit job) st ph -> matches (limit job) st' ph) ->
  Core op lost (goto t st' c).
Proof.
  intros HC Ht Hl Hr Hlive Hm.
  pose proof (countb_alter is_live (fun k => mkTask (t_job k) st') _ _ _ Ht) as Hcount. simpl in Hcount. rewrite Hlive in Hcount.
  split; unfold goto; simpl; try apply HC.
  - intros t' k Hk. apply alter_lookup_cases in Hk as [(-> & k0 & Hk & ->)|[_ Hk]]; exact (co_tasks _ _ _ HC _ _ Hk).
  - intros t' k Hk. apply alter_lookup_cases in Hk as [(-> & k0 & Hk & ->)|[_ Hk]]; [|by apply (co_phase _ _ _ HC)].
    rewrite Ht in Hk. injection Hk as <-. destruct (co_phase _ _ _ HC t _ Ht) as (ph & ? & ?). exists ph. split; [done|]. by apply Hm.
  - intros t' Hn. apply alter_lookup_none in Hn. by apply (co_trace _ _ _ HC).
  - intros Hrun. rewrite (co_slots _ _ _ HC Hrun). lia.
  - intros o s. pose proof (countb_alter (holds o s) (fun k => mkTask (t_job k) st') _ _ _ Ht) as Hh. rewrite !holds_count in Hh.
    simpl in Hh. assert (lease_count st' o s = lease_count st o s) by (unfold lease_count, h1_lease; by rewrite Hl).
    pose proof (co_h1 _ _ _ HC o s). lia.
  - intros t' k l Hk Hl'. apply alter_lookup_cases in Hk as [(-> & k0 & Hk & ->)|[_ Hk]]; [|by eapply (co_lease _ _ _ HC)].
    simpl in Hl'. rewrite Hl in Hl'. by apply (co_lease _ _ _ HC t _ l Ht).
  - intros t' k r l Hk Hr' Hl'. apply alter_lookup_cases in Hk as [(-> & k0 & Hk & ->)|[_ Hk]]; [|by eapply (co_origin _ _ _ HC)].
    simpl in Hr'. congruence.
Qed.

Lemma core_pause op lost c n tab cc : Core op lost c -> Core op lost (set_pause c n tab cc).
Proof. intros HC. by split; apply HC. Qed.

Lemma core_fire op lost c t : Core op lost c -> Core op lost (fire t c).
Proof.
  intros HC. unfold fire. destruct (tasks c !! t) as [[job st]|] eqn:Ht; [|done]. destruct st; try done.
  by apply (core_restate op lost t job _ _ c HC Ht).
Qed.

Lemma core_wake op lost c id : Core op lost c -> Core op lost (wake id c).
Proof. intros HC. unfold wake. destruct (paused_tab c !! id); [|done]. by apply core_fire, core_pause. Qed.

(** ** The pauses *)

(** A task that is not paused moves to a state that is not. *)
Lemma moved_pauses t job st st' p es c :
  Pauses c -> tasks c !! t = Some (mkTask job st) ->
  is_paused (mkTask job st) = false -> is_paused (mkTask job st') = false -> Pauses (moved t st' p es c).
Proof.
  intros HP Ht Hst Hst'. pose proof (countb_alter is_paused (fun k => mkTask (t_job k) st') _ _ _ Ht) as Hc. simpl in Hc.
  rewrite Hst, Hst' in Hc. split; unfold moved; simpl.
  - rewrite (pa_count _ HP). lia.
  - intros id t'. rewrite (pa_tab _ HP). split.
    + intros (j & l & Hk & ?). exists j, l. split; [|done]. rewrite list_lookup_alter_ne; [done|]. intros <-.
      rewrite Ht in Hk. by simplify_eq.
    + intros (j & l & Hk & ?). exists j, l. split; [|done]. apply alter_lookup_cases in Hk as [(-> & k0 & Hk & He)|[_ Hk]]; [|done].
      by simplify_eq.
Qed.

(** Waking up: the entry is gone from the table, and its task no longer waits. *)
Lemma wake_pauses id c : Pauses c -> Pauses (wake id c).
Proof.
  intros HP. unfold wake. destruct (paused_tab c !! id) as [t|] eqn:Ht; [|done].
  destruct (proj1 (pa_tab _ HP id t) Ht) as (job & l & Hk & Hid). unfold fire. simpl. rewrite Hk.
  pose proof (countb_alter is_paused (fun k => mkTask (t_job k) (A_Paused l true)) _ _ _ Hk) as Hc. simpl in Hc.
  split; unfold goto; simpl.
  - rewrite (pa_count _ HP). lia.
  - intros id' t'. rewrite lookup_delete_Some, (pa_tab _ HP). split.
    + intros (Hne & j & l' & Hk' & ?). exists j, l'. split; [|done]. rewrite list_lookup_alter_ne; [done|]. intros <-. congruence.
    + intros (j & l' & Hk' & Hj). apply alter_lookup_cases in Hk' as [(-> & k0 & Hk' & He)|[Hne Hk']]; [by simplify_eq|].
      split; [|by exists j, l']. intros ->. assert (paused_tab c !! id' = Some t') by (apply (pa_tab _ HP); by exists j, l').
      congruence.
Qed.

(** Resuming: the counter goes down with the task. *)
Lemma resumed_pauses t job l st' p es c n :
  Pauses c -> tasks c !! t = Some (mkTask job (A_Paused l true)) -> is_paused (mkTask job st') = false ->
  0 < paused c < 2 ^ 32 -> n = u32 (paused c - 1) -> forall cc, Pauses (moved t st' p es (set_pause c n (paused_tab c) cc)).
Proof.
  intros HP Ht Hst' Hn -> cc. pose proof (countb_alter is_paused (fun k => mkTask (t_job k) st') _ _ _ Ht) as Hc. simpl in Hc.
  rewrite Hst' in Hc. simpl in Hc. pose proof (pa_count _ HP) as Hcount. split; unfold moved; simpl.
  - unfold u32. rewrite Z.mod_small; lia.
  - intros id t'. rewrite (pa_tab _ HP). split.
    + intros (j & l' & Hk & ?). exists j, l'. split; [|done]. rewrite list_lookup_alter_ne; [done|]. intros <-. congruence.
    + intros (j & l' & Hk & ?). exists j, l'. split; [|done]. apply alter_lookup_cases in Hk as [(-> & k0 & Hk & He)|[_ Hk]]; [|done].
      by simplify_eq.
Qed.

(** Pausing: an older task under the same id is woken. *)
Lemma pause_pauses t job l c :
  Pauses c -> tasks c !! t = Some (mkTask job (A_Frame l)) -> paused c + 1 < 2 ^ 32 ->
  Pauses (goto t (A_Paused l false)
    match paused_tab c !! j_id job with
    | Some t' => fire t' (set_pause c (u32 (paused c + 1)) (<[j_id job := t]> (paused_tab c)) (cancelled c))
    | None => set_pause c (u32 (paused c + 1)) (<[j_id job := t]> (paused_tab c)) (cancelled c)
    end).
Proof.
  intros HP Ht Hlt.
  assert (Hfire : exists ts, 
    match paused_tab c !! j_id job with
    | Some t' => fire t' (set_pause c (u32 (paused c + 1)) (<[j_id job := t]> (paused_tab c)) (cancelled c))
    | None => set_pause c (u32 (paused c + 1)) (<[j_id job := t]> (paused_tab c)) (cancelled c)
    end = set_tasks (set_pause c (u32 (paused c + 1)) (<[j_id job := t]> (paused_tab c)) (cancelled c)) ts /\
    ts !! t = Some (mkTask job (A_Frame l)) /\ countb is_paused ts = countb is_paused (tasks c) /\
    forall t' j l', ts !! t' = Some (mkTask j (A_Paused l' false)) <-> tasks c !! t' = Some (mkTask j (A_Paused l' false)) /\ j_id j <> j_id job).
  { destruct (paused_tab c !! j_id job) as [t'|] eqn:Htab.
    - destruct (proj1 (pa_tab _ HP _ _) Htab) as (j' & l' & Hk & Hid). unfold fire. simpl. rewrite Hk.
      pose proof (countb_alter is_paused (fun k => mkTask (t_job k) (A_Paused l' true)) _ _ _ Hk) as Hc. simpl in Hc.
      eexists. split; [done|]. simpl. split; [|split; [lia|]].
      + rewrite list_lookup_alter_ne; [done|]. intros ->. congruence.
      + intros t2 j2 l2. split.
        * intros Hk2. apply alter_lookup_cases in Hk2 as [(-> & k0 & Hk2 & He)|[Hne Hk2]]; [by simplify_eq|]. split; [done|].
          intros Heq. apply Hne. assert (paused_tab c !! j_id job = Some t2) by (apply (pa_tab _ HP); by exists j2, l2). congruence.
        * intros [Hk2 Hne]. rewrite list_lookup_alter_ne; [done|]. intros <-. congruence.
    - exists (tasks c). split; [by destruct c|]. split_and!; [done|done|]. intros t2 j2 l2. split; [|by intros [? ?]].
      intros Hk2. split; [done|]. intros Heq. assert (paused_tab c !! j_id job = Some t2) by (apply (pa_tab _ HP); by exists j2, l2).
      congruence. }
  destruct Hfire as (ts & -> & Hts & Hcnt & Htab).
  pose proof (countb_alter is_paused (fun k => mkTask (t_job k) (A_Paused l false)) _ _ _ Hts) as Hc. simpl in Hc.
  pose proof (pa_count _ HP) as Hcount. split; unfold goto; simpl.
  - unfold u32. rewrite Z.mod_small; lia.
  - intros id t'. destruct (decide (j_id job = id)) as [<-|Hid].
    + rewrite lookup_insert_eq. split.
      * intros [= <-]. exists job, l. by rewrite list_lookup_alter_eq, Hts.
      * intros (j & l' & Hk & Hj). apply alter_lookup_cases in Hk as [(-> & _)|[_ Hk]]; [done|]. apply Htab in Hk as [_ ?]. done.
    + rewrite lookup_insert_ne, (pa_tab _ HP) by done. split.
      * intros (j & l' & Hk & Hj). exists j, l'. split; [|done]. rewrite list_lookup_alter_ne; [apply Htab; split; [done|congruence]|].
        intros <-. congruence.
      * intros (j & l' & Hk & Hj). exists j, l'. split; [|done]. apply alter_lookup_cases in Hk as [(-> & k0 & Hk & He)|[_ Hk]];
          [rewrite Hts in Hk; simplify_eq/=; done|by apply Htab in Hk as [? _]].
Qed.
End Inv.

(** ** Steps *)

Section Steps.
Context (heap : Z -> Z -> list Z).
Context (parse_uri : list Z -> option HttpUri) (uri_error http_error : list Z).
Context (method_from : list Z -> option (list Z)).
Context (header_from : list (list Z * list Z) -> list Z * list Z -> option (list Z * list Z)).
Notation limit := (limit method_from).
Notation Core := (Core method_from).
Notation send := (send heap).
Notation step := (step heap parse_uri uri_error http_error method_from header_from).
Notation run := (run heap parse_uri uri_error http_error method_from header_from).

(** Changes outside of the tasks, the pool and the tasks' part of the log. *)
Lemma core_same op lost lost' c c' :
  Core op lost c -> max_inflight c' = max_inflight c -> max_retries c' = max_retries c -> tasks c' = tasks c -> pool c' = pool c ->
  (forall t, trace t (log c') = trace t (log c)) ->
  (forall job, Cmd_Send job ∈ chan c' -> 0 <= j_max_retries job) ->
  (running c' = true -> running c = true /\
     inflight c' - Z.of_nat (countb is_send (chan c')) - lost' = inflight c - Z.of_nat (countb is_send (chan c)) - lost) ->
  0 <= lost' -> 0 <= inflight c' <= max_inflight c ->
  (Cmd_Shutdown ∈ chan c' \/ running c' = false \/ chan_open c' = false -> closed c' = true) -> Core op lost' c'.
Proof.
  intros HC H1 H2 H3 H4 H5 H6 H7 H8 H9 H10. split; rewrite ?H1, ?H2, ?H3, ?H4; try apply HC; try done.
  - intros t k Hk. rewrite H5. by apply (co_phase _ _ _ _ HC).
  - intros t Hk. rewrite H5. by apply (co_trace _ _ _ _ HC).
  - intros Hr. destruct (H7 Hr) as [Hr' He]. pose proof (co_slots _ _ _ _ HC Hr'). lia.
Qed.

Lemma pauses_same c c' : Pauses c -> paused c' = paused c -> paused_tab c' = paused_tab c -> tasks c' = tasks c -> Pauses c'.
Proof. intros HP H1 H2 H3. split; rewrite ?H1, ?H2, ?H3; apply HP. Qed.

Lemma trace_send l st t : trace t (l ++ [L_send st]) = trace t l.
Proof. rewrite trace_app. unfold trace at 2. rewrite filter_cons_False by done. apply app_nil_r. Qed.

(** The slots a request has taken that was not accepted. *)
Definition lost_by (e : Event) (c : Client) : Z :=
  match e with
  | E_send request out cbs =>
      match send request out cbs c with
      | Some (st, c') => if bool_decide (st = STATUS_OK) then 0 else inflight c' - inflight c
      | None => 0
      end
  | _ => 0
  end.

Lemma validate_cases abi size m :
  validate_header abi size m = STATUS_OK \/ validate_header abi size m = STATUS_ABI_MISMATCH \/ validate_header abi size m = STATUS_STRUCT_SIZE.
Proof. unfold validate_header. destruct (negb _); [right; by left|]. destruct (_ <? _); [right; by right|by left]. Qed.

(** What [send] does to the client, by what it answers. *)
Lemma send_cases request out cbs c st c' :
  send request out cbs c = Some (st, c') ->
  (c' = c /\ st <> STATUS_OK) \/
  inflight c < max_inflight c /\ closed c = false /\
    ((c' = set_inflight c (inflight c + 1) /\ (st = STATUS_ABI_MISMATCH \/ st = STATUS_STRUCT_SIZE \/ st = STATUS_INVALID_ARG)) \/
     exists job, j_max_retries job = max_retries c /\ j_cbs job = cbs /\ j_id job = next_id c /\
       let c1 := set_next_id (set_inflight c (inflight c + 1)) (Z.max (u64 (next_id c + 1)) 1) in
       (chan_open c = true /\ st = STATUS_OK /\ c' = set_chan c1 (chan c ++ [Cmd_Send job]) true (running c)) \/
       (chan_open c = false /\ st = STATUS_CLOSED /\ c' = set_inflight c1 (u32 (inflight c + 1 - 1)))).
Proof.
  unfold FfiClient.send. destruct request as [req|]; [|intros [= <- <-]; by left].
  destruct out; simpl; [|intros [= <- <-]; by left]. destruct (closed c) eqn:Hcl; [intros [= <- <-]; by left|].
  destruct (Z.ltb_spec (inflight c) (max_inflight c)) as [Hlt|]; simpl; [|intros [= <- <-]; by left].
  destruct (read 4 0 req) as [abi|]; simpl; [|done]. destruct (read 4 4 req) as [size|]; simpl; [|done].
  intros Hs. right. split; [done|]. split; [done|].
  destruct (validate_cases abi size REQUEST_MIN_SIZE) as [Hv|Hv]; [|left; destruct Hv as [Hv|Hv]; rewrite Hv in Hs; simpl in Hs; injection Hs as <- <-; auto].
  rewrite Hv in Hs. simpl in Hs. destruct (request_read req) as [r|]; simpl in Hs; [|done].
  case_bool_decide; [injection Hs as <- <-; left; auto|].
  destruct (read_headers _ _ _) as [hs|]; simpl in Hs; [|done].
  right. eexists (mkJob _ _ _ _ _ _ cbs). split; [done|]. split; [done|]. split; [done|]. simpl.
  destruct (chan_open c); injection Hs as <- <-; [left|right]; by split_and!.
Qed.

Lemma send_core op lost request out cbs c st c' :
  Core op lost c -> send request out cbs c = Some (st, c') ->
  Core op (lost + (if bool_decide (st = STATUS_OK) then 0 else inflight c' - inflight c)) (logs (L_send st) c').
Proof.
  intros HC Hs. pose proof (co_inflight _ _ _ _ HC) as [Hl Hi]. pose proof (co_closed _ _ _ _ HC) as Hcl.
  destruct (send_cases _ _ _ _ _ _ Hs) as [[-> Hst]|(Hlt & Hclosed & [[-> Hst]|(job & Hr & _ & _ & Hcase)])].
  - rewrite bool_decide_eq_false_2 by done.
    apply (core_same op lost _ c _ HC); try done; simpl; try lia; [intros t; apply trace_send|apply (co_queue _ _ _ _ HC)|intros Hr; split; [done|lia]].
  - rewrite bool_decide_eq_false_2 by (by intros ->; naive_solver).
    apply (core_same op lost _ c _ HC); try done; simpl; try lia; [intros t; apply trace_send|apply (co_queue _ _ _ _ HC)|intros Hr; split; [done|lia]].
  - simpl in Hcase. destruct Hcase as [(Ho & -> & ->)|(Ho & -> & ->)].
    + rewrite bool_decide_eq_true_2 by done.
      apply (core_same op lost _ c _ HC); try done; simpl; try lia; [intros t; apply trace_send| | |].
      * intros j [Hj|Hj%list_elem_of_singleton]%elem_of_app; [by apply (co_queue _ _ _ _ HC)|]. injection Hj as ->.
        rewrite Hr. apply HC.
      * intros Hrun. rewrite countb_app. simpl. split; [done|lia].
      * intros [[Hj|Hj%list_elem_of_singleton]%elem_of_app|[Hj|Hj]]; try done; apply Hcl; auto.
    + exfalso. rewrite Hcl in Hclosed by auto. done.
Qed.

Lemma send_pauses request out cbs c st c' :
  Pauses c -> send request out cbs c = Some (st, c') -> Pauses (logs (L_send st) c').
Proof.
  intros HP Hs. destruct (send_cases _ _ _ _ _ _ Hs) as [[-> Hst]|(_ & _ & [[-> Hst]|(job & _ & _ & _ & Hcase)])];
    [by apply (pauses_same c)..|]. simpl in Hcase. by destruct Hcase as [(_ & -> & ->)|(_ & -> & ->)]; apply (pauses_same c).
Qed.

(** The other calls of the host only use the channel. *)
Lemma try_send_core op lost cmd c :
  Core op lost c -> is_send cmd = false -> (cmd = Cmd_Shutdown -> closed c = true) -> Core op lost (try_send cmd c).2.
Proof.
  intros HC Hns Hsh. unfold try_send. destruct (chan_open c) eqn:Ho; [|done]. simpl.
  pose proof (co_closed _ _ _ _ HC) as Hcl.
  apply (core_same op lost _ c _ HC); try done; simpl; try apply (co_inflight _ _ _ _ HC).
  - intros j [Hj|Hj%list_elem_of_singleton]%elem_of_app; [by apply (co_queue _ _ _ _ HC)|]. by subst cmd.
  - intros Hr. rewrite countb_app. simpl. rewrite Hns. simpl. split; [done|lia].
  - intros [[Hj|Hj%list_elem_of_singleton]%elem_of_app|[Hj|Hj]]; try done; [apply Hcl; auto|by apply Hsh|apply Hcl; auto].
Qed.

Lemma close_core op lost c : Core op lost c -> Core op lost (client_close c).
Proof.
  intros HC. unfold client_close. destruct (closed c) eqn:Hc; [done|].
  assert (HC' : Core op lost (set_closed c)).
  { apply (core_same op lost _ c _ HC); try done; simpl; try apply (co_inflight _ _ _ _ HC). apply (co_queue _ _ _ _ HC). }
  assert (HC2 : Core op lost (try_send Cmd_Shutdown (set_closed c)).2) by (by apply try_send_core).
  assert (Hcl : closed (try_send Cmd_Shutdown (set_closed c)).2 = true) by (unfold try_send; by destruct (chan_open _)).
  apply (core_same op lost _ _ _ HC2); try done; simpl; try apply (co_inflight _ _ _ _ HC2); try apply (co_queue _ _ _ _ HC2).
Qed.

(** A command taken from the channel. *)
Lemma pop_core op lost c cmd q :
  Core op lost c -> chan c = cmd :: q -> is_send cmd = false -> Core op lost (set_chan c q (chan_open c) (running c)).
Proof.
  intros HC Hq Hs. apply (core_same op lost _ c _ HC); try done; simpl; try apply (co_inflight _ _ _ _ HC).
  - intros j Hj. apply (co_queue _ _ _ _ HC). rewrite Hq. by right.
  - intros Hr. rewrite Hq. simpl. rewrite Hs. simpl. split; [done|lia].
  - intros [Hj|Hj]; apply (co_closed _ _ _ _ HC); [left; rewrite Hq; by right|by right].
Qed.

Lemma spawn_core op lost c job q :
  Core op lost c -> chan c = Cmd_Send job :: q -> running c = true ->
  Core op lost (set_tasks (set_chan c q (chan_open c) (running c)) (tasks c ++ [mkTask job A_Start])).
Proof.
  intros HC Hq Hr.
  assert (Hnew : forall t k, (tasks c ++ [mkTask job A_Start]) !! t = Some k ->
            tasks c !! t = Some k \/ (tasks c !! t = None /\ k = mkTask job A_Start)).
  { intros t k Hk. apply lookup_app_Some in Hk as [Hk|[Hle Hk]]; [by left|]. right. split; [by apply lookup_ge_None|].
    by apply list_lookup_singleton_Some in Hk as [_ ->]. }
  split; simpl; try apply HC.
  - intros t k Hk. apply Hnew in Hk as [Hk|[_ ->]]; [exact (co_tasks _ _ _ _ HC _ _ Hk)|]. apply (co_queue _ _ _ _ HC). rewrite Hq. by left.
  - intros j Hj. apply (co_queue _ _ _ _ HC). rewrite Hq. by right.
  - intros t k Hk. apply Hnew in Hk as [Hk|[Hn ->]]; [by apply (co_phase _ _ _ _ HC)|].
    rewrite (co_trace _ _ _ _ HC) by done. by exists (Ph_Trying 0).
  - intros t Hn. rewrite lookup_ge_None, length_app in Hn. apply (co_trace _ _ _ _ HC), lookup_ge_None. lia.
  - intros _. rewrite (co_slots _ _ _ _ HC Hr), Hq, countb_app. simpl. lia.
  - intros [Hj|Hj]; apply (co_closed _ _ _ _ HC); [left; rewrite Hq; by right|by right].
  - intros o s. rewrite countb_app. pose proof (co_h1 _ _ _ _ HC o s). simpl. lia.
  - intros t k l Hk Hl. apply Hnew in Hk as [Hk|[_ ->]]; [by eapply (co_lease _ _ _ _ HC)|done].
  - intros t k r l Hk Hr' Hl. apply Hnew in Hk as [Hk|[_ ->]]; [by eapply (co_origin _ _ _ _ HC)|done].
Qed.

Lemma spawn_pauses c job q :
  Pauses c -> Pauses (set_tasks (set_chan c q (chan_open c) (running c)) (tasks c ++ [mkTask job A_Start])).
Proof.
  intros HP. split; simpl.
  - rewrite countb_app, (pa_count _ HP). simpl. lia.
  - intros id t. rewrite (pa_tab _ HP). split; intros (j & l & Hk & ?); exists j, l; (split; [|done]).
    + by apply lookup_app_l_Some.
    + apply lookup_app_Some in Hk as [Hk|[_ Hk]]; [done|]. by apply list_lookup_singleton_Some in Hk as [_ ?].
Qed.

Lemma command_good op lost c c' :
  Core op lost c -> Pauses c -> running c = true -> command c = Some c' -> Core op lost c' /\ Pauses c'.
Proof.
  intros HC HP Hr. unfold command. destruct (chan c) as [|cmd q] eqn:Hq; [done|]. intros [= <-].
  destruct cmd as [job|id|id|].
  - split; [by apply spawn_core|by apply spawn_pauses].
  - split; [apply core_wake, core_pause; by eapply pop_core|]. apply wake_pauses. by apply (pauses_same c).
  - split; [apply core_wake; by eapply pop_core|]. apply wake_pauses. by apply (pauses_same c).
  - split; [|by apply (pauses_same c)]. pose proof (co_inflight _ _ _ _ HC) as [? ?].
    apply (core_same op lost _ c _ HC); try done; simpl.
    + intros j Hj. by apply elem_of_nil in Hj.
    + intros _. apply (co_closed _ _ _ _ HC). left. rewrite Hq. by left.
Qed.

(** The connection an event opens. *)
Definition opened_by (e : Event) (c : Client) : list (Origin * Sender) :=
  match e with
  | E_connected t _ (Ok s) =>
      match tasks c !! t with Some (mkTask _ (A_Connect r _)) => [(ru_origin r, s)] | _ => [] end
  | _ => []
  end.

Lemma moves_pauses lim t job st ph op c c' :
  Pauses c -> tasks c !! t = Some (mkTask job st) -> is_paused (mkTask job st) = false ->
  Moves lim t ph st op c c' -> Pauses c'.
Proof.
  intros HP Ht Hst (st' & p' & es & -> & HM). eapply moved_pauses; [done|done|done|].
  pose proof (mv_new _ _ _ _ _ _ _ _ _ HM). by destruct st'.
Qed.

(** The state of a task that waits says what it has done. *)
Lemma core_matches op lost c t job st :
  Core op lost c -> tasks c !! t = Some (mkTask job st) ->
  exists ph, phase_run (Ph_Trying 0) (trace t (log c)) = Some ph /\ matches (limit job) st ph.
Proof. intros HC Ht. exact (co_phase _ _ _ _ HC t _ Ht). Qed.

Lemma paused_bound op lost c t job l :
  Core op lost c -> Pauses c -> running c = true -> tasks c !! t = Some (mkTask job (A_Frame l)) -> 0 <= paused c /\ paused c + 1 < 2 ^ 32.
Proof.
  intros HC HP Hr Ht. rewrite (pa_count _ HP). pose proof (co_slots _ _ _ _ HC Hr). pose proof (co_inflight _ _ _ _ HC).
  pose proof (co_max _ _ _ _ HC).
  pose proof (countb_alter is_paused (fun k => mkTask (t_job k) (A_Paused l false)) _ _ _ Ht) as Hc. simpl in Hc.
  assert (Hle : (countb is_paused (alter (fun k => mkTask (t_job k) (A_Paused l false)) t (tasks c)) <=
          countb is_live (alter (fun k => mkTask (t_job k) (A_Paused l false)) t (tasks c)))%nat).
  { apply countb_le. intros k _. unfold is_paused, is_live. by destruct (t_state k). }
  pose proof (countb_alter is_live (fun k => mkTask (t_job k) (A_Paused l false)) _ _ _ Ht) as Hc2. simpl in Hc2. lia.
Qed.

Lemma fire_frame t t' job l c : tasks c !! t = Some (mkTask job (A_Frame l)) -> tasks (fire t' c) !! t = Some (mkTask job (A_Frame l)).
Proof.
  intros Ht. unfold fire. destruct (tasks c !! t') as [[j st]|] eqn:Ht'; [|done]. destruct st; try done. simpl.
  rewrite list_lookup_alter_ne; [done|]. intros ->. congruence.
Qed.

Lemma moves_good op opn lost t job st ph c c' :
  Core op lost c -> Pauses c -> tasks c !! t = Some (mkTask job st) -> st <> A_Done -> is_paused (mkTask job st) = false ->
  running c = true -> phase_run (Ph_Trying 0) (trace t (log c)) = Some ph -> Moves (limit job) t ph st opn c c' ->
  Core (op ++ opn) lost c' /\ Pauses c'.
Proof. intros. split; [by eapply moved_core|by eapply moves_pauses]. Qed.

Lemma frame_good op lost ready t job l f act c :
  Core op lost c -> Pauses c -> running c = true -> tasks c !! t = Some (mkTask job (A_Frame l)) ->
  Core op lost (frame ready t job l f act c) /\ Pauses (frame ready t job l f act c).
Proof.
  intros HC HP Hr Ht. destruct (core_matches _ _ _ _ _ _ HC Ht) as (ph & Hph & n & -> & Hn).
  assert (Hmove : forall act, (match f, act with F_Data (_ :: _), CHUNK_PAUSE => cb_chunk (j_cbs job) = false | _, _ => True end) ->
     Core op lost (frame ready t job l f act c) /\ Pauses (frame ready t job l f act c)).
  { intros act' Hact. rewrite <- (app_nil_r op). eapply moves_good; [done..|]. by apply frame_moves. }
  destruct f as [|chunk| |e]; [by apply Hmove| |by apply Hmove..]. destruct chunk as [|b chunk]; [by apply Hmove|].
  destruct act; [by apply Hmove| |by apply Hmove]. destruct (cb_chunk (j_cbs job)) eqn:Hact; [|by apply Hmove].
  destruct (Hmove CHUNK_CONTINUE) as [HC1 HP1]; [done|]. unfold frame in *.
  destruct (Z.eqb_spec (zlen (b :: chunk)) 0) as [Hz|_]; [rewrite zlen_cons in Hz; pose proof (zlen_nonneg chunk); lia|].
  rewrite Hact in *. cbn [negb] in *.
  set (c1 := logs (L_chunk t (b :: chunk)) c) in *.
  change (paused c) with (paused c1). change (paused_tab c) with (paused_tab c1). change (cancelled c) with (cancelled c1).
  destruct (paused_bound _ _ c t job l HC HP Hr Ht) as [_ Hb].
  split; [|by apply pause_pauses].
  apply (core_restate method_from op lost t job (A_Frame l)); try done.
  - destruct (paused_tab c1 !! j_id job); [apply core_fire|]; by apply core_pause.
  - destruct (paused_tab c1 !! j_id job); [by apply fire_frame|done].
Qed.

Lemma resumed_good op lost t job l c :
  Core op lost c -> Pauses c -> running c = true -> tasks c !! t = Some (mkTask job (A_Paused l true)) ->
  Core op lost (resumed t job l c) /\ Pauses (resumed t job l c).
Proof.
  intros HC HP Hr Ht. destruct (core_matches _ _ _ _ _ _ HC Ht) as (ph & Hph & n & -> & Hn).
  assert (Hb : 0 < paused c < 2 ^ 32).
  { rewrite (pa_count _ HP). pose proof (countb_lookup is_paused _ _ _ Ht eq_refl).
    assert (countb is_paused (tasks c) <= countb is_live (tasks c))%nat.
    { apply countb_le. intros k _. unfold is_paused, is_live. by destruct (t_state k). }
    pose proof (co_slots _ _ _ _ HC Hr). pose proof (co_inflight _ _ _ _ HC). pose proof (co_max _ _ _ _ HC). lia. }
  assert (Hgen : forall st' es cc, is_paused (mkTask job st') = false ->
    Move (limit job) t (Ph_Body n) (A_Paused l true) (pool c) [] st' (pool c) es ->
    Core op lost (moved t st' (pool c) es (set_pause c (u32 (paused c - 1)) (paused_tab c) cc)) /\
    Pauses (moved t st' (pool c) es (set_pause c (u32 (paused c - 1)) (paused_tab c) cc))).
  { intros st' es cc Hst' HM. split.
    - rewrite <- (app_nil_r op). eapply (moved_core method_from op [] lost t job (A_Paused l true)); [by apply core_pause|done|done|done|exact Hph|].
      by exists st', (pool c), es.
    - by eapply resumed_pauses. }
  unfold resumed. cbn [cancelled set_pause]. case_bool_decide.
  - apply (Hgen A_Done [L_done t ERR_CANCELLED (bs "cancelled") (cb_done (j_cbs job))]); [done|].
    split; [done|by repeat constructor| |unfold lease_count, h1_lease; simpl; lia|by left|done|done].
    exists (Ph_End n). split; [done|]. exists n. split_and!; [done|lia..].
  - pose proof (Hgen (A_Frame l) [] (cancelled c)) as Hg. unfold moved in Hg. cbn [log set_pause] in Hg. rewrite app_nil_r in Hg.
    apply Hg; [done|]. split; [done|done| |unfold lease_count, h1_lease; simpl; lia|by left|by left|done].
    exists (Ph_Body n). split; [done|]. by exists n.
Qed.

(** Every event: nothing panics, and the invariant is kept. *)
Lemma step_good op lost c e :
  Core op lost c -> Pauses c ->
  exists o, step e c = Val o /\ forall c', o = Some c' -> Core (op ++ opened_by e c) (lost + lost_by e c) c' /\ Pauses c'.
Proof.
  intros HC HP. destruct e as [req out cbs|id|id| | |t ready|t ready res|t ready res act|t ready f act|t]; simpl;
    rewrite ?app_nil_r, ?Z.add_0_r.
  - eexists. split; [done|]. intros c' Hc. destruct (send req out cbs c) as [[st c1]|] eqn:Hs; [|done]. injection Hc as <-.
    split; [by eapply send_core|by eapply send_pauses].
  - eexists. split; [done|]. intros c' [= <-]. split; [by apply try_send_core|].
    unfold client_resume, try_send. destruct (chan_open c); [by apply (pauses_same c)|done].
  - eexists. split; [done|]. intros c' [= <-]. split; [by apply try_send_core|].
    unfold client_cancel, try_send. destruct (chan_open c); [by apply (pauses_same c)|done].
  - eexists. split; [done|]. intros c' [= <-]. split; [by apply close_core|].
    unfold client_close, try_send. destruct (closed c); [done|]. by apply (pauses_same c); simpl; destruct (chan_open c).
  - destruct (running c) eqn:Hr; eexists; (split; [done|]); [|done]. intros c' Hc. by eapply command_good.
  - destruct (running c) eqn:Hr; [|by eexists]. destruct (tasks c !! t) as [[job st]|] eqn:Ht; [|by eexists].
    destruct st; try by eexists.
    destruct (core_matches _ _ _ _ _ _ HC Ht) as (ph & Hph & ->).
    destruct (run_job_moves parse_uri uri_error http_error method_from header_from ready t job c) as (c1 & Hrun & HM);
      [exact (co_tasks _ _ _ _ HC t _ Ht)|]. rewrite Hrun. eexists. split; [done|]. intros c' [= <-].
    rewrite <- (app_nil_r op). by eapply moves_good.
  - destruct (running c) eqn:Hr; [|by eexists]. destruct (told_apart res) eqn:Htold; [|by eexists].
    destruct (tasks c !! t) as [[job st]|] eqn:Ht; [|by eexists].
    destruct st as [|r togo|r l togo|l|l b|]; try by eexists.
    destruct (core_matches _ _ _ _ _ _ HC Ht) as (ph & Hph & n & -> & Hn & Htg & Hlim).
    destruct (connected_moves parse_uri http_error header_from ready t job r togo res n c (limit job)) as (c1 & Hrun & HM);
      [done..|]. rewrite Hrun. eexists. split; [done|]. intros c' [= <-]. by eapply moves_good.
  - destruct (running c) eqn:Hr; [|by eexists]. destruct (tasks c !! t) as [[job st]|] eqn:Ht; [|by eexists].
    destruct st as [|r togo|r l togo|l|l b|]; try by eexists.
    destruct (core_matches _ _ _ _ _ _ HC Ht) as (ph & Hph & n & -> & Hn & Htg & Hlim).
    destruct (sent_moves parse_uri http_error header_from ready t job r l togo res act n c (limit job)) as (c1 & Hrun & HM);
      [done..|exact (co_origin _ _ _ _ HC t _ r l Ht eq_refl eq_refl)|]. rewrite Hrun. eexists. split; [done|]. intros c' [= <-].
    rewrite <- (app_nil_r op). by eapply moves_good.
  - destruct (running c) eqn:Hr; [|by eexists]. destruct (tasks c !! t) as [[job st]|] eqn:Ht; [|by eexists].
    destruct st; try by eexists. eexists. split; [done|]. intros c' [= <-]. by apply frame_good.
  - destruct (running c) eqn:Hr; [|by eexists]. destruct (tasks c !! t) as [[job st]|] eqn:Ht; [|by eexists].
    destruct st as [|r togo|r l togo|l|l b|]; try by eexists. destruct b; [|by eexists].
    eexists. split; [done|]. intros c' [= <-]. by apply resumed_good.
Qed.

(** ** Runs *)

Fixpoint opened (es : list Event) (c : Client) : list (Origin * Sender) :=
  match es with
  | [] => []
  | e :: es' => opened_by e c ++ match step e c with Val (Some c') => opened es' c' | _ => [] end
  end.
Fixpoint lost_slots (es : list Event) (c : Client) : Z :=
  match es with
  | [] => 0
  | e :: es' => lost_by e c + match step e c with Val (Some c') => lost_slots es' c' | _ => 0 end
  end.

Lemma client_run_good op lost es c c' :
  Core op lost c -> Pauses c -> run es c = Val (Some c') -> Core (op ++ opened es c) (lost + lost_slots es c) c' /\ Pauses c'.
Proof.
  revert op lost c. induction es as [|e es IH]; intros op lost c HC HP.
  - intros [= <-]. simpl. by rewrite app_nil_r, Z.add_0_r.
  - simpl. destruct (step_good op lost c e HC HP) as (o & He & Ho). rewrite He. simpl. destruct o as [c1|]; [|done].
    intros Hr. destruct (Ho c1 eq_refl) as [HC1 HP1]. rewrite app_assoc, Z.add_assoc. by apply IH.
Qed.

Definition cfg_ok (cfg : ClientCfg) : Prop := 0 < cf_max_inflight cfg < 2 ^ 32 /\ 0 <= cf_max_retries cfg.

Lemma start_good cfg : cfg_ok cfg -> Core [] 0 (client_start cfg) /\ Pauses (client_start cfg).
Proof.
  intros [Hm Hr]. split; [split; unfold client_start; simpl; try done; try lia|split; unfold client_start; simpl; [done|]].
  - intros job Hj. by apply elem_of_nil in Hj.
  - intros [Hj|[?|?]]; [by apply elem_of_nil in Hj|done..].
  - intros id t. rewrite lookup_empty. split; [done|]. by intros (j & l & Hk & _).
Qed.

Lemma reach_good cfg es c :
  cfg_ok cfg -> run es (client_start cfg) = Val (Some c) ->
  Core (opened es (client_start cfg)) (lost_slots es (client_start cfg)) c /\ Pauses c.
Proof. intros Hc Hr. destruct (start_good cfg Hc) as [HC HP]. exact (client_run_good [] 0 es _ c HC HP Hr). Qed.

End Steps.
