(* ===== verification/FfiClientThms.v ===== *)
(** * What the client of the C interface guarantees

    Over every run of the host and the worker: the callbacks of a request come in
    order, each at most once where it should, and a request that is not
    idempotent is sent at most once; connections are not shared or mixed between
    origins; the slots are accounted for, those included that a refused request
    never gives back; a resumed request wakes; what a cancellation and a closed
    client do and do not do.  The invariant is that of [FfiClientInv]. *)
From S2P Require Import Prelude ClientProxy FfiAbi FfiClient FfiClientInv.

Section Steps.
Context (heap : Z -> Z -> list Z).
Context (parse_uri : list Z -> option HttpUri) (uri_error http_error : list Z).
Context (method_from : list Z -> option (list Z)).
Context (header_from : list (list Z * list Z) -> list Z * list Z -> option (list Z * list Z)).
Notation limit := (limit method_from).
Notation Core := (Core method_from).
Notation send := (send heap).
Notation step := (step heap parse_uri uri_error http_error method_from header_from).
Notation run := (run heap parse_uri uri_error http_error method_from header_from).
Notation opened := (opened heap parse_uri uri_error http_error method_from header_from).
Notation lost_slots := (lost_slots heap parse_uri uri_error http_error method_from header_from).
Notation lost_by := (lost_by heap).
Notation reach_good := (reach_good heap parse_uri uri_error http_error method_from header_from).
Notation step_good := (step_good heap parse_uri uri_error http_error method_from header_from).
Notation client_run_good := (client_run_good heap parse_uri uri_error http_error method_from header_from).

(** The requests a task has sent. *)
Definition is_request (e : Log) : bool := match e with L_request _ _ _ _ => true | _ => false end.
Definition phase_count (p : Phase) : Z := match p with Ph_Trying n | Ph_Body n | Ph_End n => n end.

Lemma phase_step_count p e p' :
  phase_step p e = Some p' -> phase_count p' = phase_count p + (if is_request e then 1 else 0).
Proof.
  destruct p as [n|n|n], e; simpl; try done; try (intros [= <-]; simpl; lia).
  - destruct (1 <=? n); [|done]. intros [= <-]. simpl. lia.
  - case_bool_decide; [done|]. intros [= <-]. simpl. lia.
  - case_bool_decide; [|done]. intros [= <-]. simpl. lia.
Qed.

Lemma phase_requests p es p' :
  phase_run p es = Some p' -> Z.of_nat (countb is_request es) = phase_count p' - phase_count p.
Proof.
  revert p. induction es as [|e es IH]; intros p; simpl; [intros [= <-]; lia|].
  destruct (phase_step p e) as [p1|] eqn:Hs; [|done]. simpl. intros Hr. specialize (IH p1 Hr).
  apply phase_step_count in Hs. destruct (is_request e); simpl in *; lia.
Qed.

Lemma matches_count lim st p : 0 <= lim -> matches lim st p -> 0 <= phase_count p <= lim.
Proof.
  intros Hl. destruct st; simpl; [intros ->; simpl; lia| | | | |];
    intros Hm; (destruct Hm as (n & -> & Hn)); simpl; lia.
Qed.

(** ** A paused task *)

Definition waits (t : nat) (job : Job) (l : Lease) (b : bool) (c : Client) : Prop :=
  tasks c !! t = Some (mkTask job (A_Paused l b)).

(** [c'] keeps the task waiting or wakes it, and takes nothing from the channel. *)
Definition keeps_waiting (t : nat) (job : Job) (l : Lease) (c c' : Client) : Prop :=
  (exists b, waits t job l b c') /\ running c' = running c /\ exists q, chan c' = chan c ++ q.

Lemma keeps_same t job l c c' :
  waits t job l false c -> tasks c' = tasks c -> running c' = running c -> (exists q, chan c' = chan c ++ q) -> keeps_waiting t job l c c'.
Proof. intros Hw Ht Hr Hq. split; [exists false; unfold waits; by rewrite Ht|by split]. Qed.

Lemma moves_keep lim t job l t' job' st ph op c c' :
  waits t job l false c -> tasks c !! t' = Some (mkTask job' st) -> is_paused (mkTask job' st) = false ->
  Moves lim t' ph st op c c' -> keeps_waiting t job l c c'.
Proof.
  intros Hw Ht Hp (st' & p' & es & -> & _). split; [|split; [done|exists []; by rewrite app_nil_r]].
  exists false. unfold waits, moved. simpl. rewrite list_lookup_alter_ne; [done|]. intros ->. unfold waits in Hw. rewrite Ht in Hw. by simplify_eq.
Qed.

Lemma fire_keeps t t' job l b c : waits t job l b c -> exists b', waits t job l b' (fire t' c).
Proof.
  intros Hw. unfold fire, waits in *. destruct (tasks c !! t') as [[j st]|] eqn:Ht'; [|by exists b].
  destruct st as [|r n|r l' n|l'|l' b'|]; try by exists b. simpl. destruct (decide (t' = t)) as [->|Hne].
  - rewrite Hw in Ht'. simplify_eq. exists true. by rewrite list_lookup_alter_eq, Hw.
  - exists b. by rewrite list_lookup_alter_ne.
Qed.

Lemma frame_keeps op lost t job l ready t' job' l' f act c :
  Core op lost c -> waits t job l false c -> tasks c !! t' = Some (mkTask job' (A_Frame l')) ->
  keeps_waiting t job l c (frame ready t' job' l' f act c).
Proof.
  intros HC Hw Ht. destruct (core_matches _ _ _ _ _ _ _ HC Ht) as (ph & _ & n & -> & Hn).
  assert (Hmove : (match f, act with F_Data (_ :: _), CHUNK_PAUSE => cb_chunk (j_cbs job') = false | _, _ => True end) ->
     keeps_waiting t job l c (frame ready t' job' l' f act c)).
  { intros Hact. eapply moves_keep; [done|done|done|]. by apply (frame_moves ready t' job' l' f act n c (limit job')). }
  destruct f as [|chunk| |e]; [by apply Hmove| |by apply Hmove..]. destruct chunk as [|x chunk]; [by apply Hmove|].
  destruct act; [by apply Hmove| |by apply Hmove]. destruct (cb_chunk (j_cbs job')) eqn:Hact; [|by apply Hmove]. clear Hmove.
  unfold frame. destruct (Z.eqb_spec (zlen (x :: chunk)) 0) as [Hz|_]; [rewrite zlen_cons in Hz; pose proof (zlen_nonneg chunk); lia|].
  rewrite Hact. cbn [negb].
  match goal with |- context [goto t' (A_Paused l' false) ?m] => set (c1 := m) end.
  assert (Hc1 : (exists b, waits t job l b c1) /\ running c1 = running c /\ chan c1 = chan c).
  { subst c1. destruct (paused_tab _ !! j_id job') as [t0|]; [|by split; [exists false|]]. split.
    - by apply (fire_keeps t t0 job l false).
    - unfold fire. destruct (tasks _ !! t0) as [[j st]|]; [|done]. by destruct st. }
  destruct Hc1 as ([b Hb] & Hr & Hq). split; [|split; [done|exists []; simpl; by rewrite app_nil_r]].
  exists b. unfold waits, goto in *. simpl. rewrite list_lookup_alter_ne; [done|]. intros ->. unfold waits in Hw. congruence.
Qed.

Lemma try_send_chan cmd c : exists q, chan (try_send cmd c).2 = chan c ++ q.
Proof. unfold try_send. destruct (chan_open c); simpl; [by eexists|exists []; by rewrite app_nil_r]. Qed.

Lemma host_keeps t job l c :
  waits t job l false c ->
  (forall cmd, keeps_waiting t job l c (try_send cmd c).2) /\ keeps_waiting t job l c (client_close c) /\
  forall req out cbs st c', send req out cbs c = Some (st, c') -> keeps_waiting t job l c (logs (L_send st) c').
Proof.
  intros Hw. split_and!.
  - intros cmd. apply keeps_same; [done|by unfold try_send; destruct (chan_open c)..|apply try_send_chan].
  - unfold client_close. destruct (closed c); [apply keeps_same; try done; exists []; by rewrite app_nil_r|].
    apply keeps_same; try done; [by unfold try_send; simpl; destruct (chan_open c)..|]. simpl.
    apply (try_send_chan Cmd_Shutdown (set_closed c)).
  - intros req out cbs st c' Hs.
    destruct (send_cases _ _ _ _ _ _ _ Hs) as [[-> _]|(_ & _ & [[-> _]|(j & _ & _ & _ & Hcase)])];
      [apply keeps_same; try done; exists []; by rewrite app_nil_r..|].
    simpl in Hcase. destruct Hcase as [(_ & -> & ->)|(_ & -> & ->)]; apply keeps_same; try done; simpl; [by eexists|exists []; by rewrite app_nil_r].
Qed.

Lemma step_keeps op lost t job l e c c' :
  Core op lost c -> Pauses c -> waits t job l false c -> e <> E_command -> step e c = Val (Some c') -> keeps_waiting t job l c c'.
Proof.
  intros HC HP Hw Hne. destruct (host_keeps t job l c Hw) as (Htry & Hclose & Hsend).
  destruct e as [req out cbs|id|id| | |t' ready|t' ready res|t' ready res act|t' ready f act|t']; simpl.
  - destruct (send req out cbs c) as [[st c1]|] eqn:Hs; [|done]. intros [= <-]. by eapply Hsend.
  - intros [= <-]. apply Htry.
  - intros [= <-]. apply Htry.
  - by intros [= <-].
  - done.
  - destruct (running c) eqn:Hr; [|done]. destruct (tasks c !! t') as [[j st]|] eqn:Ht; [|done]. destruct st; try done.
    destruct (core_matches _ _ _ _ _ _ _ HC Ht) as (ph & _ & ->).
    destruct (run_job_moves parse_uri uri_error http_error method_from header_from ready t' j c) as (c1 & Hrun & HM);
      [exact (co_tasks _ _ _ _ HC t' _ Ht)|]. rewrite Hrun. intros [= <-]. by eapply moves_keep.
  - destruct (running c) eqn:Hr; [|done]. destruct (told_apart res) eqn:Htold; [|done].
    destruct (tasks c !! t') as [[j st]|] eqn:Ht; [|done].
    destruct st as [|r togo|r l' togo|l'|l' b|]; try done.
    destruct (core_matches _ _ _ _ _ _ _ HC Ht) as (ph & _ & n & -> & Hn & Htg & Hlim).
    destruct (connected_moves parse_uri http_error header_from ready t' j r togo res n c (limit j)) as (c1 & Hrun & HM); [done..|].
    rewrite Hrun. intros [= <-]. by eapply moves_keep.
  - destruct (running c) eqn:Hr; [|done]. destruct (tasks c !! t') as [[j st]|] eqn:Ht; [|done].
    destruct st as [|r togo|r l' togo|l'|l' b|]; try done.
    destruct (core_matches _ _ _ _ _ _ _ HC Ht) as (ph & _ & n & -> & Hn & Htg & Hlim).
    destruct (sent_moves parse_uri http_error header_from ready t' j r l' togo res act n c (limit j)) as (c1 & Hrun & HM);
      [done..|exact (co_origin _ _ _ _ HC t' _ r l' Ht eq_refl eq_refl)|]. rewrite Hrun. intros [= <-]. by eapply moves_keep.
  - destruct (running c) eqn:Hr; [|done]. destruct (tasks c !! t') as [[j st]|] eqn:Ht; [|done]. destruct st; try done.
    intros [= <-]. by eapply frame_keeps.
  - destruct (running c) eqn:Hr; [|done]. destruct (tasks c !! t') as [[j st]|] eqn:Ht; [|done].
    destruct st as [|r togo|r l' togo|l'|l' b|]; try done. destruct b; [|done]. intros [= <-].
    destruct (core_matches _ _ _ _ _ _ _ HC Ht) as (ph & _ & n & -> & Hn).
    assert (Hmv : exists st' es cc, resumed t' j l' c = moved t' st' (pool c) es (set_pause c (u32 (paused c - 1)) (paused_tab c) cc)).
    { unfold resumed. case_bool_decide; [by eexists A_Done, _, _|]. exists (A_Frame l'), [], (cancelled c). unfold moved, goto. simpl. by rewrite app_nil_r. }
    destruct Hmv as (st' & es & cc & ->). split; [|split; [done|exists []; simpl; by rewrite app_nil_r]].
    exists false. unfold waits in *. simpl. rewrite list_lookup_alter_ne; [done|]. intros ->. congruence.
Qed.

(** How often the worker has turned to the channel. *)
Definition turns (es : list Event) : nat := countb (fun e => match e with E_command => true | _ => false end) es.

(** A resume that is queued reaches its task. *)
Lemma queued_resume_wakes op lost t job l es c c' q1 q2 :
  Core op lost c -> Pauses c -> waits t job l false c -> running c = true ->
  chan c = q1 ++ Cmd_Resume (j_id job) :: q2 -> Cmd_Shutdown ∉ q1 ->
  run es c = Val (Some c') -> (length q1 < turns es)%nat ->
  exists es1 es2 c1, es = es1 ++ es2 /\ run es1 c = Val (Some c1) /\ running c1 = true /\ waits t job l true c1.
Proof.
  revert op lost c q1 q2. induction es as [|e es IH]; intros op lost c q1 q2 HC HP Hw Hr Hq Hns Hrun Hturn; [unfold turns in Hturn; simpl in Hturn; lia|].
  simpl in Hrun. destruct (step_good op lost c e HC HP) as (o & He & Hgood). rewrite He in Hrun. simpl in Hrun.
  destruct o as [c1|]; [|done]. destruct (Hgood c1 eq_refl) as [HC1 HP1].
  assert (Hdone : waits t job l true c1 -> running c1 = true ->
     exists es1 es2 c2, e :: es = es1 ++ es2 /\ run es1 c = Val (Some c2) /\ running c2 = true /\ waits t job l true c2).
  { intros Hw1 Hr1. exists [e], es, c1. split_and!; [done| |done|done]. simpl. by rewrite He. }
  assert (Hnext : forall q1' q2', waits t job l false c1 -> running c1 = true -> chan c1 = q1' ++ Cmd_Resume (j_id job) :: q2' ->
     Cmd_Shutdown ∉ q1' -> (length q1' < turns es)%nat ->
     exists es1 es2 c2, e :: es = es1 ++ es2 /\ run es1 c = Val (Some c2) /\ running c2 = true /\ waits t job l true c2).
  { intros q1' q2' Hw1 Hr1 Hq1 Hns1 Ht1. destruct (IH _ _ c1 q1' q2' HC1 HP1 Hw1 Hr1 Hq1 Hns1 Hrun Ht1) as (es1 & es2 & c2 & -> & ? & ? & ?).
    exists (e :: es1), es2, c2. split_and!; [done| |done|done]. simpl. by rewrite He. }
  assert (e = E_command \/ e <> E_command) as [->|Hne] by (destruct e; auto).

  - simpl in He. rewrite Hr in He. unfold command in He. rewrite Hq in He.
    assert (Htab : paused_tab c !! j_id job = Some t) by (apply (pa_tab _ HP); by exists job, l).
    assert (Hwake : forall id c0, waits t job l false c0 -> Pauses c0 -> paused_tab c0 !! j_id job = Some t ->
       running (wake id c0) = running c0 /\ chan (wake id c0) = chan c0 /\
       waits t job l (bool_decide (id = j_id job)) (wake id c0)).
    { intros id c0 Hw0 HP0 Htab0. unfold wake. case_bool_decide as Hid.
      - subst id. rewrite Htab0. unfold fire. simpl. unfold waits in *. rewrite Hw0. simpl. by rewrite list_lookup_alter_eq, Hw0.
      - destruct (paused_tab c0 !! id) as [t0|] eqn:Ht0; [|done]. unfold fire. simpl.
        destruct (proj1 (pa_tab _ HP0 _ _) Ht0) as (j0 & l0 & Hk0 & Hid0). rewrite Hk0. simpl. split_and!; [done|done|].
        unfold waits in *. simpl. rewrite list_lookup_alter_ne; [done|]. intros ->. congruence. }
    destruct q1 as [|cmd q1]; simpl in He.
    + injection He as <-. destruct (Hwake (j_id job) (set_chan c q2 (chan_open c) (running c))) as (Hr1 & _ & Hw1); [done|by apply (pauses_same c)|done|].
      rewrite bool_decide_eq_true_2 in Hw1 by done. rewrite Hr1 in Hdone. by apply Hdone.
    + injection He as <-. unfold turns in Hturn. simpl in Hturn. fold (turns es) in Hturn. apply not_elem_of_cons in Hns as [Hcmd Hns].
      destruct cmd as [j|id|id|]; [| | |done].
      * apply (Hnext q1 q2); try done; [|lia]. unfold waits in *. simpl. by apply lookup_app_l_Some.
      * destruct (Hwake id (set_pause (set_chan c (q1 ++ Cmd_Resume (j_id job) :: q2) (chan_open c) (running c)) (paused c) (paused_tab c)
          ({[id]} ∪ cancelled c))) as (Hr1 & Hq1 & Hw1); [done|by apply (pauses_same c)|done|]. rewrite Hr1 in Hdone, Hnext. rewrite Hq1 in Hnext.
        case_bool_decide; [by apply Hdone|]. apply (Hnext q1 q2); try done. lia.
      * destruct (Hwake id (set_chan c (q1 ++ Cmd_Resume (j_id job) :: q2) (chan_open c) (running c))) as (Hr1 & Hq1 & Hw1);
          [done|by apply (pauses_same c)|done|]. rewrite Hr1 in Hdone, Hnext. rewrite Hq1 in Hnext.
        case_bool_decide; [by apply Hdone|]. apply (Hnext q1 q2); try done. lia.
  - destruct (step_keeps op lost t job l e c c1 HC HP Hw Hne He) as ([b Hb] & Hr1 & q & Hq1). rewrite Hr in Hr1.
    destruct b; [by apply Hdone|]. rewrite Hq, <- app_assoc in Hq1. simpl in Hq1.
    apply (Hnext q1 (q2 ++ q)); try done. unfold turns in *. simpl in Hturn. by destruct e.
Qed.

(** ** A cancellation that finds nothing to wake *)

Definition also_cancelled (id : Z) (c : Client) : Client := set_pause c (paused c) (paused_tab c) ({[id]} ∪ cancelled c).
Definition also (id : Z) (r : outcome (option Client)) : outcome (option Client) :=
  match r with Val (Some c) => Val (Some (also_cancelled id c)) | _ => r end.

(** The events that look at whether [id] was cancelled. *)
Definition resumes (id : Z) (e : Event) (c : Client) : bool :=
  match e with
  | E_resumed t => match tasks c !! t with Some k => j_id (t_job k) =? id | None => false end
  | _ => false
  end.
Fixpoint never_resumes (id : Z) (es : list Event) (c : Client) : bool :=
  match es with
  | [] => true
  | e :: es' => negb (resumes id e c) && match step e c with Val (Some c') => never_resumes id es' c' | _ => true end
  end.

Lemma fire_also id t c : fire t (also_cancelled id c) = also_cancelled id (fire t c).
Proof. unfold fire. simpl. destruct (tasks c !! t) as [[j st]|]; [|done]. by destruct st. Qed.

Lemma wake_also id id' c : wake id' (also_cancelled id c) = also_cancelled id (wake id' c).
Proof. unfold wake. simpl. destruct (paused_tab c !! id') as [t|]; [|done]. by rewrite <- fire_also. Qed.

Lemma request_on_also id t job r n l c :
  request_on parse_uri http_error header_from t job r n l (also_cancelled id c) =
  also_cancelled id (request_on parse_uri http_error header_from t job r n l c).
Proof. unfold request_on. simpl. by destruct (build_request _ _ _ _ _ _) as [[? ?]|]. Qed.

Lemma attempt_also id ready t job r n last c :
  attempt parse_uri http_error header_from ready t job r n last (also_cancelled id c) =
  match attempt parse_uri http_error header_from ready t job r n last c with Val c' => Val (also_cancelled id c') | Panic => Panic | NoFuel => NoFuel end.
Proof.
  unfold attempt. destruct (n =? 0); [by destruct last|]. simpl. destruct (checkout _ _ _) as [l p].
  destruct l as [l|]; [|done]. f_equal. apply (request_on_also id t job r n l (set_pool c p)).
Qed.

Lemma command_also id c : command (also_cancelled id c) = also_cancelled id <$> command c.
Proof.
  unfold command. simpl. destruct (chan c) as [|cmd q]; [done|]. simpl. f_equal. destruct cmd as [j|id'|id'|]; [done| | |done].
  - rewrite <- wake_also. f_equal. unfold also_cancelled, set_pause. simpl. f_equal. set_solver.
  - apply (wake_also id id' (set_chan c q _ _)).
Qed.

Lemma send_also id req out cbs c :
  send req out cbs (also_cancelled id c) = (fun x => (x.1, also_cancelled id x.2)) <$> send req out cbs c.
Proof.
  unfold FfiClient.send. destruct req as [req|]; [|done]. destruct (negb out); [done|].
  cbn [closed inflight max_inflight also_cancelled set_pause]. destruct (closed c); [done|]. destruct (negb (_ <? _)); [done|].
  destruct (read 4 0 req) as [abi|]; simpl; [|done]. destruct (read 4 4 req) as [size|]; simpl; [|done].
  destruct (negb _); [done|]. destruct (request_read req) as [r|]; simpl; [|done]. case_bool_decide; [done|].
  destruct (read_headers _ _ _) as [hs|]; simpl; [|done]. by destruct (chan_open c).
Qed.

Lemma step_also id e c : resumes id e c = false -> step e (also_cancelled id c) = also id (step e c).
Proof.
  destruct e as [req out cbs|id'|id'| | |t ready|t ready res|t ready res act|t ready f act|t]; simpl; intros Hres.
  - rewrite send_also. by destruct (send req out cbs c) as [[st c1]|].
  - unfold client_resume, try_send. simpl. by destruct (chan_open c).
  - unfold client_cancel, try_send. simpl. by destruct (chan_open c).
  - unfold client_close, try_send. simpl. destruct (closed c); [done|]. by destruct (chan_open c).
  - destruct (running c); [|done]. rewrite command_also. by destruct (command c).
  - destruct (running c); [|done]. destruct (tasks c !! t) as [[job st]|]; [|done]. destruct st; try done.
    unfold run_job. destruct (negb _); [done|]. destruct (origin_parse _ _ _) as [[o u]|f]; [|done].
    destruct (method_from _); [|done]. rewrite attempt_also. by destruct (attempt _ _ _ _ _ _ _ _ _ _).
  - destruct (running c && told_apart res); [|done]. destruct (tasks c !! t) as [[job st]|]; [|done].
    destruct st as [|r n|r l n|l|l b|]; try done.
    unfold connected. destruct res as [s|f].
    + simpl. f_equal. f_equal. apply (request_on_also id t job r n _ (set_pool c _)).
    + rewrite attempt_also. by destruct (attempt _ _ _ _ _ _ _ _ _ _).
  - destruct (running c); [|done]. destruct (tasks c !! t) as [[job st]|]; [|done]. destruct st as [|r n|r l n|l|l b|]; try done.
    unfold sent. destruct res as [st v hs| |]; [by destruct (cb_headers _), act| |done].
    destruct (is_idempotent _); [|done]. simpl.
    rewrite (attempt_also id ready t job r (n - 1) _ (set_pool c (checkin ready l (pool c)))). by destruct (attempt _ _ _ _ _ _ _ _ _ _).
  - destruct (running c); [|done]. destruct (tasks c !! t) as [[job st]|]; [|done]. destruct st as [|r n|r l n|l|l b|]; try done.
    unfold frame. destruct f as [|chunk| |x]; [done| |done..]. destruct (_ =? 0); [done|]. destruct (negb _); [done|].
    destruct act; [done| |done]. simpl. f_equal. f_equal. destruct (paused_tab c !! j_id job) as [t0|]; [|done].
    transitivity (goto t (A_Paused l false) (also_cancelled id (fire t0
      (set_pause (logs (L_chunk t chunk) c) (u32 (paused c + 1)) (<[j_id job := t]> (paused_tab c)) (cancelled c)))));
      [by rewrite <- fire_also|done].
  - destruct (running c); [|done]. destruct (tasks c !! t) as [[job st]|]; [|done]. destruct st as [|r n|r l n|l|l b|]; try done.
    destruct b; [|done]. simpl in Hres. apply Z.eqb_neq in Hres. unfold resumed. cbn [cancelled set_pause also_cancelled].
    assert (bool_decide (j_id job ∈ {[id]} ∪ cancelled c) = bool_decide (j_id job ∈ cancelled c)) as -> by (apply bool_decide_ext; set_solver).
    assert (({[id]} ∪ cancelled c) ∖ {[j_id job]} = {[id]} ∪ (cancelled c ∖ {[j_id job]})) as Hs by set_solver.
    case_bool_decide; [|done]. cbn [paused paused_tab set_pause]. rewrite Hs. done.
Qed.

Lemma run_also id es c : never_resumes id es c = true -> run es (also_cancelled id c) = also id (run es c).
Proof.
  revert c. induction es as [|e es IH]; intros c; [done|]. simpl. intros (H1 & H2)%andb_true_iff.
  rewrite step_also by (by apply negb_true_iff). destruct (step e c) as [[c1|]| |]; try done. simpl. by apply IH.
Qed.

(** C22. Whatever the host and the worker do, nothing panics, and what the host
    sees of a request is in order: requests are sent until a response is there,
    then comes its head, then chunks, then the end, once, which without a head is
    no success; and the state the worker keeps for the request agrees with what
    was seen. *)
Theorem callbacks_in_order cfg es c :
  cfg_ok cfg -> run es (client_start cfg) = Val (Some c) ->
  (forall e, exists o, step e c = Val o) /\
  forall t k, tasks c !! t = Some k ->
    exists ph, phase_run (Ph_Trying 0) (trace t (log c)) = Some ph /\ matches (limit (t_job k)) (t_state k) ph.
Proof.
  intros Hc Hr. destruct (reach_good cfg es c Hc Hr) as [HC HP]. split.
  - intros e. destruct (step_good _ _ c e HC HP) as (o & ? & _). by exists o.
  - intros t k Hk. exact (co_phase _ _ _ _ HC t k Hk).
Qed.

(** C23. A request is sent at most once, or, if its method is idempotent, once more
    than the retries that were asked for; nothing is sent for a method that
    cannot be read. *)
Theorem requests_bounded cfg es c t k :
  cfg_ok cfg -> run es (client_start cfg) = Val (Some c) -> tasks c !! t = Some k ->
  Z.of_nat (countb is_request (trace t (log c))) <=
    match method_from (j_method (t_job k)) with
    | Some m => if is_idempotent m then j_max_retries (t_job k) + 1 else 1
    | None => 0
    end.
Proof.
  intros Hc Hr Hk. destruct (reach_good cfg es c Hc Hr) as [HC HP].
  destruct (co_phase _ _ _ _ HC t k Hk) as (ph & Hph & Hm). rewrite (phase_requests _ _ _ Hph). simpl.
  pose proof (co_tasks _ _ _ _ HC t k Hk) as Hret. unfold FfiClientInv.limit in Hm.
  destruct (method_from (j_method (t_job k))) as [m|].
  - destruct (is_idempotent m); apply matches_count in Hm; unfold saturating_add32 in *; lia.
  - apply matches_count in Hm; lia.
Qed.

(** C24. A request goes to the origin it was made for: the connection of a task's
    lease was opened for that origin, the shared and the idle ones of the pool
    too; and when every HTTP/1 connection was opened once, none of them is idle
    twice, leased twice, or idle and leased. *)
Theorem connections_not_mixed cfg es c :
  cfg_ok cfg -> run es (client_start cfg) = Val (Some c) ->
  let op := opened es (client_start cfg) in
  (forall t k r l, tasks c !! t = Some k -> run_of (t_state k) = Some r -> lease_of (t_state k) = Some l ->
     le_origin l = ru_origin r /\ (ru_origin r, le_sender l) ∈ op) /\
  (forall o s, h2 (pool c) !! o = Some s -> (o, S_H2 s) ∈ op) /\
  (forall o idle s, h1_idle (pool c) !! o = Some idle -> s ∈ idle -> (o, S_H1 s) ∈ op) /\
  (NoDup (h1_opened op) -> forall o s, (idle_count (pool c) o s + countb (holds o s) (tasks c) <= 1)%nat).
Proof.
  intros Hc Hr op. destruct (reach_good cfg es c Hc Hr) as [HC _]. fold op in HC. split_and!.
  - intros t k r l Hk Hrun Hl. pose proof (co_origin _ _ _ _ HC t k r l Hk Hrun Hl) as Ho. split; [done|].
    rewrite <- Ho. exact (co_lease _ _ _ _ HC t k l Hk Hl).
  - apply (co_h2 _ _ _ _ HC).
  - intros o idle s Hi Hs. apply opened_count_elem. pose proof (co_h1 _ _ _ _ HC o s) as Hh. unfold idle_count in Hh.
    rewrite Hi in Hh. simpl in Hh. apply list_elem_of_lookup in Hs as [i Hs].
    pose proof (countb_lookup (fun x => bool_decide (x = s)) _ _ _ Hs (bool_decide_eq_true_2 _ eq_refl)). lia.
  - intros Hnd o s. pose proof (co_h1 _ _ _ _ HC o s) as Hh. enough (opened_count op o s <= 1)%nat by lia.
    unfold opened_count. clear -Hnd. induction Hnd as [|x l Hx _ IH]; simpl; [lia|]. unfold is_conn at 1.
    case_bool_decide as He; simpl; [|done]. subst x. clear IH.
    assert (Hz : ~ (1 <= countb (is_conn o s) l)%nat).
    { intros Hz. apply countb_elem in Hz as (y & Hy & He). by apply bool_decide_eq_true in He as ->. }
    lia.
Qed.

(** C25. The slots: as long as the worker runs, [inflight] is the number of requests
    that are queued or run, and of the slots that requests refused by
    [geario_http_client_send] have kept; it never exceeds the ceiling.  Once as
    many slots as the ceiling are lost in this way, the client answers nothing
    but [THROTTLED] or [CLOSED] to any request it can read. *)
Theorem slots_accounted cfg es c :
  cfg_ok cfg -> run es (client_start cfg) = Val (Some c) ->
  let lost := lost_slots es (client_start cfg) in
  (running c = true -> inflight c = Z.of_nat (countb is_live (tasks c)) + Z.of_nat (countb is_send (chan c)) + lost) /\
  0 <= lost /\ 0 <= inflight c <= max_inflight c /\
  (lost = max_inflight c -> running c = true -> forall request cbs st c',
     send (Some request) true cbs c = Some (st, c') -> c' = c /\ (st = STATUS_THROTTLED \/ st = STATUS_CLOSED)).
Proof.
  intros Hc Hr lost. destruct (reach_good cfg es c Hc Hr) as [HC _]. fold lost in HC.
  pose proof (co_inflight _ _ _ _ HC) as [? ?]. split_and!; try lia; [apply (co_slots _ _ _ _ HC)|].
  intros Hl Hrun request cbs st c' Hs. pose proof (co_slots _ _ _ _ HC Hrun). unfold FfiClient.send in Hs. simpl in Hs.
  destruct (closed c); [injection Hs as <- <-; auto|].
  destruct (Z.ltb_spec (inflight c) (max_inflight c)); [lia|]. simpl in Hs. injection Hs as <- <-. auto.
Qed.

(** No resume is lost: when a request is paused and the host resumes it before
    it closes the client, the call is [OK], and in whatever goes on then, by the
    time the worker has taken as many commands as were waiting and one more,
    there was a state in which the request could go on, to the next frame or, if
    it was cancelled, to its end. *)
Theorem resume_wakes cfg es0 c t job l es c' :
  cfg_ok cfg -> run es0 (client_start cfg) = Val (Some c) ->
  tasks c !! t = Some (mkTask job (A_Paused l false)) -> running c = true -> chan_open c = true -> Cmd_Shutdown ∉ chan c ->
  (client_resume (j_id job) c).1 = STATUS_OK /\
  (run es (client_resume (j_id job) c).2 = Val (Some c') -> (length (chan c) < turns es)%nat ->
   exists es1 es2 c1 c2, es = es1 ++ es2 /\ run es1 (client_resume (j_id job) c).2 = Val (Some c1) /\
     step (E_resumed t) c1 = Val (Some c2) /\ paused c2 = paused c1 - 1 /\
     tasks c2 !! t = Some (mkTask job (if bool_decide (j_id job ∈ cancelled c1) then A_Done else A_Frame l))).
Proof.
  intros Hc Hr0 Ht Hr Ho Hns. destruct (reach_good cfg es0 c Hc Hr0) as [HC HP].
  unfold client_resume, try_send. rewrite Ho. simpl. split; [done|]. intros Hrun Hturn.
  assert (HC1 : Core (opened es0 (client_start cfg)) (lost_slots es0 (client_start cfg)) (try_send (Cmd_Resume (j_id job)) c).2) by (by apply try_send_core).
  unfold try_send in HC1. rewrite Ho in HC1. simpl in HC1.
  assert (HP1 : Pauses (set_chan c (chan c ++ [Cmd_Resume (j_id job)]) true (running c))) by (by apply (pauses_same c)).
  destruct (queued_resume_wakes _ _ t job l es _ c' (chan c) [] HC1) as (es1 & es2 & c1 & -> & Hrun1 & Hr1 & Hw1); try done.
  destruct (client_run_good _ _ _ _ _ HC1 HP1 Hrun1) as [HC2 HP2].
  unfold waits in Hw1. exists es1, es2, c1, (resumed t job l c1). split_and!; [done|done| | |].
  - simpl. by rewrite Hr1, Hw1.
  - assert (Hb : 0 < paused c1 < 2 ^ 32).
    { rewrite (pa_count _ HP2). pose proof (countb_lookup is_paused _ _ _ Hw1 eq_refl).
      assert (countb is_paused (tasks c1) <= countb is_live (tasks c1))%nat.
      { apply countb_le. intros k _. unfold is_paused, is_live. by destruct (t_state k). }
      pose proof (co_slots _ _ _ _ HC2 Hr1). pose proof (co_inflight _ _ _ _ HC2). pose proof (co_max _ _ _ _ HC2). lia. }
    unfold resumed. case_bool_decide; simpl; unfold u32; rewrite Z.mod_small; lia.
  - unfold resumed. cbn [cancelled set_pause]. case_bool_decide; simpl; by rewrite list_lookup_alter_eq, Hw1.
Qed.

(** Cancelling a request that is not paused: the worker notes the number and
    does nothing else, and from there every run in which the request is not
    paused and resumed is the run without the cancellation, with the same
    callbacks. *)
Theorem cancel_without_pause c id q :
  chan c = Cmd_Cancel id :: q -> paused_tab c !! id = None ->
  let c0 := set_chan c q (chan_open c) (running c) in
  command c = Some (also_cancelled id c0) /\
  forall es c', never_resumes id es c0 = true -> run es c0 = Val (Some c') ->
    run es (also_cancelled id c0) = Val (Some (also_cancelled id c')) /\ log (also_cancelled id c') = log c'.
Proof.
  intros Hq Htab c0. split.
  - unfold command. rewrite Hq. unfold wake. simpl. by rewrite Htab.
  - intros es c' Hn Hr. rewrite run_also by done. by rewrite Hr.
Qed.

Lemma stopped_run es c c' : running c = false -> closed c = true -> run es c = Val (Some c') ->
  (forall t, trace t (log c') = trace t (log c)) /\ running c' = false /\ closed c' = true.
Proof.
  revert c. induction es as [|e es IH]; intros c Hr Hc; [by intros [= <-]|]. simpl.
  assert (Hstep : forall c1, step e c = Val (Some c1) -> (forall t, trace t (log c1) = trace t (log c)) /\ running c1 = false /\ closed c1 = true).
  { intros c1. destruct e as [req out cbs|id'|id'| | |t ready|t ready res|t ready res act|t ready f act|t]; simpl; rewrite ?Hr; try done.
    - destruct (send req out cbs c) as [[st c2]|] eqn:Hs; [|done]. intros [= <-].
      destruct (send_cases _ _ _ _ _ _ _ Hs) as [[-> _]|(_ & Hcl & _)]; [|congruence]. split; [|done]. intros t. apply trace_send.
    - unfold client_resume, try_send. intros [= <-]. by destruct (chan_open c).
    - unfold client_cancel, try_send. intros [= <-]. by destruct (chan_open c).
    - unfold client_close. rewrite Hc. by intros [= <-]. }
  destruct (step e c) as [[c1|]| |]; try done. simpl. intros Hrun. destruct (Hstep c1 eq_refl) as (Ht & Hr1 & Hc1).
  destruct (IH c1 Hr1 Hc1 Hrun) as (Ht2 & ? & ?). split; [|done]. intros t. by rewrite Ht2.
Qed.

(** Closing the client: once the worker has taken the shutdown, no callback is
    made any more, so a request that had not ended never hears of its end. *)
Theorem close_ends_silently cfg es c es' c' t k :
  cfg_ok cfg -> run es (client_start cfg) = Val (Some c) -> running c = false -> run es' c = Val (Some c') ->
  (forall t, trace t (log c') = trace t (log c)) /\
  (tasks c !! t = Some k -> t_state k <> A_Done -> forall kind msg called, L_done t kind msg called ∉ log c').
Proof.
  intros Hc Hr Hrun Hr'. destruct (reach_good cfg es c Hc Hr) as [HC _].
  destruct (stopped_run es' c c' Hrun) as (Ht & _ & _); [apply (co_closed _ _ _ _ HC); auto|done|]. split; [done|].
  intros Hk Hst kind msg called Hin. destruct (co_phase _ _ _ _ HC t k Hk) as (ph & Hph & Hm).
  assert (Hin' : L_done t kind msg called ∈ trace t (log c)).
  { rewrite <- Ht. by apply list_elem_of_filter. }
  assert (Hend : exists n, ph = Ph_End n).
  { clear -Hph Hin'. apply list_elem_of_split in Hin' as (l1 & l2 & Heq). rewrite Heq, phase_run_app in Hph.
    destruct (phase_run (Ph_Trying 0) l1) as [p|]; [|done]. simpl in Hph.
    assert (Hp : forall p', phase_step p (L_done t kind msg called) = Some p' -> exists n, p' = Ph_End n).
    { intros p'. destruct p; simpl; try case_bool_decide; try done; intros [= <-]; by eexists. }
    destruct (phase_step p _) as [p'|]; [|done]. destruct (Hp p' eq_refl) as [n ->]. simpl in Hph.
    destruct l2 as [|e l2]; simpl in Hph; [|by destruct e]. exists n. congruence. }
  destruct Hend as [n ->]. destruct (t_state k); simpl in Hm; try (by destruct Hm as (? & [=] & _)). by apply Hst.
Qed.
End Steps.
