(* ===== verification/FfiClientWorld.v ===== *)
(** * A client of the C interface at work

    A concrete world - one URL, one header conversion, a heap with the URL in it -
    and runs of the client in it: a download that is paused and resumed, one that
    is cancelled, requests that are refused until no slot is left, a client that
    is closed.  The guarantees of [FfiAbiThms] and [FfiClientThms] are applied to
    them. *)
From S2P Require Import Prelude WsMask ClientProxy FfiAbi FfiClient FfiAbiThms FfiClientInv FfiClientThms.

Module World.
Definition url : list Z := bs "http://h/p".
Definition heap (ptr len : Z) : list Z := if (ptr =? 4096) && (len =? 10) then url else [].
Definition parse_uri (l : list Z) : option HttpUri :=
  if bool_decide (l = url)
  then Some (mkHttpUri url (Some (bs "http")) (Some (mkAuthority (bs "h") (bs "h") None)) (Some (bs "/p")))
  else if bool_decide (l = bs "/p") then Some (mkHttpUri l None None (Some l)) else None.
Definition method_from (l : list Z) : option (list Z) := match l with [] => None | _ => Some l end.
Definition header_from (added : list (list Z * list Z)) (h : list Z * list Z) : option (list Z * list Z) := Some h.
Notation run := (FfiClient.run heap parse_uri [] [] method_from header_from).
Notation opened := (FfiClientInv.opened heap parse_uri [] [] method_from header_from).

Definition cfg (slots : Z) : ClientCfg := mkClientCfg 10000 60000 slots 2 false false None None.
Definition request (size : Z) : Request := mkRequest ABI_VERSION size (mkSlice 0 0) (mkSlice 4096 10) 0 0 0 0.
Definition cbs : Callbacks := mkCallbacks true true true.
Definition origin : Origin := (false, bs "h", 80).
Definition none (n : nat) : bool := false.
Definition all (n : nat) : bool := true.

Definition submit : Event := E_send (Some (request_bytes (request 72))) true cbs.
Definition too_short : Event := E_send (Some (ztake 16 (request_bytes (request 16)))) true cbs.

(** A request that reads, on a second connection, to its first chunk and is paused. *)
Definition to_pause : list Event :=
  [submit; E_command; E_run 0 none; E_connected 0 none (Ok (S_H1 7)); E_sent 0 none R_Error HEADERS_CONTINUE;
   E_connected 0 none (Ok (S_H1 8)); E_sent 0 none (R_Response 200 HyperV11 []) HEADERS_CONTINUE; E_frame 0 none (F_Data [1; 2]) CHUNK_PAUSE].
Definition rest : list Event := [E_command; E_resumed 0; E_frame 0 all F_End CHUNK_CONTINUE].

Definition after (es : list Event) (c : Client) : Client := match run es c with Val (Some c') => c' | _ => c end.
Definition paused_client : Client := after to_pause (client_start (cfg 4)).
Definition paused_task : Job := mkJob 1 2 (bs "GET") url [] [] cbs.
Definition paused_lease : Lease := mkLease (S_H1 8) origin.
Definition ended_client : Client := after rest (client_resume 1 paused_client).2.
Definition whole : list Event := to_pause ++ [E_resume 1] ++ rest.
Definition whole_client : Client := after whole (client_start (cfg 4)).

Lemma cfg_is_ok n : 0 < n < 2 ^ 32 -> cfg_ok (cfg n).
Proof. intros Hn. split; simpl; lia. Qed.
Lemma to_pause_run : run to_pause (client_start (cfg 4)) = Val (Some paused_client).
Proof. vm_compute. reflexivity. Qed.
Lemma paused_state :
  tasks paused_client !! 0%nat = Some (mkTask paused_task (A_Paused paused_lease false)) /\ running paused_client = true /\
  chan_open paused_client = true /\ chan paused_client = [].
Proof. vm_compute. done. Qed.
Lemma rest_run : run rest (client_resume (j_id paused_task) paused_client).2 = Val (Some ended_client).
Proof. vm_compute. reflexivity. Qed.
Lemma whole_run : run whole (client_start (cfg 4)) = Val (Some whole_client).
Proof. vm_compute. reflexivity. Qed.
Lemma whole_log : log whole_client =
  [L_send STATUS_OK; L_request 0 (S_H1 7) (bs "/p") [(bs "host", bs "h")]; L_request 0 (S_H1 8) (bs "/p") [(bs "host", bs "h")];
   L_head 0 200 1 [] true; L_chunk 0 [1; 2]; L_done 0 ERR_NONE [] true].
Proof. vm_compute. reflexivity. Qed.
Lemma whole_task : tasks whole_client !! 0%nat = Some (mkTask paused_task A_Done).
Proof. vm_compute. reflexivity. Qed.
Lemma whole_opened : h1_opened (opened whole (client_start (cfg 4))) = [(origin, 7%nat); (origin, 8%nat)].
Proof. vm_compute. reflexivity. Qed.
Lemma whole_idle : h1_idle (pool whole_client) !! origin = Some [8%nat].
Proof. vm_compute. reflexivity. Qed.

(** Two requests are refused, and the two slots are gone. *)
Definition leak : list Event := [too_short; too_short].
Definition leaked : Client := after leak (client_start (cfg 2)).
Lemma leak_run : run leak (client_start (cfg 2)) = Val (Some leaked).
Proof. vm_compute. reflexivity. Qed.
Lemma leak_state : lost_slots heap parse_uri [] [] method_from header_from leak (client_start (cfg 2)) = max_inflight leaked /\
  running leaked = true /\ closed leaked = false /\ tasks leaked = [].
Proof. vm_compute. done. Qed.
Lemma leak_answer : exists st c', send heap (Some (request_bytes (request 72))) true cbs leaked = Some (st, c').
Proof. eexists _, _. vm_compute. reflexivity. Qed.

(** A download is cancelled while it runs. *)
Definition to_cancel : list Event :=
  [submit; E_command; E_run 0 none; E_connected 0 none (Ok (S_H1 7)); E_sent 0 none (R_Response 200 HyperV11 []) HEADERS_CONTINUE; E_cancel 1].
Definition to_end : list Event := [E_frame 0 none (F_Data [1]) CHUNK_CONTINUE; E_frame 0 all F_End CHUNK_CONTINUE].
Definition cancelled_client : Client := after to_cancel (client_start (cfg 4)).
Definition uncancelled : Client := set_chan cancelled_client [] (chan_open cancelled_client) (running cancelled_client).
Definition uncancelled_end : Client := after to_end uncancelled.
Lemma cancel_state : chan cancelled_client = [Cmd_Cancel 1] /\ paused_tab cancelled_client !! 1 = None.
Proof. vm_compute. done. Qed.
Lemma to_end_run : run to_end uncancelled = Val (Some uncancelled_end).
Proof. vm_compute. reflexivity. Qed.
Lemma to_end_never : never_resumes heap parse_uri [] [] method_from header_from 1 to_end uncancelled = true.
Proof. vm_compute. reflexivity. Qed.
Lemma to_end_log : last (log uncancelled_end) = Some (L_done 0 ERR_NONE [] true).
Proof. vm_compute. reflexivity. Qed.

(** A client is closed while a request runs. *)
Definition to_close : list Event := [submit; E_command; E_run 0 none; E_close; E_command].
Definition closed_client : Client := after to_close (client_start (cfg 4)).
Lemma to_close_run : run to_close (client_start (cfg 4)) = Val (Some closed_client).
Proof. vm_compute. reflexivity. Qed.
Lemma close_state : running closed_client = false /\
  tasks closed_client !! 0%nat = Some (mkTask paused_task (A_Connect (mkRun origin
     (mkHttpUri url (Some (bs "http")) (Some (mkAuthority (bs "h") (bs "h") None)) (Some (bs "/p"))) (bs "GET") 3) 3)).
Proof. vm_compute. done. Qed.
Definition later : Client := after [E_cancel 1; submit] closed_client.
Lemma later_run : run [E_cancel 1; submit] closed_client = Val (Some later).
Proof. vm_compute. reflexivity. Qed.
End World.
Import World.

Lemma callbacks_in_order_witness :
  run whole (client_start (cfg 4)) = Val (Some whole_client) /\
  exists ph, phase_run (Ph_Trying 0) (trace 0 (log whole_client)) = Some ph /\ matches 3 A_Done ph.
Proof.
  split; [exact whole_run|].
  exact (proj2 (callbacks_in_order _ _ _ _ _ _ _ _ _ (cfg_is_ok 4 ltac:(lia)) whole_run) 0%nat _ whole_task).
Defined.

Lemma requests_bounded_witness :
  countb is_request (trace 0 (log whole_client)) = 2%nat /\
  Z.of_nat (countb is_request (trace 0 (log whole_client))) <= 3.
Proof.
  split; [by rewrite whole_log|].
  exact (requests_bounded _ _ _ _ _ _ _ _ _ _ _ (cfg_is_ok 4 ltac:(lia)) whole_run whole_task).
Defined.

Lemma connections_not_mixed_witness :
  NoDup (h1_opened (opened whole (client_start (cfg 4)))) /\
  (origin, S_H1 8) ∈ opened whole (client_start (cfg 4)) /\
  (idle_count (pool whole_client) origin 8 + countb (holds origin 8) (tasks whole_client) <= 1)%nat.
Proof.
  assert (Hnd : NoDup (h1_opened (opened whole (client_start (cfg 4))))).
  { rewrite whole_opened. apply NoDup_cons. split; [|apply NoDup_singleton]. intros Hx%list_elem_of_singleton. discriminate. }
  destruct (connections_not_mixed _ _ _ _ _ _ _ _ _ (cfg_is_ok 4 ltac:(lia)) whole_run) as (_ & _ & Hidle & Hone).
  split; [exact Hnd|]. split; [|exact (Hone Hnd _ _)]. apply (Hidle _ _ 8%nat whole_idle). by left.
Defined.

Lemma slots_accounted_witness :
  inflight leaked = 2 /\ tasks leaked = [] /\
  exists st, send heap (Some (request_bytes (request 72))) true cbs leaked = Some (st, leaked) /\ st = STATUS_THROTTLED.
Proof.
  destruct leak_state as (Hl & Hr & Hc & Ht). destruct leak_answer as (st & c' & Hs).
  destruct (slots_accounted _ _ _ _ _ _ _ _ _ (cfg_is_ok 2 ltac:(lia)) leak_run) as (_ & _ & _ & Hfull).
  destruct (Hfull Hl Hr _ _ _ _ Hs) as [-> Hst]. split; [vm_compute; reflexivity|]. split; [exact Ht|].
  exists st. split; [exact Hs|]. destruct Hst as [Hst|Hst]; [exact Hst|]. subst st. exfalso. vm_compute in Hs. discriminate.
Defined.

Lemma resume_wakes_witness :
  (client_resume 1 paused_client).1 = STATUS_OK /\
  exists es1 es2 c1 c2, rest = es1 ++ es2 /\ run es1 (client_resume 1 paused_client).2 = Val (Some c1) /\
    step heap parse_uri [] [] method_from header_from (E_resumed 0) c1 = Val (Some c2) /\ paused c2 = paused c1 - 1.
Proof.
  destruct paused_state as (Ht & Hr & Ho & Hq).
  destruct (resume_wakes heap parse_uri [] [] method_from header_from _ _ _ 0%nat _ _ rest ended_client (cfg_is_ok 4 ltac:(lia)) to_pause_run Ht Hr Ho) as [Hst Hw].
  { rewrite Hq. apply not_elem_of_nil. }
  split; [exact Hst|]. destruct (Hw rest_run) as (es1 & es2 & c1 & c2 & H1 & H2 & H3 & H4 & _); [rewrite Hq; vm_compute; lia|].
  exists es1, es2, c1, c2. auto.
Defined.

(** The download goes on to its end, without an error. *)
Lemma cancel_without_pause_witness :
  command cancelled_client = Some (also_cancelled 1 uncancelled) /\
  run to_end (also_cancelled 1 uncancelled) = Val (Some (also_cancelled 1 uncancelled_end)) /\
  last (log (also_cancelled 1 uncancelled_end)) = Some (L_done 0 ERR_NONE [] true).
Proof.
  destruct cancel_state as [Hq Ht].
  destruct (cancel_without_pause heap parse_uri [] [] method_from header_from cancelled_client 1 [] Hq Ht) as [Hc Hrun].
  split; [exact Hc|]. destruct (Hrun to_end uncancelled_end to_end_never to_end_run) as [Hr Hl]. split; [exact Hr|].
  rewrite Hl. exact to_end_log.
Defined.

Lemma close_ends_silently_witness :
  running closed_client = false /\ forall kind msg called, L_done 0 kind msg called ∉ log later.
Proof.
  destruct close_state as [Hr Ht]. split; [exact Hr|].
  exact (proj2 (close_ends_silently _ _ _ _ _ _ _ _ _ _ _ 0%nat _ (cfg_is_ok 4 ltac:(lia)) to_close_run Hr later_run) Ht ltac:(done)).
Defined.

Definition short_options : Options := mkOptions ABI_VERSION 40 0 1 1 7 0 0 0 0 0.

(** A caller with the struct up to [max_retries] asks for seven requests, one
    millisecond and no retry. *)
Lemma client_new_options_witness :
  client_new heap parse_uri (fun _ _ _ => true) true (Some (ztake 40 (options_bytes short_options))) true =
  Some (Ok (mkClientCfg 10000 60000 256 2 false false None None)).
Proof.
  rewrite (client_new_options heap parse_uri (fun _ _ _ => true) short_options 40);
    [reflexivity|unfold options_ok, is_u32, is_u64; vm_compute; intuition congruence|reflexivity|reflexivity|vm_compute; congruence|reflexivity|reflexivity].
Defined.

Lemma options_init_bounded_witness :
  exists dst', options_init (Some (repeat 7 80)) 72 = Some (STATUS_OK, Some dst') /\ zdrop 72 dst' = repeat 7 8 /\
    options_read dst' = Some (default_options 72).
Proof.
  destruct (options_init_bounded (repeat 7 80) 72) as [_ H]; [lia|].
  destruct H as (dst' & H1 & _ & H2 & _ & H3); [vm_compute; intuition congruence|]. exists dst'.
  split; [exact H1|]. split; [exact H2|]. apply H3. vm_compute. congruence.
Defined.

Lemma client_new_in_bounds_witness :
  exists r, client_new heap parse_uri (fun _ _ _ => true) true (Some (ztake 40 (options_bytes short_options))) true = Some r.
Proof. apply (client_new_in_bounds heap parse_uri (fun _ _ _ => true) true _ true 40); [reflexivity|vm_compute; congruence]. Defined.

(** The smallest struct that is accepted is read past its end. *)
Lemma send_reads_request_witness :
  send heap (Some (ztake 40 (request_bytes (request 40)))) true cbs (client_start (cfg 4)) = None.
Proof.
  rewrite (send_reads_request heap (request 40) 40 cbs (client_start (cfg 4)));
    [reflexivity|unfold request_ok, slice_ok, is_u32, is_u64; vm_compute; intuition congruence|reflexivity|reflexivity|lia|reflexivity|vm_compute; reflexivity|reflexivity|reflexivity].
Defined.
