(* ===== verification/FfiConnect.v ===== *)
(** * Opening a connection for the client of the C interface

    [client/connect.rs] of [src/geario-http-ffi/src]: TCP, to the origin or to a
    proxy, the CONNECT tunnel, TLS and the handshake of the HTTP that was
    negotiated.  The io and the TLS and HTTP libraries are the operations of a
    class over their state; an [await] is one operation. *)
From S2P Require Import Prelude ClientProxy Encoder EncoderThms FfiAbi FfiClient.

(** ** What the libraries report *)

(** [geario::net::connect::ConnectError], and the text it prints. *)
Inductive TcpError := TC_Resolver | TC_NoRecords | TC_InvalidInput | TC_Unresolved | TC_Io.

(** [rustls::CertificateError] and [rustls::Error], as far as they are told apart;
    [TL_Io]: an io error that has no rustls error inside. *)
Inductive CertificateError :=
| CR_UnknownIssuer | CR_BadSignature | CR_NotValidForName | CR_NotValidForNameContext
| CR_Expired | CR_ExpiredContext | CR_NotValidYet | CR_NotValidYetContext | CR_Other.
Inductive TlsError :=
| TL_InvalidCertificate (cert : CertificateError)
| TL_NoApplicationProtocol
| TL_AlertNoApplicationProtocol
| TL_Other
| TL_Io.

(** [HttpProtocol] of the connection, where TLS negotiated one. *)
Inductive HttpProtocol := HP_Http1 | HP_Http2 | HP_Unknown.

Class ConnectIo (W : Type) := {
  co_tcp : list Z -> Z -> W -> result unit (TcpError * list Z) * W;
  co_write : list Z -> W -> result unit (list Z) * W;
  co_flush : W -> result unit (list Z) * W;
  co_read_buf : W -> list Z;
  co_set_read_buf : list Z -> W -> W;
  co_read_ready : W -> result (option unit) (list Z) * W;
  co_server_name : list Z -> bool;
  co_tls : list Z -> W -> result (option HttpProtocol) (TlsError * list Z) * W;
  co_handshake_h1 : W -> result nat (list Z) * W;
  co_handshake_h2 : W -> result nat (list Z) * W
}.

Definition classify_connect (e : TcpError * list Z) : Fail :=
  mkFail (match e.1 with
          | TC_Resolver | TC_NoRecords | TC_InvalidInput | TC_Unresolved => ERR_DNS
          | TC_Io => ERR_CONNECT
          end) e.2.

Definition classify_tls (e : TlsError * list Z) : Fail :=
  mkFail
    (match e.1 with
     | TL_InvalidCertificate cert =>
         match cert with
         | CR_UnknownIssuer | CR_BadSignature => ERR_TLS_CA
         | CR_NotValidForName | CR_NotValidForNameContext => ERR_TLS_HOSTNAME
         | CR_Expired | CR_ExpiredContext | CR_NotValidYet | CR_NotValidYetContext => ERR_TLS_EXPIRED
         | CR_Other => ERR_TLS_OTHER
         end
     | TL_NoApplicationProtocol | TL_AlertNoApplicationProtocol => ERR_ALPN_NO_H2
     | TL_Other => ERR_TLS_OTHER
     | TL_Io => ERR_CONNECT
     end) (bs "tls: " ++ e.2).

(** ** TLS settings *)

Section Tls.
Context {C : Type}.

(** [Tls]: the roots, the protocols that are offered, and [require_h2]. *)
Record Tls := mkTls { tls_roots : list C; tls_alpn : list (list Z); tls_require_h2 : bool }.

(** The loop over the bundle; [certs] is what [pem_slice_iter] gives, [add] whether
    the store takes a certificate. *)
Fixpoint add_roots (add : C -> result unit (list Z)) (certs : list (result C (list Z))) (roots : list C) (added : nat)
    : result (list C * nat) Fail :=
  match certs with
  | [] => Ok (roots, added)
  | Err e :: _ => Err (mkFail ERR_TLS_CA (bs "custom CA bundle: " ++ e))
  | Ok cert :: certs =>
      match add cert with
      | Err e => Err (mkFail ERR_TLS_CA (bs "custom CA bundle: " ++ e))
      | Ok _ => add_roots add certs (roots ++ [cert]) (S added)
      end
  end.

(** [Tls::new] *)
Definition tls_new (system : list C) (add : C -> result unit (list Z)) (custom_ca : option (list (result C (list Z))))
    (replace_system require_h2 : bool) : result Tls Fail :=
  let roots := if negb replace_system then system else [] in
  let res :=
    match custom_ca with
    | None => Ok roots
    | Some certs =>
        match add_roots add certs roots 0 with
        | Err e => Err e
        | Ok (roots, added) =>
            if (added =? 0)%nat then Err (mkFail ERR_TLS_CA (bs "custom CA bundle holds no certificate")) else Ok roots
        end
    end in
  match res with
  | Err e => Err e
  | Ok roots => Ok (mkTls roots [bs "h2"; bs "http/1.1"] require_h2)
  end.
End Tls.
Arguments Tls C : clear implicits.

(** ** The tunnel *)

Definition CRLF_CRLF : list Z := CRLF ++ CRLF.

(** [buf.windows(4).position(|w| w == b"\r\n\r\n")] *)
Fixpoint find_headers_end (buf : list Z) : option Z :=
  match buf with
  | [] => None
  | _ :: buf' =>
      if bool_decide (ztake 4 buf = CRLF_CRLF) then Some 0 else (fun n => n + 1) <$> find_headers_end buf'
  end.

(** [slice::split] *)
Fixpoint split_at_byte (sep : Z) (l : list Z) : list (list Z) :=
  match l with
  | [] => [[]]
  | b :: l =>
      if b =? sep then [] :: split_at_byte sep l
      else match split_at_byte sep l with x :: xs => (b :: x) :: xs | [] => [[b]] end
  end.

(** The status of [check_tunnel]. *)
Definition tunnel_status (h : list Z) : option Z :=
  line ← head (split_at_byte LF h);
  code ← split_at_byte 32 line !! 1%nat;
  if utf8 code then parse_uint (2 ^ 16) code else None.

Definition check_tunnel (h : list Z) : result unit Fail :=
  match tunnel_status h with
  | Some code =>
      if (200 <=? code) && (code <=? 299) then Ok tt
      else Err (mkFail ERR_CONNECT (bs "proxy refused CONNECT with status " ++ to_dec code))
  | None => Err (mkFail ERR_CONNECT (bs "proxy sent a malformed response to CONNECT"))
  end.

Definition connect_request (host : list Z) (port : Z) : list Z :=
  let authority := host ++ bs ":" ++ to_dec port in
  bs "CONNECT " ++ authority ++ bs " HTTP/1.1" ++ CRLF ++ bs "Host: " ++ authority ++ CRLF ++ CRLF.

Section Open.
Context `{ConnectIo W} {C : Type}.

(** The loop of [tunnel] that reads the proxy's answer. *)
Fixpoint tunnel_read (fuel : nat) (w : W) : outcome (result unit Fail * W) :=
  match fuel with
  | O => NoFuel
  | S fuel =>
      match find_headers_end (co_read_buf w) with
      | Some end_ =>
          let h := ztake (end_ + 4) (co_read_buf w) in
          Val (check_tunnel h, co_set_read_buf (zdrop (end_ + 4) (co_read_buf w)) w)
      | None =>
          let '(r, w) := co_read_ready w in
          match r with
          | Err e => Val (Err (mkFail ERR_CONNECT (bs "proxy read: " ++ e)), w)
          | Ok None => Val (Err (mkFail ERR_CONNECT (bs "proxy closed before answering CONNECT")), w)
          | Ok (Some _) => tunnel_read fuel w
          end
      end
  end.

Definition tunnel (fuel : nat) (host : list Z) (port : Z) (w : W) : outcome (result unit Fail * W) :=
  let '(r, w) := co_write (connect_request host port) w in
  match r with
  | Err e => Val (Err (mkFail ERR_CONNECT (bs "proxy write: " ++ e)), w)
  | Ok _ =>
      let '(r, w) := co_flush w in
      match r with
      | Err e => Val (Err (mkFail ERR_CONNECT (bs "proxy write: " ++ e)), w)
      | Ok _ => tunnel_read fuel w
      end
  end.

(** ** [open] and [connect] *)

Definition handshake_h1 (w : W) : result Sender Fail * W :=
  let '(r, w) := co_handshake_h1 w in
  (match r with Ok c => Ok (S_H1 c) | Err e => Err (mkFail ERR_PROTOCOL (bs "h1 handshake: " ++ e)) end, w).

(** [open] from the TLS handshake on. *)
Definition open_tls (host : list Z) (tls : Tls C) (w : W) : result Sender Fail * W :=
  if negb (co_server_name host) then (Err (mkFail ERR_TLS_HOSTNAME (host ++ bs " is not a valid server name")), w)
  else
    let '(r, w) := co_tls host w in
    match r with
    | Err e => (Err (classify_tls e), w)
    | Ok protocol =>
        let h2 := match protocol with Some HP_Http2 => true | _ => false end in
        if tls_require_h2 tls && negb h2
        then (Err (mkFail ERR_ALPN_NO_H2 (bs "HTTP/2 was required and the server did not negotiate it")), w)
        else if h2 then
          let '(r, w) := co_handshake_h2 w in
          (match r with Ok c => Ok (S_H2 c) | Err e => Err (mkFail ERR_PROTOCOL (bs "h2 handshake: " ++ e)) end, w)
        else handshake_h1 w
    end.

Definition open (fuel : nat) (origin : Origin) (tls : option (Tls C)) (proxy : option ProxyTarget) (w : W)
    : outcome (result Sender Fail * W) :=
  let '(is_tls, host, port) := origin in
  let '(r, w) :=
    match proxy with
    | Some p => co_tcp (px_host p) (px_port p) w
    | None => co_tcp host port w
    end in
  match r with
  | Err e => Val (Err (classify_connect e), w)
  | Ok _ =>
      if negb is_tls then Val (handshake_h1 w)
      else
        '(r, w) ← match proxy with Some _ => tunnel fuel host port w | None => Val (Ok tt, w) end;
        match r with
        | Err f => Val (Err f, w)
        | Ok _ =>
            match tls with
            | None => Val (Err (mkFail ERR_UNSUPPORTED (bs "this client was built without TLS")), w)
            | Some tls => Val (open_tls host tls w)
            end
        end
  end.

(** [connect]: what [open] gave, unless the time was over before. *)
Definition connect (origin : Origin) (opened : option (result Sender Fail)) : result Sender Fail :=
  match opened with
  | Some result => result
  | None =>
      Err (mkFail ERR_TIMEOUT (bs "connecting to " ++ origin.1.2 ++ bs ":" ++ to_dec origin.2 ++ bs " timed out"))
  end.
End Open.
