(* ===== verification/FfiConnectThms.v ===== *)
(** * What opening a connection guarantees

    [tunnel_exact]: the proxy's answer is read to its blank line and not a byte
    further, in any segments; [open_never_downgrades]: what is done on the wire, in
    which order, and that TLS and HTTP/2 are never given up silently;
    [roots_complete]: the roots that are trusted. *)
From S2P Require Import Prelude ClientProxy Encoder EncoderThms FfiAbi FfiClient FfiConnect.

(** ** The end of a head *)

Lemma ztake_app_long {A} n (a b : list A) : n <= zlen a -> ztake n (a ++ b) = ztake n a.
Proof. intros. by apply ztake_app_le. Qed.

Lemma find_end_bound b k : find_headers_end b = Some k -> 0 <= k /\ k + 4 <= zlen b.
Proof.
  revert k. induction b as [|x b IH]; intros k; [done|]. cbn [find_headers_end]. case_bool_decide as Hb.
  - intros [= <-]. apply (f_equal zlen) in Hb. change (zlen CRLF_CRLF) with 4 in Hb. split; [done|].
    unfold ztake, zlen in *. rewrite length_take in Hb. lia.
  - destruct (find_headers_end b) as [n|] eqn:E; simpl; [|done]. intros [= <-].
    destruct (IH n eq_refl). rewrite zlen_cons. lia.
Qed.

Lemma find_end_app b s k : find_headers_end b = Some k -> find_headers_end (b ++ s) = Some k.
Proof.
  revert k. induction b as [|x b IH]; intros k Hk; [done|]. pose proof (find_end_bound _ _ Hk) as [_ Hl].
  revert Hk. cbn [find_headers_end app]. case_bool_decide as Hb.
  - intros [= <-]. change (x :: b ++ s) with ((x :: b) ++ s). rewrite ztake_app_long by lia. by rewrite bool_decide_eq_true_2.
  - destruct (find_headers_end b) as [n|] eqn:E; simpl; [|done]. intros [= <-].
    assert (Hl4 : 4 <= zlen (x :: b)) by (pose proof (find_end_bound _ _ E); rewrite zlen_cons in *; lia).
    change (x :: b ++ s) with ((x :: b) ++ s). rewrite ztake_app_long by lia. rewrite bool_decide_eq_false_2 by done.
    by rewrite (IH n eq_refl).
Qed.

(** ** The answer of the proxy *)

Section Tunnel.
Context `{ConnectIo W}.

(** [read_ready] gives these segments, appended to the buffer, and then the end or an error. *)
Inductive delivers : W -> list (list Z) -> option (list Z) -> Prop :=
| dl_end w w' : co_read_ready w = (Ok None, w') -> delivers w [] None
| dl_err w w' e : co_read_ready w = (Err e, w') -> delivers w [] (Some e)
| dl_segment w w' s l fin :
    co_read_ready w = (Ok (Some tt), w') -> co_read_buf w' = co_read_buf w ++ s -> delivers w' l fin ->
    delivers w (s :: l) fin.

Definition buffer_is_set : Prop := forall b w, co_read_buf (co_set_read_buf b w) = b.

Lemma tunnel_reads w l fin :
  buffer_is_set -> delivers w l fin ->
  let total := co_read_buf w ++ concat l in
  exists n, forall fuel, (n <= fuel)%nat -> exists w',
    match find_headers_end total with
    | Some k =>
        tunnel_read fuel w = Val (check_tunnel (ztake (k + 4) total), w') /\
        exists early later, l = early ++ later /\ co_read_buf w' ++ concat later = zdrop (k + 4) total
    | None =>
        tunnel_read fuel w =
          Val (Err (mkFail ERR_CONNECT
                 match fin with Some e => bs "proxy read: " ++ e | None => bs "proxy closed before answering CONNECT" end), w')
    end.
Proof.
  intros Hset Hd. cbn zeta.
  induction Hd as [w w' Hr|w w' e Hr|w w' s l fin Hr Hb _ (n & IH)].
  1, 2: exists 1%nat; intros [|fuel] Hf; [lia|]; cbn [concat tunnel_read]; rewrite app_nil_r;
    destruct (find_headers_end (co_read_buf w)) as [k|]; [|rewrite Hr; by eexists];
    eexists; split; [done|]; exists [], []; split; [done|]; cbn [concat]; rewrite Hset; by rewrite app_nil_r.
  exists (S n). intros [|fuel] Hf; [lia|]. cbn [tunnel_read concat].
  destruct (find_headers_end (co_read_buf w)) as [k|] eqn:Ek.
  - rewrite (find_end_app _ (s ++ concat l) k Ek). pose proof (find_end_bound _ _ Ek) as [? ?].
    eexists. rewrite ztake_app_long by lia. split; [done|]. exists [], (s :: l). split; [done|].
    rewrite Hset. by rewrite zdrop_app_le by lia.
  - rewrite Hr. destruct (IH fuel ltac:(lia)) as (w2 & Hw). exists w2. rewrite Hb, <- app_assoc in Hw.
    destruct (find_headers_end (co_read_buf w ++ s ++ concat l)) as [k|]; [|done].
    destruct Hw as (-> & early & later & -> & Hl). split; [done|]. by exists (s :: early), later.
Qed.
End Tunnel.

(** ** The status line *)

Lemma split_at_byte_app sep l r : sep ∉ l -> split_at_byte sep (l ++ sep :: r) = l :: split_at_byte sep r.
Proof.
  induction l as [|b l IH]; intros Hl; cbn [split_at_byte app]; [by rewrite Z.eqb_refl|].
  apply not_elem_of_cons in Hl as [Hb Hl]. destruct (Z.eqb_spec b sep); [by subst|]. by rewrite IH.
Qed.

Lemma to_dec_digits_only n : Forall (fun b => 48 <= b <= 57) (to_dec n).
Proof.
  unfold to_dec. assert (Hg : forall fuel n acc, Forall (fun b => 48 <= b <= 57) acc -> Forall (fun b => 48 <= b <= 57) (dec_digits fuel n acc)).
  { induction fuel as [|fuel IH]; intros m acc Ha; [done|]. rewrite dec_digits_S.
    assert (Hd : Forall (fun b => 48 <= b <= 57) ((48 + m mod 10) :: acc)).
    { constructor; [|done]. pose proof (Z.mod_pos_bound m 10). lia. }
    case_match; [done|by apply IH]. }
  by apply Hg.
Qed.

Lemma digits_utf8 l : Forall (fun b => 48 <= b <= 57) l -> utf8 l = true.
Proof. induction 1 as [|b l Hb _ IH]; [done|]. cbn [utf8]. destruct (Z.ltb_spec b 128); [done|lia]. Qed.

Lemma not_in_digits c l : Forall (fun b => 48 <= b <= 57) l -> ~ (48 <= c <= 57) -> c ∉ l.
Proof. intros Hl Hc Hin. rewrite Forall_forall in Hl. by apply Hc, Hl. Qed.

(** The status of an answer whose reason, which may be empty, follows a space. *)
Lemma tunnel_status_line version code reason rest :
  32 ∉ version -> LF ∉ version -> LF ∉ reason -> 0 <= code < 2 ^ 16 ->
  tunnel_status (version ++ bs " " ++ to_dec code ++ bs " " ++ reason ++ CRLF ++ rest) = Some code.
Proof.
  intros Hs Hv Hr Hc. pose proof (to_dec_digits_only code) as Hd. unfold tunnel_status.
  replace (version ++ bs " " ++ to_dec code ++ bs " " ++ reason ++ CRLF ++ rest)
    with ((version ++ bs " " ++ to_dec code ++ bs " " ++ reason ++ [CR]) ++ LF :: rest) by (by rewrite <- !app_assoc).
  rewrite split_at_byte_app.
  - cbn [head mbind option_bind]. change (bs " ") with [32]. simpl ([32] ++ _).
    rewrite split_at_byte_app by done. rewrite split_at_byte_app by (apply not_in_digits; [done|lia]).
    simpl. rewrite digits_utf8 by done. apply parse_uint_dec; simpl; lia.
  - rewrite !not_elem_of_app. split_and!; [done|by compute_done|by apply not_in_digits; [done|unfold LF; lia]|by compute_done|done|by compute_done].
Qed.

(** [slice::split]'s first piece. *)
Lemma split_at_byte_head sep l :
  exists x, sep ∉ x /\ ((l = x /\ split_at_byte sep l = [x]) \/
    exists r, l = x ++ sep :: r /\ split_at_byte sep l = x :: split_at_byte sep r).
Proof.
  induction l as [|b l (x & Hx & IH)]; [exists []; split; [apply not_elem_of_nil|by left]|]. cbn [split_at_byte].
  destruct (Z.eqb_spec b sep) as [->|Hb]; [exists []; split; [apply not_elem_of_nil|right; by exists l]|].
  exists (b :: x). split; [by apply not_elem_of_cons|]. destruct IH as [[-> ->]|(r & -> & ->)]; [by left|right; by exists r].
Qed.

(** A first line with a status that opens a tunnel: the number between its first
    space and the next one, or the line's end. *)
Definition accepting_line (line : list Z) : Prop :=
  exists version text tail code, line = version ++ 32 :: text ++ tail /\ 32 ∉ version /\ 32 ∉ text /\
    (tail = [] \/ exists t, tail = 32 :: t) /\ parse_uint (2 ^ 16) text = Some code /\ 200 <= code <= 299.

(** An answer that opens the tunnel: it has a blank line, and such a first line. *)
Definition proxy_accepted (buf : list Z) : Prop :=
  (exists h r, buf = h ++ CRLF ++ CRLF ++ r) /\ exists line rest, buf = line ++ LF :: rest /\ LF ∉ line /\ accepting_line line.

Lemma find_end_blank buf k : find_headers_end buf = Some k -> exists h r, buf = h ++ CRLF_CRLF ++ r /\ ztake (k + 4) buf = h ++ CRLF_CRLF.
Proof.
  revert k. induction buf as [|b buf IH]; intros k; [done|]. cbn [find_headers_end]. case_bool_decide as Hb.
  - intros [= <-]. exists [], (zdrop 4 (b :: buf)). rewrite <- Hb at 1. split; [symmetry; apply take_drop|exact Hb].
  - destruct (find_headers_end buf) as [n|] eqn:E; simpl; [|done]. intros [= <-].
    pose proof (find_end_bound _ _ E). destruct (IH n eq_refl) as (h & r & Hbuf & Ht). exists (b :: h), r. split; [by rewrite Hbuf|].
    unfold ztake in *. replace (Z.to_nat (n + 1 + 4)) with (S (Z.to_nat (n + 4))) by lia. simpl. by rewrite Ht.
Qed.

Lemma tunnel_status_line_of h code :
  tunnel_status h = Some code -> 200 <= code <= 299 ->
  exists line, LF ∉ line /\ (h = line \/ exists r, h = line ++ LF :: r) /\ accepting_line line.
Proof.
  unfold tunnel_status. destruct (split_at_byte_head LF h) as (line & Hlf & Hl).
  assert (head (split_at_byte LF h) = Some line) as -> by (destruct Hl as [[_ ->]|(r & _ & ->)]; done).
  intros Hs Hc. exists line. split_and!; [done|destruct Hl as [[-> _]|(r & -> & _)]; [by left|right; by exists r]|]. simpl in Hs.
  destruct (split_at_byte_head 32 line) as (version & Hv & [[_ Hsp]|(r & -> & Hsp)]); rewrite Hsp in Hs; [done|]. simpl in Hs.
  destruct (split_at_byte_head 32 r) as (text & Ht & Hr).
  assert (Hs' : parse_uint (2 ^ 16) text = Some code).
  { destruct Hr as [[_ Hsp']|(r' & _ & Hsp')]; rewrite Hsp' in Hs; simpl in Hs; by destruct (utf8 text). }
  exists version, text. destruct Hr as [[-> _]|(r' & -> & _)].
  - exists [], code. rewrite app_nil_r. split_and!; try done; [by left|lia..].
  - exists (32 :: r'), code. split_and!; try done; [right; by eexists|lia..].
Qed.

Lemma check_tunnel_accepts buf k :
  find_headers_end buf = Some k -> is_ok (check_tunnel (ztake (k + 4) buf)) = true -> proxy_accepted buf.
Proof.
  intros Hk Hok. destruct (find_end_blank buf k Hk) as (h & r & -> & Ht). rewrite Ht in Hok.
  unfold check_tunnel in Hok. destruct (tunnel_status (h ++ CRLF_CRLF)) as [code|] eqn:Es; [|done].
  destruct (Z.leb_spec 200 code), (Z.leb_spec code 299); try done.
  destruct (tunnel_status_line_of _ _ Es) as (line & Hlf & Hh & Hacc); [lia|]. split; [exists h, r; done|].
  destruct Hh as [Hh|(t & Hh)]; [destruct Hlf; rewrite <- Hh, !elem_of_app; right; by compute_done|].
  exists line, (t ++ r). by rewrite (app_assoc h), Hh, <- app_assoc.
Qed.

Section TunnelThm.
Context `{ConnectIo W}.

(** The tunnel through a proxy.  When the request could be written: in whatever
    segments the proxy's answer comes, what is judged is its head, up to the
    first blank line, and every byte after it is left in the buffer or still to
    come, for the TLS handshake; a head with a status from 200 to 299 opens the tunnel,
    and any other is an error of the kind CONNECT, as the end of the stream
    before the blank line is.  The head's status is the number in its first
    line, but a status line that ends with the code, without the space that
    the grammar asks for before an empty reason, is refused. *)
Theorem tunnel_exact host port w w1 w2 l fin :
  buffer_is_set ->
  co_write (connect_request host port) w = (Ok tt, w1) -> co_flush w1 = (Ok tt, w2) -> delivers w2 l fin ->
  let total := co_read_buf w2 ++ concat l in
  (exists n, forall fuel, (n <= fuel)%nat -> exists r w',
     tunnel fuel host port w = Val (r, w') /\
     match find_headers_end total with
     | Some k =>
         r = check_tunnel (ztake (k + 4) total) /\
         (exists early later, l = early ++ later /\ co_read_buf w' ++ concat later = zdrop (k + 4) total)
     | None => exists message, r = Err (mkFail ERR_CONNECT message)
     end) /\
  (forall version code reason rest,
     32 ∉ version -> LF ∉ version -> LF ∉ reason -> 0 <= code < 2 ^ 16 ->
     let answer := version ++ bs " " ++ to_dec code ++ bs " " ++ reason ++ CRLF ++ rest in
     check_tunnel answer = Ok tt <-> 200 <= code <= 299) /\
  check_tunnel (bs "HTTP/1.1 200" ++ CRLF ++ CRLF) =
    Err (mkFail ERR_CONNECT (bs "proxy sent a malformed response to CONNECT")).
Proof.
  intros Hset Hw Hfl Hd total. split; [|split; [|reflexivity]].
  - destruct (tunnel_reads w2 l fin Hset Hd) as (n & Hn). exists n. intros fuel Hf. destruct (Hn fuel Hf) as (w' & Hr).
    fold total in Hr. unfold tunnel. rewrite Hw, Hfl. destruct (find_headers_end total) as [k|].
    + destruct Hr as (-> & Hl). by do 2 eexists.
    + do 2 eexists. split; [done|]. by eexists.
  - intros version code reason rest Hs Hv Hr Hc answer. unfold check_tunnel, answer. rewrite tunnel_status_line by done.
    destruct (Z.leb_spec 200 code), (Z.leb_spec code 299); simpl; (split; [try done; lia|try done; lia]).
Qed.
End TunnelThm.

(** ** What is done on the wire *)

(** An operation of the io; a flush and a read with the read buffer after it. *)
Inductive Act :=
| A_tcp (host : list Z) (port : Z)
| A_write (bytes : list Z)
| A_flush (buffer : list Z)
| A_read (buffer : list Z)
| A_tls (name : list Z) (negotiated : option HttpProtocol)
| A_tls_failed (name : list Z)
| A_h1
| A_h2.

Section Log.
Context {W : Type} (io : ConnectIo W).

(** The same io, with a log of what was done. *)
Definition logged : ConnectIo (W * list Act) := {|
  co_tcp h p w := let '(r, w1) := co_tcp h p w.1 in (r, (w1, w.2 ++ [A_tcp h p]));
  co_write b w := let '(r, w1) := co_write b w.1 in (r, (w1, w.2 ++ [A_write b]));
  co_flush w := let '(r, w1) := co_flush w.1 in (r, (w1, w.2 ++ [A_flush (co_read_buf w1)]));
  co_read_buf w := co_read_buf w.1;
  co_set_read_buf b w := (co_set_read_buf b w.1, w.2);
  co_read_ready w := let '(r, w1) := co_read_ready w.1 in (r, (w1, w.2 ++ [A_read (co_read_buf w1)]));
  co_server_name := co_server_name (ConnectIo := io);
  co_tls n w :=
    let '(r, w1) := co_tls n w.1 in
    (r, (w1, w.2 ++ [match r with Ok p => A_tls n p | Err _ => A_tls_failed n end]));
  co_handshake_h1 w := let '(r, w1) := co_handshake_h1 w.1 in (r, (w1, w.2 ++ [A_h1]));
  co_handshake_h2 w := let '(r, w1) := co_handshake_h2 w.1 in (r, (w1, w.2 ++ [A_h2]))
|}.

(** The log of [tunnel], whether it opened the tunnel or not: the request, then
    the proxy's answer is read, and an open tunnel is one that the answer that has
    been read so far accepts. *)
Definition tunnel_log (host : list Z) (port : Z) (opened : bool) (log : list Act) : Prop :=
  let request := A_write (connect_request host port) in
  (exists b0 reads, log = [request; A_flush b0] ++ (A_read <$> reads) /\
     (opened = true -> proxy_accepted (default b0 (last reads)))) \/
  (opened = false /\ log = [request]).

(** The log of the part after the tunnel, and what it gave. *)
Definition tls_log (host : list Z) (require_h2 : bool) (r : result Sender Fail) (log : list Act) : Prop :=
  (log = [] /\ is_ok r = false) \/
  (log = [A_tls_failed host] /\ is_ok r = false) \/
  exists p, let h2 := match p with Some HP_Http2 => true | _ => false end in
    (log = [A_tls host p] /\ is_ok r = false) \/
    (log = [A_tls host p; A_h2] /\ h2 = true /\ (forall s, r = Ok s -> exists c, s = S_H2 c)) \/
    (log = [A_tls host p; A_h1] /\ h2 = false /\ require_h2 = false /\ (forall s, r = Ok s -> exists c, s = S_H1 c)).

#[local] Existing Instance logged.

Lemma tunnel_read_log fuel : forall w log r w' log',
  tunnel_read fuel (w, log) = Val (r, (w', log')) ->
  exists reads, log' = log ++ (A_read <$> reads) /\
    (is_ok r = true -> proxy_accepted (default (co_read_buf w) (last reads))).
Proof.
  induction fuel as [|fuel IH]; intros w log r w' log'; [done|]. cbn [tunnel_read].
  destruct (find_headers_end _) as [k|] eqn:Ek.
  - intros [= <- <- <-]. exists []. split; [by rewrite app_nil_r|]. by apply check_tunnel_accepts.
  - cbn [co_read_ready logged fst snd]. destruct (co_read_ready w) as [[[[]|]|e] w1]; simpl.
    + intros E. apply IH in E as (reads & -> & Hok). exists (co_read_buf w1 :: reads). split; [by rewrite <- app_assoc|].
      rewrite last_cons. by destruct (last reads).
    + intros [= <- <- <-]. by exists [co_read_buf w1].
    + intros [= <- <- <-]. by exists [co_read_buf w1].
Qed.

Lemma tunnel_logs fuel host port w log r w' log' :
  tunnel fuel host port (w, log) = Val (r, (w', log')) ->
  exists l, log' = log ++ l /\ tunnel_log host port (is_ok r) l.
Proof.
  unfold tunnel. cbn [co_write logged fst snd]. destruct (co_write _ w) as [[[]|e] w1]; simpl.
  - cbn [co_flush logged fst snd]. destruct (co_flush w1) as [[[]|e] w2]; simpl.
    + intros E. apply tunnel_read_log in E as (reads & -> & Hok). eexists. rewrite <- !app_assoc. split; [done|]. left. by eexists _, reads.
    + intros [= <- <- <-]. eexists. rewrite <- app_assoc. split; [done|]. left. by exists (co_read_buf w2), [].
  - intros [= <- <- <-]. eexists. split; [done|]. by right.
Qed.

Lemma open_tls_logs {C} host (tls : Tls C) w log r w' log' :
  open_tls host tls (w, log) = (r, (w', log')) -> exists l, log' = log ++ l /\ tls_log host (tls_require_h2 tls) r l.
Proof.
  unfold open_tls. destruct (negb _); [intros [= <- <- <-]; exists []; rewrite app_nil_r; split; [done|by left]|].
  cbn [co_tls logged fst snd]. destruct (co_tls host w) as [[p|e] w1]; simpl.
  - set (h2 := match p with Some HP_Http2 => true | _ => false end).
    destruct (tls_require_h2 tls && negb h2) eqn:E.
    + intros [= <- <- <-]. eexists. split; [done|]. right. right. exists p. by left.
    + destruct h2 eqn:Eh.
      * destruct (co_handshake_h2 w1) as [[c|e] w2]; simpl; intros [= <- <- <-]; eexists; rewrite <- app_assoc; (split; [done|]);
          right; right; exists p; right; left; (split_and!; [done|done|]); intros s [= <-]; by eexists.
      * rewrite andb_true_r in E. rewrite E. unfold handshake_h1. cbn [co_handshake_h1 logged fst snd].
        destruct (co_handshake_h1 w1) as [[c|e] w2]; simpl; intros [= <- <- <-]; eexists; rewrite <- app_assoc; (split; [done|]);
          right; right; exists p; right; right; (split_and!; [done|done|done|]); intros s [= <-]; by eexists.
  - intros [= <- <- <-]. eexists. split; [done|]. right. by left.
Qed.

(** C27. What opening a connection does on the wire.  It connects to the proxy if
    there is one, and else to the origin.  For a plaintext origin it then starts
    HTTP/1.1, and nothing else.  For a TLS origin it writes nothing but the CONNECT
    request, through a proxy only, and starts TLS, with the origin's name, only when the
    proxy's answer, as far as it has been read, has a whole head with a status from
    200 to 299 in its first line; HTTP starts only inside TLS, in the version TLS
    negotiated, and never as HTTP/1.1 when HTTP/2 is required; and without TLS
    settings it fails instead of going on in plaintext. *)
Theorem open_never_downgrades {C} fuel is_tls host port (tls : option (Tls C)) proxy w r w' log :
  open fuel (is_tls, host, port) tls proxy (w, []) = Val (r, (w', log)) ->
  let target := match proxy with Some p => A_tcp (px_host p) (px_port p) | None => A_tcp host port end in
  (log = [target] /\ is_ok r = false) \/
  (is_tls = false /\ log = [target; A_h1] /\ forall s, r = Ok s -> exists c, s = S_H1 c) \/
  (is_tls = true /\ exists tun l, log = [target] ++ tun ++ l /\
     match proxy with
     | Some _ => tunnel_log host port (is_ok r || negb (bool_decide (l = []))) tun
     | None => tun = []
     end /\
     match tls with
     | Some tls => tls_log host (tls_require_h2 tls) r l
     | None => l = [] /\ is_ok r = false
     end).
Proof.
  intros E target. unfold open in E.
  assert (Ht : exists rt w1, match proxy with Some p => co_tcp (px_host p) (px_port p) (w, []) | None => co_tcp host port (w, []) end
    = (rt, (w1, [target]))).
  { subst target. destruct proxy as [p|]; cbn [co_tcp logged fst snd]; destruct (co_tcp _ _ w) as [rt w1]; by do 2 eexists. }
  destruct Ht as (rt & w1 & Ht). rewrite Ht in E. clearbody target. destruct rt as [[]|e]; [|simplify_eq; by left].
  destruct is_tls; simpl in E.
  - right. right. split; [done|].
    assert (Hrest : forall tun w2,
      (match tls with
       | None => Val (Err (mkFail ERR_UNSUPPORTED (bs "this client was built without TLS")), (w2, target :: tun))
       | Some tls => Val (open_tls host tls (w2, target :: tun))
       end = Val (r, (w', log))) ->
      exists l, log = [target] ++ tun ++ l /\
        match tls with Some tls => tls_log host (tls_require_h2 tls) r l | None => l = [] /\ is_ok r = false end).
    { intros tun w2 Ho. destruct tls as [tls|]; [|simplify_eq; exists []; by rewrite app_nil_r].
      injection Ho as Ho. apply open_tls_logs in Ho as (l & -> & Hl). by exists l. }
    destruct proxy as [p|].
    + destruct (tunnel fuel host port (w1, [target])) as [[rt [w2 log2]]| |] eqn:Etun; cbn [mbind outcome_bind] in E; try done.
      apply tunnel_logs in Etun as (tun & -> & Htun). destruct rt as [[]|f].
      * destruct (Hrest tun w2 E) as (l & Hlog & Hl). exists tun, l. split_and!; [done| |done].
        simpl in Htun. destruct Htun as [(b0 & reads & -> & Hok)|[? _]]; [|done]. left. exists b0, reads. split; [done|]. intros _. by apply Hok.
      * simplify_eq. exists tun, []. split; [by rewrite app_nil_r|]. split; [by apply Htun|]. destruct tls; [by left|done].
    + cbn [mbind outcome_bind] in E. destruct (Hrest [] w1 E) as (l & Hlog & Hl). by exists [], l.
  - right. left. split; [done|]. unfold handshake_h1 in E. cbn [co_handshake_h1 logged fst snd] in E.
    destruct (co_handshake_h1 w1) as [[c|e] w2]; simplify_eq/=; (split; [done|]); intros s [= <-]; by eexists.
Qed.
End Log.

(** ** The kinds of failure *)

Section Kinds.
Context `{ConnectIo W} {C : Type}.

(** Whatever goes wrong, a connection that is not there is never told as a success. *)
Definition failure_told {A} (r : result A Fail) : Prop := match r with Ok _ => True | Err f => f_kind f <> ERR_NONE end.

Lemma tunnel_fails_as_error fuel host port w r w' : tunnel fuel host port w = Val (r, w') -> failure_told r.
Proof.
  assert (Hread : forall fuel w, tunnel_read fuel w = Val (r, w') -> failure_told r).
  { clear fuel w. induction fuel as [|fuel IH]; intros w; [done|]. cbn [tunnel_read]. destruct (find_headers_end _).
    - intros [= <- _]. unfold check_tunnel. repeat case_match; done.
    - destruct (co_read_ready w) as [[[[]|]|e] w1]; [apply IH|intros [= <- _]; done..]. }
  unfold tunnel. destruct (co_write _ w) as [[[]|e] w1]; [|by intros [= <- _]].
  destruct (co_flush w1) as [[[]|e] w2]; [apply Hread|by intros [= <- _]].
Qed.

Lemma open_tls_fails_as_error host (tls : Tls C) w : failure_told (open_tls host tls w).1.
Proof.
  unfold open_tls, handshake_h1. destruct (negb _); [done|]. destruct (co_tls host w) as [[p|e] w1].
  - destruct (_ && _); [done|]. destruct (match p with Some HP_Http2 => true | _ => false end);
      [destruct (co_handshake_h2 w1) as [[?|?] ?]|destruct (co_handshake_h1 w1) as [[?|?] ?]]; done.
  - unfold classify_tls. destruct e as [[[]| | | |] m]; done.
Qed.

(** What the client's worker takes for granted ([FfiClient.told_apart]). *)
Lemma connect_fails_as_error fuel origin (tls : option (Tls C)) proxy w opened :
  opened = None \/ (exists r w', opened = Some r /\ open fuel origin tls proxy w = Val (r, w')) ->
  told_apart (connect origin opened) = true.
Proof.
  assert (Hfin : forall r, failure_told r -> told_apart r = true).
  { intros [s|f] Hf; [done|]. simpl in *. apply negb_true_iff. by apply bool_decide_eq_false_2. }
  intros [->|(r & w' & -> & Ho)]; [done|]. apply Hfin. simpl. revert Ho. unfold open. destruct origin as [[is_tls host] port].
  destruct (match proxy with Some p => _ | None => _ end) as [[[]|e] w1]; [|intros [= <- _]; by destruct e as [[] m]].
  destruct is_tls; simpl.
  - destruct (match proxy with Some _ => _ | None => _ end) as [[[[]|f] w2]| |] eqn:Et; simpl; try done.
    + destruct tls as [tls|]; [|by intros [= <- _]]. intros [= Ho]. pose proof (open_tls_fails_as_error host tls w2) as Hk.
      by rewrite Ho in Hk.
    + intros [= <- _]. destruct proxy; [|done]. exact (tunnel_fails_as_error _ _ _ _ _ _ Et).
  - intros [= Ho]. unfold handshake_h1 in Ho. destruct (co_handshake_h1 w1) as [[c|e] w2]; by simplify_eq.
Qed.
End Kinds.

(** ** The roots *)

Lemma add_roots_all {C} (add : C -> result unit (list Z)) certs : forall roots added,
  match add_roots add certs roots added with
  | Ok (roots', added') =>
      exists cs, certs = Ok <$> cs /\ roots' = roots ++ cs /\ added' = (added + length cs)%nat /\
        Forall (fun c => is_ok (add c) = true) cs
  | Err f => f_kind f = ERR_TLS_CA
  end.
Proof.
  induction certs as [|[c|e] certs IH]; intros roots added; cbn [add_roots].
  - exists []. rewrite app_nil_r, Nat.add_0_r. by split_and!.
  - destruct (add c) as [[]|e] eqn:Ea; [|done]. specialize (IH (roots ++ [c]) (S added)).
    destruct (add_roots add certs (roots ++ [c]) (S added)) as [[r a]|f]; [|done].
    destruct IH as (cs & -> & -> & -> & Hall). exists (c :: cs). rewrite <- app_assoc. split_and!; [done|done|simpl; lia|].
    constructor; [by rewrite Ea|done].
  - done.
Qed.

(** The roots that are trusted: the system's, unless they are replaced, and all
    certificates of the bundle; a bundle with one that cannot be read or added, or
    with none at all, is an error of the kind TLS_CA; and both protocols are
    offered, also when HTTP/2 is required. *)
Theorem roots_complete {C} (system : list C) add custom replace require_h2 :
  match tls_new system add custom replace require_h2 with
  | Ok tls =>
      tls_require_h2 tls = require_h2 /\ tls_alpn tls = [bs "h2"; bs "http/1.1"] /\
      exists cs, tls_roots tls = (if replace : bool then [] else system) ++ cs /\
        match custom with None => cs = [] | Some certs => cs <> [] /\ certs = Ok <$> cs end
  | Err f => f_kind f = ERR_TLS_CA /\ custom <> None
  end.
Proof.
  unfold tls_new. destruct custom as [certs|]; [|split_and!; [done|done|exists []; rewrite app_nil_r; by destruct replace]].
  pose proof (add_roots_all add certs (if negb replace then system else []) 0) as Hr.
  destruct (add_roots add certs _ 0) as [[roots added]|f]; [|by split].
  destruct Hr as (cs & -> & -> & -> & _). destruct cs as [|c cs]; simpl; [by split|]. split_and!; [done|done|].
  exists (c :: cs). split; [by destruct replace|done].
Qed.

(** ** A proxy *)
Module RefConnect.
Record world := mkWorld { wd_in : list (list Z); wd_buf : list Z }.
#[export] Instance ref_io : ConnectIo world := {
  co_tcp _ _ w := (Ok tt, w);
  co_write _ w := (Ok tt, w);
  co_flush w := (Ok tt, w);
  co_read_buf := wd_buf;
  co_set_read_buf b w := mkWorld (wd_in w) b;
  co_read_ready w := match wd_in w with [] => (Ok None, w) | s :: l => (Ok (Some tt), mkWorld l (wd_buf w ++ s)) end;
  co_server_name _ := true;
  co_tls _ w := (Ok (Some HP_Http2), w);
  co_handshake_h1 w := (Ok 1%nat, w);
  co_handshake_h2 w := (Ok 2%nat, w)
}.
End RefConnect.
Import RefConnect.

Notation proxy_world := (mkWorld [bs "HTTP/1.1 200 OK" ++ [CR]; [LF] ++ CRLF ++ bs "rest"] []).

Lemma tunnel_exact_witness :
  exists n, forall fuel, (n <= fuel)%nat -> exists r w',
    tunnel fuel (bs "h") 443 proxy_world = Val (r, w') /\
    r = check_tunnel (bs "HTTP/1.1 200 OK" ++ CRLF ++ CRLF) /\
    (exists early later, wd_in proxy_world = early ++ later /\ wd_buf w' ++ concat later = bs "rest").
Proof.
  refine (proj1 (tunnel_exact (bs "h") 443 proxy_world proxy_world proxy_world (wd_in proxy_world) None _ _ _ _));
    [intros b w; reflexivity|reflexivity|reflexivity|].
  eapply dl_segment; [reflexivity|reflexivity|]. eapply dl_segment; [reflexivity|reflexivity|]. by eapply dl_end.
Defined.

Notation opened_log :=
  [A_tcp (bs "p") 3128; A_write (connect_request (bs "h") 443); A_flush []; A_read (bs "HTTP/1.1 200 OK" ++ [CR]);
   A_read (bs "HTTP/1.1 200 OK" ++ CRLF ++ CRLF ++ bs "rest"); A_tls (bs "h") (Some HP_Http2); A_h2].
Lemma open_never_downgrades_witness :
  exists tun l, opened_log = [A_tcp (bs "p") 3128] ++ tun ++ l /\ tunnel_log (bs "h") 443 true tun /\
    tls_log (bs "h") true (Ok (S_H2 2)) l.
Proof.
  destruct (open_never_downgrades ref_io 9 true (bs "h") 443 (Some (mkTls [tt] [] true)) (Some (mkProxyTarget (bs "p") 3128))
    proxy_world (Ok (S_H2 2)) (mkWorld [] (bs "rest")) opened_log) as [[_ Hr]|[[Ht _]|[_ (tun & l & H1 & H2 & H3)]]].
  - vm_compute. reflexivity.
  - discriminate Hr.
  - discriminate Ht.
  - exists tun, l. split; [exact H1|]. split; [exact H2|exact H3].
Defined.
