(* ===== verification/NativeServer.v ===== *)
(** * The native HTTP/1 server of the C interface

    [native_server.rs] of the crate [geario-http-ffi]: [native_dispatch], what it
    hands to the host and what it makes of the answer, and
    [geario_http_native_h1_respond].  The responder that the host is given is the
    address of a reference-counted slot; a call with it may come from any thread.
    A world has the allocator's slots, the channels, one future of [native_dispatch]
    for each request and one activation of the C function for each call, and every
    access to shared memory is a step of its own.  An access to a slot that was
    freed is the fault [UseAfterFree].  The lock is held within one step, and the
    panic of a poisoned lock is left out, since nothing panics while it is held.
    The conversion of a name by the http crate is a parameter. *)
From S2P Require Import Prelude Headers Message Errors Encoder Body Response ClientProxy FfiAbi FfiResponder.

(** ** Values *)

(** [NativeReply] *)
Record NativeReply := mkNativeReply { nr_status : Z; nr_headers : list Z; nr_body : list Z }.

#[export] Instance NativeReply_eq_dec : EqDecision NativeReply.
Proof. solve_decision. Defined.

(** [GearioHttpNativeRequest]; a slice is the bytes it borrows. *)
Record NativeRequest := mkNativeRequest {
  nq_method : list Z;
  nq_path : list Z;
  nq_query : list Z;
  nq_headers : list Z;
  nq_body : list Z;
  nq_responder : Z
}.

(** What [native_dispatch] reads of a [Request]; the headers are visited in the
    order [rd_inner] of the hash map. *)
Record RequestData := mkRequestData {
  rd_method : list Z;
  rd_path : list Z;
  rd_query : option (list Z);
  rd_inner : list (HeaderName * Value)
}.

(** [render_headers] *)
Definition header_pairs (inner : list (HeaderName * Value)) : list (HeaderName * HeaderValue) :=
  drain HeaderMapOps.iter_next (S (length (flat_map HeaderMapThms.entry_pairs inner))) (HeaderMapOps.iter inner).
Definition render_headers (inner : list (HeaderName * Value)) : list Z :=
  fold_left (fun out nv =>
    (if negb (zlen out =? 0) then out ++ [NL] else out) ++ nv.1 ++ [COLON; SPACE] ++ hv_inner nv.2)
    (header_pairs inner) [].

Definition c_request (rq : RequestData) (body : list Z) (responder : Z) : NativeRequest :=
  mkNativeRequest (rd_method rq) (rd_path rq) (default [] (rd_query rq)) (render_headers (rd_inner rq)) body responder.

(** [String::from_utf8_lossy]: every maximal part that starts a well-formed
    sequence and does not end it, and every other byte that starts none, becomes
    U+FFFD. *)
Definition REPLACEMENT : list Z := [239; 191; 189].

Fixpoint from_utf8_lossy (l : list Z) : list Z :=
  match l with
  | [] => []
  | b0 :: l1 =>
      if b0 <? 128 then b0 :: from_utf8_lossy l1
      else if in_range 194 b0 223 then
        match l1 with
        | b1 :: l2 => if utf8_cont b1 then b0 :: b1 :: from_utf8_lossy l2 else REPLACEMENT ++ from_utf8_lossy l1
        | [] => REPLACEMENT
        end
      else if in_range 224 b0 239 then
        match l1 with
        | b1 :: l2 =>
            if in_range (if b0 =? 224 then 160 else 128) b1 (if b0 =? 237 then 159 else 191) then
              match l2 with
              | b2 :: l3 =>
                  if utf8_cont b2 then b0 :: b1 :: b2 :: from_utf8_lossy l3 else REPLACEMENT ++ from_utf8_lossy l2
              | [] => REPLACEMENT
              end
            else REPLACEMENT ++ from_utf8_lossy l1
        | [] => REPLACEMENT
        end
      else if in_range 240 b0 244 then
        match l1 with
        | b1 :: l2 =>
            if in_range (if b0 =? 240 then 144 else 128) b1 (if b0 =? 244 then 143 else 191) then
              match l2 with
              | b2 :: l3 =>
                  if utf8_cont b2 then
                    match l3 with
                    | b3 :: l4 =>
                        if utf8_cont b3 then b0 :: b1 :: b2 :: b3 :: from_utf8_lossy l4
                        else REPLACEMENT ++ from_utf8_lossy l3
                    | [] => REPLACEMENT
                    end
                  else REPLACEMENT ++ from_utf8_lossy l2
              | [] => REPLACEMENT
              end
            else REPLACEMENT ++ from_utf8_lossy l1
        | [] => REPLACEMENT
        end
      else REPLACEMENT ++ from_utf8_lossy l1
  end.

(** [<[u8]>::trim_ascii_start] *)
Definition ascii_whitespace (b : Z) : bool :=
  (b =? 32) || (b =? 9) || (b =? 10) || (b =? 12) || (b =? 13).
Fixpoint trim_ascii_start (l : list Z) : list Z :=
  match l with b :: l' => if ascii_whitespace b then trim_ascii_start l' else l | [] => [] end.

(** [StatusCode::from_u16(..).unwrap_or(INTERNAL_SERVER_ERROR)] *)
Definition status_from (c : Z) : Z := if (100 <=? c) && (c <=? 999) then c else INTERNAL_SERVER_ERROR.

Section Responses.
Context {M : Type} (name_of : list Z -> result HeaderName HttpError).

(** One line of the reply's headers, up to the builder. *)
Definition native_line (line : list Z) : option (list Z * list Z) :=
  i ← position (fun b => b =? COLON) line;
  Some (from_utf8_lossy (take i line), from_utf8_lossy (trim_ascii_start (drop (i + 1) line))).

Definition build_native_response (reply : NativeReply) (p : list ResponseHead)
    : outcome (Response (Body M) M * ResponseBuilder * list ResponseHead) :=
  let '(builder, p) := builder_new (status_from (nr_status reply)) p in
  let builder :=
    fold_left (fun builder line =>
      match native_line line with
      | Some (name, value) => builder_header builder (name_of name) (value_from value)
      | None => builder
      end) (split_lines (nr_headers reply)) builder in
  message_body builder (B_Bytes (mkBytes (nr_body reply))) p.

(** What a future of [native_dispatch] ends with. *)
Inductive Answer :=
| A_BadRequest
| A_InternalServerError
| A_Reply (reply : NativeReply).

Definition answer_response (a : Answer) (p : list ResponseHead)
    : outcome (Response (Body M) M * ResponseBuilder * list ResponseHead) :=
  match a with
  | A_BadRequest => let '(b, p) := builder_new BAD_REQUEST p in builder_finish b p
  | A_InternalServerError => let '(b, p) := builder_new INTERNAL_SERVER_ERROR p in builder_finish b p
  | A_Reply reply => build_native_response reply p
  end.
End Responses.

(** ** The shared state *)

(** An [Arc<NativeResponder>]'s allocation; the sender by its channel. *)
Record Slot := mkSlot { sl_strong : nat; sl_sender : option nat }.

(** [async_channel::bounded(1)]: what is in it, whether the receiver is there and
    whether the one sender is. *)
Record Chan := mkChan { ch_queue : list NativeReply; ch_rx : bool; ch_tx : bool }.

(** A future of [native_dispatch]: reading the body, inside the callback, waiting
    in [rx.recv()], with the reply before and after the host's reference is
    dropped, at its end, or dropped by the dispatcher; [a] is its responder. *)
Inductive Task :=
| T_Reading (rq : RequestData) (body : list Z)
| T_Calling (a : Z)
| T_Waiting (a : Z)
| T_Got (a : Z) (reply : NativeReply)
| T_Leaving (a : Z) (reply : NativeReply)
| T_Done (a : option Z) (ans : Answer)
| T_Dropped (a : option Z).

(** An activation of [geario_http_native_h1_respond]: before it locks the slot,
    with the sender it took, and returned. *)
Inductive Activation :=
| R_Entered
| R_Sending (ch : nat)
| R_Returned (ch : option nat) (st : Status).

Record HostCall := mkHostCall { hc_responder : Z; hc_reply : NativeReply; hc_at : Activation }.

Record World := mkWorld {
  w_tasks : gmap nat Task;
  w_heap : gmap Z Slot;
  w_chans : gmap nat Chan;
  w_calls : gmap nat HostCall;
  w_handed : list (nat * NativeRequest)
}.
Definition world_new : World := mkWorld ∅ ∅ ∅ ∅ [].

Definition set_task (i : nat) (t : Task) (w : World) : World :=
  mkWorld (<[i := t]> (w_tasks w)) (w_heap w) (w_chans w) (w_calls w) (w_handed w).
Definition set_heap (h : gmap Z Slot) (w : World) : World :=
  mkWorld (w_tasks w) h (w_chans w) (w_calls w) (w_handed w).
Definition set_chans (c : gmap nat Chan) (w : World) : World :=
  mkWorld (w_tasks w) (w_heap w) c (w_calls w) (w_handed w).
Definition set_call (k : nat) (c : HostCall) (w : World) : World :=
  mkWorld (w_tasks w) (w_heap w) (w_chans w) (<[k := c]> (w_calls w)) (w_handed w).
Definition hand (i : nat) (r : NativeRequest) (w : World) : World :=
  mkWorld (w_tasks w) (w_heap w) (w_chans w) (w_calls w) (w_handed w ++ [(i, r)]).

Definition close_rx (c : Chan) : Chan := mkChan (ch_queue c) false (ch_tx c).
Definition close_tx (c : Chan) : Chan := mkChan (ch_queue c) (ch_rx c) false.

Inductive Fault := UseAfterFree.

(** A step: it is not to be done now, or the world after it, or a fault. *)
Abbreviation Step := (option (result World Fault)).

(** A reference to the slot at [a] is dropped; the last one frees it, with the
    sender that may still be in it. *)
Definition arc_drop (a : Z) (w : World) : result World Fault :=
  match w_heap w !! a with
  | None => Err UseAfterFree
  | Some sl =>
      match sl_strong sl with
      | S (S n) => Ok (set_heap (<[a := mkSlot (S n) (sl_sender sl)]> (w_heap w)) w)
      | _ =>
          let w' := set_heap (delete a (w_heap w)) w in
          Ok match sl_sender sl with
             | Some ch => set_chans (alter close_tx ch (w_chans w)) w'
             | None => w'
             end
      end
  end.

Definition then_ (r : result World Fault) (f : World -> World) : result World Fault :=
  match r with Ok w => Ok (f w) | Err e => Err e end.

(** The locals of task [i] go: its own reference to the slot, and the receiver. *)
Definition leave (i : nat) (a : Z) (t : Task) (w : World) : result World Fault :=
  then_ (arc_drop a w) (fun w => set_task i t (set_chans (alter close_rx i (w_chans w)) w)).

(** ** [native_dispatch] *)

(** A chunk of the payload, or its error. *)
Definition payload_item (i : nat) (chunk : option (list Z)) (w : World) : Step :=
  match w_tasks w !! i with
  | Some (T_Reading rq body) =>
      Some (Ok match chunk with
               | Some bytes => set_task i (T_Reading rq (body ++ bytes)) w
               | None => set_task i (T_Done None A_BadRequest) w
               end)
  | _ => None
  end.

(** The payload is at its end: the slot is allocated at [a], with a reference for
    the future and one for the host, and the host is called. *)
Definition payload_end (i : nat) (a : Z) (w : World) : Step :=
  match w_tasks w !! i, w_heap w !! a with
  | Some (T_Reading rq body), None =>
      if (0 <? a) && (a <? 2 ^ 64) then
        let w := set_heap (<[a := mkSlot 2 (Some i)]> (w_heap w)) w in
        let w := set_chans (<[i := mkChan [] true true]> (w_chans w)) w in
        Some (Ok (set_task i (T_Calling a) (hand i (c_request rq body a) w)))
      else None
  | _, _ => None
  end.

Definition callback_returns (i : nat) (w : World) : Step :=
  match w_tasks w !! i with
  | Some (T_Calling a) => Some (Ok (set_task i (T_Waiting a) w))
  | _ => None
  end.

(** [rx.recv().await] *)
Definition recv (i : nat) (w : World) : Step :=
  match w_tasks w !! i, w_chans w !! i with
  | Some (T_Waiting a), Some ch =>
      match ch_queue ch with
      | r :: q => Some (Ok (set_task i (T_Got a r) (set_chans (<[i := mkChan q (ch_rx ch) (ch_tx ch)]> (w_chans w)) w)))
      | [] => if ch_tx ch then None else Some (leave i a (T_Done (Some a) A_InternalServerError) w)
      end
  | _, _ => None
  end.

(** [drop(Arc::from_raw(responder))] *)
Definition release (i : nat) (w : World) : Step :=
  match w_tasks w !! i with
  | Some (T_Got a r) => Some (then_ (arc_drop a w) (set_task i (T_Leaving a r)))
  | _ => None
  end.

Definition finish (i : nat) (w : World) : Step :=
  match w_tasks w !! i with
  | Some (T_Leaving a r) => Some (leave i a (T_Done (Some a) (A_Reply r)) w)
  | _ => None
  end.

(** The dispatcher drops the future where it is suspended. *)
Definition drop_future (i : nat) (w : World) : Step :=
  match w_tasks w !! i with
  | Some (T_Reading _ _) => Some (Ok (set_task i (T_Dropped None) w))
  | Some (T_Waiting a) => Some (leave i a (T_Dropped (Some a)) w)
  | _ => None
  end.

(** ** [geario_http_native_h1_respond] *)

Definition respond (k : nat) (responder : Z) (reply : NativeReply) (w : World) : Step :=
  match w_calls w !! k with
  | None =>
      Some (Ok (set_call k (mkHostCall responder reply
                              (if responder =? 0 then R_Returned None STATUS_INVALID_ARG else R_Entered)) w))
  | Some _ => None
  end.

(** [slot.sender.lock().unwrap().take()] *)
Definition respond_take (k : nat) (w : World) : Step :=
  match w_calls w !! k with
  | Some (mkHostCall a reply R_Entered) =>
      Some match w_heap w !! a with
           | None => Err UseAfterFree
           | Some sl =>
               let at_ := match sl_sender sl with
                          | Some ch => R_Sending ch
                          | None => R_Returned None STATUS_INVALID_ARG
                          end in
               Ok (set_call k (mkHostCall a reply at_) (set_heap (<[a := mkSlot (sl_strong sl) None]> (w_heap w)) w))
           end
  | _ => None
  end.

(** [sender.send_blocking(..)], which waits while the channel is full; the sender
    is gone after it. *)
Definition respond_send (k : nat) (w : World) : Step :=
  match w_calls w !! k with
  | Some (mkHostCall a reply (R_Sending ch)) =>
      match w_chans w !! ch with
      | None => None
      | Some c =>
          if negb (ch_rx c) then
            Some (Ok (set_call k (mkHostCall a reply (R_Returned (Some ch) STATUS_INVALID_ARG))
                        (set_chans (<[ch := close_tx c]> (w_chans w)) w)))
          else
            match ch_queue c with
            | [] =>
                Some (Ok (set_call k (mkHostCall a reply (R_Returned (Some ch) STATUS_OK))
                            (set_chans (<[ch := mkChan [reply] true false]> (w_chans w)) w)))
            | _ => None
            end
      end
  | _ => None
  end.

(** ** Runs *)

Inductive NativeEvent :=
| N_Request (i : nat) (rq : RequestData)
| N_Payload (i : nat) (chunk : option (list Z))
| N_End (i : nat) (a : Z)
| N_Returns (i : nat)
| N_Recv (i : nat)
| N_Release (i : nat)
| N_Finish (i : nat)
| N_Drop (i : nat)
| N_Respond (k : nat) (responder : Z) (reply : NativeReply)
| N_Take (k : nat)
| N_Send (k : nat).

Definition native_step (e : NativeEvent) (w : World) : Step :=
  match e with
  | N_Request i rq => match w_tasks w !! i with None => Some (Ok (set_task i (T_Reading rq []) w)) | Some _ => None end
  | N_Payload i c => payload_item i c w
  | N_End i a => payload_end i a w
  | N_Returns i => callback_returns i w
  | N_Recv i => recv i w
  | N_Release i => release i w
  | N_Finish i => finish i w
  | N_Drop i => drop_future i w
  | N_Respond k a r => respond k a r w
  | N_Take k => respond_take k w
  | N_Send k => respond_send k w
  end.

Fixpoint native_run (es : list NativeEvent) (w : World) : Step :=
  match es with
  | [] => Some (Ok w)
  | e :: es =>
      match native_step e w with
      | Some (Ok w) => native_run es w
      | r => r
      end
  end.

(** A host that calls with a responder at most once for every request it was
    handed it with; [rights] are the responders it may still use. *)
Definition rights_after (e : NativeEvent) (rights : gset Z) : option (gset Z) :=
  match e with
  | N_End _ a => Some ({[a]} ∪ rights)
  | N_Respond _ a _ =>
      if a =? 0 then Some rights
      else if bool_decide (a ∈ rights) then Some (rights ∖ {[a]}) else None
  | _ => Some rights
  end.

Fixpoint polite (es : list NativeEvent) (rights : gset Z) : bool :=
  match es with
  | [] => true
  | e :: es => match rights_after e rights with Some rights => polite es rights | None => false end
  end.
