(* ===== verification/NativeServerThms.v ===== *)
(** * Theorems of the native server

    The invariant of the slots, the channels and the calls, in every interleaving
    of the requests with a host that answers a request at most once; what a host
    that does not can do; and the answer's response. *)
From S2P Require Import Prelude Headers Message Errors Encoder Body Response ClientProxy FfiAbi FfiResponder FfiResponderThms NativeServer.

(** ** The invariant *)

(** Where the one answer of a request is: the host may still give it, a call is
    about to take the sender or has it, it is in the channel, the future has it,
    or it came too late. *)
Inductive Token :=
| K_Right
| K_Entered (k : nat)
| K_Sending (k : nat) (r : NativeReply)
| K_Queued (k : nat) (r : NativeReply)
| K_Taken (k : nat) (r : NativeReply)
| K_Late (k : nat) (r : NativeReply).

Definition address (t : Task) : option Z :=
  match t with
  | T_Reading _ _ => None
  | T_Calling a | T_Waiting a | T_Got a _ | T_Leaving a _ => Some a
  | T_Done a _ | T_Dropped a => a
  end.

(** The references to its slot: the future's own and the host's. *)
Definition refs (t : Task) : nat :=
  match t with
  | T_Calling _ | T_Waiting _ | T_Got _ _ => 2
  | T_Leaving _ _ | T_Dropped (Some _) => 1
  | _ => 0
  end.

Definition listens (t : Task) : bool :=
  match t with T_Calling _ | T_Waiting _ | T_Got _ _ | T_Leaving _ _ => true | _ => false end.

Definition in_slot (T : Token) : bool := match T with K_Right | K_Entered _ => true | _ => false end.
Definition open_tx (T : Token) : bool := match T with K_Right | K_Entered _ | K_Sending _ _ => true | _ => false end.

Definition fits (t : Task) (T : Token) : Prop :=
  match t, T with
  | (T_Calling _ | T_Waiting _), (K_Taken _ _ | K_Late _ _) => False
  | (T_Calling _ | T_Waiting _), _ => True
  | (T_Got _ r | T_Leaving _ r | T_Done _ (A_Reply r)), K_Taken _ r' => r' = r
  | T_Dropped _, K_Taken _ _ => False
  | T_Dropped _, _ => True
  | _, _ => False
  end.

Definition chan_of (t : Task) (T : Token) : Chan :=
  mkChan (match T with K_Queued _ r => [r] | _ => [] end) (listens t) (open_tx T).

Definition slot_of (i : nat) (t : Task) (T : Token) : Slot :=
  mkSlot (refs t) (if in_slot T then Some i else None).

(** The call the token is at. *)
Definition call_of (i : nat) (T : Token) (c : nat -> option HostCall) (a : Z) : Prop :=
  match T with
  | K_Right => True
  | K_Entered k => exists r, c k = Some (mkHostCall a r R_Entered)
  | K_Sending k r => c k = Some (mkHostCall a r (R_Sending i))
  | K_Queued k r | K_Taken k r => c k = Some (mkHostCall a r (R_Returned (Some i) STATUS_OK))
  | K_Late k r => c k = Some (mkHostCall a r (R_Returned (Some i) STATUS_INVALID_ARG))
  end.

Definition call_at (T : Token) : option nat :=
  match T with
  | K_Right => None
  | K_Entered k | K_Sending k _ | K_Queued k _ | K_Taken k _ | K_Late k _ => Some k
  end.

(** Request [i], its responder and its token. *)
Record holds (w : World) (i : nat) (t : Task) (a : Z) (T : Token) : Prop := {
  h_fits : fits t T;
  h_address : address t = Some a;
  h_nonzero : 0 < a < 2 ^ 64;
  h_chan : w_chans w !! i = Some (chan_of t T);
  h_slot : refs t <> 0%nat -> w_heap w !! a = Some (slot_of i t T);
  h_call : call_of i T (fun k => w_calls w !! k) a
}.

Definition alive (w : World) (i : nat) (a : Z) : Prop :=
  exists t, w_tasks w !! i = Some t /\ address t = Some a /\ refs t <> 0%nat.

Record Native (w : World) (rights : gset Z) (tok : gmap nat Token) : Prop := {
  n_tok i T : tok !! i = Some T -> exists t a, w_tasks w !! i = Some t /\ holds w i t a T;
  n_address i t a : w_tasks w !! i = Some t -> address t = Some a -> is_Some (tok !! i);
  n_refused i ans : w_tasks w !! i = Some (T_Done None ans) -> ans = A_BadRequest;
  n_apart i j a : alive w i a -> alive w j a -> i = j;
  n_heap a sl : w_heap w !! a = Some sl -> exists i, alive w i a;
  n_rights a : a ∈ rights -> exists i, tok !! i = Some K_Right /\ alive w i a;
  n_calls k c : w_calls w !! k = Some c ->
    (hc_responder c = 0 /\ hc_at c = R_Returned None STATUS_INVALID_ARG) \/
    (exists i T, tok !! i = Some T /\ call_at T = Some k)
}.

Lemma native_start : Native world_new ∅ ∅.
Proof.
  split; try (intros; set_solver).
  all: try (intros *; rewrite lookup_empty; done).
  intros * (t & Ht & _). done.
Qed.


Section Update.
Context {w : World} {rights : gset Z} {tok : gmap nat Token} (HN : Native w rights tok).

Lemma tok_holds i T t : tok !! i = Some T -> w_tasks w !! i = Some t -> exists a, holds w i t a T.
Proof. intros HT Ht. destruct (n_tok _ _ _ HN _ _ HT) as (t' & a & Ht' & H). simplify_eq. eauto. Qed.

Lemma task_tok i t a : w_tasks w !! i = Some t -> address t = Some a -> exists T, tok !! i = Some T /\ holds w i t a T.
Proof.
  intros Ht Ha. destruct (n_address _ _ _ HN _ _ _ Ht Ha) as [T HT]. destruct (tok_holds _ _ _ HT Ht) as [a' H].
  exists T. split; [done|]. pose proof (h_address _ _ _ _ _ H). by simplify_eq.
Qed.

Lemma in_slot_refs i t a T : holds w i t a T -> in_slot T = true -> refs t <> 0%nat.
Proof.
  intros [Hf Ha _ _ _ _] HT. destruct t as [| | | | |a' [| |]|[|]], T; simpl in *; try done; by simplify_eq.
Qed.

(** A call is at one request's token only. *)
Lemma call_unique i j T T' k :
  tok !! i = Some T -> tok !! j = Some T' -> call_at T = Some k -> call_at T' = Some k -> i = j.
Proof.
  intros HT HT' Hk Hk'. destruct (n_tok _ _ _ HN _ _ HT) as (t & a & Ht & H).
  destruct (n_tok _ _ _ HN _ _ HT') as (t' & a' & Ht' & H').
  pose proof (h_call _ _ _ _ _ H) as Hc. pose proof (h_call _ _ _ _ _ H') as Hc'.
  destruct T as [|k1|k1 r1|k1 r1|k1 r1|k1 r1], T' as [|k2|k2 r2|k2 r2|k2 r2|k2 r2]; simpl in *; simplify_eq;
    repeat match goal with Hx : exists _, _ |- _ => destruct Hx as [? Hx] end; simplify_eq; try done.
  eapply (n_apart _ _ _ HN); [exists t|exists t']; split_and!; try done; try (eapply h_address; done);
    by eapply in_slot_refs.
Qed.

Lemma token_call i T k : tok !! i = Some T -> call_at T = Some k -> is_Some (w_calls w !! k).
Proof.
  intros HT Hk. destruct (n_tok _ _ _ HN _ _ HT) as (t & a & _ & [_ _ _ _ _ Hc]).
  destruct T as [|k1|k1 r1|k1 r1|k1 r1|k1 r1]; simpl in *; simplify_eq; [destruct Hc as [? Hc]| | | |]; rewrite Hc; eauto.
Qed.

(** Request [i] goes on to [t'], with its token at [T']; nothing else changes but
    the slot [a] and the call the token is at. *)
Lemma native_update w' rights' i t' a T' :
  (forall j, j <> i -> w_tasks w' !! j = w_tasks w !! j /\ w_chans w' !! j = w_chans w !! j) ->
  (forall b, b <> a -> w_heap w' !! b = w_heap w !! b) ->
  (forall k, call_at T' <> Some k -> w_calls w' !! k = w_calls w !! k) ->
  w_tasks w' !! i = Some t' -> holds w' i t' a T' ->
  (refs t' = 0%nat -> w_heap w' !! a = None) ->
  (forall j, j <> i -> ~ alive w j a) ->
  (forall b, alive w i b -> b = a) ->
  (forall T k, tok !! i = Some T -> call_at T = Some k -> call_at T' = Some k) ->
  (forall j T k, j <> i -> tok !! j = Some T -> call_at T = Some k -> call_at T' <> Some k) ->
  (forall b, b ∈ rights' -> b ∈ rights \/ b = a) ->
  (a ∈ rights' -> T' = K_Right) ->
  Native w' rights' (<[i := T']> tok).
Proof.
  intros Hothers Hheap Hcalls Hti Hi Hfree Hapart Hown Hkeep Hfresh Hrights Hright.
  assert (Halive : forall j b, j <> i -> alive w' j b <-> alive w j b).
  { intros j b Hj. unfold alive. destruct (Hothers j Hj) as [-> _]. done. }
  assert (Halivei : forall b, alive w' i b -> b = a).
  { intros b (t & Ht & Hb & _). pose proof (h_address _ _ _ _ _ Hi). by simplify_eq. }
  assert (Hneq : forall j b, j <> i -> alive w j b -> b <> a) by (intros j b Hj Hb ->; by apply (Hapart j Hj)).
  split.
  - intros j T HT. destruct (decide (j = i)) as [->|Hj].
    { rewrite lookup_insert_eq in HT. simplify_eq. eauto. }
    rewrite lookup_insert_ne in HT by done. destruct (n_tok _ _ _ HN _ _ HT) as (t & b & Ht & [Hf Ha Hn Hc Hs Hk]).
    exists t, b. destruct (Hothers j Hj) as [Eq1 Eq2]. split; [by rewrite Eq1|]. split; rewrite ?Eq2; try done.
    + intros Hr. rewrite Hheap; [by apply Hs|]. apply (Hneq j b Hj). by exists t.
    + assert (Hsame : forall k, call_at T = Some k -> w_calls w' !! k = w_calls w !! k).
      { intros k Hk'. apply Hcalls. by eapply Hfresh. }
      destruct T; simpl in *; try rewrite Hsame by done; done.
  - intros j t b Ht Hb. destruct (decide (j = i)) as [->|Hj]; [rewrite lookup_insert_eq; eauto|].
    rewrite lookup_insert_ne by done. destruct (Hothers j Hj) as [Eq1 _]. rewrite Eq1 in Ht.
    by eapply n_address.
  - intros j ans Hj. destruct (decide (j = i)) as [->|Hji].
    { rewrite Hti in Hj. simplify_eq. by pose proof (h_address _ _ _ _ _ Hi). }
    destruct (Hothers j Hji) as [Eq1 _]. rewrite Eq1 in Hj. by eapply n_refused.
  - intros j1 j2 b H1 H2. destruct (decide (j1 = i)) as [->|Hj1], (decide (j2 = i)) as [->|Hj2]; [done| | |].
    + apply Halivei in H1 as ->. apply (Halive _ _ Hj2) in H2. by destruct (Hapart j2).
    + apply Halivei in H2 as ->. apply (Halive _ _ Hj1) in H1. by destruct (Hapart j1).
    + apply (Halive _ _ Hj1) in H1. apply (Halive _ _ Hj2) in H2. by eapply n_apart.
  - intros b sl Hb. destruct (decide (b = a)) as [->|Hba].
    { exists i, t'. split_and!; [done|by eapply h_address|]. intros Hr. by rewrite Hfree in Hb. }
    rewrite Hheap in Hb by done. destruct (n_heap _ _ _ HN _ _ Hb) as [j Hj]. exists j.
    apply Halive; [|done]. intros ->. by apply Hba, Hown.
  - intros b Hb. destruct (decide (b = a)) as [->|Hba].
    { exists i. rewrite lookup_insert_eq. rewrite (Hright Hb) in *. split; [done|]. exists t'.
      split_and!; [done|by eapply h_address|]. destruct Hi as [Hf Ha _ _ _ _].
      destruct t' as [| | | | |a' [| |]|[|]]; simpl in *; done. }
    destruct (Hrights b Hb) as [Hb'| ->]; [|done]. destruct (n_rights _ _ _ HN _ Hb') as (j & HT & Hj). exists j.
    assert (j <> i) by (intros ->; by apply Hba, Hown). rewrite lookup_insert_ne by done.
    split; [done|]. by apply Halive.
  - intros k c Hk. destruct (decide (call_at T' = Some k)) as [HT'|HT'].
    { right. exists i, T'. by rewrite lookup_insert_eq. }
    rewrite Hcalls in Hk by done. destruct (n_calls _ _ _ HN _ _ Hk) as [?|(j & T & HT & Hc)]; [by left|].
    right. exists j, T. rewrite lookup_insert_ne; [done|]. intros <-. apply HT'. by eapply Hkeep.
Qed.

(** A request without a slot goes on without one. *)
Lemma native_plain i t' :
  match w_tasks w !! i with Some t => address t = None | None => True end ->
  address t' = None -> (forall ans, t' = T_Done None ans -> ans = A_BadRequest) ->
  Native (set_task i t' w) rights tok.
Proof.
  intros Ht Ha Hans.
  assert (Hno : tok !! i = None).
  { destruct (tok !! i) as [T|] eqn:HT; [|done]. destruct (n_tok _ _ _ HN _ _ HT) as (t & a & Ht' & H).
    rewrite Ht' in Ht. pose proof (h_address _ _ _ _ _ H). congruence. }
  assert (Halive : forall j b, alive (set_task i t' w) j b <-> alive w j b).
  { intros j b. unfold alive. simpl. destruct (decide (j = i)) as [->|Hj].
    - rewrite lookup_insert_eq. split; intros (t & Hx & Hy & Hz); [congruence|].
      rewrite Hx in Ht. congruence.
    - by rewrite lookup_insert_ne. }
  split; simpl.
  - intros j T HT. assert (j <> i) by congruence. destruct (n_tok _ _ _ HN _ _ HT) as (t & a & Htj & [? ? ? ? ? ?]).
    exists t, a. rewrite lookup_insert_ne by done. by split.
  - intros j t a Htj Haj. destruct (decide (j = i)) as [->|Hj].
    + rewrite lookup_insert_eq in Htj. congruence.
    + rewrite lookup_insert_ne in Htj by done. by eapply n_address.
  - intros j ans Hj. destruct (decide (j = i)) as [->|Hji].
    + rewrite lookup_insert_eq in Hj. simplify_eq. by apply Hans.
    + rewrite lookup_insert_ne in Hj by done. by eapply n_refused.
  - intros j1 j2 b. rewrite !Halive. apply (n_apart _ _ _ HN).
  - intros b sl Hb. destruct (n_heap _ _ _ HN _ _ Hb) as [j Hj]. exists j. by apply Halive.
  - intros b Hb. destruct (n_rights _ _ _ HN _ Hb) as (j & HT & Hj). exists j. by rewrite Halive.
  - apply (n_calls _ _ _ HN).
Qed.
End Update.

Section Steps.
Context {w : World} {rights : gset Z} {tok : gmap nat Token} (HN : Native w rights tok).

Lemma alive_slot i a : alive w i a -> exists t T, w_tasks w !! i = Some t /\ tok !! i = Some T /\ holds w i t a T /\
  w_heap w !! a = Some (slot_of i t T).
Proof.
  intros (t & Ht & Ha & Hr). destruct (task_tok HN _ _ _ Ht Ha) as (T & HT & H). exists t, T.
  split_and!; try done. by apply (h_slot _ _ _ _ _ H).
Qed.

Lemma right_token i t a T : holds w i t a T -> w_tasks w !! i = Some t -> tok !! i = Some T -> refs t <> 0%nat ->
  a ∈ rights -> T = K_Right.
Proof.
  intros H Ht HT Hr Ha. destruct (n_rights _ _ _ HN _ Ha) as (j & Hj & Hja).
  assert (i = j) as ->; [|congruence]. eapply (n_apart _ _ _ HN); [|done]. exists t. split_and!; try done. by eapply h_address.
Qed.

(** A request with a slot goes on, or its token does. *)
Lemma native_move w' rights' i t t' a T T' :
  w_tasks w !! i = Some t -> tok !! i = Some T -> holds w i t a T -> refs t <> 0%nat ->
  (forall j, j <> i -> w_tasks w' !! j = w_tasks w !! j /\ w_chans w' !! j = w_chans w !! j) ->
  (forall b, b <> a -> w_heap w' !! b = w_heap w !! b) ->
  (forall k, call_at T' <> Some k -> w_calls w' !! k = w_calls w !! k) ->
  w_tasks w' !! i = Some t' -> holds w' i t' a T' ->
  (refs t' = 0%nat -> w_heap w' !! a = None) ->
  (call_at T' = call_at T \/ (T = K_Right /\ exists k, call_at T' = Some k /\ w_calls w !! k = None)) ->
  rights' ⊆ rights -> (a ∈ rights' -> T' = K_Right) ->
  Native w' rights' (<[i := T']> tok).
Proof.
  intros Ht HT H Hr Hothers Hheap Hcalls Ht' H' Hfree Hcall Hsub Hright.
  assert (Hal : alive w i a) by (exists t; split_and!; try done; by eapply h_address).
  apply (native_update HN w' rights' i t' a T'); try done.
  - intros j Hj Hja. by apply Hj, (n_apart _ _ _ HN j i a).
  - intros b (t2 & Ht2 & Hb & _). pose proof (h_address _ _ _ _ _ H). by simplify_eq.
  - intros T2 k HT2 Hk. simplify_eq. destruct Hcall as [->|(-> & _)]; [done|by simpl in Hk].
  - intros j T2 k Hj HT2 Hk Hk'. destruct Hcall as [Hc|(-> & k' & Hk2 & Hno)].
    + rewrite Hc in Hk'. by apply Hj, (call_unique HN j i T2 T k).
    + rewrite Hk2 in Hk'. simplify_eq. destruct (token_call HN j T2 k HT2 Hk). congruence.
  - intros b Hb. left. by apply Hsub.
Qed.

Lemma native_null_call k r :
  w_calls w !! k = None ->
  Native (set_call k (mkHostCall 0 r (R_Returned None STATUS_INVALID_ARG)) w) rights tok.
Proof.
  intros Hk. destruct HN as [Htok Haddr Href Hap Hh Hri Hc]. split; simpl; try done.
  - intros i T HT. destruct (Htok i T HT) as (t & a & Ht & [? ? ? ? ? Hcall]). exists t, a. split; [done|].
    split; try done. simpl.
    destruct T; simpl in *; try done; try (destruct Hcall as [r0 Hcall]; exists r0); rewrite lookup_insert_ne; congruence.
  - intros k' c. rewrite lookup_insert. case_decide; [|apply Hc]. intros ?. simplify_eq. by left.
Qed.
End Steps.

Lemma arc_drop_spec a w n snd :
  w_heap w !! a = Some (mkSlot (S n) snd) -> (n = 0%nat -> snd = None) ->
  arc_drop a w = Ok (set_heap (match n with O => delete a (w_heap w) | S _ => <[a := mkSlot n snd]> (w_heap w) end) w).
Proof. unfold arc_drop. intros -> Hn. destruct n; [|done]. by rewrite Hn by done. Qed.

(** Two facts of a world at some other request or slot. *)
Ltac others :=
  intros; simpl; rewrite ?lookup_insert_ne, ?lookup_alter_ne, ?lookup_delete_ne by done; done.

(** The step of request [i] that [e] is, in a world where [e] is to be done. *)
Definition goes_on (w : World) (rights : gset Z) (s : Step) : Prop :=
  match s with
  | None => True
  | Some (Ok w') => exists tok', Native w' rights tok'
  | Some (Err _) => False
  end.

Section Kinds.
Context {w : World} {rights : gset Z} {tok : gmap nat Token} (HN : Native w rights tok).

Lemma end_goes_on i a : goes_on w ({[a]} ∪ rights) (payload_end i a w).
Proof.
  unfold payload_end. destruct (w_tasks w !! i) as [[rq body| | | | | |]|] eqn:Ht; try done.
  destruct (w_heap w !! a) as [sl|] eqn:Ha; [done|]. destruct (Z.ltb_spec 0 a), (Z.ltb_spec a (2 ^ 64)); try done.
  assert (Hno : tok !! i = None).
  { destruct (tok !! i) as [T|] eqn:HT; [|done]. destruct (tok_holds HN _ _ _ HT Ht) as [b H']. by pose proof (h_address _ _ _ _ _ H'). }
  assert (Hdead : forall j, ~ alive w j a).
  { intros j Hj. destruct (alive_slot HN _ _ Hj) as (? & ? & _ & _ & _ & ?). congruence. }
  exists (<[i := K_Right]> tok). simpl.
  eapply (native_update HN _ _ i (T_Calling a) a K_Right); simpl; try done; try (split; others); try others.
  - by rewrite lookup_insert_eq.
  - split; simpl; try done; by rewrite lookup_insert_eq.
  - intros b (t2 & Ht2 & Hb & _). rewrite Ht in Ht2. by simplify_eq.
  - congruence.
  - set_solver.
Qed.

Lemma returns_goes_on i : goes_on w rights (callback_returns i w).
Proof.
  unfold callback_returns. destruct (w_tasks w !! i) as [[|a| | | | |]|] eqn:Ht; try done.
  destruct (task_tok HN _ _ _ Ht eq_refl) as (T & HT & H). exists (<[i := T]> tok).
  eapply (native_move HN _ _ i (T_Calling a) (T_Waiting a) a T T); simpl; try done; try (split; others).
  - by rewrite lookup_insert_eq.
  - destruct H as [Hf Ha Hn Hc Hs Hk]. by split.
  - by left.
  - by eapply right_token.
Qed.

Lemma recv_goes_on i : goes_on w rights (recv i w).
Proof.
  unfold recv. destruct (w_tasks w !! i) as [[| |a| | | |]|] eqn:Ht; try done.
  destruct (task_tok HN _ _ _ Ht eq_refl) as (T & HT & H). rewrite (h_chan _ _ _ _ _ H).
  pose proof (h_fits _ _ _ _ _ H) as Hf. destruct T as [|k|k r|k r|k r|k r]; simpl in *; try done.
  exists (<[i := K_Taken k r]> tok).
  eapply (native_move HN _ _ i (T_Waiting a) (T_Got a r) a (K_Queued k r) (K_Taken k r)); simpl; try done; try (split; others).
  - by rewrite lookup_insert_eq.
  - destruct H as [_ Ha Hn Hc Hs Hk]. split; simpl in *; try done. by rewrite lookup_insert_eq.
  - by left.
  - intros Ha. by pose proof (right_token HN _ _ _ _ H Ht HT (Nat.neq_succ_0 1) Ha).
Qed.

Lemma release_goes_on i : goes_on w rights (release i w).
Proof.
  unfold release. destruct (w_tasks w !! i) as [[| | |a r| | |]|] eqn:Ht; try done.
  destruct (task_tok HN _ _ _ Ht eq_refl) as (T & HT & H).
  pose proof (h_fits _ _ _ _ _ H) as Hf. destruct T as [| | | |k r'|]; simpl in Hf; try done. subst r'.
  pose proof (h_slot _ _ _ _ _ H (Nat.neq_succ_0 1)) as Hs. unfold slot_of in Hs. simpl in Hs.
  rewrite (arc_drop_spec _ _ _ _ Hs) by done. exists (<[i := K_Taken k r]> tok). simpl.
  eapply (native_move HN _ _ i (T_Got a r) (T_Leaving a r) a (K_Taken k r) (K_Taken k r)); simpl; try done; try (split; others); try others.
  - by rewrite lookup_insert_eq.
  - destruct H as [_ Ha Hn Hc _ Hk]. split; simpl in *; try done. by rewrite lookup_insert_eq.
  - by left.
  - intros Ha. by pose proof (right_token HN _ _ _ _ H Ht HT (Nat.neq_succ_0 1) Ha).
Qed.

Lemma finish_goes_on i : goes_on w rights (finish i w).
Proof.
  unfold finish, leave. destruct (w_tasks w !! i) as [[| | | |a r| |]|] eqn:Ht; try done.
  destruct (task_tok HN _ _ _ Ht eq_refl) as (T & HT & H).
  pose proof (h_fits _ _ _ _ _ H) as Hf. destruct T as [| | | |k r'|]; simpl in Hf; try done. subst r'.
  pose proof (h_slot _ _ _ _ _ H (Nat.neq_succ_0 0)) as Hs. unfold slot_of in Hs. simpl in Hs.
  rewrite (arc_drop_spec _ _ _ _ Hs) by done. exists (<[i := K_Taken k r]> tok). simpl.
  eapply (native_move HN _ _ i (T_Leaving a r) (T_Done (Some a) (A_Reply r)) a (K_Taken k r) (K_Taken k r));
    simpl; try done; try (split; others); try others.
  - by rewrite lookup_insert_eq.
  - destruct H as [_ Ha Hn Hc _ Hk]. split; simpl in *; try done. by rewrite lookup_alter_eq, Hc.
  - by rewrite lookup_delete_eq.
  - by left.
  - intros Ha. by pose proof (right_token HN _ _ _ _ H Ht HT (Nat.neq_succ_0 0) Ha).
Qed.

Lemma drop_goes_on i : goes_on w rights (drop_future i w).
Proof.
  unfold drop_future, leave. destruct (w_tasks w !! i) as [[rq body| |a| | | |]|] eqn:Ht; try done.
  { exists tok. apply (native_plain HN); rewrite ?Ht; done. }
  destruct (task_tok HN _ _ _ Ht eq_refl) as (T & HT & H). pose proof (h_fits _ _ _ _ _ H) as Hf.
  pose proof (h_slot _ _ _ _ _ H (Nat.neq_succ_0 1)) as Hs. unfold slot_of in Hs. simpl in Hs.
  rewrite (arc_drop_spec _ _ _ _ Hs) by done. exists (<[i := T]> tok). simpl.
  eapply (native_move HN _ _ i (T_Waiting a) (T_Dropped (Some a)) a T T); simpl; try done; try (split; others); try others.
  - by rewrite lookup_insert_eq.
  - destruct H as [_ Ha Hn Hc _ Hk]. split; simpl in *; try done; [by destruct T| |by rewrite lookup_insert_eq].
    by rewrite lookup_alter_eq, Hc.
  - by left.
  - intros Ha. by eapply right_token.
Qed.

Lemma respond_goes_on k a r rights' :
  rights_after (N_Respond k a r) rights = Some rights' -> goes_on w rights' (respond k a r w).
Proof.
  simpl. unfold respond. intros Hra. destruct (w_calls w !! k) as [c|] eqn:Hk; [done|].
  destruct (Z.eqb_spec a 0) as [->|Ha0]; [simplify_eq; exists tok; by apply native_null_call|].
  case_bool_decide as Hin; [|done]. simplify_eq. destruct (n_rights _ _ _ HN _ Hin) as (i & HT & Hal).
  destruct (alive_slot HN _ _ Hal) as (t & T & Ht & HT' & H & Hs). simplify_eq.
  exists (<[i := K_Entered k]> tok).
  eapply (native_move HN _ _ i t t a K_Right (K_Entered k)); simpl; try done.
  - destruct Hal as (t' & Ht' & _ & Hr). congruence.
  - intros k' Hk'. rewrite lookup_insert_ne by congruence. done.
  - destruct H as [Hf Ha Hn Hc Hsl _]. split; simpl; try done.
    exists r. by rewrite lookup_insert_eq.
  - intros Hr. destruct Hal as (t' & Ht' & _ & Hr'). congruence.
  - right. split; [done|]. by exists k.
  - set_solver.
  - set_solver.
Qed.

Lemma call_token k a r at_ :
  w_calls w !! k = Some (mkHostCall a r at_) -> at_ <> R_Returned None STATUS_INVALID_ARG ->
  exists i t a' T, tok !! i = Some T /\ call_at T = Some k /\ w_tasks w !! i = Some t /\ holds w i t a' T.
Proof.
  intros Hk Hat. destruct (n_calls _ _ _ HN _ _ Hk) as [[_ ?]|(i & T & HT & Hc)]; [done|].
  destruct (n_tok _ _ _ HN _ _ HT) as (t & a' & Ht & H). eauto 10.
Qed.

Lemma take_goes_on k : goes_on w rights (respond_take k w).
Proof.
  unfold respond_take. destruct (w_calls w !! k) as [[a r [| |]]|] eqn:Hk; try done.
  destruct (call_token _ _ _ _ Hk) as (i & t & a' & T & HT & Hc & Ht & H); [done|].
  pose proof (h_call _ _ _ _ _ H) as Hcall.
  destruct T as [|k'|k' r'|k' r'|k' r'|k' r']; simpl in Hc, Hcall; simplify_eq; try congruence.
  destruct Hcall as [r' Hk']. rewrite Hk in Hk'. simplify_eq.
  pose proof (in_slot_refs _ _ _ _ H eq_refl) as Hr. pose proof (h_slot _ _ _ _ _ H Hr) as Hs.
  rewrite Hs. simpl. exists (<[i := K_Sending k r']> tok).
  eapply (native_move HN _ _ i t t a' (K_Entered k) (K_Sending k r')); simpl; try done; try others.
  - intros k' Hk'. rewrite lookup_insert_ne by congruence. done.
  - destruct H as [Hf Ha Hn Hch _ _]. split; simpl; try done.
    + intros _. by rewrite lookup_insert_eq.
    + by rewrite lookup_insert_eq.
  - by left.
  - intros Ha. by pose proof (right_token HN _ _ _ _ H Ht HT Hr Ha).
Qed.

Lemma send_goes_on k : goes_on w rights (respond_send k w).
Proof.
  unfold respond_send. destruct (w_calls w !! k) as [[a r [|ch|]]|] eqn:Hk; try done.
  destruct (call_token _ _ _ _ Hk) as (i & t & a' & T & HT & Hc & Ht & H); [done|].
  pose proof (h_call _ _ _ _ _ H) as Hcall.
  destruct T as [|k'|k' r'|k' r'|k' r'|k' r']; simpl in Hc, Hcall; simplify_eq;
    try (destruct Hcall as [? Hcall]; congruence).
  rename ch into i. pose proof H as [Hf Ha Hn Hch Hs _]. rewrite Hch. simpl.
  assert (Hr : refs t <> 0%nat) by (by destruct t as [| | | | |? [| |]|[|]]).
  assert (Hno : a ∉ rights) by (intros Hin; by pose proof (right_token HN _ _ _ _ H Ht HT Hr Hin)).
  destruct (listens t) eqn:Hl; simpl.
  - exists (<[i := K_Queued k r]> tok).
    eapply (native_move HN _ _ i t t a (K_Sending k r) (K_Queued k r)); simpl; try done; try (split; others).
    + intros k' Hk'. rewrite lookup_insert_ne by congruence. done.
    + split; simpl; try done; rewrite lookup_insert_eq; [|done]; unfold chan_of; by rewrite Hl.
    + by left.
  - exists (<[i := K_Late k r]> tok).
    eapply (native_move HN _ _ i t t a (K_Sending k r) (K_Late k r)); simpl; try done; try (split; others).
    + intros k' Hk'. rewrite lookup_insert_ne by congruence. done.
    + split; simpl; try done; [by destruct t|rewrite lookup_insert_eq; unfold chan_of; by rewrite Hl|by rewrite lookup_insert_eq].
    + by left.
Qed.

Lemma step_goes_on e rights' : rights_after e rights = Some rights' -> goes_on w rights' (native_step e w).
Proof.
  intros Hra. destruct e as [i rq|i c|i a|i|i|i|i|i|k a r|k|k]; try (injection Hra as <-); simpl.
  - destruct (w_tasks w !! i) as [t|] eqn:Ht; [done|]. exists tok. apply (native_plain HN); rewrite ?Ht; done.
  - unfold payload_item. destruct (w_tasks w !! i) as [[rq body| | | | | |]|] eqn:Ht; try done.
    exists tok. destruct c; apply (native_plain HN); rewrite ?Ht; try done. by intros ans [= <-].
  - apply end_goes_on.
  - apply returns_goes_on.
  - apply recv_goes_on.
  - apply release_goes_on.
  - apply finish_goes_on.
  - apply drop_goes_on.
  - by apply respond_goes_on.
  - apply take_goes_on.
  - apply send_goes_on.
Qed.
End Kinds.

(** Every world a polite host can bring about. *)
Lemma polite_run es : forall w rights tok,
  Native w rights tok -> polite es rights = true ->
  match native_run es w with
  | None => True
  | Some (Ok w') => exists rights' tok', Native w' rights' tok'
  | Some (Err _) => False
  end.
Proof.
  induction es as [|e es IH]; intros w rights tok HN Hp; simpl; [eauto|]. simpl in Hp.
  destruct (rights_after e rights) as [rights'|] eqn:Hra; [|done].
  pose proof (step_goes_on HN e rights' Hra) as Hg. destruct (native_step e w) as [[w'|]|]; simpl in Hg; [|done..].
  destruct Hg as [tok' HN']. by eapply IH.
Qed.

(** ** What a polite host gets *)

Lemma polite_native es w :
  polite es ∅ = true -> native_run es world_new = Some (Ok w) -> exists rights tok, Native w rights tok.
Proof. intros Hp Hr. pose proof (polite_run es _ _ _ native_start Hp) as H. by rewrite Hr in H. Qed.

(** C37. The host's responder is the address of the slot, and the slot is freed by
    the request.  In every interleaving of requests, dropped futures and calls
    from any threads, a host that uses a responder at most once for each request
    it was handed it with never makes an access to a slot that was freed; every
    slot there is belongs to one request, with the references the request still
    has, two while it waits, one for ever when its future was dropped, none once
    it is answered. *)
Theorem native_memory_exact es :
  polite es ∅ = true ->
  match native_run es world_new with
  | None => True
  | Some (Err _) => False
  | Some (Ok w) =>
      (forall a sl, w_heap w !! a = Some sl ->
         exists i t, w_tasks w !! i = Some t /\ address t = Some a /\ sl_strong sl = refs t /\ refs t <> 0%nat) /\
      (forall i t a, w_tasks w !! i = Some t -> address t = Some a -> refs t <> 0%nat -> is_Some (w_heap w !! a)) /\
      (forall i j t u a, w_tasks w !! i = Some t -> w_tasks w !! j = Some u -> address t = Some a -> address u = Some a ->
         refs t <> 0%nat -> refs u <> 0%nat -> i = j)
  end.
Proof.
  intros Hp. pose proof (polite_run es _ _ _ native_start Hp) as H.
  destruct (native_run es world_new) as [[w|]|]; try done. destruct H as (rights & tok & HN). split_and!.
  - intros a sl Ha. destruct (n_heap _ _ _ HN _ _ Ha) as [i Hi].
    destruct (alive_slot HN _ _ Hi) as (t & T & Ht & _ & [_ Had _ _ _ _] & Hs). simplify_eq. exists i, t.
    split_and!; try done. destruct Hi as (t' & Ht' & _ & Hr). congruence.
  - intros i t a Ht Ha Hr. assert (Hal : alive w i a) by (by exists t).
    destruct (alive_slot HN _ _ Hal) as (? & ? & _ & _ & _ & ->). done.
  - intros i j t u a Ht Hu Hta Hua Hrt Hru. eapply (n_apart _ _ _ HN); [by exists t|by exists u].
Qed.

(** What became of an answer the host was told is accepted. *)
Definition delivered (t : Task) (a : Z) (r : NativeReply) (w : World) (i : nat) : Prop :=
  t = T_Got a r \/ t = T_Leaving a r \/ t = T_Done (Some a) (A_Reply r) \/
  ((t = T_Calling a \/ t = T_Waiting a \/ t = T_Dropped (Some a)) /\ exists rx, w_chans w !! i = Some (mkChan [r] rx false)).

(** Which answer a request gets.  A request that went to the host and is over
    was answered with the bytes of a call with its own responder that returned
    OK, and never with the 500 of a responder that is gone; a call that reached a
    request is the only one that did; when it returned OK its bytes are the
    request's answer, on their way or lost with a dropped future, and when it did
    not the future had been dropped; every other call was one with the responder
    0. *)
Theorem native_answer_own es w :
  polite es ∅ = true -> native_run es world_new = Some (Ok w) ->
  (forall i a ans, w_tasks w !! i = Some (T_Done (Some a) ans) ->
     exists k r, ans = A_Reply r /\ w_calls w !! k = Some (mkHostCall a r (R_Returned (Some i) STATUS_OK))) /\
  (forall k a r i st, w_calls w !! k = Some (mkHostCall a r (R_Returned (Some i) st)) ->
     exists t, w_tasks w !! i = Some t /\ address t = Some a /\
       ((st = STATUS_OK /\ delivered t a r w i) \/ (st = STATUS_INVALID_ARG /\ t = T_Dropped (Some a)))) /\
  (forall k k' a a' r r' i st st', w_calls w !! k = Some (mkHostCall a r (R_Returned (Some i) st)) ->
     w_calls w !! k' = Some (mkHostCall a' r' (R_Returned (Some i) st')) -> k = k') /\
  (forall k a r st, w_calls w !! k = Some (mkHostCall a r (R_Returned None st)) -> a = 0 /\ st = STATUS_INVALID_ARG).
Proof.
  intros Hp Hr. destruct (polite_native es w Hp Hr) as (rights & tok & HN).
  assert (Hcall : forall k a r i st, w_calls w !! k = Some (mkHostCall a r (R_Returned (Some i) st)) ->
    exists t T, tok !! i = Some T /\ call_at T = Some k /\ w_tasks w !! i = Some t /\ holds w i t a T).
  { intros k a r i st Hk. destruct (call_token HN _ _ _ _ Hk) as (j & t & a' & T & HT & Hc & Ht & H); [done|].
    pose proof (h_call _ _ _ _ _ H) as Hcall.
    destruct T; simpl in Hc, Hcall; simplify_eq; try (destruct Hcall as [? Hcall]); try congruence; eauto 10. }
  split_and!.
  - intros i a ans Ht. destruct (task_tok HN _ _ _ Ht eq_refl) as (T & HT & [Hf _ _ _ _ Hc]).
    destruct ans as [| |r], T as [| | | |k r'|]; simpl in *; try done. subst. eauto.
  - intros k a r i st Hk. destruct (Hcall _ _ _ _ _ Hk) as (t & T & HT & Hc & Ht & [Hf Ha Hn Hch Hs Hcl]). exists t.
    split_and!; try done.
    destruct T; simpl in Hc, Hcl; simplify_eq; try (destruct Hcl as [? Hcl]); try congruence;
      [left..|right]; (split; [done|]); unfold delivered.
    + destruct t as [| | | | |? [| |]|]; simpl in *; simplify_eq; try done; eauto 10.
    + destruct t as [| | | | |? [| |]|]; simpl in *; simplify_eq; try done; eauto.
    + destruct t as [| | | | |? [| |]|]; simpl in *; simplify_eq; done.
  - intros k k' a a' r r' i st st' Hk Hk'. destruct (Hcall _ _ _ _ _ Hk) as (t & T & HT & Hc & _).
    destruct (Hcall _ _ _ _ _ Hk') as (t' & T' & HT' & Hc' & _). congruence.
  - intros k a r st Hk. destruct (n_calls _ _ _ HN _ _ Hk) as [[? ?]|(i & T & HT & Hc)]; [simpl in *; by simplify_eq|].
    destruct (n_tok _ _ _ HN _ _ HT) as (t & a' & Ht & [_ _ _ _ _ Hcl]).
    destruct T; simpl in Hc, Hcl; simplify_eq; try (destruct Hcl as [? Hcl]); congruence.
Qed.

(** Nothing waits for what will not come.  With a polite host, a call that has
    begun goes on at every point, a full channel included; a request that waits
    and whose answer was accepted takes it, drops the host's reference and ends
    with it, freeing the slot; and a request that waits goes on only by such an
    answer. *)
Theorem native_never_blocks es w :
  polite es ∅ = true -> native_run es world_new = Some (Ok w) ->
  (forall k c, w_calls w !! k = Some c ->
     match hc_at c with
     | R_Entered => exists w', respond_take k w = Some (Ok w')
     | R_Sending _ => exists w', respond_send k w = Some (Ok w')
     | R_Returned _ _ => True
     end) /\
  (forall k a r i, w_calls w !! k = Some (mkHostCall a r (R_Returned (Some i) STATUS_OK)) ->
     w_tasks w !! i = Some (T_Waiting a) ->
     exists w', native_run [N_Recv i; N_Release i; N_Finish i] w = Some (Ok w') /\
       w_tasks w' !! i = Some (T_Done (Some a) (A_Reply r)) /\ w_heap w' !! a = None) /\
  (forall i a, w_tasks w !! i = Some (T_Waiting a) ->
     (forall k r, w_calls w !! k <> Some (mkHostCall a r (R_Returned (Some i) STATUS_OK))) -> recv i w = None).
Proof.
  intros Hp Hr. destruct (polite_native es w Hp Hr) as (rights & tok & HN). split_and!.
  - intros k [a r [|ch|]] Hk; simpl; [| |done].
    + pose proof (take_goes_on HN k) as H. unfold respond_take in *. rewrite Hk in *.
      destruct (w_heap w !! a); simpl in *; [eauto|done].
    + destruct (call_token HN _ _ _ _ Hk) as (i & t & a' & T & HT & Hc & Ht & H); [done|].
      pose proof (h_call _ _ _ _ _ H) as Hcl. unfold respond_send. rewrite Hk.
      destruct T; simpl in Hc, Hcl; simplify_eq; try (destruct Hcl as [? Hcl]); try congruence.
      rewrite (h_chan _ _ _ _ _ H). simpl. destruct (listens t); simpl; eauto.
  - intros k a r i Hk Ht. destruct (call_token HN _ _ _ _ Hk) as (j & t & a' & T & HT & Hc & Htj & H); [done|].
    pose proof (h_call _ _ _ _ _ H) as Hcl.
    destruct T as [|k'|k' r'|k' r'|k' r'|k' r']; simpl in Hc, Hcl; simplify_eq; try (destruct Hcl as [? Hcl]);
      try congruence; destruct H as [Hf Ha Hn Hch Hs _]; [|done].
    simpl in Ha. simplify_eq. specialize (Hs (Nat.neq_succ_0 1)).
    unfold native_run, native_step, recv. rewrite Ht, Hch. simpl. unfold release. simpl. rewrite lookup_insert_eq.
    unfold arc_drop. simpl. rewrite Hs. simpl. unfold finish, leave, arc_drop. simpl.
    rewrite !lookup_insert_eq. simpl.
    eexists. split; [reflexivity|]. simpl. by rewrite lookup_insert_eq, lookup_delete_eq.
  - intros i a Ht Hno. destruct (task_tok HN _ _ _ Ht eq_refl) as (T & HT & [Hf _ _ Hch _ Hcl]).
    unfold recv. rewrite Ht, Hch. destruct T as [| | |k r| |]; simpl in *; try done. by destruct (Hno k r).
Qed.

(** ** What the host is handed *)

Definition chunk_of (i : nat) (e : NativeEvent) : option (list Z) :=
  match e with N_Payload j (Some bytes) => if decide (j = i) then Some bytes else None | _ => None end.

(** Request [i] after the events [es]. *)
Definition read_so_far (es : list NativeEvent) (w : World) (i : nat) : Prop :=
  match w_tasks w !! i with
  | None => N_Payload i None ∉ es /\ omap (chunk_of i) es = [] /\ forall r, (i, r) ∉ w_handed w
  | Some (T_Reading rq body) =>
      N_Request i rq ∈ es /\ body = concat (omap (chunk_of i) es) /\ N_Payload i None ∉ es /\ forall r, (i, r) ∉ w_handed w
  | Some (T_Done None _) | Some (T_Dropped None) => forall r, (i, r) ∉ w_handed w
  | Some t =>
      exists rq a, N_Request i rq ∈ es /\ N_End i a ∈ es /\ N_Payload i None ∉ es /\ address t = Some a /\
        forall r, (i, r) ∈ w_handed w <-> r = c_request rq (concat (omap (chunk_of i) es)) a
  end.

Lemma arc_drop_frame a w :
  match arc_drop a w with Ok w' => w_tasks w' = w_tasks w /\ w_handed w' = w_handed w | Err _ => True end.
Proof. unfold arc_drop. by destruct (w_heap w !! a) as [[[|[|n]] [ch|]]|]. Qed.

(** The event is about another request, or about a call. *)
Lemma read_other es w w' i e :
  w_tasks w' !! i = w_tasks w !! i -> (forall r, (i, r) ∈ w_handed w' <-> (i, r) ∈ w_handed w) ->
  chunk_of i e = None -> e <> N_Payload i None ->
  read_so_far es w i -> read_so_far (es ++ [e]) w' i.
Proof.
  intros Ht Hh Hc He. unfold read_so_far. rewrite Ht, omap_app. simpl. rewrite Hc, app_nil_r.
  assert (Hnone : N_Payload i None ∉ es -> N_Payload i None ∉ es ++ [e]) by set_solver.
  assert (Hsome : forall x, x ∈ es -> x ∈ es ++ [e]) by set_solver.
  assert (Hno : (forall r, (i, r) ∉ w_handed w) -> forall r, (i, r) ∉ w_handed w') by (intros H r; rewrite Hh; apply H).
  destruct (w_tasks w !! i) as [[rq body|a|a|a r|a r|[a|] ans|[a|]]|]; auto;
    try (intros (rq & b & H1 & H2 & H3 & H4 & H5); exists rq, b; split_and!; auto; intros r'; rewrite Hh; apply H5).
  - intros (H1 & H2 & H3 & H4). split_and!; auto.
  - intros (H1 & H2 & H3). split_and!; auto.
Qed.

Lemma run_snoc es e w :
  native_run (es ++ [e]) w = match native_run es w with Some (Ok w') => native_step e w' | r => r end.
Proof.
  revert w. induction es as [|e' es IH]; intros w; simpl; [by destruct (native_step e w) as [[]|]|].
  destruct (native_step e' w) as [[w'|]|]; done.
Qed.

(** A request that was handed to the host goes on. *)
Lemma read_moves es w w' i e t t' a :
  w_tasks w !! i = Some t -> address t = Some a -> w_tasks w' !! i = Some t' -> address t' = Some a ->
  w_handed w' = w_handed w -> chunk_of i e = None -> e <> N_Payload i None ->
  read_so_far es w i -> read_so_far (es ++ [e]) w' i.
Proof.
  intros Ht Ha Ht' Ha' Hh Hc He. unfold read_so_far. rewrite Ht, Ht', Hh, omap_app. simpl. rewrite Hc, app_nil_r.
  intros H. assert (H' : exists rq b, N_Request i rq ∈ es /\ N_End i b ∈ es /\ N_Payload i None ∉ es /\ address t = Some b /\
    forall r, (i, r) ∈ w_handed w <-> r = c_request rq (concat (omap (chunk_of i) es)) b).
  { destruct t as [| | | | |[|]|[|]]; simpl in *; simplify_eq; exact H. }
  clear H. destruct H' as (rq & b & H1 & H2 & H3 & H4 & H5).
  assert (H'' : exists rq b, N_Request i rq ∈ es ++ [e] /\ N_End i b ∈ es ++ [e] /\ N_Payload i None ∉ es ++ [e] /\
    address t' = Some b /\ forall r, (i, r) ∈ w_handed w <-> r = c_request rq (concat (omap (chunk_of i) es)) b).
  { exists rq, b. split_and!; [set_solver..| |done]. congruence. }
  destruct t' as [| | | | |[|]|[|]]; simpl in *; simplify_eq; exact H''.
Qed.

Lemma then_ok r f w' : then_ r f = Ok w' -> exists w, r = Ok w /\ w' = f w.
Proof. destruct r; simpl; [|done]. intros [= <-]. eauto. Qed.

Lemma leave_ok i a t w w' :
  leave i a t w = Ok w' -> w_tasks w' = <[i := t]> (w_tasks w) /\ w_handed w' = w_handed w.
Proof.
  intros (w1 & H1 & ->)%then_ok. pose proof (arc_drop_frame a w) as H. rewrite H1 in H. destruct H as [H2 H3].
  simpl. by rewrite H2.
Qed.

(** What a step of another request, or of a call, leaves alone. *)
Definition about_request (i : nat) (e : NativeEvent) : Prop :=
  match e with
  | N_Request j _ | N_Payload j _ | N_End j _ | N_Returns j | N_Recv j | N_Release j | N_Finish j | N_Drop j => j = i
  | N_Respond _ _ _ | N_Take _ | N_Send _ => False
  end.

#[local] Instance about_request_dec i e : Decision (about_request i e).
Proof. destruct e; simpl; apply _. Defined.

Lemma step_frame e w w' i :
  native_step e w = Some (Ok w') -> ~ about_request i e ->
  w_tasks w' !! i = w_tasks w !! i /\ (forall r, (i, r) ∈ w_handed w' <-> (i, r) ∈ w_handed w).
Proof.
  intros Hs Hi. destruct e as [j rq|j c|j a|j|j|j|j|j|k a r|k|k]; simpl in Hs, Hi.
  - destruct (w_tasks w !! j); simplify_eq. simpl. by rewrite lookup_insert_ne.
  - unfold payload_item in Hs. destruct (w_tasks w !! j) as [[]|]; simplify_eq. destruct c; simpl; by rewrite lookup_insert_ne.
  - unfold payload_end in Hs. destruct (w_tasks w !! j) as [[]|]; simplify_eq. destruct (w_heap w !! a); simplify_eq.
    destruct (_ && _); simplify_eq. simpl. rewrite lookup_insert_ne by done. split; [done|]. intros r.
    rewrite elem_of_app, list_elem_of_singleton. naive_solver.
  - unfold callback_returns in Hs. destruct (w_tasks w !! j) as [[]|]; simplify_eq. simpl. by rewrite lookup_insert_ne.
  - unfold recv in Hs. destruct (w_tasks w !! j) as [[| |a| | | |]|]; simplify_eq. destruct (w_chans w !! j) as [ch|]; simplify_eq.
    destruct (ch_queue ch); [destruct (ch_tx ch)|]; simplify_eq; [|simpl; by rewrite lookup_insert_ne].
    destruct (leave_ok _ _ _ _ _ Hs) as [-> ->]. by rewrite lookup_insert_ne.
  - unfold release in Hs. destruct (w_tasks w !! j) as [[| | |a r| | |]|]; simplify_eq.
    destruct (then_ok _ _ _ Hs) as (w1 & H1 & ->). pose proof (arc_drop_frame a w) as H. rewrite H1 in H. destruct H as [H2 H3].
    simpl. by rewrite H2, H3, lookup_insert_ne.
  - unfold finish in Hs. destruct (w_tasks w !! j) as [[| | | |a r| |]|]; simplify_eq.
    destruct (leave_ok _ _ _ _ _ Hs) as [-> ->]. by rewrite lookup_insert_ne.
  - unfold drop_future in Hs. destruct (w_tasks w !! j) as [[| |a| | | |]|]; simplify_eq; [simpl; by rewrite lookup_insert_ne|].
    destruct (leave_ok _ _ _ _ _ Hs) as [-> ->]. by rewrite lookup_insert_ne.
  - unfold respond in Hs. destruct (w_calls w !! k); simplify_eq. done.
  - unfold respond_take in Hs. destruct (w_calls w !! k) as [[? ? []]|]; simplify_eq. destruct (w_heap w !! _); simplify_eq. done.
  - unfold respond_send in Hs. destruct (w_calls w !! k) as [[? ? [|ch|]]|]; simplify_eq.
    destruct (w_chans w !! ch) as [c|]; simplify_eq. destruct (negb (ch_rx c)); simplify_eq; [done|].
    destruct (ch_queue c); simplify_eq. done.
Qed.

Lemma read_step es e w w' i :
  native_step e w = Some (Ok w') -> read_so_far es w i -> read_so_far (es ++ [e]) w' i.
Proof.
  intros Hs Hi. destruct (decide (about_request i e)) as [Ha|Ha].
  2: { destruct (step_frame e w w' i Hs Ha) as [H1 H2]. apply (read_other es w); try done.
       - destruct e as [| j [|]| | | | | | | | |]; simpl in *; try done. by rewrite decide_False.
       - by intros ->. }
  destruct e as [j rq|j c|j a|j|j|j|j|j|k a r|k|k]; simpl in Hs, Ha; try done; subst j.
  - destruct (w_tasks w !! i) eqn:Ht; simplify_eq. unfold read_so_far in *. simpl. rewrite Ht in Hi.
    rewrite lookup_insert_eq. rewrite omap_app. simpl. rewrite app_nil_r. destruct Hi as (H1 & H2 & H3). rewrite H2. set_solver.
  - unfold payload_item in Hs. destruct (w_tasks w !! i) as [[rq body| | | | | |]|] eqn:Ht; simplify_eq.
    unfold read_so_far in *. rewrite Ht in Hi. destruct Hi as (H1 & H2 & H3 & H4). destruct c as [b|]; simpl.
    + rewrite lookup_insert_eq, omap_app. simpl. rewrite decide_True by done. rewrite concat_app, H2. simpl.
      rewrite app_nil_r. set_solver.
    + by rewrite lookup_insert_eq.
  - unfold payload_end in Hs. destruct (w_tasks w !! i) as [[rq body| | | | | |]|] eqn:Ht; simplify_eq.
    destruct (w_heap w !! a); simplify_eq. destruct (_ && _); simplify_eq.
    unfold read_so_far in *. rewrite Ht in Hi. destruct Hi as (H1 & H2 & H3 & H4). simpl.
    rewrite lookup_insert_eq, omap_app. simpl. rewrite app_nil_r. exists rq, a. split_and!; [set_solver..|done|].
    intros r. rewrite elem_of_app, list_elem_of_singleton. subst body. split; [intros [H|[= ->]]; [by destruct (H4 r)|done]|].
    intros ->. by right.
  - unfold callback_returns in Hs. destruct (w_tasks w !! i) as [[|a| | | | |]|] eqn:Ht; simplify_eq.
    apply (read_moves es w _ i _ _ (T_Waiting a) a Ht); simpl; try done. by rewrite lookup_insert_eq.
  - unfold recv in Hs. destruct (w_tasks w !! i) as [[| |a| | | |]|] eqn:Ht; simplify_eq. destruct (w_chans w !! i) as [ch|]; simplify_eq.
    destruct (ch_queue ch); [destruct (ch_tx ch)|]; simplify_eq.
    + destruct (leave_ok _ _ _ _ _ Hs) as [H1 H2].
      apply (read_moves es w _ i _ _ (T_Done (Some a) A_InternalServerError) a Ht); try done. by rewrite H1, lookup_insert_eq.
    + apply (read_moves es w _ i _ _ (T_Got a n) a Ht); simpl; try done. by rewrite lookup_insert_eq.
  - unfold release in Hs. destruct (w_tasks w !! i) as [[| | |a r| | |]|] eqn:Ht; simplify_eq.
    destruct (then_ok _ _ _ Hs) as (w1 & H1 & ->). pose proof (arc_drop_frame a w) as H. rewrite H1 in H. destruct H as [H2 H3].
    apply (read_moves es w _ i _ _ (T_Leaving a r) a Ht); simpl; try done. by rewrite lookup_insert_eq.
  - unfold finish in Hs. destruct (w_tasks w !! i) as [[| | | |a r| |]|] eqn:Ht; simplify_eq.
    destruct (leave_ok _ _ _ _ _ Hs) as [H1 H2].
    apply (read_moves es w _ i _ _ (T_Done (Some a) (A_Reply r)) a Ht); try done. by rewrite H1, lookup_insert_eq.
  - unfold drop_future in Hs. destruct (w_tasks w !! i) as [[| |a| | | |]|] eqn:Ht; simplify_eq.
    + unfold read_so_far in *. rewrite Ht in Hi. simpl. rewrite lookup_insert_eq. by destruct Hi as (_ & _ & _ & H).
    + destruct (leave_ok _ _ _ _ _ Hs) as [H1 H2].
      apply (read_moves es w _ i _ _ (T_Dropped (Some a)) a Ht); try done. by rewrite H1, lookup_insert_eq.
Qed.

Lemma read_run es w i : native_run es world_new = Some (Ok w) -> read_so_far es w i.
Proof.
  revert w. induction es as [|e es IH] using rev_ind; intros w.
  - intros [= <-]. unfold read_so_far. simpl. rewrite lookup_empty. set_solver.
  - rewrite run_snoc. destruct (native_run es world_new) as [[w0|]|] eqn:H0; try done. intros Hs.
    eapply read_step; [exact Hs|]. by apply IH.
Qed.

(** What the host is handed.  Whatever the host does, a request reaches it as
    it was read: the request line's parts and the header lines of that request,
    the whole body, each chunk of the payload once and in order, and the
    responder that was made for it; it is handed over once, and not when the
    payload failed or the future was dropped before its end. *)
Theorem native_request_whole es w i :
  native_run es world_new = Some (Ok w) ->
  match w_tasks w !! i with
  | Some (T_Calling a | T_Waiting a | T_Got a _ | T_Leaving a _ | T_Done (Some a) _ | T_Dropped (Some a)) =>
      N_Payload i None ∉ es /\
      exists rq, N_Request i rq ∈ es /\ N_End i a ∈ es /\
        forall r, (i, r) ∈ w_handed w <-> r = c_request rq (concat (omap (chunk_of i) es)) a
  | _ => forall r, (i, r) ∉ w_handed w
  end.
Proof.
  intros Hr. pose proof (read_run es w i Hr) as H. unfold read_so_far in H.
  destruct (w_tasks w !! i) as [[rq body|a|a|a r|a r|[a|] ans|[a|]]|]; try done;
    try (destruct H as (rq & b & H1 & H2 & H3 & H4 & H5); simpl in H4; simplify_eq; eauto); tauto.
Qed.

