(* ===== verification/NativeReplies.v ===== *)
(** * What the native server makes of a reply

    The response [build_native_response] builds out of the host's status, header
    lines and body, and a host that sends the header lines back. *)
From S2P Require Import Prelude Headers Message Errors Encoder Body Response ClientProxy FfiAbi FfiResponder FfiResponderThms NativeServer.

Import HeaderMapOps HeaderMapThms.

(** ** Text *)

Lemma lossy_utf8_upto n : forall l, (length l < n)%nat -> utf8 l = true -> from_utf8_lossy l = l.
Proof.
  induction n as [|n IH]; intros l Hl Hu; [lia|]. destruct l as [|b0 l1]; [done|]. simpl in *.
  destruct (b0 <? 128); [by rewrite IH by (done || lia)|].
  destruct (in_range 194 b0 223).
  { destruct l1 as [|b1 l2]; [done|]. apply andb_true_iff in Hu as [-> Hu]. simpl in Hl. by rewrite IH by (done || lia). }
  destruct (in_range 224 b0 239).
  { destruct l1 as [|b1 [|b2 l3]]; try done. apply andb_true_iff in Hu as [[-> ->]%andb_true_iff Hu]. simpl in Hl.
    by rewrite IH by (done || lia). }
  destruct (in_range 240 b0 244); [|done].
  destruct l1 as [|b1 [|b2 [|b3 l4]]]; try done. apply andb_true_iff in Hu as [[[-> ->]%andb_true_iff ->]%andb_true_iff Hu].
  simpl in Hl. by rewrite IH by (done || lia).
Qed.

(** Text is left as it is. *)
Lemma lossy_utf8 l : utf8 l = true -> from_utf8_lossy l = l.
Proof. by apply (lossy_utf8_upto (S (length l))), Nat.lt_succ_diag_r. Qed.

Lemma lossy_is_utf8_upto n : forall l, (length l < n)%nat -> utf8 (from_utf8_lossy l) = true.
Proof.
  induction n as [|n IH]; intros l Hl; [lia|]. destruct l as [|b0 l1]; [done|]. simpl in *.
  assert (Hr : forall l', (length l' < n)%nat -> utf8 (REPLACEMENT ++ from_utf8_lossy l') = true) by (intros l' ?; simpl; by apply IH).
  destruct (b0 <? 128) eqn:H0; [simpl; rewrite H0; apply IH; lia|].
  destruct (in_range 194 b0 223) eqn:H2.
  { destruct l1 as [|b1 l2]; [done|]. simpl in Hl. destruct (utf8_cont b1) eqn:H1; [|apply Hr; simpl; lia].
    simpl. rewrite H0, H2, H1. apply IH. lia. }
  destruct (in_range 224 b0 239) eqn:H3.
  { destruct l1 as [|b1 l2]; [done|]. simpl in Hl. destruct (in_range _ b1 _) eqn:H1; [|apply Hr; simpl; lia].
    destruct l2 as [|b2 l3]; [done|]. simpl in Hl. destruct (utf8_cont b2) eqn:H4; [|apply Hr; simpl; lia].
    simpl. rewrite H0, H2, H3, H1, H4. apply IH. lia. }
  destruct (in_range 240 b0 244) eqn:H4; [|apply Hr; lia].
  destruct l1 as [|b1 l2]; [done|]. simpl in Hl. destruct (in_range _ b1 _) eqn:H1; [|apply Hr; simpl; lia].
  destruct l2 as [|b2 l3]; [done|]. simpl in Hl. destruct (utf8_cont b2) eqn:H5; [|apply Hr; simpl; lia].
  destruct l3 as [|b3 l4]; [done|]. simpl in Hl. destruct (utf8_cont b3) eqn:H6; [|apply Hr; simpl; lia].
  simpl. rewrite H0, H2, H3, H4, H1, H5, H6. apply IH. lia.
Qed.

(** Its result is text, so that converting it twice is converting it once. *)
Lemma lossy_is_utf8 l : utf8 (from_utf8_lossy l) = true.
Proof. apply (lossy_is_utf8_upto (S (length l))), Nat.lt_succ_diag_r. Qed.

Lemma trim_utf8 l : utf8 l = true -> utf8 (trim_ascii_start l) = true.
Proof.
  induction l as [|b l IH]; [done|]. intros Hu. cbn [trim_ascii_start]. destruct (ascii_whitespace b) eqn:Hb; [|done].
  apply IH. unfold ascii_whitespace in Hb. cbn [utf8] in Hu. destruct (Z.ltb_spec b 128); [done|].
  rewrite !orb_true_iff, !Z.eqb_eq in Hb. lia.
Qed.

Lemma trim_valid l : forallb is_valid l = true -> forallb is_valid (trim_ascii_start l) = true.
Proof. induction l as [|b l IH]; [done|]. simpl. intros [? ?]%andb_true_iff. destruct (ascii_whitespace b); simpl; auto with bool. Qed.

(** ** The response *)

Section Replies.
Context {M : Type} (name_of : list Z -> result HeaderName HttpError).

(** A line of the reply, and the header it makes. *)
Definition line_op (nv : list Z * list Z) : builder_op := BHeader (name_of nv.1) (value_from nv.2).
Definition makes (nv : list Z * list Z) (kv : HeaderName * HeaderValue) : Prop :=
  name_of nv.1 = Ok kv.1 /\ value_from nv.2 = Ok kv.2.

Lemma lines_ops lines : forall b,
  fold_left (fun b line => match native_line line with
                           | Some (name, value) => builder_header b (name_of name) (value_from value)
                           | None => b
                           end) lines b
  = fold_left run_op (map line_op (omap native_line lines)) b.
Proof. induction lines as [|l lines IH]; intros b; simpl; [done|]. rewrite IH. by destruct (native_line l) as [[n v]|]. Qed.

(** The headers a list of header setters makes. *)
Lemma built_headers lines pairs t :
  Forall2 makes lines pairs ->
  omap op_error (map line_op lines) = [] /\
  let t' := fold_left built_op (map line_op lines) t in
  bt_status t' = bt_status t /\ bt_close t' = bt_close t /\ bt_keep_alive t' = bt_keep_alive t /\
  bt_upgrade t' = bt_upgrade t /\ bt_chunked t' = bt_chunked t /\ bt_reason t' = bt_reason t /\
  forall k, bt_headers t' k = bt_headers t k ++ (snd <$> filter (fun kv => kv.1 = k) pairs).
Proof.
  intros H. revert t. induction H as [|[n v] [k x] lines pairs [H1 H2] _ IH]; intros t; simpl.
  { split_and!; try done. intros k. by rewrite app_nil_r. }
  simpl in H1, H2. rewrite H1, H2. simpl. destruct (IH (built_set t (fun m => Spec.append m k x))) as [He Ht].
  split; [done|]. simpl in Ht. destruct Ht as (-> & -> & -> & -> & -> & -> & Hk). split_and!; try done. intros k'. rewrite Hk. simpl.
  unfold Spec.append. destruct (decide (k = k')) as [->|Hne].
  - rewrite filter_cons_True by done. by rewrite fmap_cons, <- app_assoc.
  - by rewrite filter_cons_False.
Qed.

(** The response to a host's reply.  When every line with a colon has a name
    and a value the http types accept, it has the body, the status when that is
    one and 500 when it is none, and exactly those headers, each name's values in
    the order of the lines; the first line that they refuse makes the whole
    response a 500 with the error's text. *)
Theorem native_response (reply : NativeReply) (p : list ResponseHead) lines :
  omap native_line (split_lines (nr_headers reply)) = lines ->
  (forall pairs, Forall2 makes lines pairs ->
     exists h p', build_native_response (M := M) name_of reply p
       = Val (mkResponse h (RB_Body (B_Bytes (mkBytes (nr_body reply)))), mkResponseBuilder None None, p') /\
       rs_status h = (if (100 <=? nr_status reply) && (nr_status reply <=? 999) then nr_status reply else 500) /\
       rs_reason h = None /\ ResponseHeadOps.ctype h = None /\ ResponseHeadOps.chunked h = true /\
       forall k, values (rs_headers h) k = snd <$> filter (fun kv => kv.1 = k) pairs) /\
  (forall before nv after pairs e, lines = before ++ nv :: after -> Forall2 makes before pairs ->
     (name_of nv.1 = Err e \/ exists k, name_of nv.1 = Ok k /\ value_from nv.2 = Err e) ->
     exists h b p', build_native_response (M := M) name_of reply p
       = Val (mkResponse h (RB_Other (B_Bytes (mkBytes (http_error_text e)))), b, p') /\
       rs_status h = 500 /\
       forall k, values (rs_headers h) k
         = if decide (CONTENT_TYPE = k) then [mkHeaderValue (bs "text/plain; charset=utf-8") false] else []).
Proof.
  intros Hlines. unfold build_native_response.
  destruct (builder_new (status_from (nr_status reply)) p) as [b p'] eqn:Eb.
  assert (Hb : b = (builder_new (status_from (nr_status reply)) p).1) by (by rewrite Eb). rewrite lines_ops, Hlines.
  pose proof (builder_result (M := M) (status_from (nr_status reply)) (map line_op lines)
                (B_Bytes (M := M) (mkBytes (nr_body reply))) p p') as Hr. cbv zeta in Hr. rewrite <- Hb in Hr. split.
  - intros pairs Hp. destruct (built_headers lines pairs (built_new (status_from (nr_status reply))) Hp) as [He Ht].
    rewrite He in Hr. destruct Hr as (h & Hm & Hs & Hrs & Hv & Hc & Hk). simpl in Ht.
    destruct Ht as (T1 & T2 & T3 & T4 & T5 & T6 & T7). rewrite T2, T3, T4 in Hc.
    exists h, p'. split_and!; [exact Hm|by rewrite Hs, T1|by rewrite Hrs, T6|exact Hc|by rewrite Hk, T5|].
    intros k. rewrite Hv. apply T7.
  - intros before nv after pairs e Heq Hp Hbad.
    assert (He : exists es, omap op_error (map line_op lines) = e :: es).
    { destruct (built_headers before pairs (built_new 200) Hp) as [He _].
      rewrite Heq, map_app, omap_app, He. simpl. destruct nv as [n v]. simpl in Hbad. unfold line_op at 1. simpl.
      destruct Hbad as [->|(k & -> & ->)]; simpl; eauto. }
    destruct He as [es He]. rewrite He in Hr. destruct Hr as (h & p2 & Hm & Hs & _ & Hv & _).
    eexists h, _, p2. split_and!; [exact Hm|done|]. intros k. rewrite Hv. simpl. by unfold Spec.insert, Spec.empty.
Qed.

(** ** A host that sends the header lines back *)

(** A header whose name and value are text, as httparse and the http crate have
    them. *)
Definition text_header (kv : HeaderName * HeaderValue) : Prop :=
  kv.1 <> [] /\ COLON ∉ kv.1 /\ NL ∉ kv.1 /\ utf8 kv.1 = true /\ name_of kv.1 = Ok kv.1 /\
  forallb is_valid (hv_inner kv.2) = true /\ utf8 (hv_inner kv.2) = true.

Definition as_line (kv : HeaderName * HeaderValue) : list Z * list Z := (kv.1, hv_inner kv.2).

Lemma valid_no_nl l : forallb is_valid l = true -> NL ∉ l.
Proof.
  intros Hv Hin. rewrite forallb_forall in Hv.
  by apply list_elem_of_In, Hv in Hin.
Qed.

Lemma text_no_nl kv : text_header kv -> NL ∉ head_line (as_line kv).
Proof.
  intros (_ & _ & Hn & _ & _ & Hv & _). pose proof (valid_no_nl _ Hv). unfold head_line. simpl.
  rewrite !elem_of_app, !elem_of_cons. intros [?|[?|[?|?]]]; done.
Qed.

Lemma native_line_head kv :
  text_header kv -> native_line (head_line (as_line kv)) = Some (kv.1, trim_ascii_start (hv_inner kv.2)).
Proof.
  destruct kv as [n v]. intros (Hn & Hc & _ & Hu & _ & _ & Hv). simpl in *. unfold native_line, head_line. simpl.
  rewrite position_head; [|apply Forall_forall; intros x Hx; apply Z.eqb_neq; by intros ->|apply Z.eqb_refl]. simpl.
  rewrite take_app_length, drop_app_ge, Nat.add_comm, Nat.add_sub by lia. simpl.
  by rewrite !lossy_utf8 by (by try apply trim_utf8).
Qed.

Lemma render_is_head inner : render_headers inner = render_head (map as_line (header_pairs inner)).
Proof.
  unfold render_headers, render_head. generalize (header_pairs inner) as l. intros l.
  match goal with |- fold_left ?f _ _ = fold_left ?g _ _ =>
    assert (H : forall out, fold_left f l out = fold_left g (map as_line l) out) end; [|apply H].
  induction l as [|kv l IH]; intros out; [done|]. apply IH.
Qed.

Lemma echo_lines l :
  Forall text_header l ->
  omap native_line (split_lines (render_head (map as_line l)))
  = map (fun kv => (kv.1, trim_ascii_start (hv_inner kv.2))) l.
Proof.
  intros Hf. destruct l as [|kv l]; [done|]. inversion Hf as [|? ? Hkv Hl]; subst.
  assert (Hne : head_line (as_line kv) <> []) by (destruct kv as [[|b n] v]; destruct Hkv as [Hn _]; by simpl in Hn).
  assert (Hr : render_head (map as_line (kv :: l)) = head_line (as_line kv) ++ concat (map (fun nv => NL :: head_line nv) (map as_line l))).
  { apply (render_tail (map as_line l) (head_line (as_line kv))). done. }
  rewrite Hr, split_rendered; [|by apply text_no_nl|apply Forall_map; eapply Forall_impl; [exact Hl|apply text_no_nl]].
  change (head_line (as_line kv) :: map head_line (map as_line l)) with (map head_line (map as_line (kv :: l))).
  revert Hf. generalize (kv :: l). clear. intros l Hf. induction Hf as [|kv l Hp _ IH]; [done|].
  simpl. rewrite native_line_head by done. simpl. by f_equal.
Qed.

(** A host that sends the header lines it was handed back as its reply's
    headers gets a response that has exactly the request's headers, every name
    with its values in their order, but for the whitespace a value begins with
    and the mark of a sensitive value; whatever order the hash map is visited
    in. *)
Theorem native_echo (m : HeaderMap) inner (reply : NativeReply) (p : list ResponseHead) :
  inner ≡ₚ map_to_list m -> Forall text_header (header_pairs inner) -> nr_headers reply = render_headers inner ->
  exists h p', build_native_response (M := M) name_of reply p
    = Val (mkResponse h (RB_Body (B_Bytes (mkBytes (nr_body reply)))), mkResponseBuilder None None, p') /\
    forall k, values (rs_headers h) k
      = (fun v => mkHeaderValue (trim_ascii_start (hv_inner v)) false) <$> values m k.
Proof.
  intros Hperm Ht Hh. rewrite render_is_head in Hh.
  destruct (native_response reply p _ eq_refl) as [Hgood _]. rewrite Hh, echo_lines in Hgood by done.
  set (f := fun v : HeaderValue => mkHeaderValue (trim_ascii_start (hv_inner v)) false) in *.
  destruct (Hgood (map (fun kv => (kv.1, f kv.2)) (header_pairs inner))) as (h & p' & Hb & _ & _ & _ & _ & Hv).
  { clear -Ht. induction Ht as [|kv l (H1 & H2 & H3 & H4 & H5 & H6 & H7) _ IH]; simpl; constructor; [|done].
    split; simpl; [done|]. unfold value_from, try_from_generic. by rewrite trim_valid. }
  exists h, p'. split; [done|]. intros k. rewrite Hv.
  pose proof (iter_yields_values m inner _ k Hperm (Nat.lt_succ_diag_r _)) as Hi. fold (header_pairs inner) in Hi. rewrite <- Hi.
  generalize (header_pairs inner) as l. clear. induction l as [|kv l IH]; [done|]. simpl.
  destruct (decide (kv.1 = k)).
  - by rewrite !filter_cons_True, !fmap_cons, IH.
  - by rewrite !filter_cons_False.
Qed.
End Replies.
