(* ===== verification/NativeServerWorld.v ===== *)
(** * Runs of the native server

    Concrete requests and calls: one request that is answered from inside its
    callback, one whose future is dropped before the answer comes, at the same
    address, and what the theorems say of them. *)
From S2P Require Import Prelude Headers Message Errors Encoder Body Response ClientProxy FfiAbi FfiResponder NativeServer NativeServerThms NativeReplies.

Import HeaderMapOps.

Module NativeRun.
Definition accept : HeaderName := bs "accept".
Definition map_ : HeaderMap :=
  append (append new accept (mkHeaderValue (bs "a") false)) accept (mkHeaderValue (bs "b") true).
Definition rq : RequestData := mkRequestData (bs "POST") (bs "/x") (Some (bs "q=1")) (map_to_list map_).
Definition reply : NativeReply := mkNativeReply 200 (bs "x-a: 1") (bs "hi").
Definition late : NativeReply := mkNativeReply 404 [] [].
Definition at_ : Z := 4096.

(** The request, its body in two chunks, and the answer from another thread while
    the callback runs. *)
Definition first : list NativeEvent :=
  [N_Request 0 rq; N_Payload 0 (Some [1]); N_Payload 0 (Some [2; 3]); N_End 0 at_;
   N_Respond 0 at_ reply; N_Take 0; N_Returns 0; N_Send 0].
Definition over : list NativeEvent := [N_Recv 0; N_Release 0; N_Finish 0].
(** A second request gets the same address, and its client goes away. *)
Definition second : list NativeEvent :=
  [N_Request 1 rq; N_End 1 at_; N_Returns 1; N_Respond 1 at_ late; N_Drop 1; N_Take 1; N_Send 1; N_Respond 2 0 late].

Definition after (es : list NativeEvent) : World :=
  match native_run es world_new with Some (Ok w) => w | _ => world_new end.

Example runs : native_run (first ++ over ++ second) world_new = Some (Ok (after (first ++ over ++ second))).
Proof. vm_compute. reflexivity. Qed.
End NativeRun.

Section Witnesses.
Import NativeRun.

Lemma native_memory_exact_witness :
  match native_run (first ++ over ++ second) world_new with
  | Some (Ok w) => w_heap w !! at_ = Some (mkSlot 1 None) /\
      exists i t, w_tasks w !! i = Some t /\ address t = Some at_ /\ 1%nat = refs t /\ refs t <> 0%nat
  | _ => False
  end.
Proof.
  pose proof (native_memory_exact (first ++ over ++ second) eq_refl) as H. rewrite runs in *.
  split; [vm_compute; reflexivity|]. destruct H as [H _]. apply (H at_ (mkSlot 1 None)). vm_compute. reflexivity.
Defined.

Lemma native_answer_own_witness :
  exists k r, A_Reply reply = A_Reply r /\
    w_calls (after (first ++ over ++ second)) !! k = Some (mkHostCall at_ r (R_Returned (Some 0%nat) STATUS_OK)).
Proof.
  destruct (native_answer_own (first ++ over ++ second) _ eq_refl runs) as (H & _).
  apply (H 0%nat at_ (A_Reply reply)). vm_compute. reflexivity.
Defined.

Lemma native_never_blocks_witness :
  exists w', native_run over (after first) = Some (Ok w') /\
    w_tasks w' !! 0%nat = Some (T_Done (Some at_) (A_Reply reply)) /\ w_heap w' !! at_ = None.
Proof.
  assert (Hr : native_run first world_new = Some (Ok (after first))) by (vm_compute; reflexivity).
  destruct (native_never_blocks first _ eq_refl Hr) as (_ & H & _).
  apply (H 0%nat); vm_compute; reflexivity.
Defined.

Lemma native_request_whole_witness :
  N_Payload 0 None ∉ first /\
  exists rq, N_Request 0 rq ∈ first /\ N_End 0 at_ ∈ first /\
    forall r, (0%nat, r) ∈ w_handed (after first) <-> r = c_request rq [1; 2; 3] at_.
Proof.
  assert (Hr : native_run first world_new = Some (Ok (after first))) by (vm_compute; reflexivity).
  apply (native_request_whole first _ 0 Hr).
Defined.


Lemma native_response_witness :
  exists h p', build_native_response (M := unit) (fun n => Ok n) reply []
    = Val (mkResponse h (RB_Body (B_Bytes (mkBytes (bs "hi")))), mkResponseBuilder None None, p') /\
    rs_status h = 200 /\ rs_reason h = None /\ ResponseHeadOps.ctype h = None /\ ResponseHeadOps.chunked h = true /\
    forall k, values (rs_headers h) k = snd <$> filter (fun kv => kv.1 = k) [(bs "x-a", mkHeaderValue (bs "1") false)].
Proof.
  destruct (native_response (M := unit) (fun n => Ok n) reply [] _ eq_refl) as [H _].
  apply (H [(bs "x-a", mkHeaderValue (bs "1") false)]). vm_compute. repeat constructor.
Defined.

Lemma native_echo_witness :
  exists h p', build_native_response (M := unit) (fun n => Ok n) (mkNativeReply 200 (render_headers (map_to_list map_)) []) []
    = Val (mkResponse h (RB_Body (B_Bytes (mkBytes []))), mkResponseBuilder None None, p') /\
    forall k, values (rs_headers h) k
      = (fun v => mkHeaderValue (trim_ascii_start (hv_inner v)) false) <$> values map_ k.
Proof.
  apply (native_echo (M := unit) (fun n => Ok n) map_ (map_to_list map_) (mkNativeReply 200 (render_headers (map_to_list map_)) []) []);
    [reflexivity| |reflexivity].
  change (header_pairs (map_to_list map_))
    with [(accept, mkHeaderValue (bs "a") false); (accept, mkHeaderValue (bs "b") true)].
  repeat constructor; try done; apply (bool_decide_unpack _); vm_compute; exact I.
Defined.
End Witnesses.
