(* ===== verification/WsTransport.v ===== *)
(** * The WebSocket transport and sink

    [ws/transport.rs] and [ws/sink.rs]: a filter of the io layer that carries a
    byte stream in binary messages, and the handle an application sends messages
    with.  The buffers of the filter are byte lists; the random masking key and
    the address of the buffer come from outside, for the n-th frame that is read
    or written as [keys n] and [addrs n]. *)
From S2P Require Import Prelude WsMask WsProto WsFrame WsCodec.

Module TransportFlags.
Definition CLOSED : Z := 1.
Definition CONTINUATION : Z := 2.
Definition PROTO_ERR : Z := 4.
End TransportFlags.

Record WsTransport := mkTransport { wt_codec : WsCodec; wt_flags : Z }.

(** [WsTransport::create] *)
Definition transport_create (codec : WsCodec) : WsTransport := mkTransport codec 0.

Definition tr_has (t : WsTransport) (f : Z) : bool := Flag.contains (wt_flags t) f.
Definition tr_insert_flags (t : WsTransport) (f : Z) : WsTransport := mkTransport (wt_codec t) (Flag.insert (wt_flags t) f).
Definition tr_remove_flags (t : WsTransport) (f : Z) : WsTransport := mkTransport (wt_codec t) (Flag.remove (wt_flags t) f).
Definition tr_codec (t : WsTransport) (c : WsCodec) : WsTransport := mkTransport c (wt_flags t).

(** The [io::Error]s, all of the kind [InvalidData]. *)
Inductive TransportError :=
| TE_Decode (e : WsError)
| TE_ContinueNotStarted
| TE_LastNotStarted
| TE_TextContinuation
| TE_Text.

Definition continuation_must_start (t : WsTransport) (e : TransportError) : result unit TransportError * WsTransport :=
  if tr_has t TransportFlags.CONTINUATION then (Ok tt, t)
  else (Err e, tr_insert_flags t TransportFlags.PROTO_ERR).

(** What the filter works on: the bytes received, the bytes for the reader, the
    bytes to be sent, how many frames were read and written, and whether the io
    was told to close. *)
Record Work := mkWork {
  wk_t : WsTransport;
  wk_src : list Z;
  wk_dst : list Z;
  wk_out : list Z;
  wk_frames : nat;
  wk_closed : bool
}.

Definition wk_set (w : Work) (t : WsTransport) : Work :=
  mkWork t (wk_src w) (wk_dst w) (wk_out w) (wk_frames w) (wk_closed w).
Definition wk_push (w : Work) (bin : list Z) : Work :=
  mkWork (wk_t w) (wk_src w) (wk_dst w ++ bin) (wk_out w) (wk_frames w) (wk_closed w).

Section Transport.
Context (from_utf8_lossy : list Z -> list Z) (keys addrs : nat -> Z).

(** [codec.encodev] into the buffer of what is to be sent. *)
Definition send_message (m : WsMessage) (w : Work) : Work :=
  let '(_, c, out) := ws_encode (keys (wk_frames w)) (addrs (wk_frames w)) (wt_codec (wk_t w)) m (wk_out w) in
  mkWork (tr_codec (wk_t w) c) (wk_src w) (wk_dst w) out (S (wk_frames w)) (wk_closed w).

(** The match of [process_read_buf]: whether the loop goes on. *)
Definition process_frame (f : WsFrame) (w : Work) : result bool TransportError * Work :=
  let refuse e := (Err e, wk_set w (tr_insert_flags (wk_t w) TransportFlags.PROTO_ERR)) in
  match f with
  | FBinary bin => (Ok true, wk_push w bin)
  | FContinuation (FirstBinary bin) =>
      (Ok true, wk_push (wk_set w (tr_insert_flags (wk_t w) TransportFlags.CONTINUATION)) bin)
  | FContinuation (Continue bin) =>
      match continuation_must_start (wk_t w) TE_ContinueNotStarted with
      | (Err e, t) => (Err e, wk_set w t)
      | (Ok _, t) => (Ok true, wk_push (wk_set w t) bin)
      end
  | FContinuation (Last bin) =>
      match continuation_must_start (wk_t w) TE_LastNotStarted with
      | (Err e, t) => (Err e, wk_set w t)
      | (Ok _, t) => (Ok true, wk_push (wk_set w (tr_remove_flags t TransportFlags.CONTINUATION)) bin)
      end
  | FContinuation (FirstText _) => refuse TE_TextContinuation
  | FText _ => refuse TE_Text
  | FPing msg => (Ok true, send_message (MPong msg) w)
  | FPong _ => (Ok true, w)
  | FClose _ => (Ok false, mkWork (wk_t w) (wk_src w) (wk_dst w) (wk_out w) (wk_frames w) true)
  end.

(** [process_read_buf], where there is a buffer of received bytes. *)
Fixpoint process_read_buf (fuel : nat) (w : Work) : outcome (result unit TransportError * Work) :=
  match fuel with
  | O => NoFuel
  | S fuel =>
      let '(r, c, src) := ws_decode from_utf8_lossy (addrs (wk_frames w)) (wt_codec (wk_t w)) (wk_src w) in
      let w := mkWork (tr_codec (wk_t w) c) src (wk_dst w) (wk_out w) (S (wk_frames w)) (wk_closed w) in
      match r with
      | Err e => Val (Err (TE_Decode e), wk_set w (tr_insert_flags (wk_t w) TransportFlags.PROTO_ERR))
      | Ok None => Val (Ok tt, w)
      | Ok (Some frame) =>
          match process_frame frame w with
          | (Err e, w) => Val (Err e, w)
          | (Ok true, w) => process_read_buf fuel w
          | (Ok false, w) => Val (Ok tt, w)
          end
      end
  end.

(** [process_write_buf]: every page is a message. *)
Definition process_write_buf (pages : list (list Z)) (w : Work) : Work :=
  fold_left (fun w page =>
    mkWork (wk_t w) (wk_src w) (wk_dst w)
      (encode_page (keys (wk_frames w)) (addrs (wk_frames w)) (wt_codec (wk_t w)) page (wk_out w))
      (S (wk_frames w)) (wk_closed w)) pages w.

(** [shutdown] *)
Definition transport_shutdown (w : Work) : Work :=
  if tr_has (wk_t w) TransportFlags.CLOSED then w
  else
    let code := if tr_has (wk_t w) TransportFlags.PROTO_ERR then Protocol else Normal in
    send_message (MClose (Some (mkCloseReason code None)))
      (wk_set w (tr_insert_flags (wk_t w) TransportFlags.CLOSED)).

(** ** [WsSink] *)

(** [io.encode] writes with the sink's own copy of the codec; [closed] says that
    the io was told to close. *)
Record WsSink := mkSink { sk_codec : WsCodec; sk_out : list Z; sk_frames : nat; sk_io_closed : bool }.

Definition sink_send (item : WsMessage) (s : WsSink) : result unit WsError * WsSink :=
  let close := match item with MClose _ => is_closed (sk_codec s) | _ => false end in
  match ws_encode (keys (sk_frames s)) (addrs (sk_frames s)) (sk_codec s) item (sk_out s) with
  | (Err e, c, out) => (Err e, mkSink c out (sk_frames s) (sk_io_closed s))
  | (Ok _, c, out) => (Ok tt, mkSink c out (S (sk_frames s)) (sk_io_closed s || close))
  end.

(** The bytes come in segments, and the filter runs after each, until it fails. *)
Fixpoint receive_segments (segs : list (list Z)) (w : Work) : outcome (result unit TransportError * Work) :=
  match segs with
  | [] => Val (Ok tt, w)
  | seg :: segs =>
      let src := wk_src w ++ seg in
      r ← process_read_buf (S (length src)) (mkWork (wk_t w) src (wk_dst w) (wk_out w) (wk_frames w) (wk_closed w));
      match r with
      | (Ok _, w) => receive_segments segs w
      | (Err e, w) => Val (Err e, w)
      end
  end.
End Transport.
