(* ===== verification/WsTransportThms.v ===== *)
(** * Theorems of the WebSocket transport

    A conversation arrives as the byte stream it carries, in whatever segments
    the bytes come; which errors the filter can make; how it ends. *)
From S2P Require Import Prelude WsMask WsProto WsFrame WsCodec WsTransport.

(** ** Messages on the wire *)

Definition frame_bytes (mask : bool) (mk : WsMessage * Z) : list Z :=
  let pl := message_payload mk.1 in
  frame_header mk.2 (zlen pl) (message_op mk.1).1 (message_op mk.1).2 mask ++ frame_body mk.2 pl mask.
#[local] Arguments frame_bytes : simpl never.

(** What a transport carries: binary data, whole or fragmented, and pings and
    pongs between. *)
Definition binary (m : WsMessage) : bool :=
  match m with MText _ | MContinuation (FirstText _) | MClose _ => false | _ => true end.
Definition data_of (m : WsMessage) : list Z :=
  match m with
  | MBinary b | MContinuation (FirstBinary b) | MContinuation (Continue b) | MContinuation (Last b) => b
  | _ => []
  end.
Definition pong_of (m : WsMessage) : option WsMessage :=
  match m with MPing b => Some (MPong b) | _ => None end.

Fixpoint frag_all (open : bool) (ms : list WsMessage) : option bool :=
  match ms with
  | [] => Some open
  | m :: ms => o ← frag_step open (message_kind m); frag_all o ms
  end.

Section Wire.
Context (lossy : list Z -> list Z).

(** A message a peer of limit [max] can be sent, with its key. *)
Definition carried (max : Z) (mk : WsMessage * Z) : Prop :=
  sendable lossy max mk.1 /\ wf_key mk.2 /\ binary mk.1 = true.

Lemma decode_frame addr d max m key o rest :
  0 <= addr -> ws_max_size d = max -> sendable lossy max m -> wf_key key ->
  frag_step (has d WsFlags.R_CONTINUATION) (message_kind m) = Some o ->
  exists d', ws_decode lossy addr d (frame_bytes (has d WsFlags.SERVER) (m, key) ++ rest) = (Ok (Some (frame_of m)), d', rest) /\
    has d' WsFlags.R_CONTINUATION = o /\ has d' WsFlags.SERVER = has d WsFlags.SERVER /\ ws_max_size d' = max.
Proof.
  intros Ha Hmax Hok Hk Ho. pose proof Hok as (Hp & Hl & Hc & _). destruct (message_op_ok m) as [Hop Hctl].
  set (e := mkWsCodec (Z.lor (if has d WsFlags.SERVER then 0 else 1) (if has d WsFlags.R_CONTINUATION then 4 else 0)) 0).
  assert (Hsync : in_sync e d) by (unfold in_sync, e; by destruct (has d WsFlags.SERVER), (has d WsFlags.R_CONTINUATION)).
  pose proof (ws_encode_frag key 0 e m []) as He. rewrite <- (proj2 Hsync), Ho in He.
  destruct He as (e' & out & He & Hw & _ & Hs).
  destruct (deliver_message lossy e d _ _ _ _ _ _ max Hsync Hok He) as (d' & Hd & [Hs' Hr'] & Hm).
  exists d'. split_and!; [|congruence| |congruence].
  - unfold ws_decode, frame_bytes. cbn [fst snd]. rewrite <- app_assoc. rewrite parse_frame; try done; [by rewrite Hd|congruence|].
    by rewrite Hctl.
  - rewrite Hs', Hs. destruct Hsync as [-> _]. done.
Qed.

Lemma decode_partial addr d max m key k :
  ws_max_size d = max -> sendable lossy max m -> wf_key key ->
  (k < length (frame_bytes (has d WsFlags.SERVER) (m, key)))%nat ->
  let p := take k (frame_bytes (has d WsFlags.SERVER) (m, key)) in ws_decode lossy addr d p = (Ok None, d, p).
Proof.
  intros Hmax Hok Hk Hl p. pose proof Hok as (Hp & Hz & _ & _). destruct (message_op_ok m) as [Hop _].
  unfold ws_decode, p, frame_bytes. cbn [fst snd]. by rewrite parse_frame_prefix by (done || congruence).
Qed.

Lemma decode_empty addr d : ws_decode lossy addr d [] = (Ok None, d, []).
Proof. done. Qed.

(** Bytes received so far are whole frames and a part of the next. *)
Lemma split_received mask max ms : forall x rest,
  Forall (carried max) ms -> x ++ rest = concat (map (frame_bytes mask) ms) ->
  exists done todo p, ms = done ++ todo /\ x = concat (map (frame_bytes mask) done) ++ p /\
    p ++ rest = concat (map (frame_bytes mask) todo) /\
    forall addr d, has d WsFlags.SERVER = mask -> ws_max_size d = max -> ws_decode lossy addr d p = (Ok None, d, p).
Proof.
  induction ms as [|mk ms IH]; intros x rest Hms Hx; cbn [map concat] in Hx.
  { apply app_eq_nil in Hx as [-> ->]. exists [], [], []. split_and!; try done. }
  inversion_clear Hms as [|? ? (Hok & Hk & Hb) Hms'].
  destruct (Nat.lt_ge_cases (length x) (length (frame_bytes mask mk))) as [Hl|Hl].
  - exists [], (mk :: ms), x. split_and!; try done. intros addr d <- Hmax.
    assert (Hxt : x = take (length x) (frame_bytes (has d WsFlags.SERVER) mk)).
    { apply (f_equal (take (length x))) in Hx. rewrite take_app_length, take_app_le in Hx by lia. done. }
    rewrite Hxt. destruct mk as [m key]. by apply (decode_partial addr d max).
  - assert (exists x2, x = frame_bytes mask mk ++ x2) as [x2 ->].
    { exists (drop (length (frame_bytes mask mk)) x). apply (f_equal (take (length (frame_bytes mask mk)))) in Hx.
      rewrite take_app_length, take_app_le in Hx by lia. rewrite <- Hx at 1. by rewrite take_drop. }
    rewrite <- app_assoc in Hx. apply app_inv_head in Hx.
    destruct (IH x2 rest Hms' Hx) as (dn & todo & p & -> & -> & Hp & Hd).
    exists (mk :: dn), todo, p. split_and!; try done. cbn [map concat]. by rewrite app_assoc.
Qed.

(** ** Reading *)

Context (keys addrs : nat -> Z).
Hypothesis keys_ok : forall n, wf_key (keys n).
Hypothesis addrs_ok : forall n, 0 <= addrs n.

(** The filter's own mark of an open message is the codec's. *)
Definition agrees_cont (w : Work) : Prop :=
  tr_has (wk_t w) TransportFlags.CONTINUATION = has (wt_codec (wk_t w)) WsFlags.R_CONTINUATION.

(** What reading messages does. *)
Record has_read (ms : list WsMessage) (o : bool) (w w' : Work) : Prop := {
  hr_dst : wk_dst w' = wk_dst w ++ concat (map data_of ms);
  hr_out : exists ps, ps.*1 = omap pong_of ms /\ Forall wf_key ps.*2 /\
    wk_out w' = wk_out w ++ concat (map (frame_bytes (negb (has (wt_codec (wk_t w)) WsFlags.SERVER))) ps);
  hr_closed : wk_closed w' = wk_closed w;
  hr_cont : agrees_cont w';
  hr_open : has (wt_codec (wk_t w')) WsFlags.R_CONTINUATION = o;
  hr_server : has (wt_codec (wk_t w')) WsFlags.SERVER = has (wt_codec (wk_t w)) WsFlags.SERVER;
  hr_max : ws_max_size (wt_codec (wk_t w')) = ws_max_size (wt_codec (wk_t w));
  hr_err : tr_has (wk_t w') TransportFlags.PROTO_ERR = tr_has (wk_t w) TransportFlags.PROTO_ERR
}.

Lemma has_read_app ms1 ms2 o1 o2 w w1 w2 : has_read ms1 o1 w w1 -> has_read ms2 o2 w1 w2 -> has_read (ms1 ++ ms2) o2 w w2.
Proof.
  intros [D1 (p1 & P1 & K1 & O1) C1 A1 R1 S1 M1 E1] [D2 (p2 & P2 & K2 & O2) C2 A2 R2 S2 M2 E2]. split; try congruence.
  - by rewrite D2, D1, map_app, concat_app, app_assoc.
  - exists (p1 ++ p2). rewrite !fmap_app, omap_app, P1, P2. split_and!; try done; [by apply Forall_app|].
    by rewrite O2, O1, S1, concat_app, app_assoc.
Qed.

(** One frame of a conversation. *)
Lemma process_one m o w c fuel_n :
  binary m = true -> wf_payload (message_payload m) ->
  frag_step (tr_has (wk_t w) TransportFlags.CONTINUATION) (message_kind m) = Some o ->
  has c WsFlags.R_CONTINUATION = o -> has c WsFlags.SERVER = has (wt_codec (wk_t w)) WsFlags.SERVER ->
  ws_max_size c = ws_max_size (wt_codec (wk_t w)) ->
  let w1 := mkWork (tr_codec (wk_t w) c) (wk_src w) (wk_dst w) (wk_out w) fuel_n (wk_closed w) in
  exists w', process_frame keys addrs (frame_of m) w1 = (Ok true, w') /\ wk_src w' = wk_src w /\ has_read [m] o w w'.
Proof.
  intros Hb Hp Ho Hr Hs Hm w1.
  assert (Hno : forall w', wk_out w' = wk_out w -> pong_of m = None -> exists ps : list (WsMessage * Z),
    ps.*1 = omap pong_of [m] /\ Forall wf_key ps.*2 /\
    wk_out w' = wk_out w ++ concat (map (frame_bytes (negb (has (wt_codec (wk_t w)) WsFlags.SERVER))) ps)).
  { intros w' Hw Hpong. exists []. simpl. rewrite Hpong, app_nil_r. by split_and!. }
  destruct m as [b|b|[b|b|b|b]|b|b|r]; try done; simpl in Ho, Hp;
    try (destruct (tr_has (wk_t w) TransportFlags.CONTINUATION) eqn:Hc; try done); simplify_eq.
  all: simpl; unfold continuation_must_start, tr_has in *; simpl; rewrite ?Hc; eexists; (split; [reflexivity|]); (split; [done|]);
    split; simpl; rewrite ?app_nil_r; try done; try (by apply Hno); unfold agrees_cont, tr_has, has in *; simpl; flags; try congruence.
  all: exists [(MPong b, keys fuel_n)]; (split; [done|]); (split; [apply Forall_singleton, keys_ok|]);
    cbn [map concat]; rewrite app_nil_r; unfold frame_bytes; cbn [fst snd message_payload message_op];
    rewrite write_message_frame by done; by rewrite Hs.
Qed.

Lemma read_messages ms : forall w fuel tail o max,
  agrees_cont w -> ws_max_size (wt_codec (wk_t w)) = max -> Forall (carried max) ms ->
  frag_all (has (wt_codec (wk_t w)) WsFlags.R_CONTINUATION) ms.*1 = Some o ->
  wk_src w = concat (map (frame_bytes (has (wt_codec (wk_t w)) WsFlags.SERVER)) ms) ++ tail ->
  (forall addr d, has d WsFlags.SERVER = has (wt_codec (wk_t w)) WsFlags.SERVER -> ws_max_size d = max ->
     ws_decode lossy addr d tail = (Ok None, d, tail)) ->
  (length ms < fuel)%nat ->
  exists w', process_read_buf lossy keys addrs fuel w = Val (Ok tt, w') /\ wk_src w' = tail /\ has_read ms.*1 o w w'.
Proof.
  induction ms as [|[m key] ms IH]; intros w fuel tail o max Hg Hmax Hms Hfr Hsrc Htail Hfuel; (destruct fuel as [|fuel]; [lia|]).
  - cbn [map concat app] in Hsrc. simpl in Hfr |- *. rewrite Hsrc, Htail by done. eexists. split; [reflexivity|]. split; [done|]. injection Hfr as <-.
    split; simpl; try done; [by rewrite app_nil_r|]. exists []. simpl. by rewrite app_nil_r.
  - inversion_clear Hms as [|? ? (Hok & Hk & Hb) Hms']. cbn [fst snd] in *. simpl in Hfr.
    destruct (frag_step _ (message_kind m)) as [o1|] eqn:Ho1; [|done]. simpl in Hfr.
    cbn [map concat] in Hsrc. rewrite <- app_assoc in Hsrc.
    destruct (decode_frame (addrs (wk_frames w)) (wt_codec (wk_t w)) max m key o1
                (concat (map (frame_bytes (has (wt_codec (wk_t w)) WsFlags.SERVER)) ms) ++ tail)
                (addrs_ok _) Hmax Hok Hk Ho1) as (c & Hd & Hc1 & Hc2 & Hc3).
    cbn [process_read_buf]. rewrite Hsrc, Hd.
    pose proof (process_one m o1 (mkWork (wk_t w) (concat (map (frame_bytes (has (wt_codec (wk_t w)) WsFlags.SERVER)) ms) ++ tail)
                  (wk_dst w) (wk_out w) (wk_frames w) (wk_closed w)) c (S (wk_frames w)) Hb (proj1 Hok)) as Hone.
    simpl in Hone. destruct Hone as (w1 & Hp & Hs1 & Hread); try done; [by rewrite Hg|congruence|].
    rewrite Hp. pose proof Hread as [D O C A R S M E]. simpl in *.
    destruct (IH w1 fuel tail o max) as (w2 & Hw2 & Hs2 & Hread2); [done|congruence|done|by rewrite R|by rewrite Hs1, S| |lia|].
    { intros addr d Hd1 Hd2. apply Htail; congruence. }
    exists w2. split_and!; try done.
    apply (has_read_app [m] ms.*1 o1 o w w1 w2); [|done]. by destruct Hread.
Qed.

Lemma frag_all_app open ms1 ms2 : frag_all open (ms1 ++ ms2) = o ← frag_all open ms1; frag_all o ms2.
Proof. revert open. induction ms1 as [|m ms1 IH]; intros open; [done|]. simpl. destruct (frag_step _ _); simpl; auto. Qed.

Lemma frames_long mask ms : (length ms <= length (concat (map (frame_bytes mask) ms)))%nat.
Proof.
  induction ms as [|mk ms IH]; [done|]. cbn [map concat length]. rewrite length_app.
  assert (0 < length (frame_bytes mask mk))%nat by (unfold frame_bytes, frame_header; simpl; lia). lia.
Qed.

(** What a WebSocket transport hands to the reader.  For any conversation of
    binary messages, whole or in fragments that are in order, with pings and pongs
    between them, and its bytes arriving in any segments: when part of the bytes
    is there, the data of the messages that are complete has been handed over and
    the rest waits; when all are there, exactly the data, in order.  Every ping is
    answered by a pong with its bytes, in order, and nothing else is sent; no
    error is made and the io is not closed. *)
Theorem transport_reads_conversation segs rest ms (w : Work) o max :
  agrees_cont w -> ws_max_size (wt_codec (wk_t w)) = max -> Forall (carried max) ms -> wk_src w = [] ->
  frag_all (has (wt_codec (wk_t w)) WsFlags.R_CONTINUATION) ms.*1 = Some o ->
  concat segs ++ rest = concat (map (frame_bytes (has (wt_codec (wk_t w)) WsFlags.SERVER)) ms) ->
  exists w' dn todo o', receive_segments lossy keys addrs segs w = Val (Ok tt, w') /\ ms = dn ++ todo /\ has_read dn.*1 o' w w' /\
    wk_src w' ++ rest = concat (map (frame_bytes (has (wt_codec (wk_t w)) WsFlags.SERVER)) todo) /\
    (rest = [] -> dn = ms /\ wk_src w' = []).
Proof.
  intros Hg Hmax Hms Hsrc Hfr Hsegs.
  assert (Hgen : forall segs ms w o, agrees_cont w -> ws_max_size (wt_codec (wk_t w)) = max -> Forall (carried max) ms ->
    frag_all (has (wt_codec (wk_t w)) WsFlags.R_CONTINUATION) ms.*1 = Some o ->
    wk_src w ++ concat segs ++ rest = concat (map (frame_bytes (has (wt_codec (wk_t w)) WsFlags.SERVER)) ms) ->
    (segs = [] -> forall addr d, has d WsFlags.SERVER = has (wt_codec (wk_t w)) WsFlags.SERVER -> ws_max_size d = max ->
       ws_decode lossy addr d (wk_src w) = (Ok None, d, wk_src w)) ->
    exists w' dn todo o', receive_segments lossy keys addrs segs w = Val (Ok tt, w') /\ ms = dn ++ todo /\ has_read dn.*1 o' w w' /\
      wk_src w' ++ rest = concat (map (frame_bytes (has (wt_codec (wk_t w)) WsFlags.SERVER)) todo) /\
      forall addr d, has d WsFlags.SERVER = has (wt_codec (wk_t w)) WsFlags.SERVER -> ws_max_size d = max ->
        ws_decode lossy addr d (wk_src w') = (Ok None, d, wk_src w')).
  { clear Hg Hmax Hms Hsrc Hfr Hsegs w ms segs o. induction segs as [|seg segs IH]; intros ms w o Hg Hmax Hms Hfr Hsrc Hpart.
    - exists w, [], ms, (has (wt_codec (wk_t w)) WsFlags.R_CONTINUATION). split_and!; try done; [|by apply Hpart].
      split; simpl; try done; [by rewrite app_nil_r|]. exists []. simpl. by rewrite app_nil_r.
    - simpl in Hsrc. rewrite <- !app_assoc, app_assoc in Hsrc.
      destruct (split_received _ max ms (wk_src w ++ seg) (concat segs ++ rest) Hms Hsrc) as (dn & todo & p & -> & Hx & Hp & Hd).
      rewrite fmap_app, frag_all_app in Hfr. destruct (frag_all _ dn.*1) as [o1|] eqn:Ho1; [|done]. simpl in Hfr.
      apply Forall_app in Hms as [Hms1 Hms2].
      set (w0 := mkWork (wk_t w) (wk_src w ++ seg) (wk_dst w) (wk_out w) (wk_frames w) (wk_closed w)).
      destruct (read_messages dn w0 (S (length (wk_src w ++ seg))) p o1 max) as (w1 & Hw1 & Hs1 & Hr1); try done.
      { rewrite Hx, length_app. pose proof (frames_long (has (wt_codec (wk_t w)) WsFlags.SERVER) dn). lia. }
      pose proof Hr1 as [D O C A R S M E]. simpl in *.
      destruct (IH todo w1 o) as (w' & dn2 & todo2 & o2 & Hw' & -> & Hr2 & Hrest & Hdec);
        [done|congruence|done|by rewrite R|by rewrite Hs1, S|intros _ addr d Hd1 Hd2; rewrite Hs1; apply Hd; congruence|].
      exists w', (dn ++ dn2), todo2, o2. cbn [receive_segments]. unfold w0 in Hw1. rewrite Hw1. simpl. split_and!; try done.
      + by rewrite app_assoc.
      + rewrite fmap_app. apply (has_read_app _ _ o1 o2 w w1 w'); [|done]. by destruct Hr1.
      + by rewrite Hrest, S.
      + intros addr d Hd1 Hd2. apply Hdec; congruence. }
  destruct (Hgen segs ms w o Hg Hmax Hms Hfr) as (w' & dn & todo & o' & Hw' & -> & Hr & Hrest & Hdec).
  { by rewrite Hsrc. }
  { intros _ addr d _ _. by rewrite Hsrc. }
  exists w', dn, todo, o'. split_and!; try done. intros ->. rewrite app_nil_r in Hrest.
  destruct todo as [|[m key] todo]; [by rewrite app_nil_r|]. exfalso. cbn [map concat] in Hrest.
  apply Forall_app in Hms as [_ Hms2]. inversion_clear Hms2 as [|? ? (Hok & Hk & Hb) _]. cbn [fst snd] in *.
  rewrite fmap_app, frag_all_app in Hfr. destruct (frag_all _ dn.*1) as [o1|] eqn:Ho1; [|done]. simpl in Hfr.
  destruct (frag_step o1 (message_kind m)) as [o2|] eqn:Ho2; [|done].
  set (d := mkWsCodec (Z.lor (if has (wt_codec (wk_t w)) WsFlags.SERVER then 1 else 0) (if o1 then 2 else 0)) max).
  assert (Hd1 : has d WsFlags.SERVER = has (wt_codec (wk_t w)) WsFlags.SERVER) by (unfold d; by destruct (has (wt_codec (wk_t w)) WsFlags.SERVER), o1).
  assert (Hd2 : has d WsFlags.R_CONTINUATION = o1) by (unfold d; by destruct (has (wt_codec (wk_t w)) WsFlags.SERVER), o1).
  destruct (decode_frame 0 d max m key o2 (concat (map (frame_bytes (has (wt_codec (wk_t w)) WsFlags.SERVER)) todo))) as (d' & Hdd & _);
    try done; [by rewrite Hd2|]. rewrite Hd1, <- Hrest in Hdd. by rewrite (Hdec 0 d Hd1 eq_refl) in Hdd.
Qed.

(** ** Both ends *)

Lemma pages_frames pages : forall w, Forall wf_payload pages ->
  exists ms, ms.*1 = MBinary <$> pages /\ Forall wf_key ms.*2 /\
    wk_out (process_write_buf keys addrs pages w)
    = wk_out w ++ concat (map (frame_bytes (negb (has (wt_codec (wk_t w)) WsFlags.SERVER))) ms).
Proof.
  induction pages as [|page pages IH]; intros w Hp.
  { exists []. simpl. by rewrite app_nil_r. }
  inversion_clear Hp as [|? ? Hp1 Hps].
  set (w1 := mkWork (wk_t w) (wk_src w) (wk_dst w)
               (encode_page (keys (wk_frames w)) (addrs (wk_frames w)) (wt_codec (wk_t w)) page (wk_out w))
               (S (wk_frames w)) (wk_closed w)).
  destruct (IH w1 Hps) as (ms & H1 & H2 & H3). exists ((MBinary page, keys (wk_frames w)) :: ms). split_and!.
  - by rewrite !fmap_cons, H1.
  - rewrite fmap_cons. constructor; [apply keys_ok|done].
  - cbn [map concat]. change (process_write_buf keys addrs (page :: pages) w) with (process_write_buf keys addrs pages w1).
    rewrite H3. unfold w1. cbn [wk_out wk_t]. unfold encode_page. rewrite write_message_frame by done.
    by rewrite <- app_assoc.
Qed.

Lemma frag_pages pages : forall o, frag_all o (MBinary <$> pages) = Some o.
Proof. induction pages as [|p pages IH]; intros o; [done|]. apply IH. Qed.

Lemma data_pages pages : concat (map data_of (MBinary <$> pages)) = concat pages /\ omap pong_of (MBinary <$> pages) = [].
Proof. induction pages as [|p pages [IH1 IH2]]; [done|]. split; [|exact IH2]. simpl concat at 2. by rewrite <- IH1. Qed.

(** ** Errors and the end of the loop *)

Lemma parse_metadata_idx src server max idx fin op len mask :
  parse_metadata src server max = Ok (Some (idx, fin, op, len, mask)) -> (2 <= idx)%nat /\ (2 <= length src)%nat.
Proof.
  unfold parse_metadata. intros Hp. repeat case_match; simplify_eq; destruct (Nat.ltb_spec (length src) 2); try done; lia.
Qed.

Lemma parse_shrinks addr src server max f src' :
  parse addr src server max = (Ok (Some f), src') -> (length src' < length src)%nat.
Proof.
  unfold parse. destruct (parse_metadata src server max) as [[[[[[idx fin] op] len] mask]|]|e] eqn:Hm; try done.
  apply parse_metadata_idx in Hm as [Hi Hl].
  assert (Hd : (length (drop idx src) < length src)%nat) by (rewrite length_drop; lia).
  assert (Hz : (length (zdrop len (drop idx src)) < length src)%nat) by (unfold zdrop; rewrite length_drop; lia).
  repeat case_match; intros Hx; simplify_eq; done.
Qed.

Lemma ws_decode_shrinks addr d src f d' src' :
  ws_decode lossy addr d src = (Ok (Some f), d', src') -> (length src' < length src)%nat.
Proof.
  unfold ws_decode. destruct (parse _ _ _ _) as [[[[[fin op] pl]|]|e] s] eqn:Hp; try done.
  destruct (deliver _ _ _ _ _) as [r c]. intros Hx. simplify_eq. by eapply parse_shrinks.
Qed.

Lemma process_frame_src f w r w' : process_frame keys addrs f w = (r, w') -> wk_src w' = wk_src w.
Proof.
  destruct f as [b|b|[b|b|b|b]|b|b|c]; simpl; unfold continuation_must_start, send_message;
    try case_match; intros Hx; simplify_eq; try done; repeat case_match; by simplify_eq.
Qed.

(** The errors that can be. *)
Definition real_error (e : TransportError) : Prop :=
  match e with TE_Decode _ | TE_TextContinuation | TE_Text => True | _ => False end.

Lemma process_frame_ok f d w r w' :
  tr_has (wk_t w) TransportFlags.PROTO_ERR = false ->
  frag_step (tr_has (wk_t w) TransportFlags.CONTINUATION) (frame_kind f) = Some (has (wt_codec (wk_t w)) WsFlags.R_CONTINUATION) ->
  process_frame keys addrs f w = (r, w') -> d = w ->
  match r with
  | Ok _ => agrees_cont w' /\ tr_has (wk_t w') TransportFlags.PROTO_ERR = false
  | Err e => real_error e /\ tr_has (wk_t w') TransportFlags.PROTO_ERR = true
  end.
Proof.
  intros He Hf Hp ->. unfold agrees_cont, tr_has in *.
  destruct f as [b|b|[b|b|b|b]|b|b|c]; simpl in *; unfold continuation_must_start, tr_has in *;
    try (destruct (Flag.contains (wt_flags (wk_t w)) TransportFlags.CONTINUATION) eqn:Hc; try done); simplify_eq; simpl;
    try (rewrite Hc); simplify_eq; simpl; flags; auto.
  all: unfold has in *; try (split; congruence).
Qed.

(** The filter's loop ends, whatever bytes it is given.  Between two runs its
    own mark of an open message is the codec's as long as nothing failed, so that
    it fails exactly when the bytes are no frames or carry text, each time marks
    the protocol as broken, and never for a fragment without a beginning, which
    the codec has refused before. *)
Theorem transport_read_total fuel (w : Work) :
  agrees_cont w -> tr_has (wk_t w) TransportFlags.PROTO_ERR = false -> (length (wk_src w) < fuel)%nat ->
  exists r w', process_read_buf lossy keys addrs fuel w = Val (r, w') /\
    match r with
    | Ok _ => agrees_cont w' /\ tr_has (wk_t w') TransportFlags.PROTO_ERR = false
    | Err e => real_error e /\ tr_has (wk_t w') TransportFlags.PROTO_ERR = true
    end.
Proof.
  revert w. induction fuel as [|fuel IH]; intros w Hg He Hf; [lia|]. cbn [process_read_buf].
  destruct (ws_decode lossy (addrs (wk_frames w)) (wt_codec (wk_t w)) (wk_src w)) as [[r c] src] eqn:Hd.
  pose proof (fragmentation_enforced lossy 0 (addrs (wk_frames w)) (wt_codec (wk_t w)) (MText []) [] (wk_src w)) as [_ Hfr].
  rewrite Hd in Hfr. destruct r as [[f|]|e].
  - destruct Hfr as [Hfr _]. set (w1 := mkWork (tr_codec (wk_t w) c) src (wk_dst w) (wk_out w) (S (wk_frames w)) (wk_closed w)).
    destruct (process_frame keys addrs f w1) as [r w2] eqn:Hp.
    pose proof (process_frame_ok f w1 w1 r w2 He) as Hok. unfold agrees_cont in Hg. 
    specialize (Hok ltac:(by change (tr_has (wk_t w1) TransportFlags.CONTINUATION) with (tr_has (wk_t w) TransportFlags.CONTINUATION); rewrite Hg) Hp eq_refl).
    destruct r as [[]|e].
    + destruct Hok as [Hg2 He2]. apply IH; [done..|]. rewrite (process_frame_src _ _ _ _ Hp). simpl.
      pose proof (ws_decode_shrinks _ _ _ _ _ _ Hd). lia.
    + eauto.
    + eauto.
  - subst c. eexists _, _. by split; [reflexivity|].
  - subst c. eexists _, _. split; [reflexivity|]. split; [done|]. unfold tr_has. simpl. by flags.
Qed.

(** How a transport ends.  The first shutdown sends a close frame, which the
    peer decodes as the code 1002 when the protocol was broken and as 1000
    otherwise, and nothing else; a second one sends nothing. *)
Theorem transport_close_once (w : Work) (d : WsCodec) rest :
  tr_has (wk_t w) TransportFlags.CLOSED = false ->
  has d WsFlags.SERVER = negb (has (wt_codec (wk_t w)) WsFlags.SERVER) -> 2 <= ws_max_size d ->
  let w' := transport_shutdown keys addrs w in
  transport_shutdown keys addrs w' = w' /\
  wk_dst w' = wk_dst w /\ wk_src w' = wk_src w /\ is_closed (wt_codec (wk_t w')) = true /\
  exists sent, wk_out w' = wk_out w ++ sent /\
    exists d', ws_decode lossy 0 d (sent ++ rest)
      = (Ok (Some (FClose (Some (mkCloseReason (if tr_has (wk_t w) TransportFlags.PROTO_ERR then Protocol else Normal) None)))), d', rest).
Proof.
  intros Hc Hs Hm w'. unfold w', transport_shutdown. rewrite Hc.
  set (code := if tr_has (wk_t w) TransportFlags.PROTO_ERR then Protocol else Normal).
  assert (Hcode : code = Protocol \/ code = Normal) by (unfold code; destruct (tr_has (wk_t w) TransportFlags.PROTO_ERR); by auto).
  assert (Hpl : wf_payload (close_payload (Some (mkCloseReason code None))) /\ zlen (close_payload (Some (mkCloseReason code None))) = 2).
  { destruct Hcode as [-> | ->]; (split; [split; [|vm_compute; reflexivity]|vm_compute; reflexivity]);
      apply (bool_decide_unpack (Forall (fun x => 0 <= x < 256) _)); vm_compute; exact I. }
  destruct Hpl as [Hpl Hlen]. unfold send_message. cbn [ws_encode wk_set wk_t wk_frames wk_out wk_dst wk_src wk_closed tr_codec wt_codec wt_flags tr_insert_flags].
  unfold write_close. rewrite write_message_frame by done. split_and!; try done.
  - by replace (tr_has _ TransportFlags.CLOSED) with true by (symmetry; apply Flag.contains_insert_eq).
  - unfold is_closed, has. simpl. by rewrite Flag.contains_insert_eq.
  - eexists. split; [reflexivity|].
    assert (Hok : sendable lossy (ws_max_size d) (MClose (Some (mkCloseReason code None)))).
    { split_and!; try done; simpl; rewrite ?Hlen; try lia; destruct Hcode as [-> | ->]; simpl; try done; try lia; by intros n Hn. }
    destruct (decode_frame 0 d (ws_max_size d) _ (keys (wk_frames w)) _ rest (Z.le_refl 0) eq_refl Hok (keys_ok _) eq_refl) as (d' & Hd & _).
    exists d'. unfold frame_bytes in Hd. cbn [fst snd message_payload message_op] in Hd. by rewrite Hs in Hd.
Qed.

(** The sink.  What it writes is what its copy of the codec writes; the io is
    closed after the second close message, not after the first. *)
Lemma sink_send_result item (s : WsSink) :
  let '(r, c, out) := ws_encode (keys (sk_frames s)) (addrs (sk_frames s)) (sk_codec s) item (sk_out s) in
  let '(r', s') := sink_send keys addrs item s in
  r' = r /\ sk_codec s' = c /\ sk_out s' = out /\
  (sk_io_closed s = false ->
   sk_io_closed s' = match item with MClose _ => is_closed (sk_codec s) | _ => false end).
Proof.
  unfold sink_send. destruct (ws_encode _ _ _ _ _) as [[[[]|e] c] out] eqn:He; simpl.
  - split_and!; try done. by intros ->.
  - split_and!; try done. intros ->. by destruct item.
Qed.
End Wire.

(** C39. A WebSocket transport at both ends carries a byte stream.  The pages that
    the writer's end is given, each within the frame limit of the reader's end,
    arrive at the reader in order and complete, whatever masking keys are drawn
    and in whatever segments the frames' bytes come; nothing is sent back. *)
Theorem transport_stream lossy keys addrs keys' addrs' pages segs (a b : Work) :
  (forall n, wf_key (keys n)) -> (forall n, 0 <= addrs n) -> (forall n, wf_key (keys' n)) -> (forall n, 0 <= addrs' n) ->
  agrees_cont b -> has (wt_codec (wk_t b)) WsFlags.SERVER = negb (has (wt_codec (wk_t a)) WsFlags.SERVER) ->
  Forall (fun page => wf_payload page /\ zlen page <= ws_max_size (wt_codec (wk_t b))) pages ->
  wk_out a = [] -> wk_src b = [] ->
  concat segs = wk_out (process_write_buf keys addrs pages a) ->
  exists b', receive_segments lossy keys' addrs' segs b = Val (Ok tt, b') /\
    wk_dst b' = wk_dst b ++ concat pages /\ wk_src b' = [] /\ wk_out b' = wk_out b /\ wk_closed b' = wk_closed b.
Proof.
  intros Hk Ha Hk' Ha' Hg Hs Hp Hout Hsrc Hsegs.
  destruct (pages_frames keys addrs Hk Ha pages a) as (ms & H1 & H2 & H3).
  { eapply Forall_impl; [exact Hp|]. by intros p [? _]. }
  rewrite H3, Hout in Hsegs. simpl in Hsegs.
  assert (Hms : Forall (carried lossy (ws_max_size (wt_codec (wk_t b)))) ms).
  { apply Forall_forall. intros [m key] Hin. apply (list_elem_of_fmap_2 fst) in Hin as Hm. apply (list_elem_of_fmap_2 snd) in Hin as Hkk.
    rewrite H1 in Hm. apply list_elem_of_fmap_1 in Hm as (page & Hm & Hpg). simpl in Hm, Hkk. subst m.
    rewrite Forall_forall in Hp. destruct (Hp _ Hpg) as [Hwf Hl]. rewrite Forall_forall in H2. split_and!; try done. by apply H2. }
  destruct (transport_reads_conversation lossy keys' addrs' Hk' Ha' segs [] ms b (has (wt_codec (wk_t b)) WsFlags.R_CONTINUATION)
              (ws_max_size (wt_codec (wk_t b)))) as (b' & dn & todo & o' & Hr & -> & [D (ps & P & _ & O) C _ _ _ _ _] & _ & Hend);
    try done.
  { rewrite H1. apply frag_pages. }
  { by rewrite app_nil_r, Hs. }
  destruct (Hend eq_refl) as [Hdn Hsrc']. rewrite <- Hdn in H1. rewrite H1 in D, P.
  destruct (data_pages pages) as [Hd1 Hd2]. rewrite Hd2 in P. apply fmap_nil_inv in P as ->. simpl in O. rewrite app_nil_r in O.
  exists b'. split_and!; try done. by rewrite D, Hd1.
Qed.

(** ** A conversation *)

Module TransportRun.
Definition keys (n : nat) : Z := Z.of_nat n mod 2 ^ 32.
Definition addrs (n : nat) : Z := 5.
Definition server : Work := mkWork (transport_create ws_new) [] [] [] 0 false.
Definition client : Work := mkWork (transport_create (client_mode ws_new)) [] [] [] 0 false.
Definition ms : list (WsMessage * Z) :=
  [(MContinuation (FirstBinary (bs "ab")), 1); (MPing (bs "?"), 2); (MContinuation (Last (bs "c")), 3); (MBinary (bs "d"), 4)].
Definition bytes : list Z := concat (map (frame_bytes true) ms).
Definition pages : list (list Z) := [bs "one"; []; bs "two"].
Definition sent : list Z := wk_out (process_write_buf keys addrs pages client).

Lemma keys_ok n : wf_key (keys n).
Proof. unfold wf_key, keys. apply Z.mod_pos_bound. lia. Qed.
Lemma addrs_ok n : 0 <= addrs n.
Proof. unfold addrs. lia. Qed.
Lemma text_ok l : bool_decide (Forall (fun x => 0 <= x < 256) l) = true -> (zlen l <? 2 ^ 64) = true -> wf_payload l.
Proof. intros Hl Hz. split; [by apply bool_decide_eq_true in Hl|by apply Z.ltb_lt]. Qed.
End TransportRun.

Lemma transport_reads_conversation_witness :
  exists w' dn todo o', receive_segments (fun x => x) TransportRun.keys TransportRun.addrs
      [take 3 TransportRun.bytes; drop 3 (take 14 TransportRun.bytes)] TransportRun.server = Val (Ok tt, w') /\
    TransportRun.ms = dn ++ todo /\ has_read dn.*1 o' TransportRun.server w' /\
    wk_src w' ++ drop 14 TransportRun.bytes = concat (map (frame_bytes true) todo) /\
    (drop 14 TransportRun.bytes = [] -> dn = TransportRun.ms /\ wk_src w' = []).
Proof.
  apply (transport_reads_conversation (fun x => x) TransportRun.keys TransportRun.addrs TransportRun.keys_ok TransportRun.addrs_ok
           [take 3 TransportRun.bytes; drop 3 (take 14 TransportRun.bytes)] (drop 14 TransportRun.bytes) TransportRun.ms TransportRun.server false 65536);
    try done.
  repeat constructor; try done; try (apply (bool_decide_unpack (Forall (fun x => 0 <= x < 256) _)); vm_compute; exact I); simpl; try lia;
    try (vm_compute; congruence).
Defined.

Lemma transport_read_total_witness :
  exists r w', process_read_buf (fun x => x) TransportRun.keys TransportRun.addrs 5
      (mkWork (transport_create ws_new) [0x81; 0x80; 0; 0] [] [] 0 false) = Val (r, w') /\
    match r with
    | Ok _ => agrees_cont w' /\ tr_has (wk_t w') TransportFlags.PROTO_ERR = false
    | Err e => real_error e /\ tr_has (wk_t w') TransportFlags.PROTO_ERR = true
    end.
Proof. apply (transport_read_total (fun x => x)); [done|done|simpl; lia]. Defined.

Lemma transport_close_once_witness :
  let w' := transport_shutdown TransportRun.keys TransportRun.addrs TransportRun.client in
  exists sent, wk_out w' = [] ++ sent /\
    exists d', ws_decode (fun x => x) 0 ws_new (sent ++ bs "next") = (Ok (Some (FClose (Some (mkCloseReason Normal None)))), d', bs "next").
Proof.
  destruct (transport_close_once (fun x => x) TransportRun.keys TransportRun.addrs TransportRun.keys_ok TransportRun.addrs_ok
              TransportRun.client ws_new (bs "next")) as (_ & _ & _ & _ & H); [done|done|simpl; lia|exact H].
Defined.

Lemma transport_stream_witness :
  exists b', receive_segments (fun x => x) TransportRun.keys TransportRun.addrs
      [take 4 TransportRun.sent; []; drop 4 TransportRun.sent] TransportRun.server = Val (Ok tt, b') /\
    wk_dst b' = [] ++ concat TransportRun.pages /\ wk_src b' = [] /\ wk_out b' = [] /\ wk_closed b' = false.
Proof.
  apply (transport_stream (fun x => x) TransportRun.keys TransportRun.addrs TransportRun.keys TransportRun.addrs TransportRun.pages
           [take 4 TransportRun.sent; []; drop 4 TransportRun.sent] TransportRun.client TransportRun.server
           TransportRun.keys_ok TransportRun.addrs_ok TransportRun.keys_ok TransportRun.addrs_ok); try done.
  - repeat constructor; try (apply (bool_decide_unpack (Forall (fun x => 0 <= x < 256) _)); vm_compute; exact I); vm_compute; congruence.
Defined.
