(* ===== verification/HyperRt.v ===== *)
(** * The runtime adapters of hyper

    [hyper_rt/transport.rs], [hyper_rt/timer.rs] and [hyper_rt/serve.rs].  The io of geario is a class of operations, each with
    the io after it; a poll that is not ready keeps the task's waker.  The cursor
    that hyper reads into is its capacity, and what it is given the bytes.  A
    [Duration] is a number of nanoseconds and an [Instant] one too. *)
From S2P Require Import Prelude.

(** [io::Error], by its kind. *)
Inductive IoError := NotConnected | UnexpectedEof | OtherError (e : Z).

Class TransportIo (I : Type) := {
  with_read_buf : forall A, (list Z -> A * list Z) -> I -> A * I;
  poll_read_ready : I -> Poll (result (option unit) IoError) * I;
  read_ready : I -> result (option unit) IoError * I;
  is_wr_backpressure : I -> bool;
  io_poll_flush : bool -> I -> Poll (result unit IoError) * I;
  try_write_vectored : list (list Z) -> I -> result nat IoError * I;
  with_write_buf : list Z -> I -> result unit IoError * I;
  send_buf : I -> result unit IoError * I;
  io_poll_shutdown : I -> Poll (result unit IoError) * I
}.
Arguments with_read_buf {I _ A} _ _.

Definition MAX_BUFFERED_WRITE : nat := 64 * 1024.

(** [GearioTransport] *)
Record Transport (I : Type) := mkTransport { tp_io : I; tp_vectored : bool; tp_shutting_down : bool }.
Arguments mkTransport {I} _ _ _.
Arguments tp_io {I} _.
Arguments tp_vectored {I} _.
Arguments tp_shutting_down {I} _.

Section Transport.
Context {I : Type} `{TransportIo I}.

(** [GearioTransport::new]; [no_vectored] is whether GEARIO_NO_VECTORED is 1. *)
Definition transport_new (no_vectored : bool) (io : I) : Transport I := mkTransport io (negb no_vectored) false.

Definition with_io (t : Transport I) (io : I) : Transport I := mkTransport io (tp_vectored t) (tp_shutting_down t).

(** ** Reading *)

(** At most [remaining] bytes go from the read buffer to the cursor. *)
Definition drain_read_buffer (remaining : nat) (io : I) : list Z * I :=
  with_read_buf (fun src => let n := Nat.min (length src) remaining in (take n src, drop n src)) io.

(** The bytes put into the cursor, and whether the task woke itself. *)
Definition poll_read (remaining : nat) (io : I) : Poll (result (list Z) IoError) * bool * I :=
  if (remaining =? 0)%nat then (Ready (Ok []), false, io)
  else
    let '(taken, io) := drain_read_buffer remaining io in
    if negb (zlen taken =? 0) then (Ready (Ok taken), false, io)
    else
      match poll_read_ready io with
      | (Pending, io) => (Pending, false, io)
      | (Ready (Ok None), io) => (Ready (Ok []), false, io)
      | (Ready (Ok (Some _)), io) =>
          let '(taken, io) := drain_read_buffer remaining io in
          if negb (zlen taken =? 0) then (Ready (Ok taken), false, io)
          else
            match poll_read_ready io with
            | (Ready (Ok None), io) => (Ready (Ok []), false, io)
            | (Ready (Err e), io) => (Ready (Err e), false, io)
            | (Pending, io) => (Pending, false, io)
            | (Ready (Ok (Some _)), io) => (Pending, true, io)
            end
      | (Ready (Err e), io) => (Ready (Err e), false, io)
      end.

(** ** Writing *)

(** The wait both writes begin with: [None] to go on. *)
Definition wait_backpressure (io : I) : option (Poll (result nat IoError)) * I :=
  if is_wr_backpressure io then
    match io_poll_flush false io with
    | (Pending, io) => (Some Pending, io)
    | (Ready (Err e), io) => (Some (Ready (Err e)), io)
    | (Ready (Ok _), io) => (None, io)
    end
  else (None, io).

Definition poll_write (buf : list Z) (io : I) : Poll (result nat IoError) * I :=
  if zlen buf =? 0 then (Ready (Ok 0%nat), io)
  else
    match wait_backpressure io with
    | (Some r, io) => (r, io)
    | (None, io) =>
        match try_write_vectored [buf] io with
        | (Ok (S n), io) => (Ready (Ok (S n)), io)
        | (Err e, io) => (Ready (Err e), io)
        | (Ok O, io) =>
            let len := Nat.min (length buf) MAX_BUFFERED_WRITE in
            match with_write_buf (take len buf) io with
            | (Ok _, io) => (Ready (Ok len), io)
            | (Err e, io) => (Ready (Err e), io)
            end
        end
    end.

(** The slices up to the quantum: the bytes copied and their number. *)
Fixpoint coalesce (bufs : list (list Z)) (written : nat) : list Z * nat :=
  match bufs with
  | [] => ([], written)
  | buf :: bufs =>
      let n := Nat.min (length buf) (MAX_BUFFERED_WRITE - written) in
      let written := (written + n)%nat in
      if (written =? MAX_BUFFERED_WRITE)%nat then (take n buf, written)
      else let '(rest, w) := coalesce bufs written in (take n buf ++ rest, w)
  end.

Definition poll_write_vectored (bufs : list (list Z)) (io : I) : Poll (result nat IoError) * I :=
  if forallb (fun buf => zlen buf =? 0) bufs then (Ready (Ok 0%nat), io)
  else
    match wait_backpressure io with
    | (Some r, io) => (r, io)
    | (None, io) =>
        match try_write_vectored bufs io with
        | (Ok (S n), io) => (Ready (Ok (S n)), io)
        | (Err e, io) => (Ready (Err e), io)
        | (Ok O, io) =>
            let '(data, written) := coalesce bufs 0 in
            match with_write_buf data io with
            | (Ok _, io) => (Ready (Ok written), io)
            | (Err e, io) => (Ready (Err e), io)
            end
        end
    end.

(** ** The end *)

Definition finished_or (t : Transport I) (e : IoError) : result unit IoError :=
  match e with
  | NotConnected => if tp_shutting_down t then Ok tt else Err e
  | _ => Err e
  end.

Definition poll_flush (t : Transport I) : Poll (result unit IoError) * Transport I :=
  match send_buf (tp_io t) with
  | (Err e, io) => (Ready (finished_or t e), with_io t io)
  | (Ok _, io) =>
      match io_poll_flush true io with
      | (Ready (Err e), io) => (Ready (finished_or t e), with_io t io)
      | (r, io) => (r, with_io t io)
      end
  end.

Definition poll_shutdown (t : Transport I) : Poll (result unit IoError) * Transport I :=
  let '(r, io) := io_poll_shutdown (tp_io t) in (r, mkTransport io (tp_vectored t) true).

(** ** Which protocol *)

Definition PREFACE : list Z := bs "PRI * HTTP/2.0" ++ [13; 10; 13; 10] ++ bs "SM" ++ [13; 10; 13; 10].

Inductive Protocol := Http1 | Http2.

Definition verdict (buf : list Z) : option bool :=
  if (length PREFACE <=? length buf)%nat then Some (bool_decide (take (length PREFACE) buf = PREFACE))
  else if bool_decide (buf `prefix_of` PREFACE) then None
  else Some false.

(** [detect]; a round either answers or waits for more. *)
Fixpoint detect (fuel : nat) (io : I) : outcome (result Protocol IoError * I) :=
  match fuel with
  | O => NoFuel
  | S fuel =>
      let '(v, io) := with_read_buf (fun buf => (verdict buf, buf)) io in
      match v with
      | Some true => Val (Ok Http2, io)
      | Some false => Val (Ok Http1, io)
      | None =>
          match read_ready io with
          | (Err e, io) => Val (Err e, io)
          | (Ok None, io) => Val (Err UnexpectedEof, io)
          | (Ok (Some _), io) => detect fuel io
          end
      end
  end.

(** [serve_auto]: hyper's connections, over their transport, are arguments. *)
Definition serve_auto {E} (serve_h1 serve_h2 : Transport I -> result unit E) (of_io : IoError -> E)
    (no_vectored : bool) (fuel : nat) (io : I) : outcome (result unit E) :=
  '(protocol, io) ← detect fuel io;
  Val match protocol with
      | Err e => Err (of_io e)
      | Ok Http1 => serve_h1 (transport_new no_vectored io)
      | Ok Http2 => serve_h2 (transport_new no_vectored io)
      end.
End Transport.

(** ** The timer *)

(** [to_millis]: a [Millis] is a [u32]. *)
Definition to_millis (duration : Z) : Z :=
  let ms := Z.max (duration / 1000000) 1 in
  if ms <? 2 ^ 32 then ms else 2 ^ 32 - 1.

(** [GearioTimer::sleep], [sleep_until] and [reset], up to the milliseconds the
    wheel is given. *)
Definition sleep (duration : Z) : Z := to_millis duration.
Definition sleep_until (now deadline : Z) : Z := to_millis (Z.max (deadline - now) 0).
Definition sleep_reset (now deadline : Z) : Z := to_millis (Z.max (deadline - now) 0).
