(* ===== verification/HyperRtThms.v ===== *)
(** * Theorems of the runtime adapters

    What hyper may rely on: a read gives the next bytes and ends only at the end,
    a write takes a part that is not empty and nothing else, a read that is not
    ready will be woken, a flush is complete; the protocol that is detected; the
    milliseconds of a timer. *)
From S2P Require Import Prelude HyperRt.

(** ** What geario's io promises *)

(** [unread] are the bytes from the peer that nobody took yet, [buffered] those of
    them that are in the read buffer; [written] are the bytes that were accepted
    to be sent, [unsent] those of them that are still here; [armed] says that the
    task is woken by the next thing that can be read.  [read_ready] may be ready
    with nothing that is new, but not for ever: at most [idle_readies] times
    before the buffer grows or the end comes. *)
Class TransportLaws (I : Type) `{TransportIo I} := {
  unread : I -> list Z;
  buffered : I -> list Z;
  written : I -> list Z;
  unsent : I -> list Z;
  armed : I -> bool;
  idle_readies : I -> nat;
  buffered_unread i : exists r, unread i = buffered i ++ r;
  with_read_buf_spec A f (i : I) n a :
    f (buffered i) = (a, drop n (buffered i)) -> (n <= length (buffered i))%nat ->
    exists i', with_read_buf (A := A) f i = (a, i') /\ buffered i' = drop n (buffered i) /\ unread i' = drop n (unread i) /\
      written i' = written i /\ (idle_readies i' <= idle_readies i)%nat;
  read_ready_spec i : let '(r, i') := poll_read_ready i in
    unread i' = unread i /\ written i' = written i /\
    match r with
    | Pending => armed i' = true /\ buffered i' = buffered i
    | Ready (Ok None) => buffered i = [] -> unread i = []
    | Ready _ => True
    end;
  read_ready_await i : let '(r, i') := read_ready i in
    unread i' = unread i /\ written i' = written i /\
    match r with
    | Ok None => buffered i' = unread i' /\ buffered i' = buffered i
    | Ok (Some _) => (length (buffered i) + idle_readies i' < length (buffered i') + idle_readies i)%nat
    | Err _ => True
    end;
  flush_spec full i : let '(r, i') := io_poll_flush full i in
    unread i' = unread i /\ written i' = written i /\ (full = true -> r = Ready (Ok tt) -> unsent i' = []);
  try_write_spec bufs i : let '(r, i') := try_write_vectored bufs i in
    unread i' = unread i /\
    match r with
    | Ok n => (n <= length (concat bufs))%nat /\ written i' = written i ++ take n (concat bufs)
    | Err _ => written i' = written i
    end;
  write_buf_spec data i : let '(r, i') := with_write_buf data i in
    unread i' = unread i /\ written i' = match r with Ok _ => written i ++ data | Err _ => written i end;
  send_buf_spec i : let '(r, i') := send_buf i in unread i' = unread i /\ written i' = written i
}.

Section Theorems.
Context {I : Type} `{TransportLaws I}.

Lemma drain_spec remaining i :
  exists i', drain_read_buffer remaining i = (take remaining (buffered i), i') /\
    buffered i' = drop remaining (buffered i) /\ unread i' = drop (Nat.min (length (buffered i)) remaining) (unread i) /\
    written i' = written i.
Proof.
  unfold drain_read_buffer. set (n := Nat.min (length (buffered i)) remaining).
  destruct (with_read_buf_spec _ (fun src => (take (Nat.min (length src) remaining) src, drop (Nat.min (length src) remaining) src)) i n
              (take n (buffered i))) as (i' & Hd & Hb & Hu & Hw & _); [done|lia|].
  exists i'. rewrite Hd. split_and!; try done.
  - f_equal. unfold n. destruct (Nat.le_gt_cases (length (buffered i)) remaining).
    + rewrite Nat.min_l, !take_ge by lia. done.
    + by rewrite Nat.min_r by lia.
  - rewrite Hb. unfold n. destruct (Nat.le_gt_cases (length (buffered i)) remaining).
    + rewrite Nat.min_l, !drop_ge by lia. done.
    + by rewrite Nat.min_r by lia.
Qed.

Lemma drain_taken remaining i i' : drain_read_buffer remaining i = (take remaining (buffered i), i') ->
  unread i' = drop (Nat.min (length (buffered i)) remaining) (unread i) ->
  unread i = take remaining (buffered i) ++ unread i'.
Proof.
  intros _ ->. destruct (buffered_unread i) as [r ->].
  rewrite drop_app_le by lia. rewrite app_assoc. f_equal.
  destruct (Nat.le_gt_cases (length (buffered i)) remaining).
  - rewrite Nat.min_l, take_ge, drop_all by lia. by rewrite app_nil_r.
  - rewrite Nat.min_r by lia. by rewrite take_drop.
Qed.

(** A read of hyper.  What it puts into the cursor are the next bytes of the
    connection, no more than the cursor has room for, and only those are gone; it
    puts none only into a cursor without room or when the peer sends nothing
    more; and when it is not ready nothing is gone, and the task will be woken,
    by the io or by itself. *)
Theorem transport_read remaining (i : I) :
  let '(r, woken, i') := poll_read remaining i in
  written i' = written i /\
  match r with
  | Ready (Ok filled) =>
      (length filled <= remaining)%nat /\ unread i = filled ++ unread i' /\
      (filled = [] -> remaining = 0%nat \/ unread i = [])
  | Ready (Err _) => unread i' = unread i
  | Pending => unread i' = unread i /\ (armed i' = true \/ woken = true)
  end.
Proof.
  unfold poll_read. destruct (Nat.eqb_spec remaining 0) as [->|Hr]; [by auto|].
  destruct (drain_spec remaining i) as (i1 & Hd1 & Hb1 & Hu1 & Hw1). pose proof (drain_taken _ _ _ Hd1 Hu1) as Ht1. rewrite Hd1.
  destruct (Z.eqb_spec (zlen (take remaining (buffered i))) 0) as [Hz|Hz]; simpl.
  2: { split_and!; try done; [rewrite length_take; lia|]. intros Hn. by rewrite Hn in Hz. }
  assert (Hn1 : take remaining (buffered i) = []) by (by destruct (take remaining (buffered i))).
  assert (Hb0 : buffered i = []) by (destruct (buffered i); [done|by destruct remaining]).
  rewrite Hn1 in Ht1. simpl in Ht1. assert (Hb1' : buffered i1 = []) by (rewrite Hb1, Hb0; by apply drop_nil).
  pose proof (read_ready_spec i1) as Hrr. destruct (poll_read_ready i1) as [[[[[]|]|e]|] i2]; destruct Hrr as (Hu2 & Hw2 & Hx).
  - destruct (drain_spec remaining i2) as (i3 & Hd3 & Hb3 & Hu3 & Hw3). pose proof (drain_taken _ _ _ Hd3 Hu3) as Ht3. rewrite Hd3.
    destruct (Z.eqb_spec (zlen (take remaining (buffered i2))) 0) as [Hz3|Hz3]; simpl.
    2: { split; [congruence|]. split_and!; [rewrite length_take; lia|congruence|]. intros Hn. by rewrite Hn in Hz3. }
    assert (Hn3 : take remaining (buffered i2) = []) by (by destruct (take remaining (buffered i2))).
    assert (Hb2 : buffered i2 = []) by (destruct (buffered i2); [done|by destruct remaining]).
    rewrite Hn3 in Ht3. simpl in Ht3. assert (Hb3' : buffered i3 = []) by (rewrite Hb3, Hb2; by apply drop_nil).
    pose proof (read_ready_spec i3) as Hrr3. destruct (poll_read_ready i3) as [[[[[]|]|e]|] i4]; destruct Hrr3 as (Hu4 & Hw4 & Hx4).
    + split; [congruence|]. split; [congruence|by right].
    + split; [congruence|]. specialize (Hx4 Hb3'). split_and!; [simpl; lia|simpl; congruence|right; congruence].
    + split; congruence.
    + destruct Hx4 as [? _]. split; [congruence|]. split; [congruence|by left].
  - split; [congruence|]. specialize (Hx Hb1'). split_and!; [simpl; lia|simpl; congruence|right; congruence].
  - split; congruence.
  - destruct Hx as [? _]. split; [congruence|]. split; [congruence|by left].
Qed.

(** ** Writing *)

Lemma wait_spec i : let '(r, i') := wait_backpressure i in unread i' = unread i /\ written i' = written i /\ r <> Some (Ready (Ok 0%nat)) /\
  forall n, r <> Some (Ready (Ok n)).
Proof.
  unfold wait_backpressure. destruct (is_wr_backpressure i); [|by split_and!].
  pose proof (flush_spec false i) as Hf. destruct (io_poll_flush false i) as [[[]|] i']; destruct Hf as (? & ? & _); by split_and!.
Qed.

(** The bytes coalesced are the first of the slices, as many as fit. *)
Lemma coalesce_spec bufs : forall w, (w <= MAX_BUFFERED_WRITE)%nat ->
  let n := Nat.min (length (concat bufs)) (MAX_BUFFERED_WRITE - w) in
  coalesce bufs w = (take n (concat bufs), (w + n)%nat).
Proof.
  induction bufs as [|buf bufs IH]; intros w Hw n; simpl; [unfold n; simpl; f_equal; lia|].
  unfold n. simpl. rewrite length_app. set (k := Nat.min (length buf) (MAX_BUFFERED_WRITE - w)).
  destruct (Nat.eqb_spec (w + k) MAX_BUFFERED_WRITE) as [He|He].
  - assert (Hk : k = (MAX_BUFFERED_WRITE - w)%nat) by lia. replace (Nat.min (length buf + length (concat bufs)) (MAX_BUFFERED_WRITE - w)) with k by lia.
    by rewrite take_app_le by (unfold k; lia).
  - assert (Hk : k = length buf) by lia. rewrite IH by lia. rewrite Hk.
    replace (Nat.min (length buf + length (concat bufs)) (MAX_BUFFERED_WRITE - w))
      with (length buf + Nat.min (length (concat bufs)) (MAX_BUFFERED_WRITE - (w + length buf)))%nat by lia.
    rewrite take_app_add', take_ge by lia. by rewrite Nat.add_assoc.
Qed.

(** A write of hyper, of one slice or of several.  It takes a first part of
    the bytes, and accepts exactly that part to be sent, in its place; the part
    is empty only when there is nothing to write, so that hyper never sees a
    write of nothing; when it is not ready or fails, nothing was accepted; and
    what is copied into the buffer at once is at most 64 KiB. *)
Theorem transport_write bufs (i : I) :
  let total := concat bufs in
  (let '(r, i') := poll_write_vectored bufs i in
   unread i' = unread i /\
   match r with
   | Ready (Ok n) => (n <= length total)%nat /\ written i' = written i ++ take n total /\ (n = 0%nat -> total = [])
   | _ => written i' = written i
   end) /\
  (forall buf, let '(r, i') := poll_write buf i in
   unread i' = unread i /\
   match r with
   | Ready (Ok n) => (n <= length buf)%nat /\ written i' = written i ++ take n buf /\ (n = 0%nat -> buf = [])
   | _ => written i' = written i
   end) /\
  (length (coalesce bufs 0).1 <= MAX_BUFFERED_WRITE)%nat.
Proof.
  split_and!.
  - unfold poll_write_vectored. destruct (forallb (fun buf => zlen buf =? 0) bufs) eqn:Hall.
    { assert (Hnil : concat bufs = []).
      { clear -Hall. induction bufs as [|b bufs IH]; [done|]. simpl in *. apply andb_true_iff in Hall as [Hb Hall].
        destruct b; [by apply IH|done]. }
      rewrite Hnil. simpl. by rewrite app_nil_r. }
    assert (Hne : concat bufs <> []).
    { clear -Hall. intros Hn. assert (forallb (fun buf => zlen buf =? 0) bufs = true); [|congruence].
      clear Hall. induction bufs as [|b bufs IH]; [done|]. simpl in *. by apply app_eq_nil in Hn as [-> ?%IH]. }
    pose proof (wait_spec i) as Hw. destruct (wait_backpressure i) as [[[[n|e]|]|] i1]; destruct Hw as (Hu & Hwr & _ & Hno).
    { by destruct (Hno n). } { done. } { done. }
    pose proof (try_write_spec bufs i1) as Ht. destruct (try_write_vectored bufs i1) as [[[|n]|e] i2]; destruct Ht as [Hu2 Ht].
    + rewrite coalesce_spec by lia. pose proof (write_buf_spec (take (Nat.min (length (concat bufs)) (MAX_BUFFERED_WRITE - 0)) (concat bufs)) i2) as Hb.
      destruct (with_write_buf _ i2) as [[[]|e] i3]; destruct Hb as [Hu3 Hb]; destruct Ht as [_ Ht]; rewrite take_0, app_nil_r in Ht.
      * split; [congruence|]. split_and!; [lia|by rewrite Hb, Ht, Hwr|].
        intros Hz. exfalso. apply Hne. destruct (concat bufs) as [|z l]; [done|]. exfalso.
        unfold MAX_BUFFERED_WRITE in Hz. simpl length in Hz. lia.
      * split; congruence.
    + destruct Ht as [Hl Ht]. split; [congruence|]. split_and!; [done|congruence|done].
    + split; congruence.
  - intros buf. unfold poll_write. destruct (Z.eqb_spec (zlen buf) 0) as [Hz|Hz].
    { assert (buf = []) as -> by (by destruct buf). simpl. by rewrite app_nil_r. }
    pose proof (wait_spec i) as Hw. destruct (wait_backpressure i) as [[[[n|e]|]|] i1]; destruct Hw as (Hu & Hwr & _ & Hno).
    { by destruct (Hno n). } { done. } { done. }
    pose proof (try_write_spec [buf] i1) as Ht. simpl concat in Ht. rewrite app_nil_r in Ht.
    destruct (try_write_vectored [buf] i1) as [[[|n]|e] i2]; destruct Ht as [Hu2 Ht].
    + set (len := Nat.min (length buf) MAX_BUFFERED_WRITE). pose proof (write_buf_spec (take len buf) i2) as Hb.
      destruct (with_write_buf _ i2) as [[[]|e] i3]; destruct Hb as [Hu3 Hb]; destruct Ht as [_ Ht]; rewrite take_0, app_nil_r in Ht.
      * split; [congruence|]. split_and!; [lia|by rewrite Hb, Ht, Hwr|].
        intros Hl. destruct buf as [|z l]; [done|]. exfalso. unfold len, MAX_BUFFERED_WRITE in Hl. simpl length in Hl. lia.
      * split; congruence.
    + destruct Ht as [Hl Ht]. split; [congruence|]. split_and!; [done|congruence|done].
    + split; congruence.
  - rewrite coalesce_spec by lia. cbn [fst]. rewrite length_take. lia.
Qed.

(** A flush that succeeds has sent everything, or the connection is gone after
    hyper asked to shut it down; a peer that is gone is an error before that, and
    every other error always is. *)
Theorem transport_flush (t : Transport I) :
  let '(r, t') := poll_flush t in
  written (tp_io t') = written (tp_io t) /\ tp_shutting_down t' = tp_shutting_down t /\
  (r = Ready (Ok tt) -> unsent (tp_io t') = [] \/
     (tp_shutting_down t = true /\
      ((send_buf (tp_io t)).1 = Err NotConnected \/ (io_poll_flush true (send_buf (tp_io t)).2).1 = Ready (Err NotConnected)))) /\
  (r = Ready (Err NotConnected) -> tp_shutting_down t = false).
Proof.
  unfold poll_flush. pose proof (send_buf_spec (tp_io t)) as Hs. destruct (send_buf (tp_io t)) as [[[]|e] i1]; destruct Hs as [_ Hs]; simpl.
  - pose proof (flush_spec true i1) as Hf. destruct (io_poll_flush true i1) as [[[[]|e]|] i2]; destruct Hf as (_ & Hw & Hf); simpl.
    + split_and!; try done; [congruence|]. intros _. left. by apply Hf.
    + split_and!; try done; [congruence| |]; destruct e; simpl; try done; destruct (tp_shutting_down t); auto; done.
    + split_and!; try done. congruence.
  - split_and!; try done; destruct e; simpl; try done; destruct (tp_shutting_down t); auto; done.
Qed.

(** ** The protocol *)

(** What the bytes of a connection say, when there are no more than these. *)
Definition protocol_of (stream : list Z) : result Protocol IoError :=
  if bool_decide (PREFACE `prefix_of` stream) then Ok Http2
  else if bool_decide (stream `prefix_of` PREFACE) then Err UnexpectedEof
  else Ok Http1.

Lemma verdict_true b : verdict b = Some true -> exists r, b = PREFACE ++ r.
Proof.
  unfold verdict. intros Hv. destruct (Nat.leb_spec (length PREFACE) (length b)).
  - injection Hv as Hv. apply bool_decide_eq_true in Hv. exists (drop (length PREFACE) b). by rewrite <- Hv at 1; rewrite take_drop.
  - by case_bool_decide.
Qed.

Lemma protocol_of_buffered b r :
  match verdict b with
  | Some true => protocol_of (b ++ r) = Ok Http2
  | Some false => protocol_of (b ++ r) = Ok Http1
  | None => (length b < length PREFACE)%nat /\ protocol_of b = Err UnexpectedEof
  end.
Proof.
  destruct (verdict b) as [[]|] eqn:Hv.
  - destruct (verdict_true b Hv) as [s ->]. unfold protocol_of. rewrite bool_decide_eq_true_2; [done|].
    exists (s ++ r). by rewrite app_assoc.
  - unfold verdict in Hv. unfold protocol_of.
    assert (Hno : ~ PREFACE `prefix_of` b ++ r /\ ~ b ++ r `prefix_of` PREFACE).
    { destruct (Nat.leb_spec (length PREFACE) (length b)) as [Hl|Hl].
      - injection Hv as Hv. apply bool_decide_eq_false in Hv. split.
        + intros [s Hs]. apply Hv. apply (f_equal (take (length PREFACE))) in Hs. rewrite take_app_length, take_app_le in Hs by done. done.
        + intros [s Hs]. apply Hv. apply (f_equal length) in Hs as Hlen. rewrite !length_app in Hlen.
          assert (r = []) as -> by (apply nil_length_inv; lia). assert (s = []) as -> by (apply nil_length_inv; lia).
          rewrite !app_nil_r in Hs. rewrite <- Hs. reflexivity.
      - case_bool_decide as Hp; [done|]. split.
        + intros [s Hs]. apply Hp. exists (drop (length b) PREFACE). 
          assert (Hb : b = take (length b) PREFACE); [|by rewrite Hb at 1; rewrite take_drop].
          apply (f_equal (take (length b))) in Hs. rewrite take_app_length, take_app_le in Hs by lia. done.
        + intros [s Hs]. apply Hp. exists (r ++ s). by rewrite app_assoc. }
    destruct Hno as [H1 H2]. by rewrite !bool_decide_eq_false_2.
  - unfold verdict in Hv. destruct (Nat.leb_spec (length PREFACE) (length b)) as [|Hl]; [done|]. case_bool_decide as Hp; [|done].
    split; [done|]. unfold protocol_of. rewrite bool_decide_eq_false_2, bool_decide_eq_true_2; [done|done|].
    intros [s Hs]. apply (f_equal length) in Hs. rewrite length_app in Hs. lia.
Qed.

Lemma look_spec (i : I) : exists i', with_read_buf (fun buf => (verdict buf, buf)) i = (verdict (buffered i), i') /\
  buffered i' = buffered i /\ unread i' = unread i /\ written i' = written i /\ (idle_readies i' <= idle_readies i)%nat.
Proof.
  destruct (with_read_buf_spec _ (fun buf => (verdict buf, buf)) i 0 (verdict (buffered i))) as (i' & ? & ? & ? & ? & ?); [done|lia|].
  rewrite !drop_0 in *. eauto 10.
Qed.

(** The detection of the protocol answers, takes nothing from the connection,
    and, unless the io fails, answers what all the bytes the peer will send say,
    however they come: HTTP/2 when they begin with the preface, HTTP/1 as soon as
    they differ from it, and an error when they end before either. *)
Theorem detect_by_stream fuel (i : I) :
  (length PREFACE + idle_readies i < fuel + length (buffered i))%nat -> (0 < fuel)%nat ->
  exists r i', detect fuel i = Val (r, i') /\ unread i' = unread i /\ written i' = written i /\
    (r = protocol_of (unread i) \/ exists e i1, read_ready i1 = (Err e, i') /\ r = Err e).
Proof.
  revert i. induction fuel as [|fuel IH]; intros i Hf Hpos; [lia|]. cbn [detect].
  destruct (look_spec i) as (i1 & -> & Hb1 & Hu1 & Hw1 & Hi1).
  destruct (buffered_unread i) as [rest Hrest]. pose proof (protocol_of_buffered (buffered i) rest) as Hp. rewrite <- Hrest in Hp.
  destruct (verdict (buffered i)) as [[]|]; [eauto 10..|]. destruct Hp as [Hl Heof].
  pose proof (read_ready_await i1) as Hr. destruct (read_ready i1) as [[[[]|]|e] i2] eqn:Hrr; destruct Hr as (Hu2 & Hw2 & Hx).
  - destruct (IH i2 ltac:(rewrite Hb1 in Hx; lia) ltac:(rewrite Hb1 in Hx; lia)) as (r & i' & Hd & Hu & Hw & Hres).
    exists r, i'. split_and!; congruence.
  - exists (Err UnexpectedEof), i2. split_and!; try congruence. left. destruct Hx as [Hx1 Hx2].
    rewrite <- Heof. f_equal. congruence.
  - exists (Err e), i2. split_and!; try congruence. right. eauto.
Qed.

(** C40. A connection is served in the protocol its bytes begin with, however they
    come: hyper is given a transport from which it reads the whole stream, the
    preface included, and to which nothing was written; what it returns is the
    result, and a connection that says too little, or of which the io fails, is an
    error and served by nobody. *)
Theorem serve_auto_by_stream {E} (serve_h1 serve_h2 : Transport I -> result unit E) of_io no_vectored fuel (i : I) :
  (length PREFACE + idle_readies i < fuel + length (buffered i))%nat -> (0 < fuel)%nat ->
  exists i', unread i' = unread i /\ written i' = written i /\
    let t := mkTransport i' (negb no_vectored) false in
    exists r, serve_auto serve_h1 serve_h2 of_io no_vectored fuel i = Val r /\
      (r = match protocol_of (unread i) with
           | Ok Http1 => serve_h1 t
           | Ok Http2 => serve_h2 t
           | Err e => Err (of_io e)
           end \/ exists e i1, read_ready i1 = (Err e, i') /\ r = Err (of_io e)).
Proof.
  intros Hf Hp. destruct (detect_by_stream fuel i Hf Hp) as (r & i' & Hd & Hu & Hw & Hr).
  exists i'. split_and!; [done|done|]. unfold serve_auto. rewrite Hd. cbn [mbind outcome_bind].
  eexists. split; [reflexivity|]. destruct Hr as [->|(e & i1 & Hr & ->)]; [left|right; by exists e, i1].
  by destruct (protocol_of (unread i)) as [[]|].
Qed.

(** ** The timer *)

(** The milliseconds of a deadline: at least one, so that none fires at once,
    within a u32, and otherwise the whole milliseconds of the duration, cut to
    the longest the wheel has; a deadline that has passed is one millisecond. *)
Theorem timer_millis d now deadline :
  0 <= d ->
  1 <= to_millis d < 2 ^ 32 /\
  (1000000 <= d -> d / 1000000 < 2 ^ 32 -> to_millis d * 1000000 <= d < (to_millis d + 1) * 1000000) /\
  (2 ^ 32 * 1000000 <= d -> to_millis d = 2 ^ 32 - 1) /\
  (deadline <= now -> sleep_until now deadline = 1 /\ sleep_reset now deadline = 1).
Proof.
  intros Hd. pose proof (Z.div_mod d 1000000 ltac:(lia)). pose proof (Z.mod_pos_bound d 1000000 ltac:(lia)).
  unfold sleep_until, sleep_reset, to_millis. split_and!.
  - destruct (Z.ltb_spec (Z.max (d / 1000000) 1) (2 ^ 32)); lia.
  - destruct (Z.ltb_spec (Z.max (d / 1000000) 1) (2 ^ 32)); lia.
  - intros Hge Hlt. destruct (Z.ltb_spec (Z.max (d / 1000000) 1) (2 ^ 32)); lia.
  - intros Hge. destruct (Z.ltb_spec (Z.max (d / 1000000) 1) (2 ^ 32)); lia.
  - intros Hl. replace (Z.max (deadline - now) 0) with 0 by lia. done.
Qed.
End Theorems.

(** ** An io that keeps the promises *)

(** The read buffer, the chunks that will come, an empty one standing for a while
    in which nothing does - and for a [read_ready] that is ready all the same -,
    whether the task is to be woken, what was accepted and
    what of it is still here; the socket takes at most [ri_room] bytes. *)
Record RefTransportIo := mkRefIo {
  ri_buf : list Z;
  ri_chunks : list (list Z);
  ri_armed : bool;
  ri_written : list Z;
  ri_unsent : list Z;
  ri_room : nat
}.

Definition ri_read (i : RefTransportIo) (buf : list Z) (chunks : list (list Z)) (armed : bool) : RefTransportIo :=
  mkRefIo buf chunks armed (ri_written i) (ri_unsent i) (ri_room i).
Definition ri_write (i : RefTransportIo) (data unsent : list Z) (room : nat) : RefTransportIo :=
  mkRefIo (ri_buf i) (ri_chunks i) (ri_armed i) (ri_written i ++ data) unsent room.

(** How often the socket will be ready with nothing to read. *)
Fixpoint pauses (chunks : list (list Z)) : nat :=
  match chunks with [] => 0 | [] :: cs => S (pauses cs) | _ :: cs => pauses cs end.

#[export] Instance ref_transport_io : TransportIo RefTransportIo := {
  with_read_buf A f i := let '(a, rest) := f (ri_buf i) in (a, ri_read i rest (ri_chunks i) false);
  poll_read_ready i :=
    match ri_chunks i with
    | [] => (Ready (Ok None), i)
    | [] :: cs => (Pending, ri_read i (ri_buf i) cs true)
    | c :: cs => (Ready (Ok (Some tt)), ri_read i (ri_buf i ++ c) cs false)
    end;
  read_ready i :=
    match ri_chunks i with
    | [] => (Ok None, i)
    | c :: cs => (Ok (Some tt), ri_read i (ri_buf i ++ c) cs false)
    end;
  is_wr_backpressure i := negb (zlen (ri_unsent i) =? 0);
  io_poll_flush full i := (Ready (Ok tt), mkRefIo (ri_buf i) (ri_chunks i) (ri_armed i) (ri_written i) [] (ri_room i));
  try_write_vectored bufs i :=
    let n := Nat.min (length (concat bufs)) (ri_room i) in
    (Ok n, ri_write i (take n (concat bufs)) (ri_unsent i) (ri_room i - n));
  with_write_buf data i := (Ok tt, ri_write i data (ri_unsent i ++ data) (ri_room i));
  send_buf i := (Ok tt, i);
  io_poll_shutdown i := (Ready (Ok tt), i)
}.

#[export] Program Instance ref_transport_laws : TransportLaws RefTransportIo := {
  unread i := ri_buf i ++ concat (ri_chunks i);
  buffered := ri_buf;
  written := ri_written;
  unsent := ri_unsent;
  armed := ri_armed;
  idle_readies i := pauses (ri_chunks i)
}.
Next Obligation. intros i. simpl. eauto. Qed.
Next Obligation.
  intros A f i n a Hf Hn. simpl in *. rewrite Hf. eexists. split; [reflexivity|]. simpl. by rewrite drop_app_le by done.
Qed.
Next Obligation.
  intros i. simpl. destruct (ri_chunks i) as [|[|b c] cs] eqn:Hc; simpl; rewrite ?Hc; simpl; split_and!; try done.
  - by intros ->.
  - by rewrite <- app_assoc.
Qed.
Next Obligation.
  intros i. simpl. destruct (ri_chunks i) as [|c cs] eqn:Hc; simpl; rewrite ?Hc; simpl; split_and!; try done.
  - by rewrite app_nil_r.
  - by rewrite <- app_assoc.
  - rewrite length_app. destruct c; simpl; lia.
Qed.
Next Obligation. intros full i. done. Qed.
Next Obligation. intros bufs i. simpl. split_and!; try done. lia. Qed.
Next Obligation. intros data i. done. Qed.
Next Obligation. intros i. done. Qed.

Definition sample_io : RefTransportIo := mkRefIo [] [bs "PRI * HT"; []; bs "TP/1"] false [] [] 3.

Lemma detect_by_stream_witness :
  exists r i', detect 26 sample_io = Val (r, i') /\ unread i' = unread sample_io /\ written i' = written sample_io /\
    (r = protocol_of (unread sample_io) \/ exists e i1, read_ready i1 = (Err e, i') /\ r = Err e).
Proof. apply (detect_by_stream 26 sample_io); vm_compute; lia. Defined.

Example sample_protocol : protocol_of (ri_buf sample_io ++ concat (ri_chunks sample_io)) = Ok Http1.
Proof. vm_compute. reflexivity. Qed.

Lemma timer_millis_witness : 0 <= 1500000 /\ 1 <= to_millis 1500000 < 2 ^ 32.
Proof. split; [lia|]. apply (timer_millis 1500000 0 0). lia. Defined.

Lemma serve_auto_by_stream_witness :
  exists i', unread i' = unread sample_io /\ written i' = written sample_io /\
    let t := mkTransport i' true false in
    exists r, serve_auto (fun _ => Ok tt) (fun _ => Err false) (fun _ => true) false 26 sample_io = Val r /\
      (r = match protocol_of (unread sample_io) with
           | Ok Http1 => (fun _ => Ok tt) t
           | Ok Http2 => (fun _ => Err false) t
           | Err e => Err true
           end \/ exists e i1, read_ready i1 = (Err e, i') /\ r = Err true).
Proof. apply (serve_auto_by_stream (fun _ => Ok tt) (fun _ => Err false) (fun _ => true) false 26 sample_io); vm_compute; lia. Defined.
