(* ===== verification/BodyConv.v ===== *)
(** * Bodies that are made from values

    The conversions into [Body] and [ResponseBody] of [types/body.rs], and the
    size a body declares against the bytes it delivers: what is sent under a
    Content-Length that was taken from a body held in memory is the whole body.
    [BytePages] is geario's; it is a class of its length and of taking a page. *)
From S2P Require Import Prelude Errors Payload Encoder EncoderThms Body.

(** [BytePages] *)
Class BytePages (P : Type) := {
  pages_len : P -> Z;
  pages_take : P -> option (list Z * P)
}.

#[export] Instance pages_body `{BytePages P} : MessageBody P | 10 := {
  size p := BS_Sized (pages_len p);
  poll_next_chunk _ p :=
    Val match pages_take p with
        | Some (page, p') => (Ready (Some (Ok page)), p')
        | None => (Ready None, p)
        end
}.

(** [Box<T>] *)
Record Boxed (T : Type) := mkBox { unbox : T }.
Arguments mkBox {T} _.
Arguments unbox {T} _.
#[export] Instance box_body `{MessageBody T} : MessageBody (Boxed T) := {
  size b := size (unbox b);
  poll_next_chunk fuel b := r ← poll_next_chunk fuel (unbox b); Val (r.1, mkBox r.2)
}.

(** ** Conversions *)

Section Conversions.
Context {M : Type}.

Definition from_slice (s : list Z) : Body M := B_Bytes (mkBytes s).
Definition from_message (m : M) : Body M := B_Message m.

(** [From] of [&str], [&[u8]], [Vec<u8>], [String], [&String], [Bytes] and
    [BytesMut]. *)
Definition body_from_str (s : list Z) : Body M := B_Bytes (mkBytes s).
Definition body_from_static (s : list Z) : Body M := B_Bytes (mkBytes s).
Definition body_from_vec (v : list Z) : Body M := B_Bytes (mkBytes v).
Definition body_from_string (s : list Z) : Body M := body_from_vec s.
Definition body_from_string_ref (s : list Z) : Body M := B_Bytes (mkBytes s).
Definition body_from_bytes (b : Bytes) : Body M := B_Bytes b.
Definition body_from_bytes_mut (s : list Z) : Body M := B_Bytes (mkBytes s).

(** [PartialEq]; a generic body is equal to none, itself included. *)
Definition body_eq (a b : Body M) : bool :=
  match a, b with
  | B_None, B_None | B_Empty, B_Empty => true
  | B_Bytes x, B_Bytes y => bool_decide (bytes_data x = bytes_data y)
  | _, _ => false
  end.

(** [ResponseBody] *)
Definition response_body_new {B} (b : B) : ResponseBody B M := RB_Body b.
Definition response_body_of_body {B} (b : Body M) : ResponseBody B M := RB_Other b.
Definition body_of_response_body (b : ResponseBody (Body M) M) : Body M := match b with RB_Body b | RB_Other b => b end.
Definition response_body_as_ref {B} (b : ResponseBody B M) : option B := match b with RB_Body b => Some b | RB_Other _ => None end.
End Conversions.

(** [From<BytePages>], [From<SizedStream>] and [From<BodyStream>] for [Body] box
    the body. *)
Definition body_from_boxed {T} (b : T) : Body (Boxed T) := from_message (mkBox b).

(** ** A body of its size *)

(** A body delivers as many bytes as its size says, and none when it says that
    there are none. *)
Class HonestBody (B : Type) `{MessageBody B} := {
  honest b l n : size b = BS_Sized n -> body_gives b l -> zlen (concat l) = n;
  honest_none b l : size b = BS_None \/ size b = BS_Empty -> body_gives b l -> concat l = []
}.

(** [pages_data] is what the pages hold. *)
Class BytePagesLaws (P : Type) `{BytePages P} := {
  pages_data : P -> list Z;
  pages_len_data p : pages_len p = zlen (pages_data p);
  pages_take_data p : match pages_take p with
                      | Some (page, p') => pages_data p = page ++ pages_data p'
                      | None => pages_data p = []
                      end
}.

#[export] Instance unit_honest : HonestBody unit.
Proof. split; [done|]. intros b l _ Hg. induction Hg as [b b' n Hp|b b' n l Hp|b b' n c l Hp]; [done|..]; by specialize (Hp n (Nat.le_refl n)). Qed.

Lemma bytes_gives (b : Bytes) l : body_gives b l -> concat l = bytes_data b.
Proof.
  induction 1 as [b b' n Hp|b b' n l Hp _ IH|b b' n c l Hp _ IH]; specialize (Hp n (Nat.le_refl n)); simpl in Hp; unfold bytes_next in Hp;
    destruct (Z.eqb_spec (zlen (bytes_data b)) 0) as [Hz|Hz]; simplify_eq.
  - by destruct b' as [[]].
  - simpl. rewrite IH. simpl. by rewrite app_nil_r.
Qed.

#[export] Instance bytes_honest : HonestBody Bytes.
Proof.
  split; [|by intros b l [?|?]]. intros b l n Hs Hg. apply bytes_gives in Hg. simpl in Hs. congruence.
Qed.

#[export] Instance pages_honest `{BytePagesLaws P} : HonestBody P.
Proof.
  assert (Hd : forall (p : P) l, body_gives p l -> concat l = pages_data p).
  { induction 1 as [p p' n Hp|p p' n l Hp _ IH|p p' n c l Hp _ IH]; specialize (Hp n (Nat.le_refl n)); simpl in Hp;
      pose proof (pages_take_data p) as Ht; destruct (pages_take p) as [[page q]|]; simplify_eq; [done|].
    simpl. by rewrite IH, Ht. }
  split; [|by intros b l [?|?]]. intros p l n Hs Hg. simpl in Hs. simplify_eq. by rewrite (Hd p l Hg), pages_len_data.
Qed.

Lemma box_gives `{MessageBody T} (b : Boxed T) l : body_gives b l -> body_gives (unbox b) l.
Proof.
  assert (Hp : forall fuel (b b' : Boxed T) r, poll_next_chunk fuel b = Val (r, b') -> poll_next_chunk fuel (unbox b) = Val (r, unbox b')).
  { intros fuel b0 b' r. simpl. destruct (poll_next_chunk fuel (unbox b0)) as [[r' t]| |]; simpl; [|done|done]. by intros [= <- <-]. }
  induction 1 as [b b' n Hb|b b' n l Hb _ IH|b b' n c l Hb _ IH].
  - eapply (bg_end _ _ n). intros fuel Hf. by apply Hp, Hb.
  - eapply (bg_pending _ _ n); [|exact IH]. intros fuel Hf. by apply Hp, Hb.
  - eapply (bg_chunk _ _ n); [|exact IH]. intros fuel Hf. by apply Hp, Hb.
Qed.

#[export] Instance box_honest `{HonestBody T} : HonestBody (Boxed T).
Proof. split; intros b l *; simpl; intros Hs Hg%box_gives; by eauto using honest, honest_none. Qed.

Section Bodies.
Context {M : Type} `{HonestBody M}.

(** A body in a constructor delivers what it does outside of it. *)
Lemma message_gives (m : M) l : body_gives (B_Message m) l -> body_gives m l.
Proof.
  assert (Hp : forall fuel (m : M) b' r, poll_next_chunk fuel (B_Message m) = Val (r, b') ->
    exists m', b' = B_Message m' /\ poll_next_chunk fuel m = Val (r, m')).
  { intros fuel m0 b' r. simpl. destruct (poll_next_chunk fuel m0) as [[r' m']| |]; simpl; [|done|done]. intros [= <- <-]. eauto. }
  intros Hg. remember (B_Message m) as b eqn:Hb. revert m Hb.
  induction Hg as [b b' n Hq|b b' n l Hq _ IH|b b' n c l Hq _ IH]; intros m ->;
    destruct (Hp n m b' _ (Hq n (Nat.le_refl n))) as (m' & -> & _).
  - eapply (bg_end _ m' n). intros fuel Hf. destruct (Hp fuel m _ _ (Hq fuel Hf)) as (m2 & [= <-] & ?). done.
  - eapply (bg_pending _ m' n); [|by apply IH]. intros fuel Hf. by destruct (Hp fuel m _ _ (Hq fuel Hf)) as (m2 & [= <-] & ?).
  - eapply (bg_chunk _ m' n); [|by apply IH]. intros fuel Hf. by destruct (Hp fuel m _ _ (Hq fuel Hf)) as (m2 & [= <-] & ?).
Qed.

Lemma body_bytes_gives (b : Bytes) l : body_gives (B_Bytes (M := M) b) l -> concat l = bytes_data b.
Proof.
  intros Hg. remember (B_Bytes b) as x eqn:Hx. revert b Hx.
  induction Hg as [x x' n Hp|x x' n l Hp _ IH|x x' n c l Hp _ IH]; intros b ->; specialize (Hp n (Nat.le_refl n)); simpl in Hp;
    unfold bytes_next in Hp; destruct (Z.eqb_spec (zlen (bytes_data b)) 0) as [Hz|Hz]; simplify_eq.
  - by destruct b as [[]].
  - simpl. rewrite (IH _ eq_refl). simpl. by rewrite app_nil_r.
Qed.

Lemma nothing_gives (b : Body M) l : b = B_None \/ b = B_Empty -> body_gives b l -> concat l = [].
Proof.
  intros Hb Hg. destruct Hg as [b b' n Hp|b b' n l Hp|b b' n c l Hp]; [done|..]; specialize (Hp n (Nat.le_refl n));
    destruct Hb as [-> | ->]; done.
Qed.

#[export] Instance body_honest : HonestBody (Body M).
Proof.
  split.
  - intros [| |b|m] l n Hs Hg; simpl in Hs; try done.
    + apply body_bytes_gives in Hg. congruence.
    + apply message_gives in Hg. by apply (honest m).
  - intros [| |b|m] l Hs Hg; simpl in Hs.
    + by apply (nothing_gives B_None l); [left|].
    + by apply (nothing_gives B_Empty l); [right|].
    + by destruct Hs.
    + apply message_gives in Hg. by apply (honest_none m).
Qed.

Context {B : Type} `{HonestBody B}.

Lemma response_gives (b : ResponseBody B M) l :
  body_gives b l -> match b with RB_Body b => body_gives b l | RB_Other b => body_gives b l end.
Proof.
  assert (Hp : forall fuel (b b' : ResponseBody B M) r, poll_next_chunk fuel b = Val (r, b') ->
    match b, b' with
    | RB_Body x, RB_Body x' => poll_next_chunk fuel x = Val (r, x')
    | RB_Other x, RB_Other x' => poll_next_chunk fuel x = Val (r, x')
    | _, _ => False
    end).
  { intros fuel [x|x] b' r; simpl; [destruct (poll_next_chunk fuel x) as [[r' x']| |]|destruct (body_next fuel x) as [[r' x']| |]];
      simpl; try done; by intros [= <- <-]. }
  induction 1 as [b b' n Hq|b b' n l Hq _ IH|b b' n c l Hq _ IH]; pose proof (Hp n b b' _ (Hq n (Nat.le_refl n))) as Hfirst;
    destruct b as [x|x], b' as [x'|x']; try done.
  1, 2: eapply (bg_end _ x' n); intros fuel Hf; exact (Hp fuel _ _ _ (Hq fuel Hf)).
  1, 2: eapply (bg_pending _ x' n); [|exact IH]; intros fuel Hf; exact (Hp fuel _ _ _ (Hq fuel Hf)).
  1, 2: eapply (bg_chunk _ x' n); [|exact IH]; intros fuel Hf; exact (Hp fuel _ _ _ (Hq fuel Hf)).
Qed.

#[export] Instance response_body_honest : HonestBody (ResponseBody B M).
Proof.
  split; intros [b|b] l *; simpl; intros Hs Hg%response_gives.
  - by apply (honest b).
  - by apply (honest b).
  - by apply (honest_none b).
  - by apply (honest_none b).
Qed.
End Bodies.

(** A body of its size is sent whole.  For every body held in memory, however
    it was converted, boxed or put into a response, and every body of a type that
    keeps the same promise: the bytes written under the Content-Length that is
    taken from its size are all it delivers, exactly as many as were announced;
    and a body whose size says that nothing follows delivers nothing. *)
Theorem sized_body_whole `{HonestBody B} (b : B) l :
  body_gives b l ->
  (forall n, size b = BS_Sized n ->
     zlen (concat l) = n /\ (send_body (te_length n) l []).2 = concat l) /\
  (body_is_eof (size b) = true -> concat l = []).
Proof.
  intros Hg. split.
  - intros n Hs. pose proof (honest b l n Hs Hg) as Hl. split; [done|].
    pose proof (zlen_nonneg (concat l)). rewrite send_body_length by lia. simpl.
    unfold ztake. apply take_ge. unfold zlen in *. lia.
  - intros He. destruct (size b) as [| |n|] eqn:Hs; try done.
    + apply (honest_none b l); [by left|done].
    + apply (honest_none b l); [by right|done].
    + apply Z.eqb_eq in He. subst n. pose proof (honest b l 0 Hs Hg). by destruct (concat l).
Qed.

Lemma sized_body_whole_witness :
  let b : ResponseBody (Body unit) unit := response_body_of_body (body_from_vec (bs "hello")) in
  (forall n, size b = BS_Sized n -> zlen (concat [bs "hello"]) = n /\ (send_body (te_length n) [bs "hello"] []).2 = concat [bs "hello"]) /\
  (body_is_eof (size b) = true -> concat [bs "hello"] = []).
Proof.
  intros b. apply (sized_body_whole b [bs "hello"]).
  eapply (bg_chunk _ _ 0); [by intros|]. eapply (bg_end _ _ 0). by intros.
Defined.

(** Pages as the list of their bytes, and their body sent under its length. *)
Record PageList := mkPages { pages : list (list Z) }.
#[export] Instance page_list : BytePages PageList := {
  pages_len p := zlen (concat (pages p));
  pages_take p := match pages p with [] => None | page :: l => Some (page, mkPages l) end
}.
#[export] Program Instance page_list_laws : BytePagesLaws PageList := { pages_data p := concat (pages p) }.
Next Obligation. done. Qed.
Next Obligation. by intros [[|page l]]. Qed.

Example pages_sent :
  let p := mkPages [bs "ab"; bs "c"] in
  size p = BS_Sized 3 /\ (send_body (te_length 3) (pages p) []).2 = bs "abc".
Proof. by split. Qed.
