(* ===== verification/FfiServer.v ===== *)
(** * The server of the C interface

    [server.rs] of the crate [geario-http-ffi]: the future [dispatch] of a request,
    from its body to its response, over the response tickets of [FfiResponder]; the
    response's body as hyper polls it; and the start and stop of the server's
    thread.  A request's body is the list of what it will give, a chunk or an error;
    [http_body_util]'s [Limited] and [Full], the capacity of the http crate's header
    map, the parser of a socket address and the binding of the port are parameters.
    More interleavings are allowed than the threads have: a worker may go on while
    the host's callback runs on it.  A worker that ends is left out. *)
From S2P Require Import Prelude ClientProxy EncoderThms FfiAbi FfiResponder.

(** ** Requests *)

(** [http::request::Parts], as far as it is read. *)
Record RequestParts := mkParts {
  rp_method : list Z;
  rp_path : list Z;
  rp_query : option (list Z);
  rp_headers : list Header
}.

(** [GearioHttpRequest]; a slice is the bytes it borrows. *)
Record ServerRequest := mkServerRequest {
  sr_method : list Z;
  sr_path : list Z;
  sr_query : list Z;
  sr_headers : list Z;
  sr_body : list Z;
  sr_responder : Z
}.

Definition server_request (rq : RequestParts) (body : list Z) (responder : Z) : ServerRequest :=
  mkServerRequest (rp_method rq) (rp_path rq) (default [] (rp_query rq)) (render_head (rp_headers rq)) body responder.

Definition MAX_BODY : Z := 16 * 1024 * 1024.

(** What [Limited::new(body, limit).collect()] comes to. *)
Inductive Collected :=
| Col_Bytes (bytes : list Z)
| Col_Limit
| Col_Failed.

(** [http_body_util]: [limited] for [Limited] and [collect], the rest for [Full]. *)
Class BodyUtil (F : Type) := {
  limited : Z -> list (option (list Z)) -> Collected;
  full_new : list Z -> F;
  full_poll_frame : F -> Poll (option (list Z)) * F;
  full_is_end_stream : F -> bool;
  full_size_hint : F -> Z * option Z
}.

(** ** Responses *)

(** [Body]; a stream is the channel of its chunks, of which [taken] were taken. *)
Inductive Body (F : Type) :=
| B_Once (b : F)
| B_Stream (ch taken : nat).
Arguments B_Once {F} b.
Arguments B_Stream {F} ch taken.

Record HttpResponse (F : Type) := mkHttpResponse {
  hr_status : Z;
  hr_headers : list Header;
  hr_body : Body F
}.
Arguments mkHttpResponse {F} _ _ _.
Arguments hr_status {F} _.
Arguments hr_headers {F} _.
Arguments hr_body {F} _.

(** A future of [dispatch] on the worker [t]: reading the body, inside the host's
    callback, waiting for the reply to its ticket, ended, or dropped by hyper. *)
Inductive Dispatch (F : Type) :=
| D_Reading (t : Z) (rq : RequestParts)
| D_Calling (t id : Z) (tk : nat)
| D_Waiting (t id : Z) (tk : nat)
| D_Done (ticket : option (Z * nat)) (r : HttpResponse F)
| D_Dropped (ticket : option (Z * nat)).
Arguments D_Reading {F} t rq.
Arguments D_Calling {F} t id tk.
Arguments D_Waiting {F} t id tk.
Arguments D_Done {F} ticket r.
Arguments D_Dropped {F} ticket.

Record Server (F : Type) := mkServer {
  sv_sys : Sys;
  sv_tasks : gmap nat (Dispatch F);
  sv_handed : list (nat * ServerRequest)
}.
Arguments mkServer {F} _ _ _.
Arguments sv_sys {F} _.
Arguments sv_tasks {F} _.
Arguments sv_handed {F} _.

Section Server.
Context {F : Type} `{BodyUtil F} (fits : list Header -> bool) (name_from value_from : list Z -> option (list Z)).

Definition server_new : Server F := mkServer sys_new ∅ [].
Definition put_task (i : nat) (d : Dispatch F) (w : Server F) : Server F :=
  mkServer (sv_sys w) (<[i := d]> (sv_tasks w)) (sv_handed w).
Definition with_sys (s : Sys) (w : Server F) : Server F := mkServer s (sv_tasks w) (sv_handed w).

Definition status_only (status : Z) : HttpResponse F := mkHttpResponse status [] (B_Once (full_new [])).

Definition read_body (frames : list (option (list Z))) : result (list Z) (HttpResponse F) :=
  match limited MAX_BODY frames with
  | Col_Bytes bytes => Ok bytes
  | Col_Limit => Err (status_only 413)
  | Col_Failed => Err (status_only 400)
  end.

(** [head]: the builder fails for good when its header map is full. *)
Definition head (status : Z) (headers : list Header) : Z * option (list Header) :=
  (if (100 <=? status) && (status <=? 999) then status else 500,
   fold_left (fun b nv => hs ← b; if fits (hs ++ [nv]) then Some (hs ++ [nv]) else None) headers (Some [])).

Definition build_response (reply : Reply) : HttpResponse F :=
  let built :=
    match reply with
    | Once status headers body =>
        let '(c, b) := head status headers in hs ← b; Some (mkHttpResponse c hs (B_Once (full_new body)))
    | Stream status headers chunks =>
        let '(c, b) := head status headers in hs ← b; Some (mkHttpResponse c hs (B_Stream chunks 0))
    end in
  default (status_only 500) built.

(** ** [dispatch] *)

(** The reply that was sent into a oneshot. *)
Definition reply_of (tk : nat) (s : Sys) : option Reply :=
  match list_find (fun r => r.1 = tk) (replies s) with Some (_, r) => Some r.2 | None => None end.

(** The body is there, or cannot be had: the ticket is opened and the host is
    called. *)
Definition dispatch_body (i : nat) (frames : list (option (list Z))) (w : Server F) : option (Server F) :=
  match sv_tasks w !! i with
  | Some (D_Reading t rq) =>
      Some match read_body frames with
           | Err response => put_task i (D_Done None response) w
           | Ok body =>
               let '(id, tk, s) := open_ticket t (sv_sys w) in
               mkServer s (<[i := D_Calling t id tk]> (sv_tasks w)) (sv_handed w ++ [(i, server_request rq body id)])
           end
  | _ => None
  end.

Definition dispatch_returns (i : nat) (w : Server F) : option (Server F) :=
  match sv_tasks w !! i with
  | Some (D_Calling t id tk) => Some (put_task i (D_Waiting t id tk) w)
  | _ => None
  end.

(** [rx.await]: the reply, or the loss of its sender, which is nowhere but in the
    worker's table under the ticket's number. *)
Definition dispatch_reply (i : nat) (w : Server F) : option (Server F) :=
  match sv_tasks w !! i with
  | Some (D_Waiting t id tk) =>
      match reply_of tk (sv_sys w) with
      | Some reply => Some (put_task i (D_Done (Some (id, tk)) (build_response reply)) w)
      | None =>
          if bool_decide (pending (worker (sv_sys w) t) !! id = Some tk) then None
          else
            Some (put_task i (D_Done (Some (id, tk))
                     (mkHttpResponse 500 [] (B_Once (full_new (bs "handler dropped the responder")))))
                   (with_sys (forget t id (sv_sys w)) w))
      end
  | _ => None
  end.

Definition dispatch_dropped (i : nat) (w : Server F) : option (Server F) :=
  match sv_tasks w !! i with
  | Some (D_Reading _ _) => Some (put_task i (D_Dropped None) w)
  | Some (D_Waiting _ id tk) => Some (put_task i (D_Dropped (Some (id, tk))) w)
  | _ => None
  end.

(** ** The response's body *)

(** [Chunks::poll_next] *)
Definition chunks_poll_next (ch taken : nat) (s : Sys) : Poll (option (list Z)) * Body F :=
  match (bodies s !! ch : option (list (list Z) * bool)) with
  | Some (cs, closed) =>
      match cs !! taken with
      | Some chunk => (Ready (Some chunk), B_Stream ch (S taken))
      | None => (if closed then Ready None else Pending, B_Stream ch taken)
      end
  | None => (Pending, B_Stream ch taken)
  end.

(** [Body::poll_frame] *)
Definition poll_frame (b : Body F) (s : Sys) : Poll (option (list Z)) * Body F :=
  match b with
  | B_Once b => let '(r, b) := full_poll_frame b in (r, B_Once b)
  | B_Stream ch taken => chunks_poll_next ch taken s
  end.

(** A stream's end and size are not known; [StreamBody] has the defaults. *)
Definition is_end_stream (b : Body F) : bool :=
  match b with B_Once b => full_is_end_stream b | B_Stream _ _ => false end.
Definition size_hint (b : Body F) : Z * option Z :=
  match b with B_Once b => full_size_hint b | B_Stream _ _ => (0, None) end.

(** ** Runs *)

Inductive ServerEvent :=
| S_Request (i : nat) (t : Z) (rq : RequestParts)
| S_Body (i : nat) (frames : list (option (list Z)))
| S_Returns (i : nat)
| S_Reply (i : nat)
| S_Dropped (i : nat)
| S_Thread
| S_Call (t : Z) (k : Call)
| S_Turn (t : Z).

(** A step of the host's threads or of a mailbox. *)
Definition sys_event (e : Event) (w : Server F) : option (Server F) :=
  if ev_ok e (sv_sys w) then Some (with_sys (ev_apply name_from value_from e (sv_sys w)) w) else None.

Definition server_step (e : ServerEvent) (w : Server F) : option (Server F) :=
  match e with
  | S_Request i t rq =>
      if known t (sv_sys w) && bool_decide (sv_tasks w !! i = None) then Some (put_task i (D_Reading t rq) w) else None
  | S_Body i frames => dispatch_body i frames w
  | S_Returns i => dispatch_returns i w
  | S_Reply i => dispatch_reply i w
  | S_Dropped i => dispatch_dropped i w
  | S_Thread => sys_event Ev_Thread w
  | S_Call t k => sys_event (Ev_Call t k) w
  | S_Turn t => sys_event (Ev_Turn t) w
  end.

Fixpoint server_run (es : list ServerEvent) (w : Server F) : option (Server F) :=
  match es with
  | [] => Some w
  | e :: es => w' ← server_step e w; server_run es w'
  end.

(** What a step of the server is for the tickets. *)
Definition ticket_events (e : ServerEvent) (w : Server F) : list Event :=
  match e with
  | S_Body i frames =>
      match sv_tasks w !! i, read_body frames with
      | Some (D_Reading t _), Ok _ => [Ev_Ticket t]
      | _, _ => []
      end
  | S_Reply i =>
      match sv_tasks w !! i with
      | Some (D_Waiting t id tk) => match reply_of tk (sv_sys w) with Some _ => [] | None => [Ev_Forget t id] end
      | _ => []
      end
  | S_Thread => [Ev_Thread]
  | S_Call t k => [Ev_Call t k]
  | S_Turn t => [Ev_Turn t]
  | _ => []
  end.

Fixpoint ticket_trace (es : list ServerEvent) (w : Server F) : list Event :=
  match es with
  | [] => []
  | e :: es =>
      match server_step e w with
      | Some w' => ticket_events e w ++ ticket_trace es w'
      | None => []
      end
  end.
End Server.

(** ** The server's thread *)

(** The thread that [geario_http_server_start] makes: before it binds the port,
    parked until the host stops the server, stopping it, and gone. *)
Inductive ServerThread := Th_Starting | Th_Parked | Th_Stopping | Th_Ended.

(** The two channels and the thread: whether [stop_tx] is there and how much it
    sent, and what was sent into [ready_tx]. *)
Record Control := mkControl {
  ct_stop_tx : bool;
  ct_stopped : nat;
  ct_ready : list bool;
  ct_thread : ServerThread
}.

(** A step of the thread, or [None] while it waits; [bound] is whether the port could
    be bound, or [None] when the thread dies before it tries. *)
Definition thread_step (bound : option bool) (c : Control) : option Control :=
  match ct_thread c with
  | Th_Starting =>
      Some match bound with
           | Some true => mkControl (ct_stop_tx c) (ct_stopped c) (ct_ready c ++ [true]) Th_Parked
           | Some false => mkControl (ct_stop_tx c) (ct_stopped c) (ct_ready c ++ [false]) Th_Ended
           | None => mkControl (ct_stop_tx c) (ct_stopped c) (ct_ready c) Th_Ended
           end
  | Th_Parked =>
      if (0 <? ct_stopped c)%nat || negb (ct_stop_tx c)
      then Some (mkControl (ct_stop_tx c) (ct_stopped c) (ct_ready c) Th_Stopping) else None
  | Th_Stopping => Some (mkControl (ct_stop_tx c) (ct_stopped c) (ct_ready c) Th_Ended)
  | Th_Ended => None
  end.

Fixpoint thread_steps (bound : option bool) (n : nat) (c : Control) : Control :=
  match n with
  | O => c
  | S n => match thread_step bound c with Some c => thread_steps bound n c | None => c end
  end.

(** [recv] of the ready channel: its first message; no message will come from a
    thread that ended without one; [None] while it waits. *)
Definition ready_recv (c : Control) : option bool :=
  match ct_ready c with
  | b :: _ => Some b
  | [] => match ct_thread c with Th_Ended => Some false | _ => None end
  end.

Section Start.
Context {A : Type} (parse_addr : list Z -> option A).

(** [geario_http_server_start] up to the thread: the address to bind.  [host] is the
    text before the NUL. *)
Definition server_address (host : option (list Z)) (port : Z) : option A :=
  host ← match host with
         | None => Some (bs "0.0.0.0")
         | Some h => if utf8 h then Some h else None
         end;
  parse_addr (host ++ bs ":" ++ to_dec port).

(** The rest: [spawned] is whether there is a thread; the caller waits for it
    while it takes [n] steps.  The handle is what [stop] is left with. *)
Definition server_start (host : option (list Z)) (port : Z) (spawned : bool) (bind : A -> option bool) (n : nat)
    : option (option Control) :=
  match server_address host port with
  | None => Some None
  | Some addr =>
      if negb spawned then Some None
      else
        let c := thread_steps (bind addr) n (mkControl true 0 [] Th_Starting) in
        match ready_recv c with
        | Some true => Some (Some c)
        | Some false => Some None
        | None => None
        end
  end.

(** [geario_http_server_stop]: the message, and the join, for which the thread takes
    [n] steps. *)
Definition server_stop (server : option Control) (n : nat) : option unit :=
  match server with
  | None => Some tt
  | Some c =>
      let c := mkControl false (S (ct_stopped c)) (ct_ready c) (ct_thread c) in
      match ct_thread (thread_steps (Some true) n c) with Th_Ended => Some tt | _ => None end
  end.
End Start.
