(* ===== verification/FfiServerThms.v ===== *)
(** * What the server of the C interface guarantees

    The tickets of the requests in flight are one another's strangers as long as
    fewer than [2^32 - 1] requests came, so that a request gets its own answer and
    never that of a lost responder; a request is handed to the host whole and once;
    an answer that is made on other threads arrives, through the worker's mailbox
    and the response's body, as it was made; and the server's thread starts and
    ends. *)
From S2P Require Import Prelude ClientProxy EncoderThms FfiAbi FfiResponder FfiResponderThms FfiServer.

(** ** Numbers of tickets *)

Definition ticket_id (t v : Z) : Z := Z.lor (Z.shiftl t 32) v.

Lemma ticket_id_low t v : 0 <= v < 2 ^ 32 -> u32 (ticket_id t v) = v.
Proof.
  intros Hv. unfold u32, ticket_id. apply Z.bits_inj'. intros n Hn.
  rewrite Z.testbit_mod_pow2, Z.lor_spec, Z.shiftl_spec by lia. destruct (Z.ltb_spec n 32).
  - rewrite Z.testbit_neg_r by lia. done.
  - simpl. symmetry. rewrite <- (Z.mod_small v (2 ^ 32)) by lia. rewrite Z.testbit_mod_pow2 by lia.
    by destruct (Z.ltb_spec n 32); [lia|].
Qed.

(** ** What a step of the host or of a mailbox does to the tickets *)

(** No ticket is opened; one that goes was answered. *)
Record advances (s s' : Sys) : Prop := {
  av_pend t id tk : pend s' t id = Some tk -> pend s t id = Some tk;
  av_left t id tk : pend s t id = Some tk -> pend s' t id = Some tk \/ tk ∈ (replies s').*1;
  av_known t : is_Some (workers s !! t) -> is_Some (workers s' !! t);
  av_next t : is_Some (workers s !! t) -> next_local (worker s' t) = next_local (worker s t);
  av_new t : is_Some (workers s' !! t) -> is_Some (workers s !! t) \/ next_local (worker s' t) = 1;
  av_replies : replies s `prefix_of` replies s'
}.

#[local] Instance advances_preorder : PreOrder advances.
Proof.
  split; [split; eauto|]. intros s1 s2 s3 H1 H2. split.
  - intros t id tk H. by eapply av_pend, av_pend.
  - intros t id tk H. destruct (av_left _ _ H1 t id tk H) as [H'|H']; [by eapply av_left|right].
    destruct (av_replies _ _ H2) as [l ->]. rewrite fmap_app, elem_of_app. by left.
  - intros t H. by eapply av_known, av_known.
  - intros t H. rewrite (av_next _ _ H2) by (by eapply av_known). by apply (av_next _ _ H1).
  - intros t H. destruct (av_new _ _ H2 t H) as [H'|H']; [|by right]. rewrite (av_next _ _ H2) by done. by apply (av_new _ _ H1).
  - etrans; by eapply av_replies.
Qed.

Lemma advances_mail s m : advances s (set_mail s m).
Proof. split; eauto. Qed.

(** The tables of [t] and the answers change as told, and nothing else. *)
Lemma advances_take s s' t id tk r :
  is_Some (workers s !! t) -> pend s t id = Some tk -> replies s' = replies s ++ [(tk, r)] ->
  (forall t' id', pend s' t' id' = if decide ((t', id') = (t, id)) then None else pend s t' id') ->
  (forall t', is_Some (workers s' !! t') -> t' = t \/ is_Some (workers s !! t')) ->
  (forall t', is_Some (workers s !! t') -> is_Some (workers s' !! t')) ->
  (forall t', next_local (worker s' t') = next_local (worker s t')) -> advances s s'.
Proof.
  intros Ht Hp Hr Hpend Hback Hfw Hn. split; eauto.
  - intros t' id' tk'. rewrite Hpend. by case_decide.
  - intros t' id' tk' H'. rewrite Hpend. case_decide as Hd; [|by left]. right. simplify_eq. rewrite Hr, fmap_app. set_solver.
  - intros t' H'. destruct (Hback t' H') as [->|?]; by left.
  - rewrite Hr. by eexists.
Qed.

Lemma known_pend s t id tk : pend s t id = Some tk -> is_Some (workers s !! t).
Proof. unfold pend, worker. destruct (workers s !! t); simpl; [eauto|by rewrite lookup_empty]. Qed.

Lemma insert_known s t w t' n m tk r b :
  is_Some (workers s !! t') -> is_Some (workers (mkSys n (<[t := w]> (workers s)) m tk r b) !! t').
Proof. intros H. simpl. destruct (decide (t = t')) as [->|?]; [by rewrite lookup_insert_eq|by rewrite lookup_insert_ne]. Qed.

(** An operation that changes the table of streams alone. *)
Lemma advances_streams s s' :
  replies s' = replies s -> (forall t id, pend s' t id = pend s t id) ->
  (forall t, is_Some (workers s' !! t) -> is_Some (workers s !! t)) ->
  (forall t, is_Some (workers s !! t) -> is_Some (workers s' !! t)) ->
  (forall t, next_local (worker s' t) = next_local (worker s t)) -> advances s s'.
Proof.
  intros Hr Hp Hb Hf Hn. split; eauto.
  - intros t id tk. by rewrite Hp.
  - intros t id tk. rewrite Hp. by left.
  - by rewrite Hr.
Qed.

Lemma local_advances t c s : advances s (local t c s).2.
Proof.
  destruct c as [id code h b|id code h|id c|id]; simpl.
  - unfold deliver_local. destruct (pending (worker s t) !! id) as [tk|] eqn:Hp; [|done].
    pose proof (known_pend s t id tk Hp) as Hk.
    apply (advances_take s _ t id tk (Once code h b)); try done; simpl.
    + tables.
    + intros t' H'. by apply dom_insert_worker in H'.
    + intros t' H'. by apply (insert_known s t _ t' (next_worker s) (mail s) (tickets s) (replies s ++ [(tk, Once code h b)]) (bodies s)).
    + intros t'. rewrite worker_insert. case_decide; by subst.
  - unfold begin_stream_local. destruct (pending (worker s t) !! id) as [tk|] eqn:Hp; [|done].
    pose proof (known_pend s t id tk Hp) as Hk.
    apply (advances_take s _ t id tk (Stream code h (length (bodies s)))); try done; simpl.
    + tables.
    + intros t' H'. by apply dom_insert_worker in H'.
    + intros t' H'. by apply (insert_known s t _ t' (next_worker s) (mail s) (tickets s) (replies s ++ [(tk, Stream code h (length (bodies s)))]) (bodies s)).
    + intros t'. rewrite worker_insert. case_decide; by subst.
  - unfold write_chunk_local. destruct (_ !! id) as [ch|]; [|done]. by apply advances_streams.
  - unfold finish_stream_local. destruct (streaming (worker s t) !! id) as [ch|] eqn:Hc; [|done].
    assert (Hk : is_Some (workers s !! t)).
    { unfold worker in Hc. destruct (workers s !! t); simpl in Hc; [eauto|by rewrite lookup_empty in Hc]. }
    apply advances_streams; simpl; try done.
    + tables.
    + intros t' H'. by apply dom_insert_worker in H' as [->|?].
    + intros t' H'. by apply (insert_known s t _ t' (next_worker s) (mail s) (tickets s) (replies s) (bodies s)).
    + intros t'. unfold set_bodies, set_worker, worker. simpl. destruct (decide (t = t')) as [->|?];
        [by rewrite lookup_insert_eq|by rewrite lookup_insert_ne].
Qed.

Lemma thread_advances s : workers s !! next_worker s = None -> advances s (thread_init s).2.
Proof.
  intros Hn. unfold thread_init. simpl.
  assert (Hw : forall t, worker (thread_init s).2 t = worker s t).
  { intros t. unfold thread_init, worker. simpl. destruct (decide (next_worker s = t)) as [<-|?];
      [by rewrite lookup_insert_eq, Hn|by rewrite lookup_insert_ne]. }
  unfold thread_init in Hw. simpl in Hw. split; simpl; try done.
  - intros t id tk. unfold pend. by rewrite Hw.
  - intros t id tk. unfold pend. rewrite Hw. by left.
  - intros t H. destruct (decide (next_worker s = t)) as [<-|?]; [by rewrite lookup_insert_eq|by rewrite lookup_insert_ne].
  - intros t _. by rewrite Hw.
  - intros t H. rewrite Hw. destruct (decide (next_worker s = t)) as [<-|?].
    + right. unfold worker. by rewrite Hn.
    + left. by rewrite lookup_insert_ne in H.
Qed.

Section Events.
Context (name_from value_from : list Z -> option (list Z)).

Lemma event_advances e s :
  match e with Ev_Thread | Ev_Call _ _ | Ev_Turn _ => True | _ => False end ->
  Inv s -> ev_ok e s = true -> advances s (ev_apply name_from value_from e s).
Proof.
  intros He HI Hok. apply (event_ind name_from value_from (advances s)); try done.
  - intros m H. etrans; [exact H|apply advances_mail].
  - intros m t c H. etrans; [exact H|apply local_advances].
  - intros ->. simpl in Hok. apply andb_true_iff in Hok as [_ Hk]. unfold known in Hk.
    apply negb_true_iff, bool_decide_eq_false, eq_None_not_Some in Hk. by apply thread_advances.
  - by intros t m ->.
  - by intros t id ->.
Qed.
End Events.

(** Opening a ticket: a number that nobody waits for. *)
Lemma open_ticket_spec t s id tk s' :
  Good s -> is_Some (workers s !! t) -> next_local (worker s t) < 2 ^ 32 - 1 -> open_ticket t s = (id, tk, s') ->
  Good s' /\ id = ticket_id t (next_local (worker s t)) /\ tk = tickets s /\ tickets s' = S (tickets s) /\
  0 < next_local (worker s t) /\ owner id = t /\
  (forall t' id', pend s' t' id' = if decide ((t', id') = (t, id)) then Some tk else pend s t' id') /\
  (forall t', is_Some (workers s' !! t') <-> is_Some (workers s !! t')) /\
  (forall t', next_local (worker s' t') = if decide (t = t') then next_local (worker s t') + 1 else next_local (worker s t')) /\
  replies s' = replies s.
Proof.
  intros Hg Ht Hn Ho. assert (Hgood : Good s').
  { replace s' with (ev_apply (fun _ => None) (fun _ => None) (Ev_Ticket t) s) by (unfold ev_apply; by rewrite Ho).
    apply event_good; [|done]. by apply bool_decide_eq_true. }
  destruct (inv_worker s (good_inv s Hg) t Ht) as [Htr Hnr].
  unfold open_ticket, register in Ho. destruct (ensure_worker_mailbox_mail t s) as [m Hm]. rewrite Hm in Ho. simplify_eq.
  assert (Hw : forall t', worker (set_mail s m) t' = worker s t') by done. rewrite !Hw in *. simpl.
  assert (Hu : Z.max (u32 (next_local (worker s t) + 1)) 1 = next_local (worker s t) + 1).
  { unfold u32. rewrite Z.mod_small by lia. lia. }
  split_and!; try done; try lia.
  - apply owner_id; lia.
  - intros t' id'. unfold pend. rewrite worker_insert. case_decide as Hd.
    + subst t'. simpl. fold (ticket_id t (next_local (worker s t))). case_decide as He.
      * simplify_eq. by rewrite lookup_insert_eq.
      * rewrite lookup_insert_ne; [done|]. intros <-. by apply He.
    + rewrite decide_False by (by intros [= -> ?]). done.
  - intros t'. split.
    + intros H. by apply dom_insert_worker in H as [->|?].
    + intros H. by apply (insert_known (set_mail s m) t _ t' (next_worker s) m (S (tickets s)) (replies s) (bodies s)).
  - intros t'. rewrite worker_insert. case_decide; [subst|done]. simpl. by rewrite Hu.
Qed.

#[local] Existing Instance grows_preorder.
#[local] Opaque owner ticket_id u32.

(** ** The requests in flight *)

Section Server.
Context {F : Type} `{BodyUtil F} (fits : list Header -> bool) (name_from value_from : list Z -> option (list Z)).

Definition ticket_of (d : Dispatch F) : option (Z * nat) :=
  match d with
  | D_Reading _ _ => None
  | D_Calling _ id tk | D_Waiting _ id tk => Some (id, tk)
  | D_Done k _ | D_Dropped k => k
  end.

(** The worker a task runs on, and the ticket it still waits for. *)
Definition on (d : Dispatch F) : option Z :=
  match d with D_Reading t _ | D_Calling t _ _ | D_Waiting t _ _ => Some t | _ => None end.
Definition waits (d : Dispatch F) : option (Z * nat) :=
  match d with D_Calling _ id tk | D_Waiting _ id tk => Some (id, tk) | _ => None end.

(** The response of an ended request with a ticket is that of its reply. *)
Definition settled (s : Sys) (d : Dispatch F) : Prop :=
  match d with
  | D_Done (Some (_, tk)) r => exists reply, (tk, reply) ∈ replies s /\ r = build_response fits reply
  | _ => True
  end.

(** With [n] bodies read so far. *)
Record Tickets (n : Z) (w : Server F) : Prop := {
  ti_good : Good (sv_sys w);
  ti_next t : is_Some (workers (sv_sys w) !! t) -> next_local (worker (sv_sys w) t) <= 1 + n;
  ti_on i d t : sv_tasks w !! i = Some d -> on d = Some t -> is_Some (workers (sv_sys w) !! t);
  ti_id i d id tk : sv_tasks w !! i = Some d -> ticket_of d = Some (id, tk) ->
    is_Some (workers (sv_sys w) !! owner id) /\
    (exists v, id = ticket_id (owner id) v /\ 0 <= v < next_local (worker (sv_sys w) (owner id))) /\ (tk < tickets (sv_sys w))%nat;
  ti_owner i d t id tk : sv_tasks w !! i = Some d -> on d = Some t -> ticket_of d = Some (id, tk) -> owner id = t;
  ti_apart i j d e k l : sv_tasks w !! i = Some d -> sv_tasks w !! j = Some e -> ticket_of d = Some k -> ticket_of e = Some l ->
    i <> j -> k.1 <> l.1 /\ k.2 <> l.2;
  ti_pend t id tk : pend (sv_sys w) t id = Some tk -> exists i d, sv_tasks w !! i = Some d /\ ticket_of d = Some (id, tk);
  ti_waits i d id tk : sv_tasks w !! i = Some d -> waits d = Some (id, tk) ->
    pend (sv_sys w) (owner id) id = Some tk \/ tk ∈ (replies (sv_sys w)).*1;
  ti_settled i d : sv_tasks w !! i = Some d -> settled (sv_sys w) d
}.

Lemma server_new_tickets : Tickets 0 server_new.
Proof.
  assert (He : forall i, sv_tasks (server_new (F := F)) !! i = None) by (intros i; apply lookup_empty).
  assert (Hw : forall t, ~ is_Some (workers (sv_sys (server_new (F := F))) !! t)) by (intros t [? Ht]; cbn in Ht; by rewrite lookup_empty in Ht).
  split.
  - apply sys_new_good.
  - by intros t ?%Hw.
  - intros i d t Hi. by rewrite He in Hi.
  - intros i d id tk Hi. by rewrite He in Hi.
  - intros i d t id tk Hi. by rewrite He in Hi.
  - intros i j d e k l Hi. by rewrite He in Hi.
  - intros t id tk Hp%known_pend. by apply Hw in Hp.
  - intros i d id tk Hi. by rewrite He in Hi.
  - intros i d Hi. by rewrite He in Hi.
Qed.

(** A step of the tickets' tables alone. *)
Lemma tickets_sys n w s :
  Tickets n w -> 0 <= n -> advances (sv_sys w) s -> Good s -> (tickets (sv_sys w) <= tickets s)%nat -> Tickets n (with_sys s w).
Proof.
  intros [Hg Hn Hon Hid Hown Hap Hpe Hwa Hse] H0 Ha Hg' Htk. split; cbn [sv_sys sv_tasks with_sys]; [exact Hg'| | | |exact Hown|exact Hap| | |].
  - intros t Ht. destruct (av_new _ _ Ha t Ht) as [Hk| ->]; [|lia]. rewrite (av_next _ _ Ha) by done. by apply Hn.
  - intros i d t Hd Ht. apply (av_known _ _ Ha). by apply (Hon i d).
  - intros i d id tk Hd Ht. destruct (Hid i d id tk Hd Ht) as (Hk & Hv & Hl). split_and!; [by apply (av_known _ _ Ha)| |lia].
    by rewrite (av_next _ _ Ha) by done.
  - intros t id tk Hp. apply (Hpe t). by apply (av_pend _ _ Ha).
  - intros i d id tk Hd Ht. destruct (Hwa i d id tk Hd Ht) as [Hp|Hr]; [by apply (av_left _ _ Ha)|right].
    destruct (av_replies _ _ Ha) as [l ->]. rewrite fmap_app, elem_of_app. by left.
  - intros i d Hd. specialize (Hse i d Hd). destruct d as [| | |[[id tk]|] r|]; [exact I|exact I|exact I| |exact I|exact I].
    cbn [settled] in *. destruct Hse as (reply & Hin & ->). exists reply. split; [|done]. destruct (av_replies _ _ Ha) as [l ->].
    apply elem_of_app. by left.
Qed.

(** A task moves on, with the ticket it has. *)
Lemma tickets_move n w i d d' :
  Tickets n w -> sv_tasks w !! i = Some d -> ticket_of d' = ticket_of d ->
  (forall t, on d' = Some t -> on d = Some t) -> (forall k, waits d' = Some k -> waits d = Some k) -> settled (sv_sys w) d' ->
  Tickets n (put_task i d' w).
Proof.
  intros [Hg Hn Hon Hid Hown Hap Hpe Hwa Hse] Hi Ht Ho Hw Hs.
  assert (Hl : forall j e, <[i := d']> (sv_tasks w) !! j = Some e ->
    exists e0, sv_tasks w !! j = Some e0 /\ ticket_of e = ticket_of e0 /\ (forall t, on e = Some t -> on e0 = Some t) /\
      (forall k, waits e = Some k -> waits e0 = Some k)).
  { intros j e He. destruct (decide (i = j)) as [<-|Hne].
    - rewrite lookup_insert_eq in He. simplify_eq. eauto.
    - rewrite lookup_insert_ne in He by done. eauto. }
  split; cbn [sv_sys sv_tasks put_task]; [exact Hg|exact Hn|..].
  - intros j e t (e0 & He0 & _ & Ho0 & _)%Hl Het. eauto.
  - intros j e id tk (e0 & He0 & Ht0 & _)%Hl Het. rewrite Ht0 in Het. eauto.
  - intros j e t id tk (e0 & He0 & Ht0 & Ho0 & _)%Hl H1 H2. rewrite Ht0 in H2. eauto.
  - intros j1 j2 e1 e2 k l (a & Ha1 & Ha2 & _)%Hl (b & Hb1 & Hb2 & _)%Hl Hk Hl'. rewrite Ha2 in Hk. rewrite Hb2 in Hl'.
    by eapply Hap.
  - intros t id tk Hp. destruct (Hpe t id tk Hp) as (j & e & Hj & He). destruct (decide (i = j)) as [<-|Hne].
    + exists i, d'. rewrite lookup_insert_eq. simplify_eq. by rewrite Ht.
    + exists j, e. by rewrite lookup_insert_ne.
  - intros j e id tk (e0 & He0 & _ & _ & Hw0)%Hl Hk. eauto.
  - intros j e He. destruct (decide (i = j)) as [<-|Hne].
    + rewrite lookup_insert_eq in He. by simplify_eq.
    + rewrite lookup_insert_ne in He by done. eauto.
Qed.

(** A task without a ticket is put in. *)
Lemma tickets_put n w i d :
  Tickets n w -> (forall e, sv_tasks w !! i = Some e -> ticket_of e = None) -> ticket_of d = None -> waits d = None ->
  settled (sv_sys w) d -> (forall t, on d = Some t -> is_Some (workers (sv_sys w) !! t)) -> Tickets n (put_task i d w).
Proof.
  intros [Hg Hn Hon Hid Hown Hap Hpe Hwa Hse] Hi Ht Hw Hs Ho.
  assert (Hl : forall j e, <[i := d]> (sv_tasks w) !! j = Some e -> ticket_of e <> None -> sv_tasks w !! j = Some e).
  { intros j e He. destruct (decide (i = j)) as [<-|Hne].
    - rewrite lookup_insert_eq in He. by simplify_eq.
    - by rewrite lookup_insert_ne in He. }
  split; cbn [sv_sys sv_tasks put_task]; [exact Hg|exact Hn|..].
  - intros j e t He Het. destruct (decide (i = j)) as [<-|Hne].
    + rewrite lookup_insert_eq in He. simplify_eq. by apply Ho.
    + rewrite lookup_insert_ne in He by done. by eapply Hon.
  - intros j e id tk He Het. eapply Hid; [|exact Het]. apply Hl; [done|congruence].
  - intros j e t id tk He H1 H2. eapply Hown; [|exact H1|exact H2]. apply Hl; [done|congruence].
  - intros j1 j2 e1 e2 k l He1 He2 Hk Hk'. eapply Hap; [| |exact Hk|exact Hk']; apply Hl; try done; congruence.
  - intros t id tk Hp. destruct (Hpe t id tk Hp) as (j & e & Hj & He). destruct (decide (i = j)) as [<-|Hne].
    + specialize (Hi e Hj). congruence.
    + exists j, e. by rewrite lookup_insert_ne.
  - intros j e id tk He Hk. destruct (decide (i = j)) as [<-|Hne].
    + rewrite lookup_insert_eq in He. congruence.
    + rewrite lookup_insert_ne in He by done. eauto.
  - intros j e He. destruct (decide (i = j)) as [<-|Hne].
    + rewrite lookup_insert_eq in He. by simplify_eq.
    + rewrite lookup_insert_ne in He by done. eauto.
Qed.

(** The body of a request is there, and its ticket opened. *)
Lemma tickets_open n w i t rq id tk s h :
  Tickets n w -> 1 + n < 2 ^ 32 - 1 -> sv_tasks w !! i = Some (D_Reading t rq) -> open_ticket t (sv_sys w) = (id, tk, s) ->
  Tickets (n + 1) (mkServer s (<[i := D_Calling t id tk]> (sv_tasks w)) h).
Proof.
  intros HT Hn Hi Ho. pose proof HT as [Hg Hnx Hon Hid Hown Hap Hpe Hwa Hse].
  assert (Ht : is_Some (workers (sv_sys w) !! t)) by (by apply (Hon i (D_Reading t rq))).
  pose proof (Hnx t Ht) as Hnt.
  destruct (open_ticket_spec t (sv_sys w) id tk s Hg Ht ltac:(lia) Ho) as (Hg' & Hv & Htk & Htk' & Hpos & Hoid & Hp & Hw & Hnl & Hr).
  assert (Hfresh : forall j d id' tk', sv_tasks w !! j = Some d -> ticket_of d = Some (id', tk') -> id <> id' /\ tk <> tk').
  { intros j d id' tk' Hd He. destruct (Hid j d id' tk' Hd He) as (Hk & (v & Hv' & Hvr) & Hl). split; [|lia]. intros <-.
    rewrite Hoid in Hv', Hvr. rewrite Hv in Hv'. apply (f_equal u32) in Hv'. rewrite !ticket_id_low in Hv' by lia. lia. }
  assert (Hl : forall j d, <[i := D_Calling t id tk]> (sv_tasks w) !! j = Some d ->
    (j = i /\ d = D_Calling t id tk) \/ (j <> i /\ sv_tasks w !! j = Some d)).
  { intros j d Hd. apply lookup_insert_Some in Hd as [[<- <-]|[? ?]]; [by left|right; by split]. }
  split; cbn [sv_sys sv_tasks].
  - exact Hg'.
  - intros t' Ht'%Hw. rewrite Hnl. specialize (Hnx t' Ht'). case_decide; lia.
  - intros j d t' [[-> ->]|[_ Hd]]%Hl Hdt; apply Hw; [by simplify_eq/=|by apply (Hon j d)].
  - intros j d id' tk' [[-> ->]|[_ Hd]]%Hl He.
    + simplify_eq/=. rewrite Hoid. split_and!; [by apply Hw| |lia].
      exists (next_local (worker (sv_sys w) t)). rewrite Hnl, decide_True by done. split; [reflexivity|lia].
    + destruct (Hid j d id' tk' Hd He) as (Hk & (v & Hv' & Hvr) & Hl'). split_and!; [by apply Hw| |lia].
      exists v. rewrite Hnl. split; [exact Hv'|]. case_decide; lia.
  - intros j d t' id' tk' [[-> ->]|[_ Hd]]%Hl H1 H2; [by simplify_eq/=|by apply (Hown j d t' id' tk')].
  - intros j1 j2 d e k l [[-> ->]|[Hj1 Hd]]%Hl [[-> ->]|[Hj2 He]]%Hl H1 H2 Hne; [done| | |by apply (Hap j1 j2 d e)].
    + destruct l as [id' tk']. simplify_eq/=. by apply (Hfresh j2 e).
    + destruct k as [id' tk']. simplify_eq/=. destruct (Hfresh j1 d id' tk' Hd H1). split; congruence.
  - intros t' id' tk' Hpe'. rewrite Hp in Hpe'. case_decide as Hd.
    + simplify_eq. exists i. eexists. rewrite lookup_insert_eq. split; [reflexivity|]. reflexivity.
    + destruct (Hpe t' id' tk' Hpe') as (j & d & Hj & Hdj). exists j, d. split; [|done].
      rewrite lookup_insert_ne; [done|]. intros <-. rewrite Hi in Hj. by simplify_eq/=.
  - intros j d id' tk' [[-> ->]|[_ Hd]]%Hl He; rewrite Hp, Hr.
    + simplify_eq/=. rewrite Hoid, decide_True by done. by left.
    + rewrite decide_False; [by apply (Hwa j d)|]. intros [= _ He'].
      assert (ticket_of d = Some (id', tk')) as Htd by (by destruct d).
      by destruct (Hfresh j d id' tk' Hd Htd) as [[] _].
  - intros j d [[-> ->]|[_ Hd]]%Hl; [exact I|]. specialize (Hse j d Hd).
    destruct d as [| | |[[id' tk']|] r|]; [exact I|exact I|exact I| |exact I|exact I].
    cbn [settled] in *. by rewrite Hr.
Qed.

(** [reply_of] finds the one reply there is. *)
Lemma reply_of_some tk s r : reply_of tk s = Some r -> (tk, r) ∈ replies s.
Proof.
  unfold reply_of. destruct (list_find _ _) as [[k [tk' r']]|] eqn:Hf; [|done]. apply list_find_Some in Hf as (Hk & Ht & _).
  simpl in *. intros [= <-]. subst tk'. by apply list_elem_of_lookup_2 in Hk.
Qed.
Lemma reply_of_in tk s r : Inv s -> (tk, r) ∈ replies s -> reply_of tk s = Some r.
Proof.
  intros HI Hin. destruct (reply_of tk s) as [r'|] eqn:Hr.
  - apply reply_of_some in Hr. f_equal. pose proof (inv_replies s HI) as Hnd.
    apply list_elem_of_lookup in Hin as [a Ha]. apply list_elem_of_lookup in Hr as [b Hb].
    assert (a = b) as ->; [|congruence]. eapply NoDup_lookup; [exact Hnd| |]; rewrite list_lookup_fmap; [by rewrite Ha|by rewrite Hb].
  - exfalso. unfold reply_of in Hr. destruct (list_find _ _) as [[? ?]|] eqn:Hf; [done|].
    apply list_find_None in Hf. rewrite Forall_forall in Hf. by apply (Hf _ Hin).
Qed.
Lemma reply_of_none tk s : reply_of tk s = None -> tk ∉ (replies s).*1.
Proof.
  intros Hr Hin. apply list_elem_of_fmap_1 in Hin as ([tk' r] & -> & Hin). unfold reply_of in Hr.
  destruct (list_find _ _) as [[? ?]|] eqn:Hf; [done|]. apply list_find_None in Hf. rewrite Forall_forall in Hf. by apply (Hf _ Hin).
Qed.

(** A request that waits has its sender in its worker's table, or its reply. *)
Lemma waiting_sender n w i t id tk :
  Tickets n w -> sv_tasks w !! i = Some (D_Waiting t id tk) -> reply_of tk (sv_sys w) = None ->
  pending (worker (sv_sys w) t) !! id = Some tk.
Proof.
  intros HT Hi Hr. destruct (ti_waits _ _ HT i _ id tk Hi eq_refl) as [Hp|Hin]; [|by apply reply_of_none in Hr].
  by rewrite (ti_owner _ _ HT i _ t id tk Hi eq_refl eq_refl) in Hp.
Qed.

Definition cost (e : ServerEvent) : Z := match e with S_Body _ _ => 1 | _ => 0 end.
Definition bodies_read (es : list ServerEvent) : Z := foldr (fun e n => cost e + n) 0 es.

Lemma sys_event_tickets n w e w' :
  match e with Ev_Thread | Ev_Call _ _ | Ev_Turn _ => True | _ => False end ->
  Tickets n w -> 0 <= n -> sys_event name_from value_from e w = Some w' -> Tickets n w'.
Proof.
  intros He HT H0. unfold sys_event. destruct (ev_ok e (sv_sys w)) eqn:Hok; [|done]. intros [= <-].
  pose proof (ti_good _ _ HT) as Hg. apply tickets_sys; [done|done|by apply event_advances; [|apply Hg|]|by apply event_good|].
  apply (event_ind name_from value_from (fun s => (tickets (sv_sys w) <= tickets s)%nat)); try done; [apply Hg|..].
  - intros m t c Hm. etrans; [exact Hm|]. clear. generalize (set_mail (sv_sys w) m). intros s.
    destruct c as [id code h b|id code h|id c|id]; simpl;
      [unfold deliver_local|unfold begin_stream_local|unfold write_chunk_local|unfold finish_stream_local]; by destruct (_ !! id).
  - intros t m -> . by destruct He.
Qed.

Lemma step_tickets n w e w' :
  Tickets n w -> 0 <= n -> n + cost e < 2 ^ 32 - 1 -> server_step fits name_from value_from e w = Some w' ->
  Tickets (n + cost e) w'.
Proof.
  intros HT H0 Hn Hs. destruct e as [i t rq|i frames|i|i|i| |t k|t]; cbn [server_step cost] in *; rewrite ?Z.add_0_r.
  - destruct (known t (sv_sys w)) eqn:Hk; [|done]. destruct (decide (sv_tasks w !! i = None)) as [Hi|Hi];
      [rewrite bool_decide_true in Hs by done|by rewrite bool_decide_false in Hs by done].
    cbn in Hs. simplify_eq. apply tickets_put; [exact HT| |reflexivity|reflexivity|exact I|].
    + intros e He. congruence.
    + intros t' [= <-]. unfold known in Hk. by apply bool_decide_eq_true in Hk.
  - unfold dispatch_body in Hs. destruct (sv_tasks w !! i) as [[t rq| | | |]|] eqn:Hi; simplify_eq.
    destruct (read_body frames) as [body|resp].
    + destruct (open_ticket t (sv_sys w)) as [[id tk] s] eqn:Ho. simplify_eq. eapply tickets_open; [exact HT|lia|exact Hi|exact Ho].
    + assert (HT' : Tickets n (put_task i (D_Done None resp) w)).
      { apply (tickets_move n w i (D_Reading t rq)); [exact HT|exact Hi|reflexivity|discriminate|discriminate|exact I]. }
      destruct HT' as [Hg Hnx ? ? ? ? ? ? ?]. split; [assumption| |assumption..]. intros t' Ht'. specialize (Hnx t' Ht'). lia.
  - unfold dispatch_returns in Hs. destruct (sv_tasks w !! i) as [[| t id tk| | |]|] eqn:Hi; simplify_eq.
    apply (tickets_move n w i (D_Calling t id tk)); [exact HT|exact Hi|reflexivity|by intros ? [= ->]|by intros ? [= <-]|exact I].
  - unfold dispatch_reply in Hs. destruct (sv_tasks w !! i) as [[| |t id tk| |]|] eqn:Hi; simplify_eq.
    destruct (reply_of tk (sv_sys w)) as [r|] eqn:Hr.
    + simplify_eq. apply (tickets_move n w i (D_Waiting t id tk)); [exact HT|exact Hi|reflexivity|discriminate|discriminate|].
      exists r. split; [by apply reply_of_some|reflexivity].
    + by rewrite bool_decide_true in Hs by (by apply (waiting_sender n w i)).
  - unfold dispatch_dropped in Hs. destruct (sv_tasks w !! i) as [[t rq| |t id tk| |]|] eqn:Hi; simplify_eq;
      (eapply tickets_move; [exact HT|exact Hi|reflexivity|discriminate|discriminate|exact I]).
  - by eapply (sys_event_tickets n w Ev_Thread).
  - by eapply (sys_event_tickets n w (Ev_Call t k)).
  - by eapply (sys_event_tickets n w (Ev_Turn t)).
Qed.

Lemma bodies_read_nonneg es : 0 <= bodies_read es.
Proof. induction es as [|[]]; simpl; lia. Qed.

Lemma run_tickets es n w w' :
  Tickets n w -> 0 <= n -> n + bodies_read es < 2 ^ 32 - 1 -> server_run fits name_from value_from es w = Some w' ->
  Tickets (n + bodies_read es) w'.
Proof.
  revert n w. induction es as [|e es IH]; intros n w HT H0 Hn; cbn [server_run bodies_read foldr].
  - intros [= <-]. by rewrite Z.add_0_r.
  - destruct (server_step fits name_from value_from e w) as [w1|] eqn:Hs; [|done]. cbn [mbind option_bind].
    change (foldr (fun e n => cost e + n) 0 es) with (bodies_read es). cbn [bodies_read foldr] in Hn.
    change (foldr (fun e n => cost e + n) 0 es) with (bodies_read es) in Hn.
    pose proof (bodies_read_nonneg es). assert (0 <= cost e) by (destruct e; simpl; lia).
    intros Hr. rewrite Z.add_assoc. apply (IH (n + cost e) w1); [|lia|lia|exact Hr].
    apply (step_tickets n w e); [exact HT|lia|lia|exact Hs].
Qed.

Lemma server_tickets es w :
  bodies_read es < 2 ^ 32 - 1 -> server_run fits name_from value_from es server_new = Some w -> exists n, Tickets n w.
Proof.
  intros Hf Hr. exists (0 + bodies_read es). apply (run_tickets es 0 server_new); [apply server_new_tickets|lia|lia|exact Hr].
Qed.

(** C20. Every request gets its own answer.  In every interleaving of requests,
    dropped futures, calls from any threads and mailbox turns, as long as fewer
    than [2^32 - 1] bodies were read: no two requests share a ticket or its
    number; a request that waits goes on by a reply that was sent to its ticket and
    by nothing else, never with the answer of a lost responder; and a request that
    is over with a ticket has the response of the one reply to it. *)
Theorem server_own_answer es w :
  bodies_read es < 2 ^ 32 - 1 -> server_run fits name_from value_from es server_new = Some w ->
  (forall i j d e k l, sv_tasks w !! i = Some d -> sv_tasks w !! j = Some e -> ticket_of d = Some k -> ticket_of e = Some l ->
     i <> j -> k.1 <> l.1 /\ k.2 <> l.2) /\
  (forall i t id tk, sv_tasks w !! i = Some (D_Waiting t id tk) ->
     match reply_of tk (sv_sys w) with
     | Some reply => dispatch_reply fits i w = Some (put_task i (D_Done (Some (id, tk)) (build_response fits reply)) w)
     | None => dispatch_reply fits i w = None
     end) /\
  (forall i id tk r, sv_tasks w !! i = Some (D_Done (Some (id, tk)) r) ->
     exists reply, reply_of tk (sv_sys w) = Some reply /\ r = build_response fits reply /\
       forall reply', (tk, reply') ∈ replies (sv_sys w) -> reply' = reply).
Proof.
  intros Hf Hr. destruct (server_tickets es w Hf Hr) as [n HT]. pose proof (good_inv _ (ti_good _ _ HT)) as HI.
  split_and!.
  - apply (ti_apart _ _ HT).
  - intros i t id tk Hi. unfold dispatch_reply. rewrite Hi. destruct (reply_of tk (sv_sys w)) as [reply|] eqn:Hrep; [done|].
    by rewrite bool_decide_true by (by apply (waiting_sender n w i)).
  - intros i id tk r Hi. destruct (ti_settled _ _ HT i _ Hi) as (reply & Hin & ->). exists reply.
    split_and!; [by apply reply_of_in|done|]. intros reply' Hin'.
    pose proof (reply_of_in tk _ _ HI Hin). pose proof (reply_of_in tk _ _ HI Hin'). congruence.
Qed.

(** ** The body of a request *)

(** What [http_body_util] documents: a collected body is its data; a body that goes
    over the limit is an error of its own, and so is one that fails within it; a
    [Full] gives its bytes, without waiting, and ends. *)
Inductive full_yields : F -> list (list Z) -> Prop :=
| fy_end f f' : full_poll_frame f = (Ready None, f') -> full_yields f []
| fy_frame f f' c l : full_poll_frame f = (Ready (Some c), f') -> full_yields f' l -> full_yields f (c :: l).

Class BodyUtilLaws : Prop := {
  limited_whole limit l : zlen (concat l) <= limit -> limited limit (map Some l) = Col_Bytes (concat l);
  limited_over limit l rest : 0 <= limit -> limit < zlen (concat l) -> limited limit (map Some l ++ rest) = Col_Limit;
  limited_failed limit l rest : zlen (concat l) <= limit -> limited limit (map Some l ++ None :: rest) = Col_Failed;
  full_gives b : exists l, full_yields (full_new b) l /\ concat l = b
}.

(** What the host was handed for the request [i], in order, as often as it was. *)
Definition handed_for (i : nat) (w : Server F) : list ServerRequest := (filter (fun p => p.1 = i) (sv_handed w)).*2.

(** What was asked of a request whose task is [d] in the events [es]. *)
Definition handed_so_far (es : list ServerEvent) (w : Server F) (i : nat) : Prop :=
  match sv_tasks w !! i with
  | None => handed_for i w = []
  | Some d =>
      match ticket_of d with
      | Some (id, _) =>
          exists t rq frames body, S_Request i t rq ∈ es /\ S_Body i frames ∈ es /\ read_body (F := F) frames = Ok body /\
            handed_for i w = [server_request rq body id]
      | None =>
          handed_for i w = [] /\
          match d with
          | D_Reading t rq => S_Request i t rq ∈ es
          | D_Done _ resp => exists frames, S_Body i frames ∈ es /\ read_body frames = Err resp
          | _ => True
          end
      end
  end.

Lemma run_server_snoc es e w :
  server_run fits name_from value_from (es ++ [e]) w
  = (w' ← server_run fits name_from value_from es w; server_step fits name_from value_from e w').
Proof.
  revert w. induction es as [|e' es IH]; intros w; cbn [server_run app].
  - cbn [mbind option_bind]. by destruct (server_step fits name_from value_from e w).
  - destruct (server_step _ _ _ e' w) as [w1|]; [|done]. cbn [mbind option_bind]. apply IH.
Qed.

Lemma handed_more es e w w' i :
  sv_tasks w' !! i = sv_tasks w !! i -> handed_for i w' = handed_for i w ->
  handed_so_far es w i -> handed_so_far (es ++ [e]) w' i.
Proof.
  intros Ht Hh. unfold handed_so_far. rewrite Ht, Hh. destruct (sv_tasks w !! i) as [d|].
  - destruct (ticket_of d) as [[id tk]|].
    + intros (t & rq & frames & body & H1 & H2 & H3 & H4). exists t, rq, frames, body.
      split_and!; [set_solver|set_solver|done|done].
    + intros [H1 H2]. split; [done|]. destruct d as [t rq| | |k resp|]; try done; [set_solver|].
      destruct H2 as (frames & ? & ?). exists frames. split; [set_solver|done].
  - done.
Qed.

(** A task that keeps its ticket, and answers for itself when it has none. *)
Lemma handed_move es e w i d d' :
  sv_tasks w !! i = Some d -> ticket_of d' = ticket_of d ->
  (ticket_of d = None -> match d' with
                         | D_Reading t rq => S_Request i t rq ∈ es ++ [e]
                         | D_Done _ resp => exists frames, S_Body i frames ∈ es ++ [e] /\ read_body frames = Err resp
                         | _ => True
                         end) ->
  handed_so_far es w i -> handed_so_far (es ++ [e]) (put_task i d' w) i.
Proof.
  intros Hi Ht Hd. unfold handed_so_far. rewrite Hi. change (handed_for i (put_task i d' w)) with (handed_for i w). cbn [sv_tasks put_task]. rewrite lookup_insert_eq, Ht.
  destruct (ticket_of d) as [[id tk]|].
  - intros (t & rq & frames & body & H1 & H2 & H3 & H4). exists t, rq, frames, body. split_and!; [set_solver|set_solver|done|done].
  - intros [H1 H2]. split; [done|by apply Hd].
Qed.

Lemma handed_step es e w w' i :
  server_step fits name_from value_from e w = Some w' -> handed_so_far es w i -> handed_so_far (es ++ [e]) w' i.
Proof.
  intros Hs Hi.
  assert (Hput : forall j d d', sv_tasks w !! j = Some d -> ticket_of d' = ticket_of d ->
    (ticket_of d = None -> match d' with
                         | D_Reading t rq => S_Request j t rq ∈ es ++ [e]
                         | D_Done _ resp => exists frames, S_Body j frames ∈ es ++ [e] /\ read_body frames = Err resp
                         | _ => True
                         end) -> handed_so_far (es ++ [e]) (put_task j d' w) i).
  { intros j d d' Hj Ht Hd. destruct (decide (i = j)) as [->|Hne]; [by eapply handed_move|].
    apply (handed_more es e w); [|done|done]. cbn. by rewrite lookup_insert_ne. }
  destruct e as [j t rq|j frames|j|j|j| |t k|t]; cbn [server_step] in Hs.
  - destruct (known t (sv_sys w)); [|done]. destruct (decide (sv_tasks w !! j = None)) as [Hj|Hj];
      [rewrite bool_decide_true in Hs by done|by rewrite bool_decide_false in Hs by done]. cbn in Hs. simplify_eq.
    destruct (decide (i = j)) as [->|Hne].
    + unfold handed_so_far in *. rewrite Hj in Hi. cbn [put_task sv_tasks]. rewrite lookup_insert_eq. split; [done|set_solver].
    + apply (handed_more es _ w); [|done|done]. cbn. by rewrite lookup_insert_ne.
  - unfold dispatch_body in Hs. destruct (sv_tasks w !! j) as [[t rq| | | |]|] eqn:Hj; simplify_eq.
    destruct (read_body frames) as [body|resp] eqn:Hb.
    + destruct (open_ticket t (sv_sys w)) as [[id tk] s]. destruct (decide (i = j)) as [->|Hne].
      * unfold handed_so_far in *. rewrite Hj in Hi. destruct Hi as [Hno Hreq]. cbn [sv_tasks]. rewrite lookup_insert_eq.
        exists t, rq, frames, body. split_and!; [set_solver|set_solver|done|]. unfold handed_for in *. cbn [sv_handed].
        rewrite filter_app, fmap_app, Hno, filter_cons_True by done. done.
      * apply (handed_more es _ w); [cbn; by rewrite lookup_insert_ne| |done]. unfold handed_for. cbn [sv_handed].
        rewrite filter_app, filter_cons_False by done. by rewrite filter_nil, app_nil_r.
    + apply (Hput j (D_Reading t rq)); [done|done|]. intros _. exists frames. split; [set_solver|done].
  - unfold dispatch_returns in Hs. destruct (sv_tasks w !! j) as [[| t id tk| | |]|] eqn:Hj; simplify_eq.
    by apply (Hput j (D_Calling t id tk)).
  - unfold dispatch_reply in Hs. destruct (sv_tasks w !! j) as [[| |t id tk| |]|] eqn:Hj; simplify_eq.
    destruct (reply_of tk (sv_sys w)) as [r|]; [simplify_eq; by apply (Hput j (D_Waiting t id tk))|].
    case_bool_decide; [done|]. simplify_eq.
    by apply (Hput j (D_Waiting t id tk) (D_Done (Some (id, tk)) (mkHttpResponse 500 [] (B_Once (full_new (bs "handler dropped the responder")))))).
  - unfold dispatch_dropped in Hs. destruct (sv_tasks w !! j) as [[t rq| |t id tk| |]|] eqn:Hj; simplify_eq.
    + by apply (Hput j (D_Reading t rq)).
    + by apply (Hput j (D_Waiting t id tk)).
  - unfold sys_event in Hs. destruct (ev_ok _ _); [|done]. simplify_eq. by apply (handed_more es _ w).
  - unfold sys_event in Hs. destruct (ev_ok _ _); [|done]. simplify_eq. by apply (handed_more es _ w).
  - unfold sys_event in Hs. destruct (ev_ok _ _); [|done]. simplify_eq. by apply (handed_more es _ w).
Qed.

Lemma handed_run es w i : server_run fits name_from value_from es server_new = Some w -> handed_so_far es w i.
Proof.
  revert w. induction es as [|e es IH] using rev_ind; intros w.
  - intros [= <-]. unfold handed_so_far. cbn [server_new sv_tasks]. by rewrite lookup_empty.
  - rewrite run_server_snoc. destruct (server_run _ _ _ es server_new) as [w0|]; [|done]. cbn [mbind option_bind].
    intros Hs. eapply handed_step; [exact Hs|]. by apply IH.
Qed.

(** A body is all data, or data before an error. *)
Lemma frames_cases (frames : list (option (list Z))) :
  exists l, frames = map Some l \/ exists rest, frames = map Some l ++ None :: rest.
Proof.
  induction frames as [|[c|] frames (l & IH)]; [by exists []; left| |by exists []; right; exists frames].
  exists (c :: l). destruct IH as [->|[rest ->]]; [by left|right; by exists rest].
Qed.

Lemma read_body_spec `{!BodyUtilLaws} frames :
  match read_body (F := F) frames with
  | Ok body => zlen body <= MAX_BODY /\ exists l, frames = map Some l /\ body = concat l
  | Err r =>
      (r = status_only 413 /\ exists l rest, frames = map Some l ++ rest /\ MAX_BODY < zlen (concat l)) \/
      (r = status_only 400 /\ exists l rest, frames = map Some l ++ None :: rest /\ zlen (concat l) <= MAX_BODY)
  end.
Proof.
  unfold read_body. destruct (frames_cases frames) as (l & Hl). destruct (Z.le_gt_cases (zlen (concat l)) MAX_BODY) as [Hm|Hm].
  - destruct Hl as [->|[rest ->]]; [rewrite limited_whole by done; eauto|rewrite limited_failed by done; eauto 10].
  - assert (Ho : exists rest, frames = map Some l ++ rest) by (destruct Hl as [->|[rest ->]]; eexists; [by rewrite app_nil_r|done]).
    destruct Ho as [rest ->]. rewrite limited_over by (done || (unfold MAX_BODY; lia)). eauto 10.
Qed.

(** C21. What the host is handed.  A request that has a ticket was handed over
    exactly once, with the request line's parts and the header lines as they were
    read, the whole body, which is within the 16 MiB, and the number its ticket
    has; a request without a ticket was never handed over: it was read no further,
    or answered by the server itself, with 413 when its body went over the limit
    and with 400 when it broke off within it. *)
Theorem server_request_whole `{!BodyUtilLaws} es w i :
  server_run fits name_from value_from es server_new = Some w ->
  match sv_tasks w !! i with
  | Some d =>
      match ticket_of d with
      | Some (id, _) =>
          exists t rq l, S_Request i t rq ∈ es /\ S_Body i (map Some l) ∈ es /\ zlen (concat l) <= MAX_BODY /\
            handed_for i w = [server_request rq (concat l) id]
      | None =>
          handed_for i w = [] /\
          forall k r, d = D_Done k r ->
            (r = status_only 413 /\ exists l rest, S_Body i (map Some l ++ rest) ∈ es /\ MAX_BODY < zlen (concat l)) \/
            (r = status_only 400 /\ exists l rest, S_Body i (map Some l ++ None :: rest) ∈ es /\ zlen (concat l) <= MAX_BODY)
      end
  | None => handed_for i w = []
  end.
Proof.
  intros Hr. pose proof (handed_run es w i Hr) as Hh. unfold handed_so_far in Hh.
  destruct (sv_tasks w !! i) as [d|]; [|done]. destruct (ticket_of d) as [[id tk]|].
  - destruct Hh as (t & rq & frames & body & H1 & H2 & H3 & H4). pose proof (read_body_spec frames) as Hs. rewrite H3 in Hs.
    destruct Hs as (Hm & l & -> & ->). by exists t, rq, l.
  - destruct Hh as [H1 H2]. split; [done|]. intros k r ->. destruct H2 as (frames & H2 & H3).
    pose proof (read_body_spec frames) as Hs. rewrite H3 in Hs.
    destruct Hs as [(-> & l & rest & -> & ?)|(-> & l & rest & -> & ?)]; [left|right]; (split; [done|]); by exists l, rest.
Qed.

(** ** The response's body *)

(** What hyper gets of a body while the tables are as they are: the chunks, and
    whether the body has ended or it has to wait. *)
Inductive body_gives (s : Sys) : Body F -> list (list Z) -> bool -> Prop :=
| bg_end b b' : poll_frame b s = (Ready None, b') -> body_gives s b [] true
| bg_wait b b' : poll_frame b s = (Pending, b') -> body_gives s b [] false
| bg_frame b b' c l e : poll_frame b s = (Ready (Some c), b') -> body_gives s b' l e -> body_gives s b (c :: l) e.

Lemma once_gives `{!BodyUtilLaws} s body :
  exists l, body_gives s (B_Once (full_new body)) l true /\ concat l = body.
Proof.
  destruct (full_gives body) as (l & Hl & Hc). exists l. split; [|exact Hc]. clear Hc. induction Hl as [f f' Hf|f f' c l Hf _ IH].
  - apply (bg_end s _ (B_Once f')). cbn. by rewrite Hf.
  - apply (bg_frame s _ (B_Once f')); [cbn; by rewrite Hf|exact IH].
Qed.

Lemma stream_gives s ch cs closed taken :
  bodies s !! ch = Some (cs, closed) -> body_gives s (B_Stream ch taken) (drop taken cs) closed.
Proof.
  intros Hb. remember (length cs - taken)%nat as n eqn:Hn. revert taken Hn. induction n as [|n IH]; intros taken Hn.
  - rewrite drop_ge by lia. assert (Hc : cs !! taken = None) by (apply lookup_ge_None; lia).
    destruct closed; [apply (bg_end s _ (B_Stream ch taken))|apply (bg_wait s _ (B_Stream ch taken))];
      cbn; unfold chunks_poll_next; by rewrite Hb, Hc.
  - destruct (lookup_lt_is_Some_2 cs taken) as [c Hc]; [lia|]. rewrite (drop_S _ _ _ Hc).
    apply (bg_frame s _ (B_Stream ch (S taken))); [cbn; unfold chunks_poll_next; by rewrite Hb, Hc|]. apply IH. lia.
Qed.

Definition all_fit (headers : list Header) : bool :=
  forallb (fun n => fits (take (S n) headers)) (seq 0 (length headers)).

Lemma head_spec status headers :
  head fits status headers = (if (100 <=? status) && (status <=? 999) then status else 500, if all_fit headers then Some headers else None).
Proof.
  unfold head. f_equal. unfold all_fit.
  induction headers as [|h headers IH] using rev_ind; [done|].
  rewrite fold_left_app, length_app, seq_app, forallb_app. cbn [fold_left length seq forallb Nat.add].
  rewrite andb_true_r. rewrite (take_ge (headers ++ [h]) (S (length headers))) by (rewrite length_app; simpl; lia).
  replace (forallb (fun n => fits (take (S n) (headers ++ [h]))) (seq 0 (length headers)))
    with (forallb (fun n => fits (take (S n) headers)) (seq 0 (length headers))).
  - rewrite IH. destruct (forallb _ _); cbn; [|done]. by destruct (fits (headers ++ [h])).
  - assert (H0 : forall n m, (n + m <= length headers)%nat ->
      forallb (fun n => fits (take (S n) headers)) (seq n m) = forallb (fun n => fits (take (S n) (headers ++ [h]))) (seq n m)).
    { intros n m. revert n. induction m as [|m IHm]; intros n Hm; [done|]. cbn [seq forallb]. f_equal; [|apply IHm; lia].
      by rewrite take_app_le by lia. }
    by apply H0.
Qed.

(** ** From the host's call to hyper's poll *)

Lemma step_trace n w e w' :
  Tickets n w -> server_step fits name_from value_from e w = Some w' ->
  run name_from value_from (ticket_events e w) (sv_sys w) = Some (sv_sys w').
Proof.
  intros HT Hs. assert (Hsys : forall ev, sys_event name_from value_from ev w = Some w' ->
    run name_from value_from [ev] (sv_sys w) = Some (sv_sys w')).
  { intros ev. unfold sys_event. cbn [run]. destruct (ev_ok ev (sv_sys w)); [|done]. by intros [= <-]. }
  destruct e as [i t rq|i frames|i|i|i| |t k|t]; cbn [server_step ticket_events] in *; try by apply Hsys.
  - destruct (known t (sv_sys w)); [|done]. destruct (bool_decide _); [|done]. cbn in Hs. by simplify_eq.
  - unfold dispatch_body in Hs. destruct (sv_tasks w !! i) as [[t rq| | | |]|] eqn:Hi; simplify_eq.
    destruct (read_body frames) as [body|resp]; [|by simplify_eq].
    destruct (open_ticket t (sv_sys w)) as [[id tk] s] eqn:Ho. simplify_eq. cbn [run ev_ok ev_apply].
    pose proof (ti_on _ _ HT i _ t Hi eq_refl) as Ht. unfold known. rewrite bool_decide_true by done. by rewrite Ho.
  - unfold dispatch_returns in Hs. destruct (sv_tasks w !! i) as [[| t id tk| | |]|]; by simplify_eq.
  - unfold dispatch_reply in Hs. destruct (sv_tasks w !! i) as [[| |t id tk| |]|] eqn:Hi; simplify_eq.
    destruct (reply_of tk (sv_sys w)) as [r|] eqn:Hr; [by simplify_eq|].
    by rewrite bool_decide_true in Hs by (by apply (waiting_sender n w i)).
  - unfold dispatch_dropped in Hs. destruct (sv_tasks w !! i) as [[t rq| |t id tk| |]|]; by simplify_eq.
Qed.

Lemma run_trace n es w w' :
  Tickets n w -> 0 <= n -> n + bodies_read es < 2 ^ 32 - 1 -> server_run fits name_from value_from es w = Some w' ->
  run name_from value_from (ticket_trace fits name_from value_from es w) (sv_sys w) = Some (sv_sys w').
Proof.
  revert n w. induction es as [|e es IH]; intros n w HT H0 Hn; cbn [server_run ticket_trace]; [by intros [= <-]|].
  destruct (server_step fits name_from value_from e w) as [w1|] eqn:Hs; [|done]. cbn [mbind option_bind]. intros Hr.
  assert (Happ : forall a b (s : Sys), run name_from value_from (a ++ b) s
    = match run name_from value_from a s with Some s => run name_from value_from b s | None => None end).
  { induction a as [|x a IHa]; intros b s; [done|]. cbn [run app]. by destruct (ev_ok x s). }
  rewrite Happ, (step_trace n w e w1 HT Hs).
  cbn [bodies_read foldr] in Hn. change (foldr (fun e n => cost e + n) 0 es) with (bodies_read es) in Hn.
  pose proof (bodies_read_nonneg es). assert (0 <= cost e) by (destruct e; cbn; lia).
  apply (IH (n + cost e) w1); [|lia|lia|exact Hr]. apply (step_tickets n w e); [exact HT|lia|lia|exact Hs].
Qed.

Lemma observe_run id k es s k' s' :
  observe name_from value_from id k es s = Some (k', s') -> run name_from value_from es s = Some s'.
Proof.
  revert k s. induction es as [|e es IH]; intros k s; cbn [observe run]; [by intros [= _ <-]|].
  destruct (ev_ok e s); [|done]. cbn [negb]. destruct (spares _ _ _ _ _); [apply IH|].
  destruct e; try done. destruct (_ =? _); [done|]. apply IH.
Qed.

(** A ticket stays with its request. *)
Lemma ticket_kept e w w' i d k :
  server_step fits name_from value_from e w = Some w' -> sv_tasks w !! i = Some d -> ticket_of d = Some k ->
  exists d', sv_tasks w' !! i = Some d' /\ ticket_of d' = Some k.
Proof.
  intros Hs Hi Hk. assert (Hput : forall j d' (w1 : Server F), sv_tasks w1 = sv_tasks w ->
    (forall d0, sv_tasks w !! j = Some d0 -> ticket_of d0 = None \/ ticket_of d' = ticket_of d0) ->
    exists d1, sv_tasks (put_task j d' w1) !! i = Some d1 /\ ticket_of d1 = Some k).
  { intros j d' w1 Hw Hj. cbn. rewrite Hw. destruct (decide (i = j)) as [->|Hne].
    - exists d'. rewrite lookup_insert_eq. split; [done|]. destruct (Hj d Hi) as [Hn|Hn]; congruence.
    - exists d. by rewrite lookup_insert_ne. }
  destruct e as [j t rq|j frames|j|j|j| |t kk|t]; cbn [server_step] in Hs.
  - destruct (known t (sv_sys w)); [|done]. destruct (decide (sv_tasks w !! j = None)) as [Hj|Hj];
      [rewrite bool_decide_true in Hs by done|by rewrite bool_decide_false in Hs by done]. cbn in Hs. simplify_eq.
    apply Hput; [done|]. congruence.
  - unfold dispatch_body in Hs. destruct (sv_tasks w !! j) as [[t rq| | | |]|] eqn:Hj; simplify_eq.
    destruct (read_body frames) as [body|resp].
    + destruct (open_ticket t (sv_sys w)) as [[id tk] s]. simplify_eq. apply (Hput j (D_Calling t id tk) w); [done|].
      rewrite Hj; intros d0 [= <-]. by left.
    + simplify_eq. apply Hput; [done|]. rewrite Hj; intros d0 [= <-]. by left.
  - unfold dispatch_returns in Hs. destruct (sv_tasks w !! j) as [[| t id tk| | |]|] eqn:Hj; simplify_eq.
    apply Hput; [done|]. rewrite Hj; intros d0 [= <-]. by right.
  - unfold dispatch_reply in Hs. destruct (sv_tasks w !! j) as [[| |t id tk| |]|] eqn:Hj; simplify_eq.
    destruct (reply_of tk (sv_sys w)) as [r|]; [|case_bool_decide; [done|]]; simplify_eq;
      (apply Hput; [done|]; rewrite Hj; intros d0 [= <-]; by right).
  - unfold dispatch_dropped in Hs. destruct (sv_tasks w !! j) as [[t rq| |t id tk| |]|] eqn:Hj; simplify_eq;
      (apply Hput; [done|]; rewrite Hj; intros d0 [= <-]; by right).
  - unfold sys_event in Hs. destruct (ev_ok _ _); [|done]. simplify_eq. eauto.
  - unfold sys_event in Hs. destruct (ev_ok _ _); [|done]. simplify_eq. eauto.
  - unfold sys_event in Hs. destruct (ev_ok _ _); [|done]. simplify_eq. eauto.
Qed.

Lemma ticket_kept_run es w w' i d k :
  server_run fits name_from value_from es w = Some w' -> sv_tasks w !! i = Some d -> ticket_of d = Some k ->
  exists d', sv_tasks w' !! i = Some d' /\ ticket_of d' = Some k.
Proof.
  revert w d. induction es as [|e es IH]; intros w d; cbn [server_run]; [intros [= <-]; eauto|].
  destruct (server_step _ _ _ e w) as [w1|] eqn:Hs; [|done]. cbn [mbind option_bind]. intros Hr Hi Hk.
  destruct (ticket_kept e w w1 i d k Hs Hi Hk) as (d1 & Hd1 & Hk1). by eapply IH.
Qed.

Lemma turns_good t n s : Good s -> Good (Nat.iter n (mailbox_turn t) s) /\ grows s (Nat.iter n (mailbox_turn t) s).
Proof.
  intros Hg. induction n as [|n [IH1 IH2]]; [by split; [|reflexivity]|]. cbn [Nat.iter nat_rect]. split.
  - by apply (event_good name_from value_from (Ev_Turn t)).
  - etrans; [exact IH2|]. apply (event_grows name_from value_from (Ev_Turn t)); [done|apply IH1].
Qed.

(** The response to a reply with that status and those headers: the server's own 500
    when the headers are more than a header map takes. *)
Definition response_is (status : Z) (headers : list Header) (body : Body F -> Prop) (r : HttpResponse F) : Prop :=
  if all_fit headers then
    hr_status r = (if (100 <=? status) && (status <=? 999) then status else 500) /\ hr_headers r = headers /\ body (hr_body r)
  else r = status_only 500.

Lemma once_response `{!BodyUtilLaws} s status headers body :
  response_is status headers (fun b => exists l, body_gives s b l true /\ concat l = body) (build_response fits (Once status headers body)).
Proof.
  unfold response_is, build_response. rewrite head_spec. destruct (all_fit headers); cbn; [|done].
  split_and!; [done|done|]. apply once_gives.
Qed.

Lemma stream_response s status headers ch cs closed :
  bodies s !! ch = Some (cs, closed) ->
  response_is status headers (fun b => body_gives s b cs closed) (build_response fits (Stream status headers ch)).
Proof.
  intros Hb. unfold response_is, build_response. rewrite head_spec. destruct (all_fit headers); cbn; [|done].
  split_and!; [done|done|]. by apply (stream_gives s ch cs closed 0).
Qed.

(** The response that request [i] has, or gets with its next poll when the tables are
    [s]. *)
Definition answered_with (i : nat) (w : Server F) (s : Sys) (r : HttpResponse F) : Prop :=
  match sv_tasks w !! i with
  | Some (D_Done _ r') => r' = r
  | Some (D_Waiting t id tk) =>
      dispatch_reply fits i (with_sys s w) = Some (put_task i (D_Done (Some (id, tk)) r) (with_sys s w))
  | _ => True
  end.

Lemma answered_reply n w i d id tk s reply :
  Tickets n w -> sv_tasks w !! i = Some d -> ticket_of d = Some (id, tk) -> Good s -> replies (sv_sys w) `prefix_of` replies s ->
  (tk, reply) ∈ replies s -> answered_with i w s (build_response fits reply).
Proof.
  intros HT Hi Hd Hg Hp Hin. unfold answered_with. rewrite Hi. pose proof (good_inv _ Hg) as HI.
  pose proof (reply_of_in tk s reply HI Hin) as Hr. destruct d as [| |t id' tk'|k r|]; [done..| | |done].
  - cbn in Hd. simplify_eq. unfold dispatch_reply. cbn [sv_tasks sv_sys with_sys]. by rewrite Hi, Hr.
  - cbn in Hd. subst k. destruct (ti_settled _ _ HT i _ Hi) as (reply' & Hin' & ->). f_equal.
    destruct Hp as [l Hl]. assert ((tk, reply') ∈ replies s) as Hin2 by (rewrite Hl; set_solver).
    pose proof (reply_of_in tk s reply' HI Hin2). congruence.
Qed.

(** C19. From the host's call to hyper's poll.  A request that has been handed over
    and whose ticket nobody has answered yet; a host that answers it from other
    threads than the worker's, in any interleaving with everything else that goes
    on; and the worker's mailbox has had the turns it is left with.  Then what the
    host's calls amount to ([ticket_step]: the first answer counts, chunks stay in
    order) is what the request's response is: the status, the headers, and a body
    that gives hyper exactly the bytes, or the chunks written so far in order, and
    that ends exactly when the host has ended it. *)
Theorem server_answer_end_to_end `{!BodyUtilLaws} es0 es w0 w i d t id tk q k s :
  bodies_read es0 + bodies_read es < 2 ^ 32 - 1 ->
  server_run fits name_from value_from es0 server_new = Some w0 ->
  sv_tasks w0 !! i = Some d -> waits d = Some (id, tk) -> on d = Some t ->
  pend (sv_sys w0) t id = Some tk -> strm (sv_sys w0) t id = None ->
  mail (sv_sys w0) !! t = Some (mkMailbox true q) -> about id q = [] ->
  server_run fits name_from value_from es w0 = Some w ->
  observe name_from value_from id T_Waiting (ticket_trace fits name_from value_from es w0) (sv_sys w0) = Some (k, s) ->
  s = sv_sys w /\
  let s' := Nat.iter (length (queue s t)) (mailbox_turn t) s in
  match k with
  | T_Waiting => reply_of tk s' = None
  | T_Answered code h b =>
      exists r, answered_with i w s' r /\ response_is code h (fun x => exists l, body_gives s' x l true /\ concat l = b) r
  | T_Open code h cs => exists r, answered_with i w s' r /\ response_is code h (fun x => body_gives s' x cs false) r
  | T_Closed code h cs => exists r, answered_with i w s' r /\ response_is code h (fun x => body_gives s' x cs true) r
  end.
Proof.
  intros Hf Hr0 Hi Hwt Hon Hp Ho Hm Hq Hr Hobs.
  pose proof (bodies_read_nonneg es0). pose proof (bodies_read_nonneg es).
  assert (HT0 : Tickets (0 + bodies_read es0) w0) by (apply (run_tickets es0 0 server_new); [apply server_new_tickets|lia|lia|done]).
  pose proof (run_trace _ es w0 w HT0 ltac:(lia) ltac:(lia) Hr) as Htr. pose proof (observe_run _ _ _ _ _ _ Hobs) as Hor.
  assert (s = sv_sys w) as Hs by congruence. split; [exact Hs|]. subst s.
  pose proof (run_tickets es _ w0 w HT0 ltac:(lia) ltac:(lia) Hr) as HT.
  assert (Hd : ticket_of d = Some (id, tk)) by (by destruct d).
  pose proof (ti_owner _ _ HT0 i d t id tk Hi Hon Hd) as Hoid. rewrite <- Hoid in *.
  assert (Hid0 : id <> 0) by (eapply (inv_owner _ (good_inv _ (ti_good _ _ HT0)) (owner id)); by left).
  destruct (observe_comes_to name_from value_from id tk T_Waiting (ticket_trace fits name_from value_from es w0) (sv_sys w0) k (sv_sys w) (ti_good _ _ HT0) Hid0) as [Hg Hc];
    [exists T_Waiting, q; by rewrite Hq|exact Hobs|].
  pose proof Hc as (k0 & q' & Hm' & _ & _). assert (Hqu : queue (sv_sys w) (owner id) = q') by (unfold queue; by rewrite Hm').
  rewrite Hqu. set (s' := Nat.iter (length q') (mailbox_turn (owner id)) (sv_sys w)).
  assert (Hsh : shows id tk k s').
  { pose proof (turns_drain (owner id) (sv_sys w) q' Hm') as Hdr.
    destruct (turns_comes_to name_from value_from id tk k (owner id) (length q') (sv_sys w) Hg Hc) as (k1 & q1 & Hm1 & Hs1 & Hr1).
    fold s' in Hm1, Hs1, Hdr. rewrite Hm1 in Hdr. injection Hdr as ->. cbn in Hr1. by rewrite <- Hr1. }
  destruct (turns_good (owner id) (length q') (sv_sys w) Hg) as [Hg' [Hrep _]]. fold s' in Hg', Hrep.
  destruct (ticket_kept_run es w0 w i d (id, tk) Hr Hi Hd) as (d' & Hi' & Hd').
  clearbody s'. destruct k as [|code h b|code h cs|code h cs]; cbn [shows] in Hsh.
  - destruct Hsh as [Hps _]. destruct (reply_of tk s') as [r|] eqn:Hrr; [|done]. apply reply_of_some in Hrr.
    destruct (inv_pend s' (good_inv _ Hg') _ _ _ Hps) as [_ []]. by apply (list_elem_of_fmap_2 fst) in Hrr.
  - destruct Hsh as (_ & _ & Hin). eexists. split; [by eapply answered_reply|]. apply once_response.
  - destruct Hsh as (_ & ch & _ & Hin & Hb). eexists. split; [by eapply answered_reply|]. by apply stream_response.
  - destruct Hsh as (_ & _ & ch & Hin & Hb). eexists. split; [by eapply answered_reply|]. by apply stream_response.
Qed.
End Server.

(** ** The server's thread *)

(** The start and the stop.  Once the thread has made a step, the start returns:
    a handle exactly when the host's text is one, with the port it is an address,
    there is a thread and the port could be bound, and NULL otherwise; it waits for
    nothing else.  A server that was started runs until it is stopped, whatever
    happens, and a stop returns, after at most two steps of the thread; a stop of
    NULL does nothing. *)
Theorem server_start_stop {A} (parse_addr : list Z -> option A) host port spawned bind n :
  (0 < n)%nat ->
  let running := mkControl true 0 [true] Th_Parked in
  server_start parse_addr host port spawned bind n
  = Some (if match server_address parse_addr host port with
             | Some addr => spawned && bool_decide (bind addr = Some true)
             | None => false
             end then Some running else None) /\
  (forall b m, thread_steps b m running = running) /\
  (forall m, (2 <= m)%nat -> server_stop (Some running) m = Some tt) /\ (forall m, server_stop None m = Some tt).
Proof.
  intros Hn running.
  assert (Hrun : forall b m, thread_steps b m running = running) by (by intros b [|m]).
  assert (Hend : forall b m ready stop k, thread_steps b m (mkControl stop k ready Th_Ended) = mkControl stop k ready Th_Ended)
    by (by intros b [|m]).
  split_and!; [|exact Hrun| |done].
  - unfold server_start. destruct (server_address parse_addr host port) as [addr|]; [|done]. destruct spawned; [|done].
    destruct n as [|n]; [lia|]. cbn [negb andb thread_steps thread_step ct_thread].
    destruct (bind addr) as [[]|]; cbn [ct_stop_tx ct_stopped ct_ready app].
    + change (mkControl true 0 [true] Th_Parked) with running. by rewrite Hrun.
    + by rewrite Hend.
    + by rewrite Hend.
  - intros [|[|m]] Hm; [lia..|]. cbn. by rewrite Hend.
Qed.
