(* ===== verification/FfiServerWorld.v ===== *)
(** * Runs of the server of the C interface

    A [Limited] and a [Full] that do what is documented, a worker and a thread of the
    host, two requests, and what happens when a ticket's number comes round again. *)
From S2P Require Import Prelude ClientProxy EncoderThms FfiAbi FfiResponder FfiResponderThms FfiServer FfiServerThms.

(** [Full] is what is left to give; [limited] has the bytes so far. *)
Definition RefFull : Type := list (list Z).
Fixpoint ref_limited (limit : Z) (acc : list Z) (frames : list (option (list Z))) : Collected :=
  match frames with
  | [] => Col_Bytes acc
  | None :: _ => Col_Failed
  | Some c :: frames => if limit <? zlen (acc ++ c) then Col_Limit else ref_limited limit (acc ++ c) frames
  end.

#[export] Instance ref_body_util : BodyUtil RefFull := {
  limited limit frames := ref_limited limit [] frames;
  full_new b := if zlen b =? 0 then [] else [b];
  full_poll_frame f := match f with [] => (Ready None, []) | c :: f => (Ready (Some c), f) end;
  full_is_end_stream f := bool_decide (f = []);
  full_size_hint f := (zlen (concat f), Some (zlen (concat f)))
}.

Lemma ref_within limit l acc rest :
  zlen (acc ++ concat l) <= limit -> ref_limited limit acc (map Some l ++ rest) = ref_limited limit (acc ++ concat l) rest.
Proof.
  revert acc. induction l as [|c l IH]; intros acc Hl; cbn [map app concat ref_limited]; [by rewrite app_nil_r|].
  cbn [concat] in Hl. rewrite app_assoc in *. destruct (Z.ltb_spec limit (zlen (acc ++ c))) as [Hc|_]; [|by apply IH].
  unfold zlen in *. rewrite !length_app in *. lia.
Qed.
Lemma ref_beyond limit l acc rest :
  zlen acc <= limit -> limit < zlen (acc ++ concat l) -> ref_limited limit acc (map Some l ++ rest) = Col_Limit.
Proof.
  revert acc. induction l as [|c l IH]; intros acc Ha Hl; cbn [map app concat ref_limited] in *; [rewrite app_nil_r in Hl; lia|].
  destruct (Z.ltb_spec limit (zlen (acc ++ c))) as [|Hc]; [done|]. apply IH; [done|]. by rewrite <- app_assoc.
Qed.

(** The limit of the server is not negative. *)
Lemma ref_over limit l rest : 0 <= limit -> limit < zlen (concat l) -> ref_limited limit [] (map Some l ++ rest) = Col_Limit.
Proof. intros H0 Hl. by apply ref_beyond. Qed.

#[export] Instance ref_body_util_laws : BodyUtilLaws (F := RefFull).
Proof.
  split.
  - intros limit l Hl. cbn. rewrite <- (app_nil_r (map Some l)). by rewrite ref_within.
  - intros limit l rest H0 Hl. by apply ref_over.
  - intros limit l rest Hl. cbn. by rewrite ref_within.
  - intros b. cbn. destruct (Z.eqb_spec (zlen b) 0) as [Hb|_].
    + exists []. split; [by eapply fy_end|]. by destruct b.
    + exists [b]. split; [|apply app_nil_r]. eapply fy_frame; [done|]. by eapply fy_end.
Qed.

(** ** A streamed answer *)

Module ServerRun.
Definition conv (l : list Z) : option (list Z) := Some l.
Definition fits (l : list Header) : bool := zlen l <=? 3.
Definition rq : RequestParts := mkParts (bs "GET") (bs "/a") None [(bs "host", bs "x")].
Definition run_ (es : list ServerEvent) (w : Server RefFull) : Server RefFull := default server_new (server_run fits conv conv es w).
Definition req : Z := 2 ^ 32 + 1.

(** Two threads, a worker and one of the host's; two requests are read, and a third
    breaks off. *)
Definition start : list ServerEvent :=
  [S_Thread; S_Thread; S_Request 0 1 rq; S_Request 1 1 rq; S_Request 2 1 rq;
   S_Body 0 [Some (bs "ab"); Some (bs "c")]; S_Body 2 [Some (bs "x"); None]].
Definition w0 : Server RefFull := run_ start server_new.

(** The first is answered from the host's thread with a stream, while the second
    comes in and is answered on the worker. *)
Definition calls : list ServerEvent :=
  [S_Call 2 (C_begin req 200 (bs "a: b")); S_Returns 0; S_Body 1 []; S_Turn 1; S_Reply 0;
   S_Call 2 (C_write req (bs "hel")); S_Call 1 (C_respond (req + 1) 204 [] []); S_Returns 1;
   S_Call 2 (C_write req (bs "lo")); S_Call 2 (C_respond req 500 [] []); S_Call 2 (C_finish req); S_Reply 1].
Definition w1 : Server RefFull := run_ calls w0.

Lemma start_runs : server_run fits conv conv start server_new = Some w0.
Proof. vm_compute. reflexivity. Qed.
Lemma calls_run_ : server_run fits conv conv calls w0 = Some w1.
Proof. vm_compute. reflexivity. Qed.
Lemma all_runs : server_run fits conv conv (start ++ calls) server_new = Some w1.
Proof. vm_compute. reflexivity. Qed.
Lemma host_made :
  observe conv conv req T_Waiting (ticket_trace fits conv conv calls w0) (sv_sys w0)
  = Some (T_Closed 200 [(bs "a", bs "b")] [bs "hel"; bs "lo"], sv_sys w1).
Proof. vm_compute. reflexivity. Qed.
Lemma answered_stream : sv_tasks w1 !! 0%nat = Some (D_Done (Some (req, 0%nat)) (mkHttpResponse 200 [(bs "a", bs "b")] (B_Stream 0 0))).
Proof. vm_compute. reflexivity. Qed.
Lemma four_left : length (queue (sv_sys w1) 1) = 4%nat.
Proof. vm_compute. reflexivity. Qed.
Lemma waiting_first :
  sv_tasks w0 !! 0%nat = Some (D_Calling 1 req 0) /\ pend (sv_sys w0) 1 req = Some 0%nat /\ strm (sv_sys w0) 1 req = None /\
  mail (sv_sys w0) !! 1 = Some (mkMailbox true []).
Proof. vm_compute. done. Qed.
End ServerRun.

Lemma server_own_answer_witness :
  exists reply, reply_of 0 (sv_sys ServerRun.w1) = Some reply /\
    mkHttpResponse 200 [(bs "a", bs "b")] (B_Stream 0 0) = build_response (F := RefFull) ServerRun.fits reply /\
    forall reply', (0%nat, reply') ∈ replies (sv_sys ServerRun.w1) -> reply' = reply.
Proof.
  apply (proj2 (proj2 (server_own_answer ServerRun.fits ServerRun.conv ServerRun.conv
                        (ServerRun.start ++ ServerRun.calls) ServerRun.w1 eq_refl ServerRun.all_runs))
           0%nat ServerRun.req 0%nat _ ServerRun.answered_stream).
Defined.

Lemma server_request_whole_witness :
  (exists t rq l, S_Request 0 t rq ∈ ServerRun.start /\ S_Body 0 (map Some l) ∈ ServerRun.start /\ zlen (concat l) <= MAX_BODY /\
     handed_for 0 ServerRun.w0 = [server_request rq (concat l) ServerRun.req]) /\
  handed_for 2 ServerRun.w0 = [].
Proof.
  split.
  - apply (server_request_whole ServerRun.fits ServerRun.conv ServerRun.conv ServerRun.start ServerRun.w0 0 ServerRun.start_runs).
  - apply (server_request_whole ServerRun.fits ServerRun.conv ServerRun.conv ServerRun.start ServerRun.w0 2 ServerRun.start_runs).
Defined.

Lemma server_answer_end_to_end_witness :
  exists r, answered_with ServerRun.fits 0 ServerRun.w1 (Nat.iter 4 (mailbox_turn 1) (sv_sys ServerRun.w1)) r /\
    hr_status r = 200 /\ hr_headers r = [(bs "a", bs "b")] /\
    body_gives (Nat.iter 4 (mailbox_turn 1) (sv_sys ServerRun.w1)) (hr_body r) [bs "hel"; bs "lo"] true.
Proof.
  destruct ServerRun.waiting_first as (Hi & Hp & Ho & Hm).
  rewrite <- ServerRun.four_left.
  destruct (proj2 (server_answer_end_to_end ServerRun.fits ServerRun.conv ServerRun.conv ServerRun.start ServerRun.calls
          ServerRun.w0 ServerRun.w1 0 _ 1 ServerRun.req 0 [] _ _ eq_refl ServerRun.start_runs Hi eq_refl eq_refl Hp Ho Hm eq_refl
          ServerRun.calls_run_ ServerRun.host_made)) as (r & Ha & Hr).
  exists r. split; [exact Ha|exact Hr].
Defined.

Lemma server_start_stop_witness :
  server_start (fun l => Some l) (Some (bs "127.0.0.1")) 80 true (fun _ => Some true) 1 = Some (Some (mkControl true 0 [true] Th_Parked)).
Proof.
  apply (proj1 (server_start_stop (fun l => Some l) (Some (bs "127.0.0.1")) 80 true (fun _ => Some true) 1 (Nat.lt_succ_diag_r 0))).
Defined.

(** ** A number that comes round again *)

(** The worker's counter is at a number that a request still waits under.  The new
    request takes the number over, the first request's sender is lost, and what the
    first one forgets is the ticket of the second: both are answered with the 500 of
    a host that dropped its responder, although it has not had the second yet. *)
Definition wrapped : Server RefFull :=
  mkServer (mkSys 2 {[1 := mkWorker 1 {[ServerRun.req := 0%nat]} ∅]} ∅ 1 [] [])
    (<[0%nat := D_Waiting 1 ServerRun.req 0]> {[1%nat := D_Reading 1 ServerRun.rq]}) [].

Example number_again :
  let lost := mkHttpResponse 500 [] (B_Once [bs "handler dropped the responder"]) in
  let w := ServerRun.run_ [S_Body 1 []; S_Returns 1; S_Reply 0; S_Reply 1] wrapped in
  sv_tasks w !! 0%nat = Some (D_Done (Some (ServerRun.req, 0%nat)) lost) /\
  sv_tasks w !! 1%nat = Some (D_Done (Some (ServerRun.req, 1%nat)) lost).
Proof. vm_compute. done. Qed.
