(* ===== verification/Serde.v ===== *)
(** * Serialization of header maps

    [types/serde.rs], between a [HeaderMap] and the tree of calls that a format of
    serde is given, and back.  A format is whether it is meant for people, and how
    it hands a text, bytes or a key to a visitor; the round trip of the tree
    through the format is the format's.  The http crate's check of a name is a
    parameter. *)
From S2P Require Import Prelude Headers HeaderValues.

(** What a [Serializer] is told, and a [Deserializer] has. *)
Inductive Content :=
| C_Str (s : list Z)
| C_Bytes (b : list Z)
| C_Seq (l : list Content)
| C_Map (len : nat) (l : list (list Z * Content)).

Record Format := mkFormat {
  is_human_readable : bool;
  owned_string : list Z -> bool;
  owned_bytes : list Z -> bool;
  borrowed_key : list Z -> bool
}.

Inductive SerError := SE_ToStr.
Inductive DeError := DE_InvalidType | DE_InvalidName | DE_InvalidValue | DE_InvalidLength | DE_Custom.

(** The [?] of a result. *)
#[export] Instance result_bind E : MBind (fun A => result A E) := fun A B f r =>
  match r with Ok a => f a | Err e => Err e end.
Fixpoint try_map {A B E} (f : A -> result B E) (l : list A) : result (list B) E :=
  match l with
  | [] => Ok []
  | a :: l => match f a with Ok b => match try_map f l with Ok l => Ok (b :: l) | Err e => Err e end | Err e => Err e end
  end.

Section Format.
Context (fmt : Format).

(** ** Serialize *)

(** For a [HeaderValue] *)
Definition serialize_header_value (v : HeaderValue) : result Content SerError :=
  if is_human_readable fmt then
    match to_str v with Ok s => Ok (C_Str s) | Err _ => Err SE_ToStr end
  else Ok (C_Bytes (hv_inner v)).

Definition serialize_seq (l : list HeaderValue) : result Content SerError :=
  match try_map serialize_header_value l with Ok l => Ok (C_Seq l) | Err e => Err e end.

(** For a [Value] *)
Definition serialize_value (v : Value) : result Content SerError :=
  match v with
  | One val => if is_human_readable fmt then serialize_header_value val else serialize_seq [val]
  | Multi vec => serialize_seq vec
  end.

(** For a [HeaderMap], visited in the order [inner]. *)
Definition serialize_map (inner : list (HeaderName * Value)) : result Content SerError :=
  match try_map (fun nv => match serialize_value nv.2 with Ok c => Ok (nv.1, c) | Err e => Err e end) inner with
  | Ok l => Ok (C_Map (length inner) l)
  | Err e => Err e
  end.

(** ** Deserialize *)

(** [HeaderValueVisitor] *)
Definition hv_visit_str (v : list Z) : result HeaderValue DeError :=
  match from_str v with Ok v => Ok v | Err _ => Err DE_InvalidValue end.
Definition hv_visit_string (v : list Z) : result HeaderValue DeError :=
  match from_shared v with Ok v => Ok v | Err _ => Err DE_Custom end.
Definition hv_visit_bytes (v : list Z) : result HeaderValue DeError :=
  match from_bytes v with Ok v => Ok v | Err _ => Err DE_InvalidValue end.
Definition hv_visit_byte_buf (v : list Z) : result HeaderValue DeError :=
  match from_shared v with Ok v => Ok v | Err _ => Err DE_Custom end.

(** The format has a text or bytes for a visitor. *)
Definition visit_text (s : list Z) : result HeaderValue DeError :=
  if owned_string fmt s then hv_visit_string s else hv_visit_str s.
Definition visit_buf (b : list Z) : result HeaderValue DeError :=
  if owned_bytes fmt b then hv_visit_byte_buf b else hv_visit_bytes b.

(** [deserialize_string] and [deserialize_byte_buf] with [HeaderValueVisitor] *)
Definition deserialize_header_value (c : Content) : result HeaderValue DeError :=
  match is_human_readable fmt, c with
  | true, C_Str s => visit_text s
  | false, C_Bytes b => visit_buf b
  | _, _ => Err DE_InvalidType
  end.

(** [ValueVisitor] *)
Definition visit_one (r : result HeaderValue DeError) : result Value DeError :=
  match r with Ok v => Ok (One v) | Err e => Err e end.
Fixpoint visit_seq (l : list Content) (value : option Value) : result Value DeError :=
  match l with
  | [] => match value with Some v => Ok v | None => Err DE_InvalidLength end
  | c :: l =>
      match deserialize_header_value c with
      | Ok next_val =>
          visit_seq l (Some match value with Some value => ValueOps.append value next_val | None => One next_val end)
      | Err e => Err e
      end
  end.

(** [deserialize_any] and [deserialize_seq] with [ValueVisitor] *)
Definition deserialize_value (c : Content) : result Value DeError :=
  if is_human_readable fmt then
    match c with
    | C_Str s => visit_one (visit_text s)
    | C_Bytes b => visit_one (visit_buf b)
    | C_Seq l => visit_seq l None
    | C_Map _ _ => Err DE_InvalidType
    end
  else match c with C_Seq l => visit_seq l None | _ => Err DE_InvalidType end.

Section Names.
Context (name_from : list Z -> option HeaderName).

(** [HeaderMapVisitor::visit_map] *)
Fixpoint visit_map (l : list (list Z * Content)) (headers : HeaderMap) : result HeaderMap DeError :=
  match l with
  | [] => Ok headers
  | (key, c) :: l =>
      if negb (borrowed_key fmt key) then Err DE_InvalidType
      else
        match deserialize_value c with
        | Err e => Err e
        | Ok value =>
            match name_from key with
            | None => Err DE_InvalidName
            | Some name => visit_map l (<[name := value]> headers)
            end
        end
  end.

Definition deserialize_map (c : Content) : result HeaderMap DeError :=
  match c with C_Map _ l => visit_map l HeaderMapOps.new | _ => Err DE_InvalidType end.

(** ** Theorems *)

(** What a value comes back as: without its mark, and one value as [One]. *)
Definition plain_value (v : HeaderValue) : HeaderValue := mkHeaderValue (hv_inner v) false.
Definition normal (v : Value) : Value :=
  match ValueOps.to_list v with [x] => One (plain_value x) | l => Multi (plain_value <$> l) end.

(** A value that the format takes. *)
Definition carried_value (v : HeaderValue) : bool :=
  forallb (if is_human_readable fmt then is_visible_ascii else is_valid) (hv_inner v).

Lemma ser_visible_valid s : forallb is_visible_ascii s = true -> forallb is_valid s = true.
Proof.
  rewrite !forallb_forall. intros Hs b Hb. specialize (Hs b Hb). unfold is_visible_ascii, is_valid in *.
  apply orb_true_iff in Hs as [Hs| ->]; [|by rewrite orb_true_r]. apply andb_true_iff in Hs as [-> Hs].
  apply Z.ltb_lt in Hs. destruct (Z.eqb_spec b 127); [lia|done].
Qed.

Lemma visited s : forallb is_valid s = true -> visit_text s = Ok (mkHeaderValue s false) /\ visit_buf s = Ok (mkHeaderValue s false).
Proof.
  intros Hs. unfold visit_text, visit_buf, hv_visit_string, hv_visit_str, hv_visit_bytes, hv_visit_byte_buf, from_str, from_bytes, from_shared, try_from_generic.
  rewrite Hs. by destruct (owned_string fmt s), (owned_bytes fmt s).
Qed.

Lemma header_value_back v :
  carried_value v = true ->
  exists c, serialize_header_value v = Ok c /\ deserialize_header_value c = Ok (plain_value v) /\
    deserialize_value c = if is_human_readable fmt then Ok (One (plain_value v)) else Err DE_InvalidType.
Proof.
  unfold carried_value, serialize_header_value, deserialize_header_value, deserialize_value, to_str.
  destruct (is_human_readable fmt); intros Hv.
  - rewrite Hv. eexists. split; [done|]. destruct (visited (hv_inner v)) as [-> _]; [by apply ser_visible_valid|]. done.
  - eexists. split; [done|]. by destruct (visited (hv_inner v)) as [_ ->].
Qed.

Lemma header_value_refused v :
  carried_value v = false -> is_human_readable fmt = true -> serialize_header_value v = Err SE_ToStr.
Proof. unfold carried_value, serialize_header_value, to_str. intros Hv Hh. rewrite Hh in *. by rewrite Hv. Qed.

Lemma extend_multi x y l : ValueOps.extend (One x) (y :: l) = Multi (x :: y :: l).
Proof.
  unfold ValueOps.extend. simpl. assert (H : forall acc, fold_left ValueOps.append l (Multi acc) = Multi (acc ++ l)).
  { induction l as [|z l IH]; intros acc; simpl; [by rewrite app_nil_r|]. by rewrite IH, <- app_assoc. }
  apply H.
Qed.

Lemma seq_back l :
  forallb carried_value l = true ->
  exists cs, serialize_seq l = Ok (C_Seq cs) /\
    (forall v, visit_seq cs (Some v) = Ok (ValueOps.extend v (plain_value <$> l))) /\
    (l <> [] -> visit_seq cs None = Ok (normal (Multi l))).
Proof.
  intros Hl. unfold serialize_seq.
  assert (H : exists cs, try_map serialize_header_value l = Ok cs /\
    (forall v, visit_seq cs (Some v) = Ok (ValueOps.extend v (plain_value <$> l))) /\
    (forall x l', l = x :: l' -> visit_seq cs None = Ok (ValueOps.extend (One (plain_value x)) (plain_value <$> l')))).
  { induction l as [|x l IH]; simpl; [by exists []|]. simpl in Hl. apply andb_true_iff in Hl as [Hx Hl].
    destruct (header_value_back x Hx) as (c & -> & Hc & _). destruct (IH Hl) as (cs & -> & Hs & _).
    exists (c :: cs). split; [done|]. simpl. rewrite Hc. split; [intros v; by rewrite Hs|]. intros x' l' [= <- <-]. by rewrite Hs. }
  destruct H as (cs & -> & Hs & Hn). exists cs. split_and!; [done|done|]. intros Hne. destruct l as [|x l]; [done|].
  rewrite (Hn x l eq_refl). unfold normal. simpl. f_equal. destruct l as [|y l]; [done|]. simpl.
  exact (extend_multi _ _ _).
Qed.

Lemma value_back v :
  ValueOps.wf v -> forallb carried_value (ValueOps.to_list v) = true ->
  exists c, serialize_value v = Ok c /\ deserialize_value c = Ok (normal v).
Proof.
  intros Hw Hv. assert (Hseq : forall l, l <> [] -> forallb carried_value l = true ->
    exists c, serialize_seq l = Ok c /\ deserialize_value c = Ok (normal (Multi l))).
  { intros l Hne Hl. destruct (seq_back l Hl) as (cs & -> & _ & Hn). exists (C_Seq cs). split; [done|].
    unfold deserialize_value. rewrite Hn by done. by destruct (is_human_readable fmt). }
  destruct v as [x|l]; simpl in *.
  - destruct (is_human_readable fmt) eqn:Hh; [|by apply (Hseq [x])].
    rewrite andb_true_r in Hv. destruct (header_value_back x Hv) as (c & -> & _ & Hd). rewrite Hh in Hd. eauto.
  - by apply Hseq.
Qed.

Lemma value_refused v :
  forallb carried_value (ValueOps.to_list v) = false -> is_human_readable fmt = true -> serialize_value v = Err SE_ToStr.
Proof.
  intros Hv Hh. assert (Hseq : forall l, forallb carried_value l = false -> serialize_seq l = Err SE_ToStr).
  { intros l Hl. unfold serialize_seq.
    assert (try_map serialize_header_value l = Err SE_ToStr) as ->; [|done]. induction l as [|x l IH]; [done|]. simpl in *.
    destruct (carried_value x) eqn:Hx; [|by rewrite header_value_refused].
    destruct (header_value_back x Hx) as (c & -> & _). by rewrite IH. }
  destruct v as [x|l]; simpl in *; [|by apply Hseq]. rewrite Hh. rewrite andb_true_r in Hv. by apply header_value_refused.
Qed.

(** Inserting entries of different names one after the other. *)
Lemma visit_map_inserts l es m :
  Forall2 (fun nv e => e.1 = nv.1 /\ borrowed_key fmt e.1 = true /\ name_from e.1 = Some nv.1 /\ deserialize_value e.2 = Ok nv.2) l es ->
  visit_map es m = Ok (fold_left (fun m (nv : HeaderName * Value) => <[nv.1 := nv.2]> m) l m).
Proof.
  intros Hl. revert m. induction Hl as [|[n v] [k c] l es (He & Hb & Hn & Hv) _ IH]; intros m; simpl in *; [done|].
  subst k. rewrite Hb, Hn, Hv. simpl. apply IH.
Qed.

Lemma inserts_map (l : list (HeaderName * Value)) (m : HeaderMap) :
  NoDup l.*1 -> fold_left (fun (m : HeaderMap) nv => <[nv.1 := nv.2]> m) l m = list_to_map l ∪ m.
Proof.
  revert m. induction l as [|[n v] l IH]; intros m Hd; simpl; [by rewrite (left_id_L ∅ (∪))|].
  apply NoDup_cons in Hd as [Hn Hd]. rewrite IH by done. simpl. rewrite <- insert_union_l. rewrite <- insert_union_r; [done|].
  by apply not_elem_of_list_to_map_1.
Qed.

(** C26. A header map and its serialized form.  In the order of the hash map, with as
    many entries as the serializer was told: when the values can be carried (valid
    bytes in a binary format, visible ASCII in one for people), the map comes back
    with every name's values in their order, but for their sensitive marks and a
    single value's representation; when they cannot, which a format for people
    alone has, the serialization fails and nothing is written. *)
Theorem serde_roundtrip (m : HeaderMap) inner :
  inner ≡ₚ map_to_list m -> HeaderMapOps.wf m ->
  (forall k, k ∈ dom m -> name_from k = Some k /\ borrowed_key fmt k = true) ->
  (map_Forall (fun _ v => forallb carried_value (ValueOps.to_list v) = true) m ->
     exists l, serialize_map inner = Ok (C_Map (size m) l) /\ length l = size m /\
       deserialize_map (C_Map (size m) l) = Ok (normal <$> m)) /\
  (is_human_readable fmt = true -> ~ map_Forall (fun _ v => forallb carried_value (ValueOps.to_list v) = true) m ->
     serialize_map inner = Err SE_ToStr).
Proof.
  intros Hi Hw Hk.
  assert (Hlen : length inner = size m) by (rewrite Hi; apply length_map_to_list).
  assert (Hin : forall nv, nv ∈ inner -> m !! nv.1 = Some nv.2).
  { intros [n v]. rewrite Hi. apply elem_of_map_to_list. }
  unfold serialize_map. split.
  - intros Hc.
    assert (H : exists l, try_map (fun nv => match serialize_value nv.2 with Ok c => Ok (nv.1, c) | Err e => Err e end) inner = Ok l /\
      Forall2 (fun nv e => e.1 = nv.1 /\ borrowed_key fmt e.1 = true /\ name_from e.1 = Some nv.1 /\ deserialize_value e.2 = Ok nv.2)
        (prod_map id normal <$> inner) l).
    { clear Hi Hlen. induction inner as [|[n v] inner IH]; [by exists []|]. simpl.
      specialize (Hin (n, v) ltac:(set_solver)) as Hnv. simpl in Hnv.
      destruct (value_back v) as (c & -> & Hd); [by eapply Hw|by eapply Hc|].
      destruct IH as (l & -> & Hl); [intros; apply Hin; set_solver|]. exists ((n, c) :: l). split; [done|].
      constructor; [|done]. simpl. destruct (Hk n) as [? ?]; [by apply elem_of_dom_2 in Hnv|]. done. }
    destruct H as (l & -> & Hl). exists l. rewrite Hlen. split_and!; [done| |].
    { apply Forall2_length in Hl. rewrite length_fmap in Hl. congruence. }
    unfold deserialize_map. rewrite (visit_map_inserts _ _ _ Hl), inserts_map.
    + unfold HeaderMapOps.new. rewrite (right_id_L ∅ (∪)). f_equal. rewrite list_to_map_fmap. f_equal.
      rewrite (list_to_map_proper _ (map_to_list m)); [by rewrite list_to_map_to_list| |done].
      rewrite Hi. apply NoDup_fst_map_to_list.
    + rewrite <- list_fmap_compose. rewrite Hi. apply NoDup_fst_map_to_list.
  - intros Hh Hc. assert (Hex : Exists (fun nv => forallb carried_value (ValueOps.to_list nv.2) = false) inner).
    { apply dec_stable. intros Hn. apply Hc. intros k v Hkv. destruct (forallb _ _) eqn:Hv; [done|].
      exfalso. apply Hn, Exists_exists. exists (k, v). split; [by rewrite Hi; apply elem_of_map_to_list|done]. }
    assert (try_map (fun nv => match serialize_value nv.2 with Ok c => Ok (nv.1, c) | Err e => Err e end) inner = Err SE_ToStr) as ->; [|done].
    clear Hi Hlen Hc. induction Hex as [[n v] inner Hv|[n v] inner _ IH]; simpl in *; [by rewrite value_refused|].
    rewrite IH by (intros; apply Hin; set_solver).
    destruct (serialize_value v) as [|[]] eqn:Hs; [done|]. done.
Qed.
(** ** What is read *)

(** Values that may be in a header map. *)
Definition sound_value (v : Value) : Prop :=
  ValueOps.wf v /\ Forall (fun v => value_valid v /\ hv_is_sensitive v = false) (ValueOps.to_list v).

Lemma visited_sound v s :
  visit_text s = Ok v \/ visit_buf s = Ok v -> value_valid v /\ hv_is_sensitive v = false.
Proof.
  unfold visit_text, visit_buf, hv_visit_string, hv_visit_str, hv_visit_bytes, hv_visit_byte_buf, from_str, from_bytes, from_shared, try_from_generic.
  intros H. destruct (forallb is_valid s) eqn:Hs; destruct (owned_string fmt s), (owned_bytes fmt s); destruct H; simplify_eq; done.
Qed.

Lemma header_value_sound c v : deserialize_header_value c = Ok v -> value_valid v /\ hv_is_sensitive v = false.
Proof.
  unfold deserialize_header_value. destruct (is_human_readable fmt), c; intros H; try done;
    eapply visited_sound; eauto.
Qed.

Lemma visit_seq_sound l value v :
  (forall x, value = Some x -> sound_value x) -> visit_seq l value = Ok v -> sound_value v.
Proof.
  revert value. induction l as [|c l IH]; intros value Hx; simpl.
  - destruct value; [|done]. intros [= <-]. by apply Hx.
  - destruct (deserialize_header_value c) as [h|] eqn:Hc; [|done]. apply header_value_sound in Hc. apply IH.
    intros x [= <-]. destruct value as [y|]; [|split; [done|by constructor]].
    destruct (Hx y eq_refl) as [_ Hy]. split; [apply ValueOps.value_wf_append|].
    rewrite ValueOps.to_list_append. apply Forall_app. split; [done|by constructor].
Qed.

Lemma value_sound c v : deserialize_value c = Ok v -> sound_value v.
Proof.
  assert (Hone : forall r, (forall h, r = Ok h -> value_valid h /\ hv_is_sensitive h = false) -> visit_one r = Ok v -> sound_value v).
  { intros [h|] Hh Hr; simplify_eq/=. split; [done|]. constructor; [by apply Hh|constructor]. }
  unfold deserialize_value. destruct (is_human_readable fmt), c; try done;
    first [by apply visit_seq_sound | apply Hone; intros; eapply visited_sound; eauto].
Qed.

(** Whatever is deserialized, a header map that results is one safe code could
    have made: no deque of values is empty, so that no read of it panics, every
    value is of valid bytes, no line end among them, and none is marked sensitive;
    a name is one that the http crate accepted. *)
Theorem serde_sound (c : Content) (m : HeaderMap) :
  deserialize_map c = Ok m ->
  HeaderMapOps.wf m /\
  (forall k v, v ∈ HeaderMapOps.values m k -> value_valid v /\ hv_is_sensitive v = false) /\
  (forall k, k ∈ dom m -> exists key, name_from key = Some k).
Proof.
  assert (H : forall l m0 m, visit_map l m0 = Ok m ->
    map_Forall (fun k v => sound_value v /\ exists key, name_from key = Some k) m0 ->
    map_Forall (fun k v => sound_value v /\ exists key, name_from key = Some k) m).
  { clear. induction l as [|[key c] l IH]; intros m0 m; simpl; [by intros [= <-]|].
    destruct (borrowed_key fmt key); [|done]. simpl. destruct (deserialize_value c) as [v|] eqn:Hv; [|done].
    destruct (name_from key) as [name|] eqn:Hn; [|done]. intros Hl H0. eapply IH; [exact Hl|].
    apply map_Forall_insert_2; [|done]. split; [by eapply value_sound|eauto]. }
  unfold deserialize_map. destruct c as [| | |len l]; try done. intros Hc.
  specialize (H l _ m Hc (map_Forall_empty _)). split_and!.
  - intros k v Hk. by destruct (H k v Hk) as [[? _] _].
  - intros k v. unfold HeaderMapOps.values. destruct (m !! k) as [x|] eqn:Hk; simpl; [|by intros ?%elem_of_nil].
    destruct (H k x Hk) as [[_ Hx] _]. rewrite Forall_forall in Hx. apply Hx.
  - intros k [v Hk]%elem_of_dom. by destruct (H k v Hk) as [_ ?].
Qed.
End Names.
End Format.

(** ** Formats *)

Module SerdeRun.
Definition lower (b : Z) : Z := if (65 <=? b) && (b <=? 90) then b + 32 else b.
Definition name_from (l : list Z) : option HeaderName := Some (lower <$> l).
Definition json : Format := mkFormat true (fun _ => false) (fun _ => false) (fun _ => true).
Definition bincode : Format := mkFormat false (fun _ => true) (fun _ => true) (fun _ => true).
Definition text (s : string) : HeaderValue := mkHeaderValue (bs s) false.
Definition agent : HeaderName := bs "user-agent".

(** One name with two values, one with a sensitive value. *)
Definition sample : HeaderMap :=
  <[agent := Multi [text "hello"; text "world"]]> {[bs "x-key" := One (mkHeaderValue (bs "secret") true)]}.

Example mixed_case :
  deserialize_map json name_from (C_Map 1 [(bs "X-Foo", C_Str (bs "BAR"))]) = Ok {[bs "x-foo" := One (text "BAR")]}.
Proof. reflexivity. Qed.
Example no_values : deserialize_map json name_from (C_Map 1 [(agent, C_Seq [])]) = Err DE_InvalidLength.
Proof. reflexivity. Qed.
Example opaque_value :
  (serialize_map json [(bs "x", One (mkHeaderValue [200] false))] = Err SE_ToStr) /\
  serialize_map bincode [(bs "x", One (mkHeaderValue [200] false))] = Ok (C_Map 1 [(bs "x", C_Seq [C_Bytes [200]])]).
Proof. by split. Qed.
End SerdeRun.

Lemma serde_roundtrip_witness :
  exists l, serialize_map SerdeRun.json (map_to_list SerdeRun.sample) = Ok (C_Map 2 l) /\
    deserialize_map SerdeRun.json SerdeRun.name_from (C_Map 2 l)
    = Ok (<[SerdeRun.agent := Multi [SerdeRun.text "hello"; SerdeRun.text "world"]]> {[bs "x-key" := One (SerdeRun.text "secret")]}).
Proof.
  destruct (serde_roundtrip SerdeRun.json SerdeRun.name_from SerdeRun.sample (map_to_list SerdeRun.sample)) as [H _].
  - reflexivity.
  - apply map_Forall_insert_2; [done|]. by apply map_Forall_singleton.
  - intros k [v Hk]%elem_of_dom. unfold SerdeRun.sample in Hk. apply lookup_insert_Some in Hk as [[<- _]|[_ Hk%lookup_singleton_Some]]; [|destruct Hk as [<- _]];
      vm_compute; done.
  - destruct H as (l & Hl & _ & Hd).
    + apply map_Forall_insert_2; [done|]. by apply map_Forall_singleton.
    + exists l. split; [exact Hl|]. etrans; [exact Hd|reflexivity].
Defined.

Lemma serde_sound_witness :
  exists m, deserialize_map SerdeRun.json SerdeRun.name_from (C_Map 1 [(bs "X-Foo", C_Seq [C_Str (bs "a"); C_Str (bs "b")])]) = Ok m /\
    HeaderMapOps.wf m.
Proof.
  eexists. split; [reflexivity|].
  exact (proj1 (serde_sound SerdeRun.json SerdeRun.name_from
                  (C_Map 1 [(bs "X-Foo", C_Seq [C_Str (bs "a"); C_Str (bs "b")])]) _ eq_refl)).
Defined.
