(* ===== verification/WsConnect.v ===== *)
(** * The WebSocket client's connection

    The rest of [ws/client.rs]: [WsClient::new], [connect] around the head and the
    check of [WsHandshake], and what a [WsConnection] gives an application's service
    or the channel of [receiver].  The connector and the io are arguments: [send]
    and [recv] of the io with the HTTP codec, and where the timer fires, if it does.
    The Debug texts are left out. *)
From S2P Require Import Prelude Headers Message Config Errors Payload Decoder Encoder EncoderThms H1Codec Body.
From S2P Require Import Response ClientPool ClientExchange WsProto WsFrame WsCodec WsHandshake WsTransport.

(** ** [WsClient] *)

Inductive WsConfigError := CF_MissingScheme | CF_UnknownScheme | CF_MissingHost | CF_Http (e : HttpError).

Definition known_scheme (s : list Z) : bool :=
  bool_decide (s = bs "http") || bool_decide (s = bs "ws") || bool_decide (s = bs "https") || bool_decide (s = bs "wss").

(** [WsClientError], with the checks of the response in one. *)
Inductive WsConnectError :=
| WE_InvalidRequest (e : EncodeError)
| WE_InvalidResponse (e : DecodeError)
| WE_Check (e : WsClientError)
| WE_Timeout
| WE_Connect (e : ConnectError)
| WE_Disconnected (e : option Z).

(** [From<Either<EncodeError, io::Error>>] and [From<Either<DecodeError, io::Error>>] *)
Definition ws_of_send_error (e : EncodeError + Z) : WsConnectError :=
  match e with inl e => WE_InvalidRequest e | inr e => WE_Disconnected (Some e) end.
Definition ws_of_recv_error (e : DecodeError + Z) : WsConnectError :=
  match e with inl e => WE_InvalidResponse e | inr e => WE_Disconnected (Some e) end.

Record WsConnection (W : Type) := mkConnection { wn_io : W; wn_codec : WsCodec; wn_res : ResponseHead }.
Arguments mkConnection {W} _ _ _.
Arguments wn_io {W} _.
Arguments wn_codec {W} _.
Arguments wn_res {W} _.

(** Where the request's timer fires. *)
Inductive Fires := F_Never | F_Sending | F_Waiting.

#[export] Instance Fires_eq_dec : EqDecision Fires.
Proof. solve_decision. Defined.

Section Client.
Context `{Parsers} `{UriAccess}.

(** [WsClient::new] up to the settings: the URI it keeps. *)
Definition ws_client_new (uri : result Uri HttpError) : result Uri WsConfigError :=
  match uri with
  | Err e => Err (CF_Http e)
  | Ok uri =>
      match uri_host uri with
      | None => Err CF_MissingHost
      | Some _ =>
          match uri_scheme_str uri with
          | None => Err CF_MissingScheme
          | Some scheme => if known_scheme scheme then Ok uri else Err CF_UnknownScheme
          end
      end
  end.

(** ** [connect] *)

Section Connect.
Context (base64_encode : list Z -> list Z) {W : Type}.
Context (connector : Uri -> result W ConnectError).
Context (hs_send : ClientRawRequest -> ClientCodec -> W -> outcome (result unit (EncodeError + Z) * ClientCodec * W)).
Context (hs_recv : ClientCodec -> W -> outcome (result (option ResponseHead) (DecodeError + Z) * ClientCodec * W)).

(** The future [fut]: the request is sent and the response read; the timer drops it
    where it is. *)
Definition exchange_heads (fires : Fires) (head : RequestHead) (codec : ClientCodec) (io : W)
    : outcome (result (ResponseHead * W) WsConnectError) :=
  if bool_decide (fires = F_Sending) then Val (Err WE_Timeout)
  else
    '(r, codec, io) ← hs_send (mkRawRequest head None BS_None) codec io;
    match r with
    | Err e => Val (Err (ws_of_send_error e))
    | Ok _ =>
        if bool_decide (fires = F_Waiting) then Val (Err WE_Timeout)
        else
          '(r, _, io) ← hs_recv codec io;
          Val match r with
              | Err e => Err (ws_of_recv_error e)
              | Ok None => Err (WE_Disconnected None)
              | Ok (Some response) => Ok (response, io)
              end
    end.

(** [WsClient::connect]; [inner] is the order of the settings' headers, [http] the
    configuration of the io, [fires] counts when there is a timeout. *)
Definition ws_connect (cfg : WsClientConfig) (http : HttpServiceConfig) (inner : list (HeaderName * Value)) (uri : Uri)
    (nonce : list Z) (p : list RequestHead) (fires : Fires) : outcome (result (WsConnection W) WsConnectError * list RequestHead) :=
  match uri_host uri with
  | None => Panic
  | Some host =>
      '(head, key, p) ← connect_head base64_encode inner uri host nonce p;
      match connector uri with
      | Err e => Val (Err (WE_Connect e), p)
      | Ok io =>
          r ← exchange_heads (if wc_timeout cfg =? 0 then F_Never else fires) head (client_new true http) io;
          match r with
          | Err e => Val (Err e, p)
          | Ok (response, io) =>
              v ← verify_response base64_encode key response;
              Val (match v with
                   | Err e => Err (WE_Check e)
                   | Ok _ => Ok (mkConnection io (connection_codec cfg) response)
                   end, p)
          end
      end
  end.
End Connect.
End Client.

(** [WsConnection::sink] *)
Definition connection_sink {W} (c : WsConnection W) : WsSink := mkSink (wn_codec c) [] 0 false.

(** ** [start] and [receiver] *)

(** [DispatchItem] and its [Reason]. *)
Inductive StopReason :=
| SR_KeepAliveTimeout
| SR_ReadTimeout
| SR_Decoder (e : WsError)
| SR_Encoder (e : WsError)
| SR_Io (e : option Z).
Inductive DispatchItem := DI_Item (f : WsFrame) | DI_Control | DI_Stop (r : StopReason).

(** [WsError] of a service's error [E]. *)
Inductive StartError (E : Type) :=
| ST_Service (e : E)
| ST_KeepAlive
| ST_ReadTimeout
| ST_Protocol (e : WsError)
| ST_Disconnected (e : option Z).
Arguments ST_Service {E} e.
Arguments ST_KeepAlive {E}.
Arguments ST_ReadTimeout {E}.
Arguments ST_Protocol {E} e.
Arguments ST_Disconnected {E} e.

(** The service that [start] gives the dispatcher, around the application's. *)
Definition start_call {S E} (svc : WsFrame -> S -> result (option WsMessage) E * S) (item : DispatchItem) (s : S)
    : result (option WsMessage) (StartError E) * S :=
  match item with
  | DI_Item item =>
      let '(r, s) := svc item s in (match r with Ok m => Ok m | Err e => Err (ST_Service e) end, s)
  | DI_Control => (Ok None, s)
  | DI_Stop SR_KeepAliveTimeout => (Err ST_KeepAlive, s)
  | DI_Stop SR_ReadTimeout => (Err ST_ReadTimeout, s)
  | DI_Stop (SR_Decoder e | SR_Encoder e) => (Err (ST_Protocol e), s)
  | DI_Stop (SR_Io e) => (Err (ST_Disconnected e), s)
  end.

(** The channel of [receiver]: what was sent into it, whether its reader is there,
    and whether the io was told to close. *)
Record Receiver := mkReceiver { rc_sent : list (result WsFrame (StartError unit)); rc_open : bool; rc_closed : bool }.

Definition receiver_svc (item : WsFrame) (s : Receiver) : result (option WsMessage) unit * Receiver :=
  (Ok None,
   if rc_open s then mkReceiver (rc_sent s ++ [Ok item]) true (rc_closed s)
   else mkReceiver (rc_sent s) false true).

(** The task of [receiver], from what the dispatcher gives the service, one item after
    the other, until the service fails; [rc_open] can change in between. *)
Fixpoint receiver_task (items : list (DispatchItem * bool)) (s : Receiver) : Receiver :=
  match items with
  | [] => s
  | (item, open) :: items =>
      match start_call receiver_svc item (mkReceiver (rc_sent s) (rc_open s && open) (rc_closed s)) with
      | (Ok _, s) => receiver_task items s
      | (Err e, s) => if rc_open s then mkReceiver (rc_sent s ++ [Err e]) true (rc_closed s) else s
      end
  end.

(** ** Theorems *)

(** What a response proves: it is a 101 that upgrades the connection to websocket and
    has the accept value of the key. *)
Definition upgraded (base64_encode : list Z -> list Z) (key : list Z) (r : ResponseHead) : Prop :=
  rs_status r = SWITCHING_PROTOCOLS /\
  (exists u, hget (rs_headers r) UPGRADE = Val (Some u) /\ mentions (bs "websocket") u = true) /\
  (exists c, hget (rs_headers r) CONNECTION = Val (Some c) /\ mentions (bs "upgrade") c = true) /\
  (exists a, hget (rs_headers r) SEC_WEBSOCKET_ACCEPT = Val (Some a) /\ (length key <= 32)%nat /\
     hv_inner a = base64_encode (Sha1.sha1 (key ++ WS_GUID))).

Lemma verify_response_proves base64_encode key r :
  verify_response base64_encode key r = Val (Ok tt) -> upgraded base64_encode key r.
Proof.
  unfold verify_response, upgraded. intros H.
  destruct (Z.eqb_spec (rs_status r) SWITCHING_PROTOCOLS) as [Hs|]; [|done]. split; [exact Hs|]. cbn [negb] in H.
  destruct (hget (rs_headers r) UPGRADE) as [up| |]; [|done..]. cbn [mbind outcome_bind] in H.
  destruct up as [u|]; [|done]. destruct (mentions (bs "websocket") u) eqn:Hu; [|done]. cbn [negb] in H.
  destruct (hget (rs_headers r) CONNECTION) as [cn| |]; [|done..]. cbn [mbind outcome_bind] in H.
  destruct cn as [c|]; [|done]. destruct (mentions (bs "upgrade") c) eqn:Hc; [|done]. cbn [negb] in H.
  destruct (hget (rs_headers r) SEC_WEBSOCKET_ACCEPT) as [ac| |]; [|done..]. cbn [mbind outcome_bind] in H.
  destruct ac as [a|]; [|done].
  destruct (Nat.le_gt_cases (length key) 32) as [Hk|Hk].
  - rewrite hash_key_ok in H by done. cbn [mbind outcome_bind] in H. case_bool_decide as Ha; [|done]. eauto 10.
  - unfold hash_key in H. by rewrite (proj2 (Nat.ltb_lt _ _) Hk) in H.
Qed.

Section Checked.
Context `{Parsers} `{UriAccess} (base64_encode : list Z -> list Z) {W : Type}.
Context (connector : Uri -> result W ConnectError).
Context (hs_send : ClientRawRequest -> ClientCodec -> W -> outcome (result unit (EncodeError + Z) * ClientCodec * W)).
Context (hs_recv : ClientCodec -> W -> outcome (result (option ResponseHead) (DecodeError + Z) * ClientCodec * W)).

(** C14. A WebSocket connection that an application is given was upgraded.  For a client
    that [new] made, over any connector, any io and any timer: there is a host, so
    that [connect] does not panic on it; when it succeeds, one request was sent, the
    head with the fresh key, and the response that was read is a 101 whose upgrade,
    connection and accept values prove that the server did the handshake for this
    key; and the codec masks unless the settings ask for the server's mode, with
    their limit. *)
Theorem ws_connect_upgraded uri0 uri cfg http inner nonce p fires :
  ws_client_new uri0 = Ok uri ->
  (exists host, uri_host uri = Some host) /\
  forall c p', ws_connect base64_encode connector hs_send hs_recv cfg http inner uri nonce p fires = Val (Ok c, p') ->
    exists host head io codec1 io1 codec2,
      uri_host uri = Some host /\ connector uri = Ok io /\
      connect_head base64_encode inner uri host nonce p = Val (head, base64_encode nonce, p') /\
      hs_send (mkRawRequest head None BS_None) (client_new true http) io = Val (Ok tt, codec1, io1) /\
      hs_recv codec1 io1 = Val (Ok (Some (wn_res c)), codec2, wn_io c) /\
      upgraded base64_encode (base64_encode nonce) (wn_res c) /\
      ws_max_size (wn_codec c) = wc_max_size cfg /\ has (wn_codec c) WsFlags.SERVER = wc_server_mode cfg.
Proof.
  intros Hn. assert (Hh : exists host, uri_host uri = Some host).
  { unfold ws_client_new in Hn. destruct uri0 as [u|]; [|done]. destruct (uri_host u) as [h|] eqn:Hu; [|done].
    destruct (uri_scheme_str u); [|done]. destruct (known_scheme _); [|done]. simplify_eq. eauto. }
  split; [exact Hh|]. destruct Hh as [host Hh]. intros c p'. unfold ws_connect. rewrite Hh.
  destruct (connect_head base64_encode inner uri host nonce p) as [[[head key] p1]| |] eqn:Hc; [|done..]. cbn [mbind outcome_bind].
  assert (Hkey : key = base64_encode nonce).
  { unfold connect_head in Hc. destruct (MessagePool.get_message p) as [h0 p0]. cbn beta iota zeta in Hc.
    destruct (if hcontains _ HOST then _ else _) as [m| |]; [|done..]. cbn [mbind outcome_bind] in Hc.
    destruct (value_from (base64_encode nonce)); [|done]. by simplify_eq. }
  destruct (connector uri) as [io|e] eqn:Hcn; [|by intros [= ? _]].
  unfold exchange_heads. case_bool_decide; [cbn; by intros [= ? _]|].
  destruct (hs_send _ _ _) as [[[[[]|e] c1] w1]| |] eqn:Hs; cbn [mbind outcome_bind]; try done.
  case_bool_decide; [cbn; by intros [= ? _]|].
  destruct (hs_recv c1 w1) as [[[[[r|]|e] c2] w2]| |] eqn:Hr; cbn [mbind outcome_bind]; try done.
  destruct (verify_response base64_encode key r) as [[[]|e]| |] eqn:Hv; cbn [mbind outcome_bind]; try done.
  intros [= <- <-]. subst key. exists host, head, io, c1, w1, c2. cbn [wn_io wn_codec wn_res].
  split_and!; try done; [by apply verify_response_proves|..]; unfold connection_codec; by destruct (wc_server_mode cfg).
Qed.
End Checked.

(** What an application reads from [receiver]: the frames that came while it was
    there, each once and in order, and, as the last item, why the connection ended, in
    the words of the reason; once it is gone and another frame comes, the io is told
    to close and nothing more is kept. *)
Theorem receiver_gives (frames : list WsFrame) (r : StopReason) (late : WsFrame) :
  let reason := match r with
                | SR_KeepAliveTimeout => ST_KeepAlive
                | SR_ReadTimeout => ST_ReadTimeout
                | SR_Decoder e | SR_Encoder e => ST_Protocol e
                | SR_Io e => ST_Disconnected e
                end in
  let start := mkReceiver [] true false in
  let there := map (fun f => (DI_Item f, true)) frames in
  receiver_task (there ++ [(DI_Control, true); (DI_Stop r, true)]) start = mkReceiver (map Ok frames ++ [Err reason]) true false /\
  receiver_task (there ++ [(DI_Item late, false); (DI_Stop r, true)]) start = mkReceiver (map Ok frames) false true.
Proof.
  intros reason start there.
  assert (Hr : forall rest sent, receiver_task (there ++ rest) (mkReceiver sent true false)
    = receiver_task rest (mkReceiver (sent ++ map Ok frames) true false)).
  { intros rest. subst there. induction frames as [|f l IH]; intros sent; cbn [map app]; [by rewrite app_nil_r|].
    cbn [receiver_task start_call receiver_svc rc_sent rc_open rc_closed andb]. rewrite IH, <- app_assoc. done. }
  subst start. rewrite !Hr. cbn [app]. by destruct r.
Qed.
