(* ===== verification/WsConnectWorld.v ===== *)
(** * A WebSocket client connects

    [WsClient::connect] over an io that keeps what is written and gets the server's
    answer in two segments, the second with the first bytes of a frame; the answer
    is the one of the handshake's run. *)
From S2P Require Import Prelude Headers Message Config Errors Payload Decoder DecoderThms.
From S2P Require Import Encoder EncoderThms H1Codec Body Response ClientPool ClientExchange ClientExchangeThms ClientExchangeWorld.
From S2P Require Import WsProto WsFrame WsCodec WsHandshake WsHandshakeWorld WsTransport WsConnect.
Import RefParsers RefEnv RefIo.

#[local] Instance chat_uri : UriAccess := {
  uri_scheme_str _ := Some (bs "ws");
  uri_host _ := Some (bs "h");
  uri_port_u16 _ := None
}.

Definition hs_send (req : ClientRawRequest) (c : ClientCodec) (w : Io) := io_send req c w.
Definition hs_recv (c : ClientCodec) (w : Io) : outcome (result (option ResponseHead) (DecodeError + Z) * ClientCodec * Io) :=
  '(r, c, w) ← recv_on (i_coming w) c w;
  Val (match r with Some r => r | None => Ok None end, c, w).

(** A ping of the server comes with the answer. *)
Definition segments : list (list Z) := [ztake 30 response_bytes; zdrop 30 response_bytes ++ [0x89; 0]].
Definition connected := ws_connect (W := Io) Base64.encode (fun _ => Ok (io0 segments)) hs_send hs_recv ws_config_new ConfigOps.new
  (visited (client_headers [])) uri nonce [] F_Never.

Definition connection : WsConnection Io :=
  match connected with Val (Ok c, _) => c | _ => mkConnection (io0 []) ws_new ResponseHeadOps.default end.

Lemma connected_runs : connected = Val (Ok connection, []).
Proof. vm_compute. reflexivity. Qed.

(** The ping is left for the codec. *)
Example frame_kept : i_buf (wn_io connection) = [0x89; 0] /\ i_out (wn_io connection) = request_bytes.
Proof. vm_compute. done. Qed.

Lemma ws_connect_upgraded_witness :
  ws_client_new (Ok uri) = Ok uri /\
  upgraded Base64.encode (Base64.encode nonce) (wn_res connection) /\ has (wn_codec connection) WsFlags.SERVER = false.
Proof.
  assert (Hn : ws_client_new (Ok uri) = Ok uri) by reflexivity. split; [exact Hn|].
  destruct (ws_connect_upgraded Base64.encode (fun _ => Ok (io0 segments)) hs_send hs_recv (Ok uri) uri ws_config_new ConfigOps.new
              (visited (client_headers [])) nonce [] F_Never Hn) as [_ H].
  destruct (H connection [] connected_runs) as (host & head & io & c1 & io1 & c2 & _ & _ & _ & _ & _ & Hu & _ & Hs).
  split; [exact Hu|exact Hs].
Defined.
