(* ===== verification/HttpMessage.v ===== *)
(** * Requests as an application sees them

    [httpmessage.rs], [request.rs] and [payload.rs]: what is read off a message's
    headers, a request with its payload, and the text its Debug makes.  The polls of
    an HTTP/1 payload and of a stream, the [mime] and [encoding_rs] crates, and the
    http crate's texts are arguments.  The extensions, the cookies (a feature that is
    off by default) and the peer's address are left out. *)
From S2P Require Import Prelude Headers HeaderValues Message Errors Decoder Encoder EncoderThms Body Response WsProto WsCodec WsHandshake.

(** ** [Payload] *)

Section Payloads.
Context {P1 P2 E : Type} (poll_read : P1 -> Poll (option (result (list Z) E)) * P1)
  (poll_next : P2 -> Poll (option (result (list Z) E)) * P2).

Inductive Payload := PL_None | PL_H1 (p : P1) | PL_Stream (p : P2).

(** [Payload::take] *)
Definition payload_take (p : Payload) : Payload * Payload := (p, PL_None).

Definition poll_recv (p : Payload) : Poll (option (result (list Z) E)) * Payload :=
  match p with
  | PL_None => (Ready None, PL_None)
  | PL_H1 pl => let '(r, pl) := poll_read pl in (r, PL_H1 pl)
  | PL_Stream pl => let '(r, pl) := poll_next pl in (r, PL_Stream pl)
  end.

(** ** [Request] *)

Record Request := mkRequest { re_payload : Payload; re_head : RequestHead }.

Definition request_from (head : RequestHead) : Request := mkRequest PL_None head.
Definition request_new (p : list RequestHead) : Request * list RequestHead :=
  let '(head, p) := MessagePool.get_message p in (mkRequest PL_None head, p).
Definition request_with_payload (payload : Payload) (p : list RequestHead) : Request * list RequestHead :=
  let '(head, p) := MessagePool.get_message p in (mkRequest payload head, p).

Definition re_take_payload (r : Request) : Payload * Request := (re_payload r, mkRequest PL_None (re_head r)).
Definition re_replace_payload (r : Request) (payload : Payload) : Payload * Request := (re_payload r, mkRequest payload (re_head r)).
Definition re_into_parts (r : Request) : RequestHead * Payload := (re_head r, re_payload r).
End Payloads.

(** ** [HttpMessage] *)

Definition SEMICOLON : Z := 59.

(** The first item of [str::split]. *)
Fixpoint split_first (sep : Z) (l : list Z) : list Z :=
  match l with b :: l' => if b =? sep then [] else b :: split_first sep l' | [] => [] end.

Inductive ContentTypeError := CT_ParseError | CT_UnknownEncoding | CT_Unexpected | CT_Expected.

Definition content_type (headers : HeaderMap) : outcome (list Z) :=
  ct ← hget headers CONTENT_TYPE;
  Val match ct with
      | Some v => match to_str v with Ok s => trim (split_first SEMICOLON s) | Err _ => [] end
      | None => []
      end.

Section Types.
Context {Mime Encoding : Type} (parse_mime : list Z -> option Mime) (charset : Mime -> option (list Z))
  (for_label : list Z -> option Encoding) (UTF_8 : Encoding).

Definition mime_type (headers : HeaderMap) : outcome (result (option Mime) ContentTypeError) :=
  ct ← hget headers CONTENT_TYPE;
  Val match ct with
      | Some v =>
          match to_str v with
          | Ok s => match parse_mime s with Some mt => Ok (Some mt) | None => Err CT_ParseError end
          | Err _ => Err CT_ParseError
          end
      | None => Ok None
      end.

Definition encoding (headers : HeaderMap) : outcome (result Encoding ContentTypeError) :=
  m ← mime_type headers;
  Val match m with
      | Err e => Err e
      | Ok (Some mime_type) =>
          match charset mime_type with
          | Some label => match for_label label with Some enc => Ok enc | None => Err CT_UnknownEncoding end
          | None => Ok UTF_8
          end
      | Ok None => Ok UTF_8
      end.
End Types.

(** Whether the coding is chunked; [None] is [DecodeError::Header]. *)
Definition message_chunked (headers : HeaderMap) : outcome (option bool) :=
  te ← hget headers TRANSFER_ENCODING;
  Val match te with
      | Some v =>
          match to_str v with
          | Ok s => Some (contains_str (bs "chunked") (to_ascii_lowercase <$> s))
          | Err _ => None
          end
      | None => Some false
      end.

(** ** The Debug text *)

Section Debug.
Context (debug_version : Version -> list Z) (debug_name debug_str : list Z -> list Z) (uri_path : Uri -> list Z) (uri_query : Uri -> option (list Z)).

Definition REDACTED : list Z := bs "<REDACTED>".

(** The loop over the headers. *)
Fixpoint debug_headers (pairs : list (HeaderName * HeaderValue)) : outcome (list Z) :=
  match pairs with
  | [] => Val []
  | (key, val) :: pairs =>
      text ← (if bool_decide (key = AUTHORIZATION) then Val REDACTED else value_debug val);
      rest ← debug_headers pairs;
      Val (bs "    " ++ debug_name key ++ bs ": " ++ text ++ [LF] ++ rest)
  end.

Definition request_debug (head : RequestHead) (inner : list (HeaderName * Value)) : outcome (list Z) :=
  let pairs := drain HeaderMapOps.iter_next (S (length (flat_map HeaderMapThms.entry_pairs inner))) (HeaderMapOps.iter inner) in
  hs ← debug_headers pairs;
  Val ([LF] ++ bs "Request " ++ debug_version (rq_version head) ++ bs " " ++ rq_method head ++ bs ":" ++ uri_path (rq_uri head) ++ [LF]
       ++ match uri_query (rq_uri head) with Some q => bs "  query: ?" ++ debug_str q ++ [LF] | None => [] end
       ++ bs "  headers:" ++ [LF] ++ hs).

(** ** Theorems *)

(** The text of the headers, whatever their values. *)
Lemma debug_headers_text pairs :
  debug_headers pairs = Val (flat_map (fun kv => bs "    " ++ debug_name kv.1 ++ bs ": " ++
    (if bool_decide (kv.1 = AUTHORIZATION) then REDACTED
     else if hv_is_sensitive kv.2 then bs "Sensitive" else [QUOTE] ++ flat_map escape (hv_inner kv.2) ++ [QUOTE]) ++ [LF]) pairs).
Proof.
  induction pairs as [|[k v] pairs IH]; [done|]. cbn [debug_headers flat_map fst snd]. rewrite IH.
  case_bool_decide; [|rewrite value_debug_escapes]; cbn [mbind outcome_bind]; f_equal; by rewrite <- ?app_assoc.
Qed.

(** Two entries that differ in what is not to be seen: the values of Authorization,
    and those that are marked sensitive, but not in how many there are. *)
Definition secret (k : HeaderName) (v v' : HeaderValue) : Prop :=
  k = AUTHORIZATION \/ (hv_is_sensitive v = true /\ hv_is_sensitive v' = true) \/ v = v'.
Definition same_entry (kv kv' : HeaderName * Value) : Prop :=
  kv.1 = kv'.1 /\ Forall2 (secret kv.1) (ValueOps.to_list kv.2) (ValueOps.to_list kv'.2).

(** What goes to a log.  The Debug text of a request is made without a panic for
    every request, and it depends neither on the values of Authorization nor on those
    that are marked sensitive: requests that differ in nothing else have the same
    text. *)
Theorem debug_hides_secrets (head : RequestHead) inner inner' :
  (exists text, request_debug head inner = Val text) /\
  (Forall2 same_entry inner inner' -> request_debug head inner' = request_debug head inner).
Proof.
  unfold request_debug. rewrite !(HeaderMapThms.drain_iter_rest _ (HeaderMapOps.iter _)) by apply Nat.lt_succ_diag_r.
  change (HeaderMapThms.iter_rest (HeaderMapOps.iter inner)) with (flat_map HeaderMapThms.entry_pairs inner).
  change (HeaderMapThms.iter_rest (HeaderMapOps.iter inner')) with (flat_map HeaderMapThms.entry_pairs inner').
  rewrite !debug_headers_text. cbn [mbind outcome_bind]. split; [eauto|]. intros Hs.
  match goal with |- Val (_ ++ _ ++ _ ++ _ ++ _ ++ _ ++ _ ++ _ ++ _ ++ _ ++ _ ++ flat_map ?f ?a) = Val (_ ++ _ ++ _ ++ _ ++ _ ++ _ ++ _ ++ _ ++ _ ++ _ ++ _ ++ flat_map ?f ?b) =>
    assert (flat_map f a = flat_map f b) as ->; [|done] end.
  induction Hs as [|[k v] [k' v'] inner inner' [Hk Hv] _ IH]; [done|]. cbn [fst snd] in *. subst k'.
  cbn [flat_map]. rewrite !flat_map_app. f_equal; [|exact IH]. unfold HeaderMapThms.entry_pairs. cbn [fst snd].
  induction Hv as [|x y l l' Hxy _ IHv]; [done|]. cbn [fmap list_fmap flat_map fst snd]. f_equal; [|exact IHv].
  destruct Hxy as [->|[[-> ->]|<-]]; [by rewrite bool_decide_true|done|done].
Qed.
End Debug.

(** The type of a message is that of its first Content-Type: the text up to the
    first semicolon without the blanks around it, and nothing when there is none or
    its bytes are not visible ASCII; it is what a request asks for as chunked when
    its first Transfer-Encoding has the word in any case. *)
Theorem message_types (headers : HeaderMap) :
  HeaderMapOps.wf headers ->
  content_type headers
  = Val match head (HeaderMapOps.values headers CONTENT_TYPE) with
        | Some v => if forallb is_visible_ascii (hv_inner v) then trim (split_first SEMICOLON (hv_inner v)) else []
        | None => []
        end /\
  message_chunked headers
  = Val match head (HeaderMapOps.values headers TRANSFER_ENCODING) with
        | Some v => if forallb is_visible_ascii (hv_inner v) then Some (mentions (bs "chunked") v) else None
        | None => Some false
        end.
Proof.
  intros Hw. unfold content_type, message_chunked. rewrite !hget_head by done. cbn [mbind outcome_bind]. unfold mentions, to_str.
  split; f_equal; destruct (head _); try done; by destruct (forallb _ _).
Qed.

(** A request with two secrets, and what a log has of it. *)
Definition with_secrets (token cookie : list Z) : list (HeaderName * Value) :=
  [(AUTHORIZATION, One (mkHeaderValue token false)); (bs "cookie", Multi [mkHeaderValue cookie true]); (bs "host", One (mkHeaderValue (bs "h") false))].

Lemma debug_hides_secrets_witness :
  request_debug (fun _ => bs "HTTP/1.1") (fun n => n) (fun s => s) uri_string (fun _ => None) RequestHeadOps.default (with_secrets (bs "Bearer x") (bs "a=1"))
  = request_debug (fun _ => bs "HTTP/1.1") (fun n => n) (fun s => s) uri_string (fun _ => None) RequestHeadOps.default (with_secrets (bs "Basic y") (bs "b")).
Proof.
  apply (debug_hides_secrets (fun _ => bs "HTTP/1.1") (fun n => n) (fun s => s) uri_string (fun _ => None) RequestHeadOps.default
           (with_secrets (bs "Basic y") (bs "b")) (with_secrets (bs "Bearer x") (bs "a=1"))).
  constructor; [split; [reflexivity|constructor; [by left|constructor]]|].
  constructor; [split; [reflexivity|constructor; [by right; left|constructor]]|].
  constructor; [split; [reflexivity|constructor; [by right; right|constructor]]|constructor].
Defined.

Lemma message_types_witness :
  content_type {[CONTENT_TYPE := One (mkHeaderValue (bs "text/html ; charset=utf-8") false)]} = Val (bs "text/html") /\
  message_chunked {[TRANSFER_ENCODING := One (mkHeaderValue (bs "gzip, Chunked") false)]} = Val (Some true).
Proof.
  rewrite (proj1 (message_types {[CONTENT_TYPE := One (mkHeaderValue (bs "text/html ; charset=utf-8") false)]}
    ltac:(by apply map_Forall_singleton))).
  rewrite (proj2 (message_types {[TRANSFER_ENCODING := One (mkHeaderValue (bs "gzip, Chunked") false)]}
    ltac:(by apply map_Forall_singleton))).
  split; vm_compute; reflexivity.
Defined.
