(* ===== verification/NativeStart.v ===== *)
(** * The native server's thread

    [geario_http_native_h1_start] and [geario_http_native_h1_stop] of
    [native_server.rs] of the crate [geario-http-ffi], over the channels and the thread
    of [FfiServer], whose steps are the same.  The number of workers, which is the
    machine's or one, is given to geario's builder and has no effect here; the parser of
    a socket address and the binding of the port are parameters. *)
From S2P Require Import Prelude ClientProxy EncoderThms FfiAbi FfiServer.

Section Native.
Context {A : Type} (parse_addr : list Z -> option A).

(** What the thread asks of geario: the address, and a worker for each processor the
    system tells of. *)
Definition native_workers (available_parallelism : option Z) : Z := default 1 available_parallelism.

Definition native_h1_start (host : option (list Z)) (port : Z) (spawned : bool) (parallelism : option Z)
    (bind : Z -> A -> option bool) (n : nat) : option (option Control) :=
  match (match host with
         | None => Some (bs "0.0.0.0")
         | Some value => if utf8 value then Some value else None
         end) with
  | None => Some None
  | Some host =>
      match parse_addr (host ++ bs ":" ++ to_dec port) with
      | None => Some None
      | Some addr =>
          if spawned
          then
            let c := thread_steps (bind (native_workers parallelism) addr) n (mkControl true 0 [] Th_Starting) in
            match ready_recv c with Some ready => Some (if ready then Some c else None) | None => None end
          else Some None
      end
  end.

Definition native_h1_stop (server : option Control) (n : nat) : option unit :=
  match server with
  | None => Some tt
  | Some c =>
      let c := mkControl (ct_stop_tx c) (S (ct_stopped c)) (ct_ready c) (ct_thread c) in
      let c := thread_steps (Some true) n (mkControl false (ct_stopped c) (ct_ready c) (ct_thread c)) in
      match ct_thread c with Th_Ended => Some tt | _ => None end
  end.

(** A host sees the two servers start and stop alike: with the same address, thread and
    port the two starts give the same handle or NULL, at the same time, and so do the
    two stops. *)
Theorem native_starts_alike host port spawned parallelism bind n :
  native_h1_start host port spawned parallelism bind n
  = server_start parse_addr host port spawned (bind (native_workers parallelism)) n /\
  forall server, native_h1_stop server n = server_stop server n.
Proof.
  split; [|by intros [c|]]. unfold native_h1_start, server_start, server_address.
  destruct host as [h|]; [destruct (utf8 h); [|done]|]; cbn [mbind option_bind];
    (destruct (parse_addr _) as [addr|]; [|done]); (destruct spawned; [|done]); cbn [negb];
    by destruct (ready_recv _) as [[]|].
Qed.
End Native.
